(** * Repo-Visualizer: the dependency-graph extraction engine

    A shallow embedding of [src/lib/scan.ts] (the server-side scanner,
    [scanProject]), of the browser scanner of [src/lib/browser-scan.ts]
    ([scanDirectoryHandle]) and of the graph filters of [src/app/page.tsx],
    together with the properties of the extraction engine.

    Conventions of the embedding.
    - JavaScript strings are [string] (one [ascii] per code unit, so the
      code units are those below 256).
    - [Map] objects whose iteration order is observable ([nodes]) and the
      [edgeKeys] set are insertion-ordered lists; lookup-only maps are
      stdpp [gmap]s.
    - The file system is a finite tree of directories and regular files;
      [fs.stat], [fs.readFile] and [fs.readdir] resolve a path in that
      tree, component by component, a relative path from the working
      directory.
    - A value of type [number] is [Js.Number]; the counters of the scan
      are exact integers.
    - The Babel parser, the traversal of [@babel/traverse] as far as it
      throws, the [ignore] package, the hash function and the numerals of
      the numbers that are not small integers are parameters of the
      development. *)

From Stdlib Require Import Strings.Ascii Strings.String ZArith Lia.
From Stdlib Require Import Decimal DecimalString.
From stdpp Require Import gmap strings sorting.


(** ** JavaScript string primitives *)

Module Js.

(** [s.startsWith(p)] *)
Definition startsWith (s p : string) : bool := String.prefix p s.

(** [s.slice(n)] for [0 <= n] *)
Fixpoint drop (n : nat) (s : string) : string :=
  match n, s with
  | O, _ => s
  | S n', String _ r => drop n' r
  | S _, EmptyString => EmptyString
  end.

(** [s.slice(0, n)] *)
Fixpoint take (n : nat) (s : string) : string :=
  match n, s with
  | S n', String a r => String a (take n' r)
  | _, _ => EmptyString
  end.

(** [s.slice(a, b)] for [0 <= a], [0 <= b] *)
Definition slice (a b : nat) (s : string) : string := take (b - a) (drop a s).

(** [s.includes(sub)] *)
Fixpoint includes (s sub : string) : bool :=
  String.prefix sub s ||
  match s with
  | EmptyString => false
  | String _ r => includes r sub
  end.

(** [s.endsWith(p)] *)
Definition endsWith (s p : string) : bool :=
  String.eqb (drop (String.length s - String.length p) s) p
  && (String.length p <=? String.length s)%nat.

(** [s.split(c)] for a one-character separator *)
Fixpoint split (c : ascii) (s : string) : list string :=
  match s with
  | EmptyString => [EmptyString]
  | String a r =>
      if Ascii.eqb a c then EmptyString :: split c r
      else match split c r with
           | h :: t => String a h :: t
           | [] => [String a EmptyString]
           end
  end.

(** [s.split(c)[0]] *)
Definition splitHead (c : ascii) (s : string) : string :=
  match split c s with
  | h :: _ => h
  | [] => EmptyString
  end.

(** [parts.join(sep)] *)
Definition join (sep : string) (parts : list string) : string :=
  String.concat sep parts.

(** [s.split(/\r?\n/)] *)
Fixpoint splitLines (s : string) : list string :=
  match s with
  | EmptyString => [EmptyString]
  | String a r =>
      let continue_ :=
        match splitLines r with
        | h :: t => String a h :: t
        | [] => [String a EmptyString]
        end in
      if Ascii.eqb a "010"%char then EmptyString :: splitLines r
      else if Ascii.eqb a "013"%char then
        match r with
        | String b r' =>
            if Ascii.eqb b "010"%char then EmptyString :: splitLines r'
            else continue_
        | EmptyString => continue_
        end
      else continue_
  end.

(** White space and line terminators, as [trim] removes them and the
    class [\s] matches them: among the code units below 256 these are the
    five control characters, the space and the no-break space (160). *)
Definition isSpace (a : ascii) : bool :=
  match a with
  | "009" | "010" | "011" | "012" | "013" | " " | "160" => true
  | _ => false
  end%char.

Fixpoint trimStart (s : string) : string :=
  match s with
  | String a r => if isSpace a then trimStart r else s
  | EmptyString => EmptyString
  end.

Fixpoint trimEnd (s : string) : string :=
  match s with
  | EmptyString => EmptyString
  | String a r =>
      match trimEnd r with
      | EmptyString => if isSpace a then EmptyString else String a EmptyString
      | r' => String a r'
      end
  end.

(** [s.trim()] *)
Definition trim (s : string) : string := trimEnd (trimStart s).

(** [!s] on a string: only the empty string is falsy *)
Definition isEmpty (s : string) : bool :=
  match s with EmptyString => true | _ => false end.

(** [s.lastIndexOf(c)]; [None] stands for [-1] *)
Fixpoint lastIndexOf (c : ascii) (s : string) : option nat :=
  match s with
  | EmptyString => None
  | String a r =>
      match lastIndexOf c r with
      | Some i => Some (S i)
      | None => if Ascii.eqb a c then Some O else None
      end
  end.

(** A value of type [number]: [NaN], an infinity, or a finite value,
    given exactly as the fraction [numerator / denominator]. *)
Inductive Number :=
| NaN
| Infinity (negative : bool)
| Finite (numerator : Z) (denominator : positive).

Definition ofZ (n : Z) : Number := Finite n 1.

(** [count > x] for an integer [count] *)
Definition exceeds (count : Z) (x : Number) : bool :=
  match x with
  | NaN => false
  | Infinity negative => negative
  | Finite n d => (n <? count * Z.pos d)%Z
  end.

(** [`${n}`] for an integer [n] *)
Definition integerToString (n : Z) : string :=
  NilZero.string_of_int (Z.to_int n).

(** [`${x}`]: an integer of magnitude below [2^53] is printed in decimal;
    [other] stands for the numeral of any other finite value (a fraction,
    or an integer so large that digits are dropped or an exponent is
    used). *)
Definition numberToString (other : Z -> positive -> string) (x : Number)
  : string :=
  match x with
  | NaN => "NaN"
  | Infinity false => "Infinity"
  | Infinity true => "-Infinity"
  | Finite n d =>
      if ((n mod Z.pos d =? 0) && (Z.abs (n / Z.pos d) <? 2 ^ 53))%Z
      then integerToString (n / Z.pos d)
      else other n d
  end.

(** [set.has(x)] / [array.includes(x)] for strings *)
Definition has (xs : list string) (x : string) : bool :=
  existsb (String.eqb x) xs.

End Js.

(** ** Node's [path] module (POSIX flavour)

    The scanner runs on the server with [path.sep = "/"].  The functions
    below follow the algorithms of Node's [path.posix] on the level of
    path segments. *)

Module Path.

Definition segments (p : string) : list string := Js.split "/"%char p.

Definition isAbsolute (p : string) : bool := Js.startsWith p "/".

(** [normalizeString]: the stack [acc] holds the segments kept so far,
    the last one first. *)
Fixpoint normalizeSegs (allowAboveRoot : bool) (acc segs : list string)
  : list string :=
  match segs with
  | [] => acc
  | s :: rest =>
      if String.eqb s "" || String.eqb s "." then
        normalizeSegs allowAboveRoot acc rest
      else if String.eqb s ".." then
        match acc with
        | top :: below =>
            if String.eqb top ".." then
              normalizeSegs allowAboveRoot
                (if allowAboveRoot then ".." :: acc else acc) rest
            else normalizeSegs allowAboveRoot below rest
        | [] =>
            normalizeSegs allowAboveRoot
              (if allowAboveRoot then [".."] else []) rest
        end
      else normalizeSegs allowAboveRoot (s :: acc) rest
  end.

Definition normalizeString (p : string) (allowAboveRoot : bool) : string :=
  Js.join "/" (rev (normalizeSegs allowAboveRoot [] (segments p))).

(** [path.normalize] *)
Definition normalize (p : string) : string :=
  if Js.isEmpty p then "."
  else
    let isAbs := isAbsolute p in
    let trailing := Js.endsWith p "/" in
    let n := normalizeString p (negb isAbs) in
    if Js.isEmpty n then
      if isAbs then "/" else if trailing then "./" else "."
    else
      let n' := if trailing then n +:+ "/" else n in
      if isAbs then "/" +:+ n' else n'.

(** [path.join(...parts)] *)
Definition join (parts : list string) : string :=
  match List.filter (fun p => negb (Js.isEmpty p)) parts with
  | [] => "."
  | ps => normalize (Js.join "/" ps)
  end.

(** The right-to-left loop of [path.resolve]: stops at the first absolute
    argument. *)
Fixpoint resolveLoop (partsRev : list string) (resolved : string)
  : string * bool :=
  match partsRev with
  | [] => (resolved, false)
  | p :: rest =>
      if Js.isEmpty p then resolveLoop rest resolved
      else
        let r := p +:+ "/" +:+ resolved in
        if isAbsolute p then (r, true) else resolveLoop rest r
  end.

(** [path.resolve(...parts)] in a process whose working directory is
    [cwd] *)
Definition resolve (cwd : string) (parts : list string) : string :=
  let '(resolved, isAbs) := resolveLoop (rev parts ++ [cwd]) "" in
  let n := normalizeString resolved (negb isAbs) in
  if isAbs then "/" +:+ n
  else if Js.isEmpty n then "." else n.

Fixpoint stripCommon (xs ys : list string) : list string * list string :=
  match xs, ys with
  | x :: xs', y :: ys' =>
      if String.eqb x y then stripCommon xs' ys' else (xs, ys)
  | _, _ => (xs, ys)
  end.

Definition cleanSegments (p : string) : list string :=
  rev (normalizeSegs false [] (segments p)).

(** [path.relative(from, to)] *)
Definition relative (cwd from to : string) : string :=
  if String.eqb from to then ""
  else
    let from' := resolve cwd [from] in
    let to' := resolve cwd [to] in
    if String.eqb from' to' then ""
    else
      let '(up, down) := stripCommon (cleanSegments from') (cleanSegments to') in
      Js.join "/" (map (fun _ => "..") up ++ down).

Fixpoint dropTrailingEmpty (segsRev : list string) : list string :=
  match segsRev with
  | s :: rest => if Js.isEmpty s then dropTrailingEmpty rest else segsRev
  | [] => []
  end.

(** [path.basename(p)]: the last component, trailing slashes ignored *)
Definition basename (p : string) : string :=
  match dropTrailingEmpty (rev (segments p)) with
  | b :: _ => b
  | [] => ""
  end.

(** [path.dirname(p)] *)
Definition dirname (p : string) : string :=
  if Js.isEmpty p then "."
  else
    match dropTrailingEmpty (rev (segments p)) with
    | [] => "/"
    | _ :: beforeRev =>
        match rev beforeRev with
        | [] => "."
        | [ "" ] => "/"
        | [ ""; "" ] => "//"
        | before => Js.join "/" before
        end
    end.

(** [path.extname(p)]: from the last dot of the last component, unless
    that dot is its first character or the component is [".."]. *)
Definition extname (p : string) : string :=
  let b := basename p in
  match Js.lastIndexOf "."%char b with
  | None => ""
  | Some O => ""
  | Some i => if String.eqb b ".." then "" else Js.drop i b
  end.

End Path.

(** *** Absolute paths in normal form *)

(** A path segment: not empty, not [.] or [..], and without a slash. *)
Definition cleanSegment (s : string) : bool :=
  negb (Js.isEmpty s) && negb (String.eqb s ".") && negb (String.eqb s "..")
  && negb (Js.includes s "/").

(** The absolute path with the segments [segs]; the root directory has
    none. *)
Definition absolutePath (segs : list string) : string :=
  "/" +:+ Js.join "/" segs.

(** ** Regular expressions

    The two [ROUTE_REGEX] patterns are kept as regular expressions and run
    by a derivative-based matcher.  [Bol] and [Eol] are the anchors [^] and
    [$] (no multiline flag); [Dot] is [.], which excludes line
    terminators. *)

Module Regex.

Inductive t : Type :=
| Empty                       (* matches nothing *)
| Eps                         (* matches the empty string *)
| Bol                         (* ^ *)
| Eol                         (* $ *)
| Chr (c : ascii)
| Dot                         (* . *)
| Seq (r1 r2 : t)
| Alt (r1 r2 : t)
| Star (r : t).

Definition Opt (r : t) : t := Alt r Eps.          (* r? *)
Definition Plus (r : t) : t := Seq r (Star r).    (* r+ *)

Fixpoint Lit (s : string) : t :=
  match s with
  | EmptyString => Eps
  | String c r => Seq (Chr c) (Lit r)
  end.

Definition isLineTerminator (c : ascii) : bool :=
  Ascii.eqb c "010"%char || Ascii.eqb c "013"%char.

(** Does [r] match the empty string at a position that is the start of the
    input ([atStart]) and/or its end ([atEnd])? *)
Fixpoint nullable (atStart atEnd : bool) (r : t) : bool :=
  match r with
  | Empty => false
  | Eps => true
  | Bol => atStart
  | Eol => atEnd
  | Chr _ => false
  | Dot => false
  | Seq r1 r2 => nullable atStart atEnd r1 && nullable atStart atEnd r2
  | Alt r1 r2 => nullable atStart atEnd r1 || nullable atStart atEnd r2
  | Star _ => true
  end.

(** The derivative of [r] by the character [c] read at a position that is
    ([atStart]) or is not the start of the input. *)
Fixpoint deriv (atStart : bool) (c : ascii) (r : t) : t :=
  match r with
  | Empty | Eps | Bol | Eol => Empty
  | Chr c' => if Ascii.eqb c c' then Eps else Empty
  | Dot => if isLineTerminator c then Empty else Eps
  | Seq r1 r2 =>
      Alt (Seq (deriv atStart c r1) r2)
          (if nullable atStart false r1 then deriv atStart c r2 else Empty)
  | Alt r1 r2 => Alt (deriv atStart c r1) (deriv atStart c r2)
  | Star r1 => Seq (deriv atStart c r1) (Star r1)
  end.

(** [r] matches from the current position up to the end of the input. *)
Fixpoint matchesToEnd (atStart : bool) (r : t) (s : string) : bool :=
  match s with
  | EmptyString => nullable atStart true r
  | String c rest => matchesToEnd false (deriv atStart c r) rest
  end.

Fixpoint searchFrom (atStart : bool) (r : t) (s : string) : bool :=
  matchesToEnd atStart r s ||
  match s with
  | EmptyString => false
  | String _ rest => searchFrom false r rest
  end.

(** [re.test(s)] for a pattern [re] that ends with [$]: some suffix of
    [s] is matched up to the end of the input. *)
Definition test (r : t) (s : string) : bool := searchFrom true r s.

End Regex.

(** ** Constants of the scanner *)

Definition ALWAYS_IGNORE : list string :=
  [ ".git/"; "node_modules/"; ".next/"; "dist/"; "build/"; "out/";
    "coverage/"; ".turbo/"; ".cache/"; ".DS_Store" ].

Definition SCRIPT_EXTENSIONS : list string :=
  [ ".js"; ".jsx"; ".ts"; ".tsx"; ".mjs"; ".cjs" ].

Definition STYLE_EXTENSIONS : list string := [ ".css"; ".scss"; ".sass" ].

Definition SUPPORTED_EXTENSIONS : list string :=
  SCRIPT_EXTENSIONS ++ STYLE_EXTENSIONS.

Definition IMPORT_EXTENSIONS : list string :=
  [ ".ts"; ".tsx"; ".js"; ".jsx"; ".mjs"; ".cjs"; ".css"; ".scss"; ".sass" ].

Module ROUTE_REGEX.
Import Regex.

Definition scriptSuffix : Regex.t :=
  Seq (Chr ".") (Seq (Alt (Chr "t") (Chr "j")) (Seq (Chr "s") (Seq (Opt (Chr "x")) Eol))).

(** [/(^|\/)app\/(.*\/)?(page|route)\.(t|j)sx?$/] *)
Definition app : Regex.t :=
  Seq (Alt Bol (Chr "/"))
    (Seq (Lit "app/")
       (Seq (Opt (Seq (Star Dot) (Chr "/")))
          (Seq (Alt (Lit "page") (Lit "route")) scriptSuffix))).

(** [/(^|\/)pages\/.+\.(t|j)sx?$/] *)
Definition pages : Regex.t :=
  Seq (Alt Bol (Chr "/"))
    (Seq (Lit "pages/") (Seq (Plus Dot) scriptSuffix)).

End ROUTE_REGEX.

(** ** Graph data ([src/lib/types.ts]) *)

Module NodeType.
Inductive t := route | module | style | external | symbol.
End NodeType.

Module EdgeType.
Inductive t := static | dynamic | style | external | contains.

(** The edge type as it is interpolated into an edge key. *)
Definition toString (e : t) : string :=
  match e with
  | static => "static"
  | dynamic => "dynamic"
  | style => "style"
  | external => "external"
  | contains => "contains"
  end.

Definition eqb (a b : t) : bool :=
  match a, b with
  | static, static | dynamic, dynamic | style, style
  | external, external | contains, contains => true
  | _, _ => false
  end.
End EdgeType.

Record Loc := { line : Z; column : Z }.

Module GraphNode.
Record t := {
  id : string;
  path : string;
  label : string;
  type : NodeType.t;
  ignored : option bool;
  symbolKind : option string;
  parent : option string;
  displayName : option string
}.
End GraphNode.

Module GraphEdge.
Record t := {
  id : string;
  source : string;
  target : string;
  type : EdgeType.t;
  statement : option string;
  loc : option Loc
}.
End GraphEdge.

Module GraphData.
Record t := {
  root : string;
  nodes : list GraphNode.t;
  edges : list GraphEdge.t;
  totalFiles : Z;
  ignoredCount : Z;
  externalCount : Z
}.
End GraphData.

(** ** Path classification and ignore patterns *)

(** [posixPath]: [value.split(path.sep).join('/')]; with [path.sep = "/"]
    it returns its argument. *)
Definition posixPath (value : string) : string :=
  Js.join "/" (Js.split "/"%char value).

Definition normalizeGitignorePattern (dirRel rawPattern : string)
  : option string :=
  let pattern := Js.trim rawPattern in
  if Js.isEmpty pattern || Js.startsWith pattern "#" then None
  else
    let negated := Js.startsWith pattern "!" in
    let pattern := if negated then Js.drop 1 pattern else pattern in
    if Js.isEmpty pattern then None
    else
      let anchored := Js.startsWith pattern "/" in
      let pattern := if anchored then Js.drop 1 pattern else pattern in
      let hasSlash := Js.includes pattern "/" in
      let endsWithSlash := Js.endsWith pattern "/" in
      let base := dirRel in
      let prefixed :=
        if negb (Js.isEmpty base) then
          if anchored || hasSlash then Path.join [base; pattern]
          else Path.join [base; "**"; pattern]
        else if negb anchored && negb hasSlash then Path.join ["**"; pattern]
        else pattern in
      let prefixed :=
        if endsWithSlash && negb (Js.endsWith prefixed "/")
        then prefixed +:+ "/" else prefixed in
      Some (if negated then "!" +:+ prefixed else prefixed).

Definition isSupportedFile (filePath : string) : bool :=
  Js.has SUPPORTED_EXTENSIONS (Path.extname filePath).

Definition nodeTypeFromPath (relPath : string) : NodeType.t :=
  if String.eqb relPath "__external__" then NodeType.external
  else if Regex.test ROUTE_REGEX.app relPath
          || Regex.test ROUTE_REGEX.pages relPath then
    if (Js.includes relPath "/pages/" || Js.startsWith relPath "pages/")
       && Js.startsWith (Path.basename relPath) "_"
    then NodeType.module
    else NodeType.route
  else if Js.has STYLE_EXTENSIONS (Path.extname relPath) then NodeType.style
  else NodeType.module.

(** ** The file system *)

#[warnings="-register-all"]
Inductive FsNode : Type :=
| FsFile (content : option string)        (* [None]: the read is rejected *)
| FsDir (entries : list (string * FsNode)).

Module Fs.

Definition isDirectory (n : FsNode) : bool :=
  match n with FsDir _ => true | FsFile _ => false end.

Definition isFile (n : FsNode) : bool :=
  match n with FsFile _ => true | FsDir _ => false end.

Fixpoint lookupEntry (name : string) (entries : list (string * FsNode))
  : option FsNode :=
  match entries with
  | [] => None
  | (n, child) :: rest =>
      if String.eqb n name then Some child else lookupEntry name rest
  end.

Fixpoint lookup (n : FsNode) (segs : list string) : option FsNode :=
  match segs with
  | [] => Some n
  | s :: rest =>
      match n with
      | FsDir entries =>
          match lookupEntry s entries with
          | Some child => lookup child rest
          | None => None
          end
      | FsFile _ => None
      end
  end.

(** Path resolution: the components [segs] are followed from the node
    [current], whose ancestors are [above] (the nearest first).  Every
    component is resolved in a directory, also the empty component that a
    trailing slash leaves and the component [.]: behind a regular file
    the resolution fails ([ENOTDIR]).  The parent of the root is the
    root. *)
Fixpoint resolvePath (above : list FsNode) (current : FsNode)
  (segs : list string) : option FsNode :=
  match segs with
  | [] => Some current
  | s :: rest =>
      match current with
      | FsFile _ => None
      | FsDir entries =>
          if Js.isEmpty s || String.eqb s "." then
            resolvePath above current rest
          else if String.eqb s ".." then
            match above with
            | parent :: above' => resolvePath above' parent rest
            | [] => resolvePath [] current rest
            end
          else
            match lookupEntry s entries with
            | Some child => resolvePath (current :: above) child rest
            | None => None
            end
      end
  end.

(** [fs.stat(p).catch(() => null)] in the tree [fs] mounted at ["/"],
    for a process whose working directory is [cwd]: an absolute path is
    resolved from the root, any other path from the working directory. *)
Definition stat (fs : FsNode) (cwd p : string) : option FsNode :=
  if Js.isEmpty p then None
  else if Path.isAbsolute p then resolvePath [] fs (Path.segments p)
  else resolvePath [] fs (Path.segments cwd ++ Path.segments p).

(** [fs.stat(p).then(v => v.isFile()).catch(() => false)] *)
Definition fileExists (fs : FsNode) (cwd p : string) : bool :=
  match stat fs cwd p with
  | Some n => isFile n
  | None => false
  end.

(** [fs.readFile(p, 'utf8').catch(() => null)] *)
Definition readFile (fs : FsNode) (cwd p : string) : option string :=
  match stat fs cwd p with
  | Some (FsFile content) => content
  | _ => None
  end.

End Fs.

(** A file, or a directory, is found at the segments [segs]. *)
Definition isFileAt (fs : FsNode) (segs : list string) : bool :=
  match Fs.lookup fs segs with
  | Some n => Fs.isFile n
  | None => false
  end.

Definition isDirectoryAt (fs : FsNode) (segs : list string) : bool :=
  match Fs.lookup fs segs with
  | Some n => Fs.isDirectory n
  | None => false
  end.

(** Paths made of clean segments. *)
Definition cleanSegments (segs : list string) : Prop :=
  Forall (fun s => cleanSegment s = true) segs.

(** [code] is truthy: a string that was read and is not empty *)
Definition truthy (code : option string) : option string :=
  match code with
  | Some c => if Js.isEmpty c then None else Some c
  | None => None
  end.

(** ** Module resolution (server) *)

Module Resolution.
Record t := { external : bool; resolved : option string }.
End Resolution.

Fixpoint firstExisting (fs : FsNode) (cwd : string)
  (candidates : list string)
  : option string :=
  match candidates with
  | [] => None
  | c :: rest => if Fs.fileExists fs cwd c then Some c
      else firstExisting fs cwd rest
  end.

Definition resolveWithExtensions (fs : FsNode) (cwd : string)
  (basePath : option string)
  : option string :=
  match truthy basePath with
  | None => None
  | Some basePath =>
      let stat := Fs.stat fs cwd basePath in
      if match stat with Some n => Fs.isFile n | None => false end
      then Some basePath
      else
        let fromIndex :=
          if match stat with Some n => Fs.isDirectory n | None => false end
          then firstExisting fs cwd
                 (map (fun ext => Path.join [basePath; "index" +:+ ext])
                      IMPORT_EXTENSIONS)
          else None in
        match fromIndex with
        | Some indexPath => Some indexPath
        | None =>
            if Js.isEmpty (Path.extname basePath) then
              firstExisting fs cwd
                (map (fun ext => basePath +:+ ext) IMPORT_EXTENSIONS)
            else None
        end
  end.

Definition resolveImport (fs : FsNode) (cwd root fromFile specifier : string)
  : option Resolution.t :=
  if Js.isEmpty specifier || Js.startsWith specifier "http" then None
  else
    let cleanSpecifier :=
      Js.splitHead "#" (Js.splitHead "?" specifier) in
    let targetPath :=
      if Js.startsWith cleanSpecifier "@/" then
        Some (Path.join [root; Js.drop 2 cleanSpecifier])
      else if Js.startsWith cleanSpecifier "/" then
        Some (Path.join [root; Js.drop 1 cleanSpecifier])
      else if Js.startsWith cleanSpecifier "." then
        Some (Path.resolve cwd [Path.dirname fromFile; cleanSpecifier])
      else None in
    match targetPath with
    | None => Some {| Resolution.external := true; Resolution.resolved := None |}
    | Some targetPath =>
        match resolveWithExtensions fs cwd (Some targetPath) with
        | None =>
            Some {| Resolution.external := true; Resolution.resolved := None |}
        | Some resolved =>
            if negb (Js.startsWith resolved root) then
              Some {| Resolution.external := true; Resolution.resolved := None |}
            else
              Some {| Resolution.external := false;
                      Resolution.resolved := Some resolved |}
        end
    end.

(** ** The syntax tree handed over by the parser

    The part of the Babel AST that the two visitors of the scanner look at.
    Every other node kind is an [Other] node, which only carries its
    children. *)

Module Ast.

(** [node.start], [node.end] and [node.loc.start] *)
Record Base := {
  start : option nat;
  end_ : option nat;
  loc : option Loc
}.

(** [Identifier | StringLiteral] in a module specifier *)
Inductive ModuleExportName :=
| MIdentifier (name : string)
| MStringLiteral (value : string).

Definition nameOf (m : ModuleExportName) : string :=
  match m with
  | MIdentifier name => name
  | MStringLiteral value => value
  end.

Inductive ImportSpec :=
| ImportDefaultSpecifier (local : string)
| ImportSpecifier (imported : ModuleExportName) (local : string)
| ImportNamespaceSpecifier (local : string).

Inductive ExportSpec :=
| ExportSpecifier (local exported : ModuleExportName)
| ExportDefaultSpecifier (exported : string)
| ExportNamespaceSpecifier (exported : ModuleExportName).

#[warnings="-register-all"]
Inductive Node : Type :=
| File (program : Node)
| Program (body : list Node)
| ImportDeclaration (base : Base) (source : string)
    (specifiers : list ImportSpec)
| ExportAllDeclaration (base : Base) (source : option string)
| ExportNamedDeclaration (base : Base) (declaration : option Node)
    (specifiers : list ExportSpec) (source : option string)
| ExportDefaultDeclaration (base : Base) (declaration : Node)
| CallExpression (base : Base) (callee : Node) (arguments : list Node)
| Import
| Identifier (name : string)
| StringLiteral (value : string)
| FunctionDeclaration (id : option string) (body : list Node)
| ClassDeclaration (id : option string) (body : list Node)
| VariableDeclaration (kind : string) (declarations : list Node)
| VariableDeclarator (id : Node) (init : option Node)
| TSInterfaceDeclaration (id : string) (children : list Node)
| TSTypeAliasDeclaration (id : string) (children : list Node)
| TSEnumDeclaration (id : string) (members : list Node)
| Other (type : string) (children : list Node).

(** [node.type] *)
Definition typeOf (n : Node) : string :=
  match n with
  | File _ => "File"
  | Program _ => "Program"
  | ImportDeclaration _ _ _ => "ImportDeclaration"
  | ExportAllDeclaration _ _ => "ExportAllDeclaration"
  | ExportNamedDeclaration _ _ _ _ => "ExportNamedDeclaration"
  | ExportDefaultDeclaration _ _ => "ExportDefaultDeclaration"
  | CallExpression _ _ _ => "CallExpression"
  | Import => "Import"
  | Identifier _ => "Identifier"
  | StringLiteral _ => "StringLiteral"
  | FunctionDeclaration _ _ => "FunctionDeclaration"
  | ClassDeclaration _ _ => "ClassDeclaration"
  | VariableDeclaration _ _ => "VariableDeclaration"
  | VariableDeclarator _ _ => "VariableDeclarator"
  | TSInterfaceDeclaration _ _ => "TSInterfaceDeclaration"
  | TSTypeAliasDeclaration _ _ => "TSTypeAliasDeclaration"
  | TSEnumDeclaration _ _ => "TSEnumDeclaration"
  | Other type _ => type
  end.

(** [traverse(ast, visitor)] enters the nodes in depth-first pre-order;
    [preorder parent n] lists them, each with the type of its parent
    ([pathNode.parent.type]). *)
Fixpoint preorder (parent : string) (n : Node) : list (string * Node) :=
  (parent, n) ::
  match n with
  | File program => preorder "File" program
  | Program body => flat_map (preorder "Program") body
  | ExportNamedDeclaration _ (Some d) _ _ =>
      preorder "ExportNamedDeclaration" d
  | ExportDefaultDeclaration _ d => preorder "ExportDefaultDeclaration" d
  | CallExpression _ callee arguments =>
      preorder "CallExpression" callee
      ++ flat_map (preorder "CallExpression") arguments
  | FunctionDeclaration _ body => flat_map (preorder "FunctionDeclaration") body
  | ClassDeclaration _ body => flat_map (preorder "ClassDeclaration") body
  | VariableDeclaration _ declarations =>
      flat_map (preorder "VariableDeclaration") declarations
  | VariableDeclarator id init =>
      preorder "VariableDeclarator" id
      ++ match init with
         | Some e => preorder "VariableDeclarator" e
         | None => []
         end
  | TSInterfaceDeclaration _ children =>
      flat_map (preorder "TSInterfaceDeclaration") children
  | TSTypeAliasDeclaration _ children =>
      flat_map (preorder "TSTypeAliasDeclaration") children
  | TSEnumDeclaration _ members =>
      flat_map (preorder "TSEnumDeclaration") members
  | Other type children => flat_map (preorder type) children
  | _ => []
  end.

End Ast.

(** ** Dependency extraction *)

Module ImportBinding.
Inductive Kind := default | named | namespace.
Record t := { kind : Kind; imported : string; local : string }.
End ImportBinding.

Module Dependency.
Record t := {
  specifier : string;
  type : EdgeType.t;
  statement : option string;
  loc : option Loc;
  imports : option (list ImportBinding.t)
}.
End Dependency.

Module SymbolInfo.
Record t := { name : string; kind : string; displayName : option string }.
End SymbolInfo.

(** [code.slice(node.start ?? 0, node.end ?? 0)] *)
Definition sliceNode (code : string) (b : Ast.Base) : string :=
  Js.slice (default 0 (Ast.start b)) (default 0 (Ast.end_ b)) code.

Definition importBindingOf (s : Ast.ImportSpec) : ImportBinding.t :=
  match s with
  | Ast.ImportDefaultSpecifier local =>
      {| ImportBinding.kind := ImportBinding.default;
         ImportBinding.imported := "default";
         ImportBinding.local := local |}
  | Ast.ImportSpecifier imported local =>
      {| ImportBinding.kind := ImportBinding.named;
         ImportBinding.imported := Ast.nameOf imported;
         ImportBinding.local := local |}
  | Ast.ImportNamespaceSpecifier local =>
      {| ImportBinding.kind := ImportBinding.namespace;
         ImportBinding.imported := "*";
         ImportBinding.local := local |}
  end.

Definition mkDependency (code : string) (b : Ast.Base) (specifier : string)
  (type : EdgeType.t) (imports : option (list ImportBinding.t))
  : Dependency.t :=
  {| Dependency.specifier := specifier;
     Dependency.type := type;
     Dependency.statement := Some (sliceNode code b);
     Dependency.loc := Ast.loc b;
     Dependency.imports := imports |}.

(** [arguments[0]] is a string literal *)
Definition firstStringLiteral (arguments : list Ast.Node) : option string :=
  match arguments with
  | Ast.StringLiteral value :: _ => Some value
  | _ => None
  end.

(** The classification of a call by its callee: [import(...)] is
    [dynamic], [require(...)] is [static], anything else is not a
    dependency. *)
Definition calleeKind (callee : Ast.Node) : option EdgeType.t :=
  match callee with
  | Ast.Import => Some EdgeType.dynamic
  | Ast.Identifier name =>
      if String.eqb name "require" then Some EdgeType.static else None
  | _ => None
  end.

(** The visitor of [extractDependencies]: the records pushed on entering
    one node. *)
Definition visitDependency (code : string) (n : Ast.Node)
  : list Dependency.t :=
  match n with
  | Ast.ImportDeclaration b source specifiers =>
      let imports := map importBindingOf specifiers in
      [ mkDependency code b source EdgeType.static
          (match imports with [] => None | _ => Some imports end) ]
  | Ast.ExportAllDeclaration b (Some source) =>
      [ mkDependency code b source EdgeType.static None ]
  | Ast.ExportNamedDeclaration b _ _ (Some source) =>
      [ mkDependency code b source EdgeType.static None ]
  | Ast.CallExpression b callee arguments =>
      (match callee with
       | Ast.Import =>
           match firstStringLiteral arguments with
           | Some value => [ mkDependency code b value EdgeType.dynamic None ]
           | None => []
           end
       | _ => []
       end)
      ++
      (match callee with
       | Ast.Identifier name =>
           if String.eqb name "require" then
             match firstStringLiteral arguments with
             | Some value => [ mkDependency code b value EdgeType.static None ]
             | None => []
             end
           else []
       | _ => []
       end)
  | _ => []
  end.

(** *** Style files

    The pattern of the source is: the word @import, one or more white-space
    characters, optionally [url(], a quote character (single or double), one
    or more characters that are not quotes (the captured specifier), and a
    quote character.  The flag [g] makes [exec] resume behind each match. *)

Module StyleImport.

Definition isQuote (a : ascii) : bool :=
  Ascii.eqb a "039"%char || Ascii.eqb a "034"%char.

Fixpoint stripPrefix (p s : string) : option string :=
  match p, s with
  | EmptyString, _ => Some s
  | String a p', String b s' =>
      if Ascii.eqb a b then stripPrefix p' s' else None
  | String _ _, EmptyString => None
  end.

(** the longest prefix of characters satisfying [f], and the rest *)
Fixpoint span (f : ascii -> bool) (s : string) : string * string :=
  match s with
  | String a r =>
      if f a then let '(run, rest) := span f r in (String a run, rest)
      else (EmptyString, s)
  | EmptyString => (EmptyString, EmptyString)
  end.

(** One attempt of the pattern at the start of [s]:
    [Some (match[1], match[0])]. *)
Definition matchAt (s : string) : option (string * string) :=
  match stripPrefix "@import" s with
  | None => None
  | Some r1 =>
      let '(spaces, r2) := span Js.isSpace r1 in
      if Js.isEmpty spaces then None
      else
        let '(url, r3) :=
          match stripPrefix "url(" r2 with
          | Some r => ("url(", r)
          | None => ("", r2)
          end in
        match r3 with
        | String q r4 =>
            if isQuote q then
              let '(body, r5) := span (fun a => negb (isQuote a)) r4 in
              if Js.isEmpty body then None
              else
                match r5 with
                | String q' _ =>
                    Some (body,
                          "@import" +:+ spaces +:+ url
                            +:+ String q (body +:+ String q' ""))
                | EmptyString => None
                end
            else None
        | EmptyString => None
        end
  end.

(** The [while ((match = regex.exec(code)))] loop: after a match the
    search resumes behind it ([skip] characters are still to be passed). *)
Fixpoint matches (skip : nat) (s : string) : list (string * string) :=
  match s with
  | EmptyString => []
  | String _ rest =>
      match skip with
      | S k => matches k rest
      | O =>
          match matchAt s with
          | Some (spec, whole) =>
              (spec, whole) :: matches (String.length whole - 1) rest
          | None => matches 0 rest
          end
      end
  end.

End StyleImport.

Module ScanGranularity.
Inductive t := file | symbol.
End ScanGranularity.

(** A [for ... of] loop whose body can throw: the state after the loop,
    or the message of the first error. *)
Fixpoint forEach {S A : Type} (body : S -> A -> string + S)
  (items : list A) (st : S) : string + S :=
  match items with
  | [] => inr st
  | item :: rest =>
      match body st item with
      | inl err => inl err
      | inr st => forEach body rest st
      end
  end.

Section Scanner.

(** [parse(code, {...})] of [@babel/parser]; [None] when it throws. *)
Variable parse : string -> option Ast.Node.

(** [traverse(ast, visitor)] of [@babel/traverse] throws on some trees
    that the parser accepts (a declaration that is made twice, for one):
    [traverseError ast] is the message of that error, [None] when the
    traversal runs to its end. *)
Variable traverseError : Ast.Node -> option string.

(** [ignore().add(patterns).ignores(relPath)] of the [ignore] package:
    the answer, or the message of the error that [ignores] throws when it
    refuses the path. *)
Variable ignores : list string -> string -> string + bool.

(** [hashId]: the SHA-1 hex digest of the key. *)
Variable hashId : string -> string.

(** The numeral of a finite number that is not an integer of magnitude
    below [2^53]. *)
Variable formatNumber : Z -> positive -> string.

(** The file system, mounted at ["/"], and the working directory of the
    process. *)
Variable fs : FsNode.
Variable cwd : string.

(** The result is the list returned, or the message of the error thrown:
    the call of [traverse] is not inside the [try]. *)
Definition extractDependencies (filePath code : string)
  : string + list Dependency.t :=
  let styleDeps :=
    if Js.has STYLE_EXTENSIONS (Path.extname filePath) then
      map (fun m : string * string =>
             {| Dependency.specifier := fst m;
                Dependency.type := EdgeType.style;
                Dependency.statement := Some (snd m);
                Dependency.loc := None;
                Dependency.imports := None |})
          (StyleImport.matches 0 code)
    else [] in
  if Js.has SCRIPT_EXTENSIONS (Path.extname filePath) then
    match parse code with
    | None => inr []
    | Some ast =>
        match traverseError ast with
        | Some err => inl err
        | None =>
            inr (flat_map (fun pn => visitDependency code (snd pn))
                          (Ast.preorder "" ast)
                 ++ styleDeps)
        end
    end
  else inr styleDeps.

(** *** Symbol extraction *)

Definition declaratorKinds (kind : string) (declarations : list Ast.Node)
  (localKinds : gmap string string) : gmap string string :=
  fold_left
    (fun m d =>
       match d with
       | Ast.VariableDeclarator (Ast.Identifier name) _ => <[name := kind]> m
       | _ => m
       end)
    declarations localKinds.

(** The first traversal of [extractSymbols]: kinds of the declarations
    whose parent is the program. *)
Definition visitLocalKind (localKinds : gmap string string)
  (pn : string * Ast.Node) : gmap string string :=
  if negb (String.eqb (fst pn) "Program") then localKinds
  else
    match snd pn with
    | Ast.FunctionDeclaration (Some id) _ => <[id := "function"]> localKinds
    | Ast.ClassDeclaration (Some id) _ => <[id := "class"]> localKinds
    | Ast.VariableDeclaration kind declarations =>
        declaratorKinds kind declarations localKinds
    | Ast.TSInterfaceDeclaration id _ => <[id := "interface"]> localKinds
    | Ast.TSTypeAliasDeclaration id _ => <[id := "type"]> localKinds
    | Ast.TSEnumDeclaration id _ => <[id := "enum"]> localKinds
    | _ => localKinds
    end.

(** [symbols] and [seen] *)
Definition SymbolAcc : Type := list SymbolInfo.t * gset string.

Definition addSymbol (acc : SymbolAcc) (symbol : SymbolInfo.t) : SymbolAcc :=
  if decide (SymbolInfo.name symbol ∈ snd acc) then acc
  else (fst acc ++ [symbol], {[ SymbolInfo.name symbol ]} ∪ snd acc).

Definition mkSymbol (name kind : string) (displayName : option string) :=
  {| SymbolInfo.name := name;
     SymbolInfo.kind := kind;
     SymbolInfo.displayName := displayName |}.

(** The second traversal of [extractSymbols]. *)
Definition visitExport (localKinds : gmap string string) (acc : SymbolAcc)
  (pn : string * Ast.Node) : SymbolAcc :=
  match snd pn with
  | Ast.ExportNamedDeclaration _ (Some decl) _ _ =>
      match decl with
      | Ast.FunctionDeclaration (Some id) _ =>
          addSymbol acc (mkSymbol id "function" None)
      | Ast.ClassDeclaration (Some id) _ =>
          addSymbol acc (mkSymbol id "class" None)
      | Ast.VariableDeclaration kind declarations =>
          fold_left
            (fun acc item =>
               match item with
               | Ast.VariableDeclarator (Ast.Identifier name) _ =>
                   addSymbol acc (mkSymbol name kind None)
               | _ => acc
               end)
            declarations acc
      | Ast.TSInterfaceDeclaration id _ =>
          addSymbol acc (mkSymbol id "interface" None)
      | Ast.TSTypeAliasDeclaration id _ =>
          addSymbol acc (mkSymbol id "type" None)
      | Ast.TSEnumDeclaration id _ =>
          addSymbol acc (mkSymbol id "enum" None)
      | _ => acc
      end
  | Ast.ExportNamedDeclaration _ None specifiers _ =>
      fold_left
        (fun acc specifier =>
           match specifier with
           | Ast.ExportSpecifier local exported =>
               addSymbol acc
                 (mkSymbol (Ast.nameOf exported)
                    (default "export" (localKinds !! Ast.nameOf local))
                    None)
           | _ => acc
           end)
        specifiers acc
  | Ast.ExportDefaultDeclaration _ decl =>
      match decl with
      | Ast.FunctionDeclaration id _ =>
          addSymbol acc (mkSymbol "default" "function" id)
      | Ast.ClassDeclaration id _ =>
          addSymbol acc (mkSymbol "default" "class" id)
      | Ast.Identifier name =>
          addSymbol acc
            (mkSymbol "default" (default "export" (localKinds !! name))
               (Some name))
      | _ => addSymbol acc (mkSymbol "default" "export" None)
      end
  | _ => acc
  end.

(** The result is the list returned, or the message of the error that
    the first call of [traverse] throws. *)
Definition extractSymbols (filePath code : string)
  : string + list SymbolInfo.t :=
  if negb (Js.has SCRIPT_EXTENSIONS (Path.extname filePath)) then inr []
  else
    match parse code with
    | None => inr []
    | Some ast =>
        match traverseError ast with
        | Some err => inl err
        | None =>
            let visited := Ast.preorder "" ast in
            let localKinds := fold_left visitLocalKind visited ∅ in
            inr (fst (fold_left (visitExport localKinds) visited ([], ∅)))
        end
    end.

(** ** The scan *)

Record ScanOptions := {
  root : string;
  maxFiles : Js.Number;
  includeExternal : bool;
  granularity : option ScanGranularity.t
}.

(** The mutable variables of one [scanProject] call.  [nodes] is the
    [Map] from node id to node, in insertion order; [edgeKeys] the [Set]
    of edge keys, in insertion order. *)
Record ScanState := {
  nodes : list (string * GraphNode.t);
  edges : list GraphEdge.t;
  edgeKeys : list string;
  ignoredNodes : list GraphNode.t;
  symbolMap : gmap string (gmap string SymbolInfo.t);
  fileContents : gmap string string;
  totalFiles : Z;
  ignoredCount : Z;
  externalCount : Z;
  filesToParse : list string
}.

Definition initialState : ScanState :=
  {| nodes := []; edges := []; edgeKeys := []; ignoredNodes := [];
     symbolMap := ∅; fileContents := ∅;
     totalFiles := 0; ignoredCount := 0; externalCount := 0;
     filesToParse := [] |}.

(** [nodes.has(key)] *)
Definition nodesHas (st : ScanState) (key : string) : bool :=
  Js.has (map fst (nodes st)) key.

(** [map.set(key, value)] on an insertion-ordered map: an existing key
    keeps its place. *)
Fixpoint mapSet {V : Type} (key : string) (value : V)
  (m : list (string * V)) : list (string * V) :=
  match m with
  | [] => [(key, value)]
  | (k, v) :: rest =>
      if String.eqb k key then (k, value) :: rest
      else (k, v) :: mapSet key value rest
  end.

Definition setNode (key : string) (value : GraphNode.t) (st : ScanState)
  : ScanState :=
  {| nodes := mapSet key value (nodes st);
     edges := edges st; edgeKeys := edgeKeys st;
     ignoredNodes := ignoredNodes st; symbolMap := symbolMap st;
     fileContents := fileContents st; totalFiles := totalFiles st;
     ignoredCount := ignoredCount st; externalCount := externalCount st;
     filesToParse := filesToParse st |}.

(** [edgeKeys.add(edgeKey); edges.push(edge)] *)
Definition pushEdge (edgeKey : string) (edge : GraphEdge.t) (st : ScanState)
  : ScanState :=
  {| nodes := nodes st;
     edges := edges st ++ [edge]; edgeKeys := edgeKeys st ++ [edgeKey];
     ignoredNodes := ignoredNodes st; symbolMap := symbolMap st;
     fileContents := fileContents st; totalFiles := totalFiles st;
     ignoredCount := ignoredCount st; externalCount := externalCount st;
     filesToParse := filesToParse st |}.

Definition pushIgnoredNode (n : GraphNode.t) (st : ScanState) : ScanState :=
  {| nodes := nodes st; edges := edges st; edgeKeys := edgeKeys st;
     ignoredNodes := ignoredNodes st ++ [n]; symbolMap := symbolMap st;
     fileContents := fileContents st; totalFiles := totalFiles st;
     ignoredCount := ignoredCount st; externalCount := externalCount st;
     filesToParse := filesToParse st |}.

Definition pushFileToParse (fullPath : string) (st : ScanState) : ScanState :=
  {| nodes := nodes st; edges := edges st; edgeKeys := edgeKeys st;
     ignoredNodes := ignoredNodes st; symbolMap := symbolMap st;
     fileContents := fileContents st; totalFiles := totalFiles st;
     ignoredCount := ignoredCount st; externalCount := externalCount st;
     filesToParse := filesToParse st ++ [fullPath] |}.

Definition setCounters (total ignoredC externalC : Z) (st : ScanState)
  : ScanState :=
  {| nodes := nodes st; edges := edges st; edgeKeys := edgeKeys st;
     ignoredNodes := ignoredNodes st; symbolMap := symbolMap st;
     fileContents := fileContents st; totalFiles := total;
     ignoredCount := ignoredC; externalCount := externalC;
     filesToParse := filesToParse st |}.

Definition incTotalFiles (st : ScanState) : ScanState :=
  setCounters (totalFiles st + 1) (ignoredCount st) (externalCount st) st.
Definition incIgnoredCount (st : ScanState) : ScanState :=
  setCounters (totalFiles st) (ignoredCount st + 1) (externalCount st) st.
Definition incExternalCount (st : ScanState) : ScanState :=
  setCounters (totalFiles st) (ignoredCount st) (externalCount st + 1) st.

Definition setSymbolEntry (relPath : string) (entry : gmap string SymbolInfo.t)
  (st : ScanState) : ScanState :=
  {| nodes := nodes st; edges := edges st; edgeKeys := edgeKeys st;
     ignoredNodes := ignoredNodes st;
     symbolMap := <[relPath := entry]> (symbolMap st);
     fileContents := fileContents st; totalFiles := totalFiles st;
     ignoredCount := ignoredCount st; externalCount := externalCount st;
     filesToParse := filesToParse st |}.

Definition setFileContent (fullPath code : string) (st : ScanState)
  : ScanState :=
  {| nodes := nodes st; edges := edges st; edgeKeys := edgeKeys st;
     ignoredNodes := ignoredNodes st; symbolMap := symbolMap st;
     fileContents := <[fullPath := code]> (fileContents st);
     totalFiles := totalFiles st;
     ignoredCount := ignoredCount st; externalCount := externalCount st;
     filesToParse := filesToParse st |}.

(** The node of a scanned, ignored or imported file. *)
Definition fileNode (relPath : string) (ignored : option bool)
  : GraphNode.t :=
  {| GraphNode.id := relPath;
     GraphNode.path := relPath;
     GraphNode.label := Path.basename relPath;
     GraphNode.type := nodeTypeFromPath relPath;
     GraphNode.ignored := ignored;
     GraphNode.symbolKind := None;
     GraphNode.parent := None;
     GraphNode.displayName := None |}.

Definition capacityMessage (maxFiles : Js.Number) : string :=
  "File limit exceeded (" +:+ Js.numberToString formatNumber maxFiles
    +:+ "). Adjust the max files setting to continue.".

(** The patterns in force in directory [dir]: the inherited ones followed
    by those of its own [.gitignore]. *)
Definition combinedPatternsOf (root dir : string) (patterns : list string)
  : list string :=
  let relDir := posixPath (Path.relative cwd root dir) in
  match truthy (Fs.readFile fs cwd (Path.join [dir; ".gitignore"])) with
  | Some gitignoreContent =>
      patterns ++
      List.filter (fun value => negb (Js.isEmpty value))
        (omap (normalizeGitignorePattern relDir)
              (Js.splitLines gitignoreContent))
  | None => patterns
  end.

Section Walk.

Variable options : ScanOptions.
(** [path.resolve(options.root)] *)
Variable rootPath : string.

(** The loop [for (const entry of entries)] of [walk(dir, patterns)];
    [walkDir] is the recursive call.  The result is the message of the
    error thrown, or the state after the loop. *)
Section Entries.

Variable walkDir :
  string -> list string -> FsNode -> ScanState -> string + ScanState.
Variable dir : string.
Variable combinedPatterns : list string.

Fixpoint walkEntries (entries : list (string * FsNode)) (st : ScanState)
  {struct entries} : string + ScanState :=
  match entries with
  | [] => inr st
  | (name, entry) :: rest =>
      let fullPath := Path.join [dir; name] in
      let relPath := posixPath (Path.relative cwd rootPath fullPath) in
      if Js.isEmpty relPath then walkEntries rest st
      else
        match ignores combinedPatterns relPath with
        | inl err => inl err
        | inr true =>
            let st := incIgnoredCount st in
            let st :=
              if negb (Fs.isDirectory entry) && isSupportedFile fullPath
              then pushIgnoredNode (fileNode relPath (Some true)) st
              else st in
            walkEntries rest st
        | inr false =>
            if Fs.isDirectory entry then
              match walkDir fullPath combinedPatterns entry st with
              | inl err => inl err
              | inr st => walkEntries rest st
              end
            else
              let st := incTotalFiles st in
              if Js.exceeds (totalFiles st) (maxFiles options) then
                inl (capacityMessage (maxFiles options))
              else if negb (isSupportedFile fullPath) then
                walkEntries rest st
              else
                walkEntries rest
                  (pushFileToParse fullPath
                     (setNode relPath (fileNode relPath None) st))
        end
  end.

End Entries.

(** [walk(dir, patterns)]; [node] is what [dir] is in the file system:
    [fs.readdir] lists the entries of a directory in their order and
    yields nothing on anything else. *)
Fixpoint walk (dir : string) (patterns : list string) (node : FsNode)
  (st : ScanState) {struct node} : string + ScanState :=
  match node with
  | FsFile _ => inr st
  | FsDir entries =>
      walkEntries walk dir (combinedPatternsOf rootPath dir patterns)
        entries st
  end.

End Walk.

Section Passes.

Variable options : ScanOptions.
Variable rootPath : string.

(** [options.granularity ?? 'file'] is ['symbol'] *)
Definition symbolMode : bool :=
  match granularity options with
  | Some ScanGranularity.symbol => true
  | _ => false
  end.

Definition symbolNode (relPath : string) (symbol : SymbolInfo.t)
  : GraphNode.t :=
  {| GraphNode.id := relPath +:+ "::" +:+ SymbolInfo.name symbol;
     GraphNode.path := relPath +:+ "#" +:+ SymbolInfo.name symbol;
     GraphNode.label := SymbolInfo.name symbol;
     GraphNode.type := NodeType.symbol;
     GraphNode.ignored := None;
     GraphNode.symbolKind := Some (SymbolInfo.kind symbol);
     GraphNode.parent := Some relPath;
     GraphNode.displayName := SymbolInfo.displayName symbol |}.

(** One iteration of [for (const symbol of symbols)]. *)
Definition addSymbolNode (relPath : string)
  (acc : gmap string SymbolInfo.t * ScanState) (symbol : SymbolInfo.t)
  : gmap string SymbolInfo.t * ScanState :=
  let '(entry, st) := acc in
  let symbolId := relPath +:+ "::" +:+ SymbolInfo.name symbol in
  let entry := <[SymbolInfo.name symbol := symbol]> entry in
  let st :=
    if negb (nodesHas st symbolId)
    then setNode symbolId (symbolNode relPath symbol) st
    else st in
  let containsKey := relPath +:+ "|" +:+ symbolId +:+ "|contains" in
  let st :=
    if negb (Js.has (edgeKeys st) containsKey) then
      pushEdge containsKey
        {| GraphEdge.id := hashId containsKey;
           GraphEdge.source := relPath;
           GraphEdge.target := symbolId;
           GraphEdge.type := EdgeType.contains;
           GraphEdge.statement := None;
           GraphEdge.loc := None |} st
    else st in
  (entry, st).

(** One iteration of the first [for (const fullPath of filesToParse)]
    (symbol granularity only). *)
Definition collectSymbols (st : ScanState) (fullPath : string)
  : string + ScanState :=
  let relPath := posixPath (Path.relative cwd rootPath fullPath) in
  match truthy (Fs.readFile fs cwd fullPath) with
  | None => inr st
  | Some code =>
      let st := setFileContent fullPath code st in
      match extractSymbols fullPath code with
      | inl err => inl err
      | inr [] => inr st
      | inr symbols =>
          let '(entry, st) :=
            fold_left (addSymbolNode relPath) symbols (∅, st) in
          inr (setSymbolEntry relPath entry st)
      end
  end.

(** One iteration of [for (const binding of dep.imports)]: the state and
    [createdSymbolEdge]. *)
Definition addSymbolEdge (relPath targetRel : string) (dep : Dependency.t)
  (targetSymbols : gmap string SymbolInfo.t)
  (acc : ScanState * bool) (binding : ImportBinding.t)
  : ScanState * bool :=
  let '(st, createdSymbolEdge) := acc in
  match ImportBinding.kind binding with
  | ImportBinding.namespace => acc
  | kind =>
      let importName :=
        match kind with
        | ImportBinding.default => "default"
        | _ => ImportBinding.imported binding
        end in
      match targetSymbols !! importName with
      | None => acc
      | Some _ =>
          let symbolId := targetRel +:+ "::" +:+ importName in
          let edgeKey :=
            relPath +:+ "|" +:+ symbolId +:+ "|"
              +:+ EdgeType.toString (Dependency.type dep) +:+ "|"
              +:+ default "" (Dependency.statement dep) in
          if Js.has (edgeKeys st) edgeKey then acc
          else
            (pushEdge edgeKey
               {| GraphEdge.id := hashId edgeKey;
                  GraphEdge.source := relPath;
                  GraphEdge.target := symbolId;
                  GraphEdge.type := Dependency.type dep;
                  GraphEdge.statement :=
                    Js.take 200 <$> Dependency.statement dep;
                  GraphEdge.loc := Dependency.loc dep |} st,
             true)
      end
  end.

Definition externalNode : GraphNode.t :=
  {| GraphNode.id := "__external__";
     GraphNode.path := "__external__";
     GraphNode.label := "External";
     GraphNode.type := NodeType.external;
     GraphNode.ignored := None;
     GraphNode.symbolKind := None;
     GraphNode.parent := None;
     GraphNode.displayName := None |}.

(** The branch [if (resolved.external)] of the dependency loop. *)
Definition addExternal (relPath : string) (dep : Dependency.t)
  (st : ScanState) : ScanState :=
  let st := incExternalCount st in
  if negb (includeExternal options) then st
  else
    let st :=
      if negb (nodesHas st "__external__")
      then setNode "__external__" externalNode st
      else st in
    let edgeKey :=
      relPath +:+ "|__external__|external|" +:+ Dependency.specifier dep in
    if Js.has (edgeKeys st) edgeKey then st
    else
      pushEdge edgeKey
        {| GraphEdge.id := hashId edgeKey;
           GraphEdge.source := relPath;
           GraphEdge.target := "__external__";
           GraphEdge.type := EdgeType.external;
           GraphEdge.statement := Dependency.statement dep;
           GraphEdge.loc := Dependency.loc dep |} st.

(** The edges of a dependency resolved to the file [targetRel] of the
    tree: the edges to the imported symbols or, when none is created,
    the edge to the file. *)
Definition addInternalEdges (relPath targetRel : string)
  (dep : Dependency.t) (st : ScanState) : ScanState :=
  let '(st, createdSymbolEdge) :=
    if symbolMode
       && match Dependency.imports dep with
          | Some (_ :: _) => true
          | _ => false
          end
    then
      match symbolMap st !! targetRel with
      | Some targetSymbols =>
          fold_left (addSymbolEdge relPath targetRel dep targetSymbols)
            (default [] (Dependency.imports dep)) (st, false)
      | None => (st, false)
      end
    else (st, false) in
  if createdSymbolEdge then st
  else
    let targetExt := Path.extname targetRel in
    let edgeType :=
      if Js.has STYLE_EXTENSIONS targetExt then EdgeType.style
      else Dependency.type dep in
    let edgeKey :=
      relPath +:+ "|" +:+ targetRel +:+ "|" +:+ EdgeType.toString edgeType
        +:+ "|" +:+ default "" (Dependency.statement dep) in
    if Js.has (edgeKeys st) edgeKey then st
    else
      pushEdge edgeKey
        {| GraphEdge.id := hashId edgeKey;
           GraphEdge.source := relPath;
           GraphEdge.target := targetRel;
           GraphEdge.type := edgeType;
           GraphEdge.statement := Js.take 200 <$> Dependency.statement dep;
           GraphEdge.loc := Dependency.loc dep |} st.

(** The rest of the loop body, for a dependency resolved to the file
    [resolvedPath] of the tree. *)
Definition addInternal (relPath resolvedPath : string) (dep : Dependency.t)
  (st : ScanState) : ScanState :=
  let targetRel := posixPath (Path.relative cwd rootPath resolvedPath) in
  let st :=
    if negb (nodesHas st targetRel)
    then setNode targetRel (fileNode targetRel None) st
    else st in
  addInternalEdges relPath targetRel dep st.

(** One iteration of [for (const dep of dependencies)]. *)
Definition addDependency (fullPath relPath : string) (st : ScanState)
  (dep : Dependency.t) : ScanState :=
  match resolveImport fs cwd rootPath fullPath (Dependency.specifier dep) with
  | None => st
  | Some resolved =>
      if Resolution.external resolved then addExternal relPath dep st
      else
        match truthy (Resolution.resolved resolved) with
        | None => st
        | Some resolvedPath => addInternal relPath resolvedPath dep st
        end
  end.

(** The dependencies of [fullPath] as the dependency loop obtains them:
    none when the file cannot be read or is empty (and none when the
    extraction throws). *)
Definition dependenciesOf (st : ScanState) (fullPath : string)
  : list Dependency.t :=
  let code :=
    match fileContents st !! fullPath with
    | Some code => Some code
    | None => Fs.readFile fs cwd fullPath
    end in
  match truthy code with
  | None => []
  | Some code =>
      match extractDependencies fullPath code with
      | inr dependencies => dependencies
      | inl _ => []
      end
  end.

(** Is the dependency one that the resolver reports as external? *)
Definition isExternalReference (fullPath : string) (dep : Dependency.t)
  : bool :=
  match resolveImport fs cwd rootPath fullPath (Dependency.specifier dep) with
  | Some resolved => Resolution.external resolved
  | None => false
  end.

(** One iteration of the second [for (const fullPath of filesToParse)]. *)
Definition collectDependencies (st : ScanState) (fullPath : string)
  : string + ScanState :=
  let relPath := posixPath (Path.relative cwd rootPath fullPath) in
  let code :=
    match fileContents st !! fullPath with
    | Some code => Some code
    | None => Fs.readFile fs cwd fullPath
    end in
  match truthy code with
  | None => inr st
  | Some code =>
      match extractDependencies fullPath code with
      | inl err => inl err
      | inr dependencies =>
          inr (fold_left (addDependency fullPath relPath) dependencies st)
      end
  end.

End Passes.

Definition notReadableMessage : string :=
  "Selected path is not a readable directory.".

(** The state of [scanProject] when the dependency loop starts (after the
    walk, the ignored nodes and, in symbol mode, the symbol loop), or the
    message of the error thrown until then. *)
Definition scanFiles (options : ScanOptions) : string + ScanState :=
  let rootPath := Path.resolve cwd [root options] in
  match Fs.stat fs cwd rootPath with
  | Some (FsDir entries) =>
      match walk options rootPath rootPath ALWAYS_IGNORE (FsDir entries)
              initialState with
      | inl err => inl err
      | inr st =>
          let st :=
            fold_left (fun st ignoredNode =>
                         setNode (GraphNode.id ignoredNode) ignoredNode st)
              (ignoredNodes st) st in
          if symbolMode options
          then forEach (collectSymbols rootPath) (filesToParse st) st
          else inr st
      end
  | _ => inl notReadableMessage
  end.

(** The state at the [return] of [scanProject], or the message of the
    error it throws. *)
Definition scanState (options : ScanOptions) : string + ScanState :=
  match scanFiles options with
  | inl err => inl err
  | inr st =>
      forEach (collectDependencies options (Path.resolve cwd [root options]))
        (filesToParse st) st
  end.

Definition graphOf (rootPath : string) (st : ScanState) : GraphData.t :=
  {| GraphData.root := rootPath;
     GraphData.nodes := map snd (nodes st);
     GraphData.edges := edges st;
     GraphData.totalFiles := totalFiles st;
     GraphData.ignoredCount := ignoredCount st;
     GraphData.externalCount := externalCount st |}.

Definition scanProject (options : ScanOptions) : string + GraphData.t :=
  match scanState options with
  | inl err => inl err
  | inr st => inr (graphOf (Path.resolve cwd [root options]) st)
  end.

End Scanner.

(** ** The in-browser resolver ([src/lib/browser-scan.ts])

    The browser scanner works on root-relative POSIX paths and on the sets
    of the files and directories it has walked. *)

Module Browser.

(** [.replace(/\/+/g, '/')] *)
Fixpoint collapseSlashes (s : string) : string :=
  match s with
  | String a r =>
      if Ascii.eqb a "/"%char then
        match r with
        | String b _ =>
            if Ascii.eqb b "/"%char then collapseSlashes r
            else String a (collapseSlashes r)
        | EmptyString => String a EmptyString
        end
      else String a (collapseSlashes r)
  | EmptyString => EmptyString
  end.

Definition posixJoin (parts : list string) : string :=
  collapseSlashes
    (Js.join "/" (List.filter (fun p => negb (Js.isEmpty p)) parts)).

Definition posixDirname (value : string) : string :=
  match Js.lastIndexOf "/"%char value with
  | None => ""
  | Some idx => Js.take idx value
  end.

Definition posixBasename (value : string) : string :=
  match Js.lastIndexOf "/"%char value with
  | None => value
  | Some idx => Js.drop (idx + 1) value
  end.

Definition posixExtname (value : string) : string :=
  let base := posixBasename value in
  match Js.lastIndexOf "."%char base with
  | None => ""
  | Some idx => Js.drop idx base
  end.

Record Normalized := { path : string; escapedRoot : bool }.

(** The loop of [normalizePosixPath]; [stack] holds the last part first. *)
Fixpoint normalizeParts (parts stack : list string) (escaped : bool)
  : list string * bool :=
  match parts with
  | [] => (stack, escaped)
  | part :: rest =>
      if Js.isEmpty part || String.eqb part "." then
        normalizeParts rest stack escaped
      else if String.eqb part ".." then
        match stack with
        | _ :: below => normalizeParts rest below escaped
        | [] => normalizeParts rest [] true
        end
      else normalizeParts rest (part :: stack) escaped
  end.

Definition normalizePosixPath (value : string) : Normalized :=
  let '(stack, escaped) := normalizeParts (Js.split "/"%char value) [] false in
  {| path := Js.join "/" (rev stack); escapedRoot := escaped |}.

Fixpoint firstMember (fileSet : gset string) (candidates : list string)
  : option string :=
  match candidates with
  | [] => None
  | c :: rest =>
      if decide (c ∈ fileSet) then Some c else firstMember fileSet rest
  end.

Definition resolveWithExtensions (basePath : option string)
  (fileSet dirSet : gset string) : option string :=
  match truthy basePath with
  | None => None
  | Some basePath =>
      if decide (basePath ∈ fileSet) then Some basePath
      else
        let fromIndex :=
          if decide (basePath ∈ dirSet) then
            firstMember fileSet
              (map (fun ext => posixJoin [basePath; "index" +:+ ext])
                   IMPORT_EXTENSIONS)
          else None in
        match fromIndex with
        | Some indexPath => Some indexPath
        | None =>
            if Js.isEmpty (posixExtname basePath) then
              firstMember fileSet
                (map (fun ext => basePath +:+ ext) IMPORT_EXTENSIONS)
            else None
        end
  end.

Definition resolveImport (fromFile specifier : string)
  (fileSet dirSet : gset string) : option Resolution.t :=
  if Js.isEmpty specifier || Js.startsWith specifier "http" then None
  else
    let cleanSpecifier :=
      Js.splitHead "#" (Js.splitHead "?" specifier) in
    let normalized :=
      if Js.startsWith cleanSpecifier "@/" then
        Some (normalizePosixPath (Js.drop 2 cleanSpecifier))
      else if Js.startsWith cleanSpecifier "/" then
        Some (normalizePosixPath (Js.drop 1 cleanSpecifier))
      else if Js.startsWith cleanSpecifier "." then
        let fromDir := posixDirname fromFile in
        Some (normalizePosixPath (posixJoin [fromDir; cleanSpecifier]))
      else None in
    match normalized with
    | None =>
        Some {| Resolution.external := true; Resolution.resolved := None |}
    | Some normalized =>
        if Js.isEmpty (path normalized) || escapedRoot normalized then
          Some {| Resolution.external := true; Resolution.resolved := None |}
        else
          match resolveWithExtensions (Some (path normalized)) fileSet dirSet with
          | None =>
              Some {| Resolution.external := true;
                      Resolution.resolved := None |}
          | Some resolved =>
              Some {| Resolution.external := false;
                      Resolution.resolved := Some resolved |}
          end
    end.

(** *** [hashId] of the browser scanner, on unsigned 32-bit integers *)

Definition wrap32 (z : Z) : Z := (z mod 2 ^ 32)%Z.

(** [Math.imul(a, b)], as an unsigned 32-bit value *)
Definition imul (a b : Z) : Z := wrap32 (a * b).

Definition charCode (a : ascii) : Z := Z.of_nat (nat_of_ascii a).

Fixpoint hashLoop (value : string) (h : Z * Z) : Z * Z :=
  match value with
  | EmptyString => h
  | String ch rest =>
      hashLoop rest
        (imul (Z.lxor (fst h) (charCode ch)) 2654435761,
         imul (Z.lxor (snd h) (charCode ch)) 1597334677)
  end.

Definition hexDigit (d : Z) : ascii :=
  ascii_of_nat (Z.to_nat (if (d <? 10)%Z then 48 + d else 87 + d)%Z).

(** [n.toString(16)] for [0 <= n < 2^32] *)
Fixpoint toHex (fuel : nat) (n : Z) (acc : string) : string :=
  match fuel with
  | O => acc
  | S fuel' =>
      let acc := String (hexDigit (n mod 16)) acc in
      if (n / 16 =? 0)%Z then acc else toHex fuel' (n / 16) acc
  end.

Definition hashId (value : string) : string :=
  let len := Z.of_nat (String.length value) in
  let '(h1, h2) :=
    hashLoop value
      (Z.lxor 3735928559 len, Z.lxor 1103547991 len) in
  let h1 := imul (Z.lxor h1 (Z.shiftr h1 16)) 2246822507 in
  let h2 := imul (Z.lxor h2 (Z.shiftr h2 16)) 2246822507 in
  toHex 8 h1 "" +:+ toHex 8 h2 "".

End Browser.

(** ** A concrete instance for the examples

    The parameters of the scanner instantiated so that it can be run on
    small trees: the browser hash, a table of sample sources with their
    syntax trees, and the fragment of the ignore-pattern language that the
    examples need (segment names, optionally anchored by a leading double
    star or marked as directories by a trailing slash, and negation). *)

Module Demo.

Definition wholeText (code : string) : Ast.Base :=
  {| Ast.start := Some 0;
     Ast.end_ := Some (String.length code);
     Ast.loc := Some {| line := 1; column := 0 |} |}.

Definition program (body : list Ast.Node) : Ast.Node :=
  Ast.File (Ast.Program body).

Definition named (name : string) : Ast.ImportSpec :=
  Ast.ImportSpecifier (Ast.MIdentifier name) name.

(** [import <specifiers> from '<source>'] as the only statement of [code] *)
Definition importOnly (code source : string) (specifiers : list Ast.ImportSpec)
  : Ast.Node :=
  program [Ast.ImportDeclaration (wholeText code) source specifiers].

Definition importB : string := "import './b'".
Definition exportConstX : string := "export const x = 1".
Definition importFooFromB : string := "import { foo } from './b'".
Definition exportFunctionFoo : string := "export function foo(){}".
Definition importReact : string := "import React from 'react'".
Definition importSibling : string := "import '../proj2/x'".
Definition importX : string := "import './x'".
Definition requireTwoArguments : string := "require('a', 'b')".
Definition importSentinelFile : string := "import './__external__'".
Definition importTwice : string := "import a, { a } from './b'".

(** An import whose statement is longer than 200 characters: the imported
    name is 200 times the letter [a], followed by [suffix]. *)
Definition longName (suffix : string) : string :=
  Js.join "" (replicate 200 "a") +:+ suffix.

Definition longImport (suffix : string) : string :=
  "import { " +:+ longName suffix +:+ " } from './b'".

(** Two such imports, one per line. *)
Definition twoLongImports : string :=
  longImport "1" +:+ String "010" (longImport "2").

Definition twoLongImportsAst : Ast.Node :=
  let first := String.length (longImport "1") in
  program
    [ Ast.ImportDeclaration
        {| Ast.start := Some 0; Ast.end_ := Some first;
           Ast.loc := Some {| line := 1; column := 0 |} |}
        "./b" [named (longName "1")];
      Ast.ImportDeclaration
        {| Ast.start := Some (first + 1);
           Ast.end_ := Some (first + 1 + String.length (longImport "2"));
           Ast.loc := Some {| line := 2; column := 0 |} |}
        "./b" [named (longName "2")] ].

Definition samples : list (string * Ast.Node) :=
  [ (importB, importOnly importB "./b" []);
    (exportConstX,
     program
       [Ast.ExportNamedDeclaration (wholeText exportConstX)
          (Some (Ast.VariableDeclaration "const"
                   [Ast.VariableDeclarator (Ast.Identifier "x")
                      (Some (Ast.Other "NumericLiteral" []))]))
          [] None]);
    (importFooFromB, importOnly importFooFromB "./b" [named "foo"]);
    (exportFunctionFoo,
     program
       [Ast.ExportNamedDeclaration (wholeText exportFunctionFoo)
          (Some (Ast.FunctionDeclaration (Some "foo")
                   [Ast.Other "BlockStatement" []]))
          [] None]);
    (importReact,
     importOnly importReact "react" [Ast.ImportDefaultSpecifier "React"]);
    (importSibling, importOnly importSibling "../proj2/x" []);
    (importX, importOnly importX "./x" []);
    (requireTwoArguments,
     program
       [Ast.Other "ExpressionStatement"
          [Ast.CallExpression (wholeText requireTwoArguments)
             (Ast.Identifier "require")
             [Ast.StringLiteral "a"; Ast.StringLiteral "b"]]]);
    (importSentinelFile,
     importOnly importSentinelFile "./__external__" []);
    (importTwice,
     importOnly importTwice "./b" [Ast.ImportDefaultSpecifier "a"; named "a"]);
    (twoLongImports, twoLongImportsAst);
    (importReact +:+ String "010" importB,
     let first := String.length importReact in
     program
       [ Ast.ImportDeclaration (wholeText importReact) "react"
           [Ast.ImportDefaultSpecifier "React"];
         Ast.ImportDeclaration
           {| Ast.start := Some (first + 1);
              Ast.end_ := Some (first + 1 + String.length importB);
              Ast.loc := Some {| line := 2; column := 0 |} |}
           "./b" [] ]) ].

Fixpoint assoc {V : Type} (key : string) (table : list (string * V))
  : option V :=
  match table with
  | [] => None
  | (k, v) :: rest => if String.eqb k key then Some v else assoc key rest
  end.

Definition parseWith (table : list (string * Ast.Node)) (code : string)
  : option Ast.Node := assoc code table.

Definition parse : string -> option Ast.Node := parseWith samples.

Definition stripDoubleStar (pattern : string) : string :=
  if Js.startsWith pattern "**/" then Js.drop 3 pattern else pattern.

(** Does one (non-negated) pattern match [relPath]? *)
Definition patternMatches (pattern relPath : string) : bool :=
  let segs := Js.split "/"%char relPath in
  let name := stripDoubleStar pattern in
  if Js.endsWith name "/" then
    Js.has (removelast segs) (Js.take (String.length name - 1) name)
  else Js.has segs name.

(** The last matching pattern decides. *)
Definition ignored (patterns : list string) (relPath : string) : bool :=
  fold_left
    (fun verdict pattern =>
       if Js.startsWith pattern "!" then
         if patternMatches (Js.drop 1 pattern) relPath then false
         else verdict
       else if patternMatches pattern relPath then true
       else verdict)
    patterns false.

Fixpoint dropDots (s : string) : string :=
  match s with
  | String "." r => dropDots r
  | _ => s
  end.

(** The paths that [ignores] refuses: those made of dots only and those
    that start with a slash or with dots and a slash. *)
Definition refused (relPath : string) : bool :=
  match dropDots relPath with
  | EmptyString => negb (Js.isEmpty relPath)
  | String c _ => Ascii.eqb c "/"
  end.

Definition refusal (relPath : string) : string :=
  "path should be a `path.relative()`d string, but got "
    +:+ String "034" (relPath +:+ String "034" EmptyString).

Definition ignores (patterns : list string) (relPath : string)
  : string + bool :=
  if refused relPath then inl (refusal relPath)
  else inr (ignored patterns relPath).

(** The local names that the import declarations of a program bind. *)
Definition importedLocals (ast : Ast.Node) : list string :=
  match ast with
  | Ast.File (Ast.Program body) =>
      flat_map
        (fun n =>
           match n with
           | Ast.ImportDeclaration _ _ specifiers =>
               map (fun specifier =>
                      match specifier with
                      | Ast.ImportDefaultSpecifier local => local
                      | Ast.ImportSpecifier _ local => local
                      | Ast.ImportNamespaceSpecifier local => local
                      end)
                   specifiers
           | _ => []
           end)
        body
  | _ => []
  end.

Fixpoint firstDuplicate (names : list string) : option string :=
  match names with
  | [] => None
  | name :: rest =>
      if Js.has rest name then Some name else firstDuplicate rest
  end.

(** The traversal throws on a program that imports two bindings under
    one local name. *)
Definition traverseError (ast : Ast.Node) : option string :=
  match firstDuplicate (importedLocals ast) with
  | Some name =>
      Some ("Duplicate declaration "
              +:+ String "034" (name +:+ String "034" EmptyString))
  | None => None
  end.

(** The examples use limits that are small integers, for which this
    numeral is not consulted. *)
Definition formatNumber (n : Z) (d : positive) : string :=
  Js.integerToString n +:+ "/" +:+ Js.integerToString (Z.pos d).

Definition hashId : string -> string := Browser.hashId.

Definition text (code : string) : FsNode := FsFile (Some code).

(** a root directory [/repo] with the given entries *)
Definition repo (entries : list (string * FsNode)) : FsNode :=
  FsDir [("repo", FsDir entries)].

(** [a/b.ts] next to [a/x.ts] and [a/x/index.ts] *)
Definition fileAndIndex : FsNode :=
  repo [("a", FsDir [("b.ts", text importX);
                     ("x.ts", text exportConstX);
                     ("x", FsDir [("index.ts", text exportConstX)])])].

(** [a/b.ts] next to [a/x.js] only *)
Definition onlyJavaScript : FsNode :=
  repo [("a", FsDir [("b.ts", text importX);
                     ("x.js", text exportConstX)])].

(** a file called [__external__] is imported by [a.ts] *)
Definition sentinelNamedFile : FsNode :=
  repo [("__external__", text exportConstX);
        ("a.ts", text importSentinelFile)].

(** [a.ts] imports a package and the file [b.ts] *)
Definition reactAndB : string :=
  importReact +:+ String "010" importB.

Definition mixedImports : FsNode :=
  repo [("a.ts", text reactAndB); ("b.ts", text exportConstX)].

(** [a.ts] imports [b.ts], which the [.gitignore] of the root excludes *)
Definition ignoredTargetEntries : list (string * FsNode) :=
  [(".gitignore", text "b.ts");
   ("a.ts", text importB);
   ("b.ts", text exportConstX)].

Definition ignoredTarget : FsNode := repo ignoredTargetEntries.

(** [a.ts] imports [foo] from [b.ts], which exports the function *)
Definition symbolImport : FsNode :=
  repo [("a.ts", text importFooFromB); ("b.ts", text exportFunctionFoo)].

(** the same, with [b.ts] excluded by the [.gitignore] of the root *)
Definition symbolImportIgnored : FsNode :=
  repo [(".gitignore", text "b.ts");
        ("a.ts", text importFooFromB);
        ("b.ts", text exportFunctionFoo)].

(** a pages directory with an ordinary and an underscore-prefixed file *)
Definition pagesTree : FsNode :=
  repo [("pages", FsDir [("_app.tsx", text exportConstX);
                         ("index.tsx", text exportConstX)])].

(** [/home/u/proj] next to [/home/u/proj2] *)
Definition siblingTree : FsNode :=
  FsDir [("home", FsDir [("u", FsDir
    [("proj", FsDir [("a.ts", FsFile (Some importSibling))]);
     ("proj2", FsDir [("x.ts", FsFile (Some exportConstX))])])])].

Definition options (root : string) (maxFiles : Z) (includeExternal : bool)
  (granularity : option ScanGranularity.t) : ScanOptions :=
  {| root := root; maxFiles := Js.ofZ maxFiles;
     includeExternal := includeExternal; granularity := granularity |}.

(** the scanner on the tree [fs], started in ["/"] *)
Definition scan (fs : FsNode) (o : ScanOptions) : string + GraphData.t :=
  scanProject parse traverseError ignores hashId formatNumber fs "/" o.

Definition symbolOptions : ScanOptions :=
  options "/repo" 5000 false (Some ScanGranularity.symbol).

(** the state of the scan of [symbolImport] in symbol mode when the
    dependency loop starts *)
Definition symbolImportScanned : ScanState :=
  match scanFiles parse traverseError ignores hashId formatNumber
          symbolImport "/" symbolOptions with
  | inr st => st
  | inl _ => initialState
  end.

End Demo.

(** ** Specification-level notions *)

Section Specification.

Variable ignores : list string -> string -> string + bool.
Variable fs : FsNode.
Variable cwd : string.
Variable rootPath : string.

Section Entries.
Variable countDir : string -> list string -> FsNode -> Z.
Variable dir : string.
Variable combinedPatterns : list string.

Fixpoint eligibleEntries (entries : list (string * FsNode)) : Z :=
  match entries with
  | [] => 0
  | (name, entry) :: rest =>
      let fullPath := Path.join [dir; name] in
      let relPath := posixPath (Path.relative cwd rootPath fullPath) in
      (if Js.isEmpty relPath then 0
       else
         match ignores combinedPatterns relPath with
         | inr false =>
             if Fs.isDirectory entry
             then countDir fullPath combinedPatterns entry
             else 1
         | _ => 0
         end)
      + eligibleEntries rest
  end%Z.
End Entries.

(** The number of non-ignored files that a traversal of the directory
    [dir] encounters: every entry that is reported as not ignored and is
    not a directory counts for one, the entries of a directory that is
    not ignored are counted in turn, and nothing below an ignored
    directory is encountered. *)
Fixpoint eligibleFiles (dir : string) (patterns : list string)
  (node : FsNode) {struct node} : Z :=
  match node with
  | FsFile _ => 0%Z
  | FsDir entries =>
      eligibleEntries eligibleFiles dir
        (combinedPatternsOf fs cwd rootPath dir patterns) entries
  end.

End Specification.

(** The number of non-ignored files encountered when the tree is scanned
    with [options]. *)
Definition eligibleCount (ignores : list string -> string -> string + bool)
  (fs : FsNode) (cwd : string) (options : ScanOptions) : Z :=
  let rootPath := Path.resolve cwd [root options] in
  match Fs.stat fs cwd rootPath with
  | Some node => eligibleFiles ignores fs cwd rootPath rootPath ALWAYS_IGNORE node
  | None => 0%Z
  end.

(** The exported name that an import binding asks the target for; a
    namespace binding asks for none. *)
Definition importNameOf (binding : ImportBinding.t) : option string :=
  match ImportBinding.kind binding with
  | ImportBinding.namespace => None
  | ImportBinding.default => Some "default"
  | ImportBinding.named => Some (ImportBinding.imported binding)
  end.

(** No binding of [bindings] names a symbol collected for [targetRel]. *)
Definition matchesNoSymbol (st : ScanState) (targetRel : string)
  (bindings : list ImportBinding.t) : Prop :=
  Forall (fun binding =>
            forall name, importNameOf binding = Some name ->
                         symbolMap st !! targetRel ≫= (.!! name) = None)
         bindings.

(** The error [err] is one that the [ignore] package throws. *)
Definition ignoreError (ignores : list string -> string -> string + bool)
  (err : string) : Prop :=
  exists patterns relPath, ignores patterns relPath = inl err.

(** The error [err] is one that [traverse] throws on a text that was
    parsed. *)
Definition traversalError (parse : string -> option Ast.Node)
  (traverseError : Ast.Node -> option string) (err : string) : Prop :=
  exists code ast, parse code = Some ast /\ traverseError ast = Some err.

(** What a walk does to the file counter: it throws the capacity error or
    an error of the [ignore] package, or it has added the number [count]
    of eligible files, and the counter is within the limit if it was
    before or if a file was counted. *)
Definition walkCounts (ignores : list string -> string -> string + bool)
  (formatNumber : Z -> positive -> string) (options : ScanOptions)
  (result : string + ScanState) (st : ScanState) (count : Z) : Prop :=
  match result with
  | inl err =>
      err = capacityMessage formatNumber (maxFiles options)
      \/ ignoreError ignores err
  | inr st' =>
      totalFiles st' = (totalFiles st + count)%Z
      /\ (0 <= count)%Z
      /\ (Js.exceeds (totalFiles st) (maxFiles options) = false
          \/ (0 < count)%Z ->
          Js.exceeds (totalFiles st') (maxFiles options) = false)
  end.

(** The state of the scan of [Demo.ignoredTargetEntries], held by the root
    [rootSegs], when the dependency loop starts. *)
Definition ignoredTargetWalked (rootSegs : list string) : ScanState :=
  {| nodes := [("a.ts", fileNode "a.ts" None);
               ("b.ts", fileNode "b.ts" (Some true))];
     edges := []; edgeKeys := [];
     ignoredNodes := [fileNode "b.ts" (Some true)];
     symbolMap := ∅; fileContents := ∅;
     totalFiles := 2; ignoredCount := 1; externalCount := 0;
     filesToParse := [absolutePath (rootSegs ++ ["a.ts"])] |}.

(** The sentinel that stands for all external references. *)
Definition isSentinel (n : GraphNode.t) : bool :=
  match GraphNode.type n with
  | NodeType.external => String.eqb (GraphNode.id n) "__external__"
  | _ => false
  end.

(** *** Showing and hiding external references *)

(** The options with [includeExternal] set to [b]. *)
Definition withExternal (b : bool) (o : ScanOptions) : ScanOptions :=
  {| root := root o; maxFiles := maxFiles o;
     includeExternal := b; granularity := granularity o |}.

(** What the key of every external edge contains. *)
Definition externalMarker : string := "|__external__|external|".

Definition externalKeyed (key : string) : bool :=
  Js.includes key externalMarker.

Definition notSentinelKey (kv : string * GraphNode.t) : bool :=
  negb (String.eqb (fst kv) "__external__").

Definition notSentinelId (n : GraphNode.t) : bool :=
  negb (String.eqb (GraphNode.id n) "__external__").

Definition notExternalEdge (e : GraphEdge.t) : bool :=
  negb (EdgeType.eqb (GraphEdge.type e) EdgeType.external).

(** The tree itself does not use the names reserved for external
    references: no node has the id [__external__] and no recorded edge key
    contains the marker of the external keys. *)
Definition reservedNamesUnused (st : ScanState) : bool :=
  negb (nodesHas st "__external__")
  && forallb (fun key => negb (externalKeyed key)) (edgeKeys st).

(** The variables that the dependency loop only reads, and the two
    counters of the walk. *)
Definition frameOf (st : ScanState) :=
  (ignoredNodes st, symbolMap st, fileContents st, filesToParse st,
   totalFiles st, ignoredCount st).

(** The dependency loop leaves the frame alone and adds [n] to
    [externalCount]. *)
Definition counts (st st' : ScanState) (n : Z) : Prop :=
  frameOf st' = frameOf st /\ externalCount st' = (externalCount st + n)%Z.

(** [hidden] is [shown] without the sentinel node, the external edges and
    their keys. *)
Definition hidesExternal (shown hidden : ScanState) : Prop :=
  nodes hidden = List.filter notSentinelKey (nodes shown)
  /\ edges hidden = List.filter notExternalEdge (edges shown)
  /\ edgeKeys hidden
     = List.filter (fun key => negb (externalKeyed key)) (edgeKeys shown)
  /\ frameOf hidden = frameOf shown
  /\ externalCount hidden = externalCount shown.

(** The number of dependencies of the queued files that the resolver
    reports as external, for the state [st] in which the dependency loop
    starts. *)
Definition externalReferences (parse : string -> option Ast.Node)
  (traverseError : Ast.Node -> option string)
  (fs : FsNode) (cwd rootPath : string) (st : ScanState) : Z :=
  foldr Z.add 0%Z
    (map (fun fullPath =>
            Z.of_nat
              (length
                 (List.filter (isExternalReference fs cwd rootPath fullPath)
                    (dependenciesOf parse traverseError fs cwd st fullPath))))
         (filesToParse st)).

(** The four fields that the specification calls the deduplication key of
    an edge. *)
Definition edgeFields (e : GraphEdge.t)
  : string * string * EdgeType.t * option string :=
  (GraphEdge.source e, GraphEdge.target e, GraphEdge.type e,
   GraphEdge.statement e).

(** The statement stored in the edge is certainly not a truncated one. *)
Definition shortStatement (e : GraphEdge.t) : Prop :=
  match GraphEdge.statement e with
  | Some statement => String.length statement < 200
  | None => True
  end.

(** The conditions [nodeTypeFromPath] looks at. *)
Definition routeShaped (relPath : string) : bool :=
  Regex.test ROUTE_REGEX.app relPath || Regex.test ROUTE_REGEX.pages relPath.

Definition underscoredInPages (relPath : string) : bool :=
  (Js.includes relPath "/pages/" || Js.startsWith relPath "pages/")
  && Js.startsWith (Path.basename relPath) "_".

Definition styleFile (relPath : string) : bool :=
  Js.has STYLE_EXTENSIONS (Path.extname relPath).

(** ** The scan as a sequence of steps

    Every assignment that [scanProject] makes to its variables is one of
    the following steps. *)

Section Steps.

Variable hashId : string -> string.

Definition edgeKey3 (source target type : string) : string :=
  source +:+ "|" +:+ target +:+ "|" +:+ type.

Definition edgeKey4 (source target type statement : string) : string :=
  source +:+ "|" +:+ target +:+ "|" +:+ type +:+ "|" +:+ statement.

(** The edges that are pushed, each with the key it is recorded under. *)
Inductive EdgePush : string -> GraphEdge.t -> Prop :=
| push_contains (relPath symbolId : string) :
    EdgePush (edgeKey3 relPath symbolId "contains")
      {| GraphEdge.id := hashId (edgeKey3 relPath symbolId "contains");
         GraphEdge.source := relPath;
         GraphEdge.target := symbolId;
         GraphEdge.type := EdgeType.contains;
         GraphEdge.statement := None;
         GraphEdge.loc := None |}
| push_external (relPath : string) (dep : Dependency.t) :
    EdgePush
      (edgeKey4 relPath "__external__" "external" (Dependency.specifier dep))
      {| GraphEdge.id :=
           hashId (edgeKey4 relPath "__external__" "external"
                     (Dependency.specifier dep));
         GraphEdge.source := relPath;
         GraphEdge.target := "__external__";
         GraphEdge.type := EdgeType.external;
         GraphEdge.statement := Dependency.statement dep;
         GraphEdge.loc := Dependency.loc dep |}
| push_internal (relPath target : string) (type : EdgeType.t)
    (dep : Dependency.t) :
    type = EdgeType.static \/ type = EdgeType.dynamic
      \/ type = EdgeType.style ->
    EdgePush
      (edgeKey4 relPath target (EdgeType.toString type)
         (default "" (Dependency.statement dep)))
      {| GraphEdge.id :=
           hashId (edgeKey4 relPath target (EdgeType.toString type)
                     (default "" (Dependency.statement dep)));
         GraphEdge.source := relPath;
         GraphEdge.target := target;
         GraphEdge.type := type;
         GraphEdge.statement := Js.take 200 <$> Dependency.statement dep;
         GraphEdge.loc := Dependency.loc dep |}.

Inductive Step : ScanState -> ScanState -> Prop :=
| step_counters st total ignoredC externalC :
    Step st (setCounters total ignoredC externalC st)
| step_ignored st relPath :
    Step st (pushIgnoredNode (fileNode relPath (Some true)) st)
| step_file st fullPath :
    Step st (pushFileToParse fullPath st)
| step_fileNode st relPath ignored :
    Step st (setNode relPath (fileNode relPath ignored) st)
| step_symbolNode st relPath symbol :
    nodesHas st (relPath +:+ "::" +:+ SymbolInfo.name symbol) = false ->
    Step st (setNode (relPath +:+ "::" +:+ SymbolInfo.name symbol)
               (symbolNode relPath symbol) st)
| step_externalNode st :
    nodesHas st "__external__" = false ->
    Step st (setNode "__external__" externalNode st)
| step_content st fullPath code :
    Step st (setFileContent fullPath code st)
| step_symbols st relPath entry :
    Step st (setSymbolEntry relPath entry st)
| step_edge st key edge :
    EdgePush key edge ->
    Js.has (edgeKeys st) key = false ->
    Step st (pushEdge key edge st).

(** The extractor only produces the edge types [static], [dynamic] and
    [style]. *)
Definition extractedType (type : EdgeType.t) : Prop :=
  type = EdgeType.static \/ type = EdgeType.dynamic \/ type = EdgeType.style.

(** The [nodes] map is keyed by node id, without repetition, and only the
    key [__external__] holds a node of type [external]. *)
Definition nodesKeyedById (st : ScanState) : Prop :=
  NoDup (fst <$> nodes st)
  /\ Forall (fun kv => GraphNode.id (snd kv) = fst kv
                      /\ (GraphNode.type (snd kv) = NodeType.external ->
                          fst kv = "__external__"))
           (nodes st).

(** Every node of the [nodes] map is the node of a file, stored under the
    path of the file, the node of a symbol, or the sentinel. *)
Definition nodesTyped (st : ScanState) : Prop :=
  Forall (fun kv =>
            (exists ignored, snd kv = fileNode (fst kv) ignored)
            \/ (exists relPath symbol, snd kv = symbolNode relPath symbol)
            \/ snd kv = externalNode)
         (nodes st).

(** The [i]-th edge was pushed under the [i]-th key, and no key was
    recorded twice. *)
Definition edgesKeyed (st : ScanState) : Prop :=
  NoDup (edgeKeys st) /\ Forall2 EdgePush (edgeKeys st) (edges st).

(** The ignored nodes are file nodes flagged as ignored. *)
Definition ignoredAreFiles (st : ScanState) : Prop :=
  Forall (fun n => exists relPath, n = fileNode relPath (Some true))
         (ignoredNodes st).

End Steps.

(** ** Notions used by the further properties *)

(** The character [c] does not occur in [s]. *)
Fixpoint freeOf (c : ascii) (s : string) : bool :=
  match s with
  | EmptyString => true
  | String a r => negb (Ascii.eqb a c) && freeOf c r
  end.

(** The symbols found so far have pairwise distinct names, and [seen] holds
    exactly their names. *)
Definition distinctNames (acc : SymbolAcc) : Prop :=
  NoDup (map SymbolInfo.name (fst acc))
  /\ forall name, name ∈ snd acc <-> name ∈ map SymbolInfo.name (fst acc).

(** Every character of [s] satisfies [f]. *)
Fixpoint allChars (f : ascii -> bool) (s : string) : bool :=
  match s with
  | EmptyString => true
  | String a r => f a && allChars f r
  end.

(** *** Consistency of the graph under construction *)

Section Consistency.

Variable cwd : string.
Variable options : ScanOptions.
Variable rootPath : string.

(** Both ends of the edge are nodes, and the edge is of a type that the
    options admit. *)
Definition edgeAllowed (st : ScanState) (e : GraphEdge.t) : Prop :=
  nodesHas st (GraphEdge.source e) = true
  /\ nodesHas st (GraphEdge.target e) = true
  /\ (GraphEdge.type e = EdgeType.external -> includeExternal options = true)
  /\ (GraphEdge.type e = EdgeType.contains -> symbolMode options = true).

(** Symbol nodes only exist in symbol mode, and the parent of a node is a
    node. *)
Definition nodeAllowed (st : ScanState) (n : GraphNode.t) : Prop :=
  (GraphNode.type n = NodeType.symbol -> symbolMode options = true)
  /\ (forall p, GraphNode.parent n = Some p -> nodesHas st p = true).

Definition Consistent (st : ScanState) : Prop :=
  Forall (fun fullPath =>
            nodesHas st (posixPath (Path.relative cwd rootPath fullPath))
            = true)
         (filesToParse st)
  /\ (forall relPath symbols name,
        symbolMap st !! relPath = Some symbols ->
        is_Some (symbols !! name) ->
        nodesHas st (relPath +:+ "::" +:+ name) = true)
  /\ Forall (edgeAllowed st) (edges st)
  /\ Forall (fun kv => nodeAllowed st (snd kv)) (nodes st)
  /\ (symbolMode options = false -> symbolMap st = ∅).

End Consistency.

(** A walk that counts [count] files does not throw the capacity error
    when the counter stays within the limit or there is no file to count:
    it succeeds, unless the [ignore] package throws. *)
Definition walkWithin (ignores : list string -> string -> string + bool)
  (options : ScanOptions) (result : string + ScanState)
  (st : ScanState) (count : Z) : Prop :=
  (0 <= count)%Z
  /\ (Js.exceeds (totalFiles st + count) (maxFiles options) = false
      \/ count = 0%Z ->
      match result with
      | inr st' => totalFiles st' = (totalFiles st + count)%Z
      | inl err => ignoreError ignores err
      end).

(** ** [detectRepoRoot] ([src/lib/scan.ts])

    The loop climbs from the resolved path to the root of the file system
    and returns the first directory that holds a [.git] directory.  It is
    run with [fuel] iterations; [None] means that they did not suffice,
    [Some None] is the result [null]. *)

Fixpoint detectLoop (fs : FsNode) (cwd : string) (fuel : nat)
  (current prev : string)
  : option (option string) :=
  match fuel with
  | O => None
  | S fuel' =>
      if String.eqb current prev then Some None
      else
        let gitPath := Path.join [current; ".git"] in
        if match Fs.stat fs cwd gitPath with
           | Some node => Fs.isDirectory node
           | None => false
           end
        then Some (Some current)
        else detectLoop fs cwd fuel' (Path.dirname current) current
  end.

Definition detectRepoRoot (fs : FsNode) (cwd : string) (fuel : nat)
  (inputPath : string) : option (option string) :=
  detectLoop fs cwd fuel (Path.resolve cwd [inputPath]) "".

(** The directory at [segsRev] (last segment first) and the directories
    above it, the nearest first. *)
Fixpoint ancestorsRev (segsRev : list string) : list (list string) :=
  rev segsRev ::
  match segsRev with
  | [] => []
  | _ :: above => ancestorsRev above
  end.

(** The nearest of these directories that holds a [.git] directory. *)
Definition nearestRepository (fs : FsNode) (segs : list string)
  : option (list string) :=
  List.find (fun dir => isDirectoryAt fs (dir ++ [".git"]))
            (ancestorsRev (rev segs)).

(** A digit of a lower-case hexadecimal numeral. *)
Definition isHexDigit (a : ascii) : bool :=
  let n := nat_of_ascii a in
  ((48 <=? n) && (n <=? 57) || (97 <=? n) && (n <=? 102))%nat.

(** ** The graph shown by the page ([src/app/page.tsx])

    The page filters the scanned graph by its display switches and, in
    focus mode, keeps the neighbourhood of the selected node. *)

Module Page.

(** [set.add(x)] on a [Set<string>], kept in insertion order *)
Definition setAdd (x : string) (xs : list string) : list string :=
  if Js.has xs x then xs else xs ++ [x].

Record Adjacency := {
  outgoing : gmap string (list string);
  incoming : gmap string (list string)
}.

(** [if (!m.has(key)) m.set(key, new Set())] *)
Definition ensure (key : string) (m : gmap string (list string))
  : gmap string (list string) :=
  match m !! key with
  | Some _ => m
  | None => <[key := []]> m
  end.

(** [m.get(key)?.add(value)] *)
Definition addTo (key value : string) (m : gmap string (list string))
  : gmap string (list string) :=
  match m !! key with
  | Some members => <[key := setAdd value members]> m
  | None => m
  end.

Definition buildAdjacency (edges : list GraphEdge.t) : Adjacency :=
  fold_left
    (fun adj edge =>
       let outgoing := ensure (GraphEdge.source edge) (outgoing adj) in
       let incoming := ensure (GraphEdge.target edge) (incoming adj) in
       {| outgoing :=
            addTo (GraphEdge.source edge) (GraphEdge.target edge) outgoing;
          incoming :=
            addTo (GraphEdge.target edge) (GraphEdge.source edge) incoming |})
    edges {| outgoing := ∅; incoming := ∅ |}.

(** [new Set([...(outgoing.get(id) ?? []), ...(incoming.get(id) ?? [])])] *)
Definition neighbors (adj : Adjacency) (id : string) : list string :=
  fold_left (fun members x => setAdd x members)
    (default [] (outgoing adj !! id) ++ default [] (incoming adj !! id)) [].

(** The body of [neighbors.forEach]; the state is [allowed] and [queue]. *)
Definition visit (currentDepth : Z)
  (state : gset string * list (string * Z)) (neighbor : string)
  : gset string * list (string * Z) :=
  if decide (neighbor ∈ fst state) then state
  else ({[neighbor]} ∪ fst state,
        snd state ++ [(neighbor, (currentDepth + 1)%Z)]).

(** The [while (queue.length)] loop, run for at most [fuel] tests of its
    condition; [None] means that they did not suffice. *)
Fixpoint focusLoop (fuel : nat) (adj : Adjacency) (depth : Z)
  (allowed : gset string) (queue : list (string * Z))
  : option (gset string) :=
  match fuel with
  | O => None
  | S fuel' =>
      match queue with
      | [] => Some allowed
      | (id, currentDepth) :: queue =>
          if (depth <=? currentDepth)%Z then
            focusLoop fuel' adj depth allowed queue
          else
            let state :=
              fold_left (visit currentDepth) (neighbors adj id)
                        (allowed, queue) in
            focusLoop fuel' adj depth (fst state) (snd state)
      end
  end.

Definition keepNode (allowed : gset string) (node : GraphNode.t) : bool :=
  bool_decide (GraphNode.id node ∈ allowed).

Definition keepEdge (allowed : gset string) (edge : GraphEdge.t) : bool :=
  bool_decide (GraphEdge.source edge ∈ allowed)
  && bool_decide (GraphEdge.target edge ∈ allowed).

Definition filterFocus (fuel : nat) (nodes : list GraphNode.t)
  (edges : list GraphEdge.t) (focusId : option string) (depth : Z)
  : option (list GraphNode.t * list GraphEdge.t) :=
  match truthy focusId with
  | None => Some (nodes, edges)
  | Some focusId =>
      if (depth <=? 0)%Z then Some (nodes, edges)
      else
        match focusLoop fuel (buildAdjacency edges) depth
                {[focusId]} [(focusId, 0%Z)] with
        | None => None
        | Some allowed =>
            Some (List.filter (keepNode allowed) nodes,
                  List.filter (keepEdge allowed) edges)
        end
  end.

(** The state that [filteredGraph] depends on. *)
Record View := {
  showIgnored : bool;
  showExternal : bool;
  focusMode : bool;
  selectedNodeId : option string;
  focusDepth : Z
}.

Definition isExternalNode (node : GraphNode.t) : bool :=
  match GraphNode.type node with
  | NodeType.external => true
  | _ => false
  end.

(** The [filteredGraph] memo of the page component. *)
Definition filteredGraph (fuel : nat) (graphData : option GraphData.t)
  (view : View) : option (list GraphNode.t * list GraphEdge.t) :=
  match graphData with
  | None => Some ([], [])
  | Some graphData =>
      let nodes :=
        List.filter
          (fun node =>
             if showIgnored view then true
             else negb (default false (GraphNode.ignored node)))
          (GraphData.nodes graphData) in
      let nodes :=
        List.filter
          (fun node =>
             if showExternal view then true else negb (isExternalNode node))
          nodes in
      let edges :=
        List.filter
          (fun edge =>
             if showExternal view then true
             else negb (EdgeType.eqb (GraphEdge.type edge) EdgeType.external))
          (GraphData.edges graphData) in
      let nodeIds : gset string := list_to_set (map GraphNode.id nodes) in
      let edges :=
        List.filter
          (fun edge =>
             bool_decide (GraphEdge.source edge ∈ nodeIds)
             && bool_decide (GraphEdge.target edge ∈ nodeIds))
          edges in
      if focusMode view && negb (Js.isEmpty (default "" (selectedNodeId view)))
      then filterFocus fuel nodes edges (selectedNodeId view) (focusDepth view)
      else Some (nodes, edges)
  end.

End Page.

(** Two nodes joined by an edge, in either direction. *)
Definition linked (edges : list GraphEdge.t) (u v : string) : Prop :=
  exists edge,
    edge ∈ edges
    /\ ((GraphEdge.source edge = u /\ GraphEdge.target edge = v)
        \/ (GraphEdge.source edge = v /\ GraphEdge.target edge = u)).

(** A chain of [n] edges from [u] to [v], each followed in either
    direction. *)
Fixpoint chain (edges : list GraphEdge.t) (n : nat) (u v : string) : Prop :=
  match n with
  | O => u = v
  | S n' => exists w, chain edges n' u w /\ linked edges w v
  end.

(** [v] is at most [depth] edges away from [focusId]. *)
Definition near (edges : list GraphEdge.t) (focusId : string) (depth : Z)
  (v : string) : Prop :=
  exists n, (Z.of_nat n <= depth)%Z /\ chain edges n focusId v.

(** The state of the focus loop with the entries it has already taken off
    the queue. *)
Record FocusInvariant (edges : list GraphEdge.t) (focusId : string)
  (depth : Z) (processed queue : list (string * Z))
  (allowed : gset string) : Prop := {
  focus_allowed :
    forall v, v ∈ allowed <-> v ∈ map fst (processed ++ queue);
  focus_once : NoDup (map fst (processed ++ queue));
  focus_known :
    forall v, v ∈ map fst (processed ++ queue) ->
      v ∈ focusId :: map GraphEdge.source edges
                  ++ map GraphEdge.target edges;
  focus_sound :
    forall v d, (v, d) ∈ processed ++ queue ->
      (0 <= d <= depth)%Z /\ chain edges (Z.to_nat d) focusId v;
  focus_start : (focusId, 0%Z) ∈ processed ++ queue;
  focus_sorted : StronglySorted Z.le (map snd queue);
  focus_bound :
    forall d, head (map snd queue) = Some d ->
      forall v d', (v, d') ∈ processed ++ queue -> (d' <= d + 1)%Z;
  focus_closed :
    forall u d, (u, d) ∈ processed -> (d < depth)%Z ->
      forall v, linked edges u v ->
        exists d', (v, d') ∈ processed ++ queue /\ (d' <= d + 1)%Z
}.

(** *** A small graph for the examples of the page filters *)

Module PageDemo.

Definition node (id : string) (type : NodeType.t) (ignored : option bool)
  : GraphNode.t :=
  {| GraphNode.id := id;
     GraphNode.path := id;
     GraphNode.label := id;
     GraphNode.type := type;
     GraphNode.ignored := ignored;
     GraphNode.symbolKind := None;
     GraphNode.parent := None;
     GraphNode.displayName := None |}.

Definition edge (source target : string) (type : EdgeType.t) : GraphEdge.t :=
  {| GraphEdge.id := source +:+ "-" +:+ target;
     GraphEdge.source := source;
     GraphEdge.target := target;
     GraphEdge.type := type;
     GraphEdge.statement := None;
     GraphEdge.loc := None |}.

(** [a.ts -> b.ts -> c.ts -> d.ts], [b.ts -> react] and an ignored file
    [old.ts] imported by [a.ts]. *)
Definition nodes : list GraphNode.t :=
  [ node "a.ts" NodeType.module None;
    node "b.ts" NodeType.module None;
    node "c.ts" NodeType.module None;
    node "d.ts" NodeType.module None;
    node "old.ts" NodeType.module (Some true);
    node "__external__" NodeType.external None ].

Definition edges : list GraphEdge.t :=
  [ edge "a.ts" "b.ts" EdgeType.static;
    edge "b.ts" "c.ts" EdgeType.static;
    edge "c.ts" "d.ts" EdgeType.dynamic;
    edge "a.ts" "old.ts" EdgeType.static;
    edge "b.ts" "__external__" EdgeType.external ].

Definition graph : GraphData.t :=
  {| GraphData.root := "/repo";
     GraphData.nodes := nodes;
     GraphData.edges := edges;
     GraphData.totalFiles := 5;
     GraphData.ignoredCount := 1;
     GraphData.externalCount := 1 |}.

Definition focused : Page.View :=
  {| Page.showIgnored := false;
     Page.showExternal := false;
     Page.focusMode := true;
     Page.selectedNodeId := Some "a.ts";
     Page.focusDepth := 1 |}.

End PageDemo.

(** ** The ignore patterns of the browser scanner
    ([src/lib/browser-scan.ts]) *)

Module BrowserScan.

Definition normalizeGitignorePattern (dirRel rawPattern : string)
  : option string :=
  let pattern := Js.trim rawPattern in
  if Js.isEmpty pattern || Js.startsWith pattern "#" then None
  else
    let negated := Js.startsWith pattern "!" in
    let pattern := if negated then Js.drop 1 pattern else pattern in
    if Js.isEmpty pattern then None
    else
      let anchored := Js.startsWith pattern "/" in
      let pattern := if anchored then Js.drop 1 pattern else pattern in
      let hasSlash := Js.includes pattern "/" in
      let endsWithSlash := Js.endsWith pattern "/" in
      let base := dirRel in
      let prefixed :=
        if negb (Js.isEmpty base) then
          if anchored || hasSlash then Browser.posixJoin [base; pattern]
          else Browser.posixJoin [base; "**"; pattern]
        else if negb anchored && negb hasSlash
             then Browser.posixJoin ["**"; pattern]
        else pattern in
      let prefixed :=
        if endsWithSlash && negb (Js.endsWith prefixed "/")
        then prefixed +:+ "/" else prefixed in
      Some (if negated then "!" +:+ prefixed else prefixed).

Definition nodeTypeFromPath (relPath : string) : NodeType.t :=
  if String.eqb relPath "__external__" then NodeType.external
  else if Regex.test ROUTE_REGEX.app relPath
          || Regex.test ROUTE_REGEX.pages relPath then
    if (Js.includes relPath "/pages/" || Js.startsWith relPath "pages/")
       && Js.startsWith (Browser.posixBasename relPath) "_"
    then NodeType.module
    else NodeType.route
  else if Js.has STYLE_EXTENSIONS (Browser.posixExtname relPath)
  then NodeType.style
  else NodeType.module.

(** The node of a scanned, ignored or imported file. *)
Definition fileNode (relPath : string) (ignored : option bool)
  : GraphNode.t :=
  {| GraphNode.id := relPath;
     GraphNode.path := relPath;
     GraphNode.label := Browser.posixBasename relPath;
     GraphNode.type := nodeTypeFromPath relPath;
     GraphNode.ignored := ignored;
     GraphNode.symbolKind := None;
     GraphNode.parent := None;
     GraphNode.displayName := None |}.

(** [SUPPORTED_EXTENSIONS.has(posixExtname(relPath))] *)
Definition isSupportedFile (relPath : string) : bool :=
  Js.has SUPPORTED_EXTENSIONS (Browser.posixExtname relPath).

(** A [FileSystemDirectoryHandle]: its name and what [entries()] yields,
    in order.  The handle of an entry is a tree of the file system: a
    directory with its entries, or a file with the text that
    [getFile().text()] gives ([None] when [getFile] is rejected). *)
Record DirectoryHandle := {
  name : string;
  entries : list (string * FsNode)
}.

Record BrowserScanOptions := {
  rootHandle : DirectoryHandle;
  maxFiles : Js.Number;
  includeExternal : bool;
  granularity : option ScanGranularity.t
}.

(** The mutable variables of one [scanDirectoryHandle] call: those that
    [scanProject] has too ([scan]; its queue of files stays empty), the
    [Map] from path to file handle, in insertion order, and the [Set] of
    the directories walked. *)
Record State := {
  scan : ScanState;
  fileHandles : list (string * FsNode);
  dirSet : gset string
}.

Definition initial : State :=
  {| scan := initialState; fileHandles := []; dirSet := {[ "" ]} |}.

Definition onScan (f : ScanState -> ScanState) (st : State) : State :=
  {| scan := f (scan st);
     fileHandles := fileHandles st;
     dirSet := dirSet st |}.

(** [fileHandles.set(relPath, handle)] *)
Definition setFileHandle (relPath : string) (handle : FsNode) (st : State)
  : State :=
  {| scan := scan st;
     fileHandles := mapSet relPath handle (fileHandles st);
     dirSet := dirSet st |}.

(** [dirSet.add(relDir)] *)
Definition addDir (relDir : string) (st : State) : State :=
  {| scan := scan st;
     fileHandles := fileHandles st;
     dirSet := {[ relDir ]} ∪ dirSet st |}.

(** [await (await handle.getFile().catch(() => null))?.text()] *)
Definition textOf (handle : FsNode) : option string :=
  match handle with
  | FsFile content => content
  | FsDir _ => None
  end.

(** [options.granularity ?? 'file'] is ['symbol'] *)
Definition symbolMode (options : BrowserScanOptions) : bool :=
  match granularity options with
  | Some ScanGranularity.symbol => true
  | _ => false
  end.

Section Scanner.

(** The parser, what [traverse] throws, the matcher of the [ignore]
    package and the numerals, as for [scanProject]; the hash is
    [Browser.hashId]. *)
Variable parse : string -> option Ast.Node.
Variable traverseError : Ast.Node -> option string.
Variable ignores : list string -> string -> string + bool.
Variable formatNumber : Z -> positive -> string.

(** The result is the list returned, or the message of the error thrown:
    the call of [traverse] is not inside the [try]. *)
Definition extractDependencies (filePath code : string)
  : string + list Dependency.t :=
  let styleDeps :=
    if Js.has STYLE_EXTENSIONS (Browser.posixExtname filePath) then
      map (fun m : string * string =>
             {| Dependency.specifier := fst m;
                Dependency.type := EdgeType.style;
                Dependency.statement := Some (snd m);
                Dependency.loc := None;
                Dependency.imports := None |})
          (StyleImport.matches 0 code)
    else [] in
  if Js.has SCRIPT_EXTENSIONS (Browser.posixExtname filePath) then
    match parse code with
    | None => inr []
    | Some ast =>
        match traverseError ast with
        | Some err => inl err
        | None =>
            inr (flat_map (fun pn => visitDependency code (snd pn))
                          (Ast.preorder "" ast)
                 ++ styleDeps)
        end
    end
  else inr styleDeps.

Definition extractSymbols (filePath code : string)
  : string + list SymbolInfo.t :=
  if negb (Js.has SCRIPT_EXTENSIONS (Browser.posixExtname filePath))
  then inr []
  else
    match parse code with
    | None => inr []
    | Some ast =>
        match traverseError ast with
        | Some err => inl err
        | None =>
            let visited := Ast.preorder "" ast in
            let localKinds := fold_left visitLocalKind visited ∅ in
            inr (fst (fold_left (visitExport localKinds) visited ([], ∅)))
        end
    end.

(** The patterns in force in the directory [relDir], whose entries are
    [dirEntries]: the inherited ones followed by those of its own
    [.gitignore], when [getFileHandle] finds such a file. *)
Definition combinedPatternsOf (dirEntries : list (string * FsNode))
  (relDir : string) (patterns : list string) : list string :=
  let gitignoreContent :=
    match Fs.lookupEntry ".gitignore" dirEntries with
    | Some (FsFile content) => content
    | _ => None
    end in
  match truthy gitignoreContent with
  | Some gitignoreContent =>
      patterns ++
      List.filter (fun value => negb (Js.isEmpty value))
        (omap (normalizeGitignorePattern relDir)
              (Js.splitLines gitignoreContent))
  | None => patterns
  end.

Section Walk.

Variable options : BrowserScanOptions.

(** The loop [for await (const [name, handle] of dirHandle.entries())] of
    [walk(dirHandle, relDir, patterns)]; [walkDir] is the recursive call.
    The result is the message of the error thrown, or the state after the
    loop. *)
Section Entries.

Variable walkDir : FsNode -> string -> list string -> State -> string + State.
Variable relDir : string.
Variable combinedPatterns : list string.

Fixpoint walkEntries (dirEntries : list (string * FsNode)) (st : State)
  {struct dirEntries} : string + State :=
  match dirEntries with
  | [] => inr st
  | (name, handle) :: rest =>
      let relPath :=
        if negb (Js.isEmpty relDir) then relDir +:+ "/" +:+ name else name in
      if Js.isEmpty relPath then walkEntries rest st
      else
        match ignores combinedPatterns relPath with
        | inl err => inl err
        | inr true =>
            let st := onScan incIgnoredCount st in
            let st :=
              if Fs.isFile handle && isSupportedFile relPath
              then onScan (pushIgnoredNode (fileNode relPath (Some true))) st
              else st in
            walkEntries rest st
        | inr false =>
            if Fs.isDirectory handle then
              match walkDir handle relPath combinedPatterns st with
              | inl err => inl err
              | inr st => walkEntries rest st
              end
            else
              let st := onScan incTotalFiles st in
              if Js.exceeds (totalFiles (scan st)) (maxFiles options) then
                inl (capacityMessage formatNumber (maxFiles options))
              else if negb (isSupportedFile relPath) then
                walkEntries rest st
              else
                walkEntries rest
                  (setFileHandle relPath handle
                     (onScan (setNode relPath (fileNode relPath None)) st))
        end
  end.

End Entries.

(** [walk(dirHandle, relDir, patterns)]; it is called on the handles of
    directories only. *)
Fixpoint walk (dirHandle : FsNode) (relDir : string)
  (patterns : list string) (st : State) {struct dirHandle} : string + State :=
  match dirHandle with
  | FsFile _ => inr st
  | FsDir dirEntries =>
      walkEntries walk relDir
        (combinedPatternsOf dirEntries relDir patterns)
        dirEntries (addDir relDir st)
  end.

(** One iteration of the first
    [for (const [relPath, handle] of fileHandles.entries())] (symbol
    granularity only). *)
Definition collectSymbols (st : ScanState) (file : string * FsNode)
  : string + ScanState :=
  let '(relPath, handle) := file in
  match truthy (textOf handle) with
  | None => inr st
  | Some code =>
      let st := setFileContent relPath code st in
      match extractSymbols relPath code with
      | inl err => inl err
      | inr [] => inr st
      | inr symbols =>
          let '(entry, st) :=
            fold_left (addSymbolNode Browser.hashId relPath) symbols (∅, st) in
          inr (setSymbolEntry relPath entry st)
      end
  end.

(** The branch [if (resolved.external)] of the dependency loop. *)
Definition addExternal (relPath : string) (dep : Dependency.t)
  (st : ScanState) : ScanState :=
  let st := incExternalCount st in
  if negb (includeExternal options) then st
  else
    let st :=
      if negb (nodesHas st "__external__")
      then setNode "__external__" externalNode st
      else st in
    let edgeKey :=
      relPath +:+ "|__external__|external|" +:+ Dependency.specifier dep in
    if Js.has (edgeKeys st) edgeKey then st
    else
      pushEdge edgeKey
        {| GraphEdge.id := Browser.hashId edgeKey;
           GraphEdge.source := relPath;
           GraphEdge.target := "__external__";
           GraphEdge.type := EdgeType.external;
           GraphEdge.statement := Dependency.statement dep;
           GraphEdge.loc := Dependency.loc dep |} st.

(** The edges of a dependency resolved to the file [targetRel]: the edges
    to the imported symbols or, when none is created, the edge to the
    file. *)
Definition addInternalEdges (relPath targetRel : string)
  (dep : Dependency.t) (st : ScanState) : ScanState :=
  let '(st, createdSymbolEdge) :=
    if symbolMode options
       && match Dependency.imports dep with
          | Some (_ :: _) => true
          | _ => false
          end
    then
      match symbolMap st !! targetRel with
      | Some targetSymbols =>
          fold_left
            (addSymbolEdge Browser.hashId relPath targetRel dep targetSymbols)
            (default [] (Dependency.imports dep)) (st, false)
      | None => (st, false)
      end
    else (st, false) in
  if createdSymbolEdge then st
  else
    let targetExt := Browser.posixExtname targetRel in
    let edgeType :=
      if Js.has STYLE_EXTENSIONS targetExt then EdgeType.style
      else Dependency.type dep in
    let edgeKey :=
      relPath +:+ "|" +:+ targetRel +:+ "|" +:+ EdgeType.toString edgeType
        +:+ "|" +:+ default "" (Dependency.statement dep) in
    if Js.has (edgeKeys st) edgeKey then st
    else
      pushEdge edgeKey
        {| GraphEdge.id := Browser.hashId edgeKey;
           GraphEdge.source := relPath;
           GraphEdge.target := targetRel;
           GraphEdge.type := edgeType;
           GraphEdge.statement := Js.take 200 <$> Dependency.statement dep;
           GraphEdge.loc := Dependency.loc dep |} st.

(** The rest of the loop body, for a dependency resolved to the file
    [targetRel] of the file set. *)
Definition addInternal (relPath targetRel : string) (dep : Dependency.t)
  (st : ScanState) : ScanState :=
  let st :=
    if negb (nodesHas st targetRel)
    then setNode targetRel (fileNode targetRel None) st
    else st in
  addInternalEdges relPath targetRel dep st.

(** One iteration of [for (const dep of dependencies)]; the file set holds
    the files that the walk kept, not those it ignored. *)
Definition addDependency (fileSet dirs : gset string) (relPath : string)
  (st : ScanState) (dep : Dependency.t) : ScanState :=
  match Browser.resolveImport relPath (Dependency.specifier dep)
          fileSet dirs with
  | None => st
  | Some resolved =>
      if Resolution.external resolved then addExternal relPath dep st
      else
        match truthy (Resolution.resolved resolved) with
        | None => st
        | Some targetRel => addInternal relPath targetRel dep st
        end
  end.

(** One iteration of the second
    [for (const [relPath, handle] of fileHandles.entries())]. *)
Definition collectDependencies (fileSet dirs : gset string)
  (st : ScanState) (file : string * FsNode) : string + ScanState :=
  let '(relPath, handle) := file in
  let code :=
    match fileContents st !! relPath with
    | Some code => Some code
    | None => textOf handle
    end in
  match truthy code with
  | None => inr st
  | Some code =>
      match extractDependencies relPath code with
      | inl err => inl err
      | inr dependencies =>
          inr (fold_left (addDependency fileSet dirs relPath) dependencies st)
      end
  end.

End Walk.

(** [rootHandle.name || 'Selected folder'] *)
Definition rootLabel (options : BrowserScanOptions) : string :=
  if Js.isEmpty (name (rootHandle options)) then "Selected folder"
  else name (rootHandle options).

(** [scanDirectoryHandle(options)]: the graph returned, or the message of
    the error thrown. *)
Definition scanDirectoryHandle (options : BrowserScanOptions)
  : string + GraphData.t :=
  match walk options (FsDir (entries (rootHandle options))) ""
          ALWAYS_IGNORE initial with
  | inl err => inl err
  | inr walked =>
      let st :=
        fold_left (fun st ignoredNode =>
                     setNode (GraphNode.id ignoredNode) ignoredNode st)
          (ignoredNodes (scan walked)) (scan walked) in
      let fileSet : gset string := list_to_set (map fst (fileHandles walked)) in
      match (if symbolMode options
             then forEach collectSymbols (fileHandles walked) st
             else inr st) with
      | inl err => inl err
      | inr st =>
          match forEach (collectDependencies options fileSet (dirSet walked))
                  (fileHandles walked) st with
          | inl err => inl err
          | inr st => inr (graphOf (rootLabel options) st)
          end
      end
  end.

End Scanner.

End BrowserScan.

(** The instance of the examples, for the browser scanner. *)
Module BrowserDemo.

Definition options (name : string) (entries : list (string * FsNode))
  (maxFiles : Z) (includeExternal : bool)
  (granularity : option ScanGranularity.t) : BrowserScan.BrowserScanOptions :=
  {| BrowserScan.rootHandle :=
       {| BrowserScan.name := name; BrowserScan.entries := entries |};
     BrowserScan.maxFiles := Js.ofZ maxFiles;
     BrowserScan.includeExternal := includeExternal;
     BrowserScan.granularity := granularity |}.

Definition scan (o : BrowserScan.BrowserScanOptions) : string + GraphData.t :=
  BrowserScan.scanDirectoryHandle Demo.parse Demo.traverseError Demo.ignores
    Demo.formatNumber o.

End BrowserDemo.

(** ** The watch manager ([src/lib/watch-manager.ts])

    The manager keeps one entry per watched root.  The entries are
    objects shared between the [watchers] map and the functions that
    [subscribe] returns, so they live in a store and are referred to by
    their index. *)

Module Watch.

(** A [WatchEntry].  Of the chokidar watcher only whether it has been
    closed is kept; [listeners] are the listeners of the [change] event of
    the emitter, in the order of their registration, a callback being
    known by a number. *)
Record WatchEntry := {
  closed : bool;
  listeners : list nat;
  refCount : Z
}.

(** The entries created so far and the [watchers] map. *)
Record Manager := {
  entries : list WatchEntry;
  watchers : gmap string nat
}.

Definition empty : Manager := {| entries := []; watchers := ∅ |}.

Definition update (entry : nat) (f : WatchEntry -> WatchEntry) (m : Manager)
  : Manager :=
  {| entries := alter f entry (entries m); watchers := watchers m |}.

Definition ensureWatcher (root : string) (m : Manager) : Manager * nat :=
  match watchers m !! root with
  | Some entry => (m, entry)
  | None =>
      let entry := length (entries m) in
      ({| entries :=
            entries m
            ++ [{| closed := false; listeners := []; refCount := 0 |}];
          watchers := <[root := entry]> (watchers m) |},
       entry)
  end.

Fixpoint removeFirst (x : nat) (xs : list nat) : list nat :=
  match xs with
  | [] => []
  | y :: ys => if decide (x = y) then ys else y :: removeFirst x ys
  end.

(** [emitter.off('change', listener)]: the instance added last is
    removed. *)
Definition off (listener : nat) (xs : list nat) : list nat :=
  rev (removeFirst listener (rev xs)).

(** The function that [subscribe] returns closes over the entry, the root
    and the callback. *)
Record Subscription := {
  entry : nat;
  root : string;
  onChange : nat
}.

Definition subscribe (root : string) (onChange : nat) (m : Manager)
  : Manager * Subscription :=
  let '(m, entry) := ensureWatcher root m in
  let m :=
    update entry
      (fun e => {| closed := closed e;
                   listeners := listeners e;
                   refCount := refCount e + 1 |}) m in
  let m :=
    update entry
      (fun e => {| closed := closed e;
                   listeners := listeners e ++ [onChange];
                   refCount := refCount e |}) m in
  (m, {| entry := entry; root := root; onChange := onChange |}).

(** A call of the function returned by [subscribe]. *)
Definition unsubscribe (s : Subscription) (m : Manager) : Manager :=
  let m :=
    update (entry s)
      (fun e => {| closed := closed e;
                   listeners := listeners e;
                   refCount := refCount e - 1 |}) m in
  let m :=
    update (entry s)
      (fun e => {| closed := closed e;
                   listeners := off (onChange s) (listeners e);
                   refCount := refCount e |}) m in
  match entries m !! entry s with
  | Some e =>
      if (refCount e <=? 0)%Z then
        {| entries :=
             alter (fun e => {| closed := true;
                                listeners := listeners e;
                                refCount := refCount e |})
                   (entry s) (entries m);
           watchers := delete (root s) (watchers m) |}
      else m
  | None => m
  end.

(** The callbacks run when the watcher of [entry] reports an event: a
    closed watcher reports none. *)
Definition notified (m : Manager) (entry : nat) : list nat :=
  match entries m !! entry with
  | Some e => if closed e then [] else listeners e
  | None => []
  end.

End Watch.

#[global] Instance subscription_eq_dec : EqDecision Watch.Subscription.
Proof. solve_decision. Defined.

(** The subscriptions of [live] that hold the entry [entry]. *)
Definition subscriptionsOf (entry : nat) (live : list Watch.Subscription)
  : list Watch.Subscription :=
  filter (fun s => Watch.entry s = entry) live.

(** [live] without one occurrence of [s]. *)
Fixpoint withoutOne (s : Watch.Subscription) (live : list Watch.Subscription)
  : list Watch.Subscription :=
  match live with
  | [] => []
  | s' :: rest => if decide (s = s') then rest else s' :: withoutOne s rest
  end.

(** The states of the manager together with the subscriptions that have
    not been ended, when every function returned by [subscribe] is called
    at most once. *)
Inductive Subscribed : Watch.Manager -> list Watch.Subscription -> Prop :=
| subscribed_empty : Subscribed Watch.empty []
| subscribed_subscribe m live root onChange :
    Subscribed m live ->
    Subscribed (fst (Watch.subscribe root onChange m))
               (live ++ [snd (Watch.subscribe root onChange m)])
| subscribed_unsubscribe m live s :
    Subscribed m live ->
    s ∈ live ->
    Subscribed (Watch.unsubscribe s m) (withoutOne s live).

(** The registry agrees with the live subscriptions. *)
Record Registered (m : Watch.Manager) (live : list Watch.Subscription)
  : Prop := {
  registered_live :
    forall s, s ∈ live ->
      Watch.watchers m !! Watch.root s = Some (Watch.entry s);
  registered_entry :
    forall root entry, Watch.watchers m !! root = Some entry ->
      exists e,
        Watch.entries m !! entry = Some e
        /\ Watch.closed e = false
        /\ (0 < Watch.refCount e)%Z
        /\ Watch.refCount e = Z.of_nat (length (Watch.listeners e))
        /\ Watch.listeners e
           ≡ₚ map Watch.onChange (subscriptionsOf entry live);
  registered_open :
    forall entry e, Watch.entries m !! entry = Some e ->
      Watch.closed e = false ->
      exists root, Watch.watchers m !! root = Some entry;
  registered_once :
    forall root1 root2 entry,
      Watch.watchers m !! root1 = Some entry ->
      Watch.watchers m !! root2 = Some entry -> root1 = root2
}.

(** ** The path shapes of node typing

    What the two [ROUTE_REGEX] patterns and the tests on the base name and
    the extension stand for, in terms of the path alone. *)

(** The meaning of a pattern: [Matches atStart atEnd r s] says that [r]
    matches the piece [s] of the input, where [atStart] tells whether the
    piece begins where the input begins, and [atEnd] whether it ends where
    the input ends. *)
Inductive Matches : bool -> bool -> Regex.t -> string -> Prop :=
| MatchesEps (b e : bool) : Matches b e Regex.Eps ""
| MatchesBol (e : bool) : Matches true e Regex.Bol ""
| MatchesEol (b : bool) : Matches b true Regex.Eol ""
| MatchesChr (b e : bool) (c : ascii) :
    Matches b e (Regex.Chr c) (String c "")
| MatchesDot (b e : bool) (c : ascii) :
    Regex.isLineTerminator c = false ->
    Matches b e Regex.Dot (String c "")
| MatchesSeq (b e : bool) (r1 r2 : Regex.t) (s1 s2 : string) :
    Matches b (e && Js.isEmpty s2) r1 s1 ->
    Matches (b && Js.isEmpty s1) e r2 s2 ->
    Matches b e (Regex.Seq r1 r2) (s1 +:+ s2)
| MatchesAltL (b e : bool) (r1 r2 : Regex.t) (s : string) :
    Matches b e r1 s -> Matches b e (Regex.Alt r1 r2) s
| MatchesAltR (b e : bool) (r1 r2 : Regex.t) (s : string) :
    Matches b e r2 s -> Matches b e (Regex.Alt r1 r2) s
| MatchesStarNil (b e : bool) (r : Regex.t) : Matches b e (Regex.Star r) ""
| MatchesStarCons (b e : bool) (r : Regex.t) (s1 s2 : string) :
    Matches b (e && Js.isEmpty s2) r s1 ->
    Matches (b && Js.isEmpty s1) e (Regex.Star r) s2 ->
    Matches b e (Regex.Star r) (s1 +:+ s2).

(** [re.test(s)]: the pattern matches some piece of the input that ends
    where the input ends. *)
Definition Found (r : Regex.t) (s : string) : Prop :=
  exists before piece,
    s = before +:+ piece /\ Matches (Js.isEmpty before) true r piece.

(** The extensions that the route patterns accept, and the style
    extensions. *)
Definition routeExtension (ext : string) : Prop :=
  ext = ".ts" \/ ext = ".tsx" \/ ext = ".js" \/ ext = ".jsx".

Definition styleExtension (ext : string) : Prop :=
  ext = ".css" \/ ext = ".scss" \/ ext = ".sass".

(** What follows [before] in a path starts a component: [before] is empty
    or ends with a slash. *)
Definition componentStart (before : string) : Prop :=
  before = "" \/ exists p, before = p +:+ "/".

(** No line feed and no carriage return. *)
Definition singleLine (s : string) : Prop :=
  freeOf "010" s = true /\ freeOf "013" s = true.

(** [page] or [route] with a route extension, in a directory named [app]
    or at any depth below one. *)
Definition appRouteFile (relPath : string) : Prop :=
  exists before dirs name ext,
    relPath = before +:+ "app/" +:+ dirs +:+ name +:+ ext
    /\ componentStart before
    /\ componentStart dirs /\ singleLine dirs
    /\ (name = "page" \/ name = "route")
    /\ routeExtension ext.

(** A path that goes through a directory named [pages] and, after at
    least one more character, ends with a route extension. *)
Definition pagesRouteFile (relPath : string) : Prop :=
  exists before rest ext,
    relPath = before +:+ "pages/" +:+ rest +:+ ext
    /\ componentStart before
    /\ rest <> "" /\ singleLine rest
    /\ routeExtension ext.

(** A path that goes through a directory named [pages]. *)
Definition belowPages (relPath : string) : Prop :=
  exists before rest,
    relPath = before +:+ "pages/" +:+ rest /\ componentStart before.

(** [base] is the last component of the path, slashes behind it apart. *)
Definition lastComponent (relPath base : string) : Prop :=
  exists dir tail,
    relPath = dir +:+ base +:+ tail
    /\ componentStart dir
    /\ base <> "" /\ freeOf "/" base = true
    /\ allChars (Ascii.eqb "/") tail = true.

(** The last component starts with an underscore. *)
Definition underscoreNamed (relPath : string) : Prop :=
  exists name, lastComponent relPath (String "_" name).

(** The last component is a name, not empty, followed by a style
    extension. *)
Definition styleNamed (relPath : string) : Prop :=
  exists stem ext,
    stem <> "" /\ styleExtension ext
    /\ lastComponent relPath (stem +:+ ext).
(** * Properties *)

(** ** Node typing *)

(** The type that [nodeTypeFromPath] gives to a path other than the sentinel
    id, by the conditions it tests. *)
Lemma nodeTypeFromPath_cases (relPath : string) :
  relPath <> "__external__" ->
  (nodeTypeFromPath relPath = NodeType.route
     <-> routeShaped relPath = true /\ underscoredInPages relPath = false)
  /\ (nodeTypeFromPath relPath = NodeType.style
     <-> routeShaped relPath = false /\ styleFile relPath = true)
  /\ (nodeTypeFromPath relPath = NodeType.module
     <-> (routeShaped relPath = true /\ underscoredInPages relPath = true)
         \/ (routeShaped relPath = false /\ styleFile relPath = false))
  /\ nodeTypeFromPath relPath <> NodeType.symbol
  /\ nodeTypeFromPath relPath <> NodeType.external.
Proof.
  intros Hne. unfold nodeTypeFromPath.
  apply String.eqb_neq in Hne. rewrite Hne.
  fold (routeShaped relPath) (underscoredInPages relPath) (styleFile relPath).
  destruct (routeShaped relPath), (underscoredInPages relPath),
    (styleFile relPath); simpl; intuition congruence.
Qed.

(** ** Dependency extraction: call expressions *)

Section CallExpressions.

Variable parse : string -> option Ast.Node.
Variable traverseError : Ast.Node -> option string.

Lemma visitDependency_call (code : string) (b : Ast.Base)
  (callee : Ast.Node) (arguments : list Ast.Node) :
  visitDependency code (Ast.CallExpression b callee arguments) =
  match calleeKind callee, firstStringLiteral arguments with
  | Some kind, Some value => [ mkDependency code b value kind None ]
  | _, _ => []
  end.
Proof.
  unfold visitDependency, calleeKind.
  destruct callee; try reflexivity.
  - destruct (firstStringLiteral arguments); reflexivity.
  - destruct (String.eqb name "require"); [|reflexivity].
    destruct (firstStringLiteral arguments); reflexivity.
Qed.

Lemma script_not_style (filePath : string) :
  Js.has SCRIPT_EXTENSIONS (Path.extname filePath) = true ->
  Js.has STYLE_EXTENSIONS (Path.extname filePath) = false.
Proof.
  unfold Js.has, SCRIPT_EXTENSIONS, STYLE_EXTENSIONS. simpl.
  rewrite !orb_false_r, !orb_true_iff.
  intros H.
  repeat match goal with
         | H : _ \/ _ |- _ => destruct H as [H|H]
         end;
    apply String.eqb_eq in H; rewrite H; reflexivity.
Qed.

(** Claim C8, amended: in a script file that parses, the extraction
    throws when the traversal of the tree throws; when it does not, the
    dependency records are exactly the ones the visitor pushes node by
    node, and a call [import(...)] or [require(...)] pushes one record
    when its first argument is a string literal, whatever arguments
    follow, and none otherwise. *)
Theorem call_recorded_iff_first_argument_literal
  (filePath code : string) (ast : Ast.Node) :
  Js.has SCRIPT_EXTENSIONS (Path.extname filePath) = true ->
  parse code = Some ast ->
  extractDependencies parse traverseError filePath code
    = match traverseError ast with
      | Some err => inl err
      | None =>
          inr (flat_map (fun pn => visitDependency code (snd pn))
                        (Ast.preorder "" ast))
      end
  /\ forall (b : Ast.Base) (callee : Ast.Node) (arguments : list Ast.Node)
       (kind : EdgeType.t),
       calleeKind callee = Some kind ->
       (forall value rest,
           arguments = Ast.StringLiteral value :: rest ->
           visitDependency code (Ast.CallExpression b callee arguments)
             = [ mkDependency code b value kind None ])
       /\ (firstStringLiteral arguments = None ->
           visitDependency code (Ast.CallExpression b callee arguments) = []).
Proof.
  intros Hscript Hparse. split.
  - unfold extractDependencies.
    rewrite Hscript, Hparse, (script_not_style _ Hscript).
    destruct (traverseError ast); [done|]. by rewrite app_nil_r.
  - intros b callee arguments kind Hkind. rewrite visitDependency_call, Hkind.
    split.
    + intros value rest ->. reflexivity.
    + intros ->. reflexivity.
Qed.

End CallExpressions.

(** Claim C8, at the input that refutes it: [require('a', 'b')] has two
    arguments and still yields a dependency record, for its first one. *)
Lemma require_with_two_arguments_is_recorded :
  extractDependencies Demo.parse Demo.traverseError "x.js"
    Demo.requireTwoArguments
  = inr [ {| Dependency.specifier := "a";
             Dependency.type := EdgeType.static;
             Dependency.statement := Some "require('a', 'b')";
             Dependency.loc := Some {| line := 1; column := 0 |};
             Dependency.imports := None |} ].
Proof. vm_compute. reflexivity. Qed.

(** The theorem at [require('a', 'b')], where the traversal runs to its
    end, and at [import a, { a } from './b'], where it throws. *)
Lemma call_recorded_iff_first_argument_literal_witness :
  (Js.has SCRIPT_EXTENSIONS (Path.extname "x.js") = true
   /\ Demo.parse Demo.requireTwoArguments
      = Some (Demo.program
          [Ast.Other "ExpressionStatement"
             [Ast.CallExpression (Demo.wholeText Demo.requireTwoArguments)
                (Ast.Identifier "require")
                [Ast.StringLiteral "a"; Ast.StringLiteral "b"]]])
   /\ extractDependencies Demo.parse Demo.traverseError "x.js"
        Demo.requireTwoArguments
      = inr (flat_map
               (fun pn => visitDependency Demo.requireTwoArguments (snd pn))
               (Ast.preorder ""
                  (Demo.program
                     [Ast.Other "ExpressionStatement"
                        [Ast.CallExpression
                           (Demo.wholeText Demo.requireTwoArguments)
                           (Ast.Identifier "require")
                           [Ast.StringLiteral "a";
                            Ast.StringLiteral "b"]]]))))
  /\ extractDependencies Demo.parse Demo.traverseError "x.js"
       Demo.importTwice
     = inl ("Duplicate declaration "
              +:+ String "034" ("a" +:+ String "034" EmptyString)).
Proof.
  split; [split; [reflexivity|]; split; [reflexivity|]|].
  - exact (proj1 (call_recorded_iff_first_argument_literal Demo.parse
                    Demo.traverseError "x.js" Demo.requireTwoArguments
                    _ eq_refl eq_refl)).
  - exact (proj1 (call_recorded_iff_first_argument_literal Demo.parse
                    Demo.traverseError "x.js" Demo.importTwice
                    (Demo.importOnly Demo.importTwice "./b"
                       [Ast.ImportDefaultSpecifier "a"; Demo.named "a"])
                    eq_refl eq_refl)).
Defined.

(** ** Resolution and the root boundary *)

(** Claim C5, on the server resolver: with the root [/home/u/proj], the
    specifier [../proj2/x] written in [/home/u/proj/a.ts] leads to the
    candidate [/home/u/proj2/x.ts], which lies outside the root; since the
    root is a prefix of that string, the reference is reported as resolved
    inside the tree, and the scan returns an edge from [a.ts] to
    [../proj2/x.ts]. *)
Lemma sibling_directory_passes_prefix_check :
  resolveImport Demo.siblingTree "/" "/home/u/proj" "/home/u/proj/a.ts"
    "../proj2/x"
  = Some {| Resolution.external := false;
            Resolution.resolved := Some "/home/u/proj2/x.ts" |}
  /\ Path.relative "/" "/home/u/proj" "/home/u/proj2/x.ts" = "../proj2/x.ts"
  /\ match Demo.scan Demo.siblingTree
             (Demo.options "/home/u/proj" 5000 false None) with
     | inr g =>
         map (fun e => (GraphEdge.source e, GraphEdge.target e, GraphEdge.type e))
             (GraphData.edges g)
         = [("a.ts", "../proj2/x.ts", EdgeType.static)]
         /\ GraphData.externalCount g = 0%Z
     | inl _ => False
     end.
Proof. vm_compute. repeat split; reflexivity. Qed.

(** The browser resolver keeps the boundary: as soon as the normalized
    candidate has escaped the root, the reference is external, whatever
    files exist. *)
Lemma browser_escaped_candidate_is_external
  (fromFile specifier : string) (fileSet dirSet : gset string)
  (r : Resolution.t) :
  Browser.resolveImport fromFile specifier fileSet dirSet = Some r ->
  Browser.escapedRoot
    (Browser.normalizePosixPath
       (let clean := Js.splitHead "#" (Js.splitHead "?" specifier) in
        if Js.startsWith clean "@/" then Js.drop 2 clean
        else if Js.startsWith clean "/" then Js.drop 1 clean
        else Browser.posixJoin [Browser.posixDirname fromFile; clean])) = true ->
  r = {| Resolution.external := true; Resolution.resolved := None |}.
Proof.
  unfold Browser.resolveImport.
  destruct (Js.isEmpty specifier || Js.startsWith specifier "http");
    [discriminate|].
  cbv zeta.
  set (clean := Js.splitHead "#" (Js.splitHead "?" specifier)).
  destruct (Js.startsWith clean "@/").
  { intros H Hesc. rewrite Hesc, orb_true_r in H. congruence. }
  destruct (Js.startsWith clean "/").
  { intros H Hesc. rewrite Hesc, orb_true_r in H. congruence. }
  destruct (Js.startsWith clean ".").
  { intros H Hesc. rewrite Hesc, orb_true_r in H. congruence. }
  intros H _. congruence.
Qed.

(** ** The run of the scanner is a sequence of steps *)

(** Induction on the tree of the file system. *)
Lemma FsNode_tree_ind (P : FsNode -> Prop) :
  (forall content, P (FsFile content)) ->
  (forall entries, Forall (fun e => P (snd e)) entries -> P (FsDir entries)) ->
  forall node, P node.
Proof.
  intros Hfile Hdir.
  fix IH 1. intros [content|entries].
  - apply Hfile.
  - apply Hdir. induction entries as [|[name entry] rest IHrest].
    + constructor.
    + constructor; [apply IH | apply IHrest].
Qed.

Lemma has_true_iff (xs : list string) (x : string) :
  Js.has xs x = true <-> x ∈ xs.
Proof.
  unfold Js.has. rewrite existsb_exists. split.
  - intros [y [Hin Heq]]. apply String.eqb_eq in Heq. subst.
    by apply list_elem_of_In.
  - intros Hin. exists x. split; [by apply list_elem_of_In|].
    apply String.eqb_refl.
Qed.

Lemma has_false_iff (xs : list string) (x : string) :
  Js.has xs x = false <-> x ∉ xs.
Proof.
  rewrite <- has_true_iff. destruct (Js.has xs x); split; congruence.
Qed.

Section ScanTrace.

Variable parse : string -> option Ast.Node.
Variable traverseError : Ast.Node -> option string.
Variable ignores : list string -> string -> string + bool.
Variable hashId : string -> string.
Variable formatNumber : Z -> positive -> string.
Variable fs : FsNode.
Variable cwd : string.

Local Abbreviation Steps := (rtc (Step hashId)).

Lemma steps_then (st1 st2 st3 : ScanState) :
  Steps st1 st2 -> Step hashId st2 st3 -> Steps st1 st3.
Proof. intros H12 H23. eapply rtc_trans; [exact H12|by apply rtc_once]. Qed.

Lemma steps_fold {A : Type} (f : ScanState -> A -> ScanState) (l : list A) :
  (forall st x, x ∈ l -> Steps st (f st x)) ->
  forall st, Steps st (fold_left f l st).
Proof.
  induction l as [|x l IH]; intros Hf st; simpl.
  - apply rtc_refl.
  - eapply rtc_trans.
    + apply Hf. by left.
    + apply IH. intros st' y Hy. apply Hf. by right.
Qed.

Lemma forEach_steps {A : Type} (f : ScanState -> A -> string + ScanState)
  (l : list A) :
  (forall st x st', x ∈ l -> f st x = inr st' -> Steps st st') ->
  forall st st', forEach f l st = inr st' -> Steps st st'.
Proof.
  induction l as [|x l IH]; intros Hf st st'; cbn [forEach].
  - intros [= <-]. apply rtc_refl.
  - destruct (f st x) as [err|st1] eqn:Hx; [discriminate|]. intros Hrest.
    eapply rtc_trans.
    + eapply Hf; [by left|exact Hx].
    + eapply IH; [|exact Hrest]. intros st0 y st0' Hy. apply Hf. by right.
Qed.

(** *** The walk *)

Lemma walkEntries_steps (options : ScanOptions) (rootPath : string)
  (walkDir : string -> list string -> FsNode -> ScanState -> string + ScanState)
  (dir : string) (combined : list string) (entries : list (string * FsNode)) :
  Forall (fun e => forall dir' patterns st st',
              walkDir dir' patterns (snd e) st = inr st' -> Steps st st')
         entries ->
  forall st st',
    walkEntries ignores formatNumber cwd options rootPath walkDir dir
      combined entries st
      = inr st' ->
    Steps st st'.
Proof.
  induction 1 as [|[name entry] rest Hentry Hrest IH]; intros st st'; simpl.
  - intros [= <-]. apply rtc_refl.
  - destruct (Js.isEmpty _); [apply IH|].
    destruct (ignores combined _) as [err|[|]]; [discriminate| |].
    { intros Hrun. apply IH in Hrun. eapply rtc_trans; [|exact Hrun].
      destruct (negb (Fs.isDirectory entry) && isSupportedFile _).
      - eapply steps_then; [apply rtc_once|]; constructor.
      - apply rtc_once. constructor. }
    destruct (Fs.isDirectory entry).
    { destruct (walkDir _ _ entry st) as [err|st1] eqn:Hdir; [discriminate|].
      intros Hrun. eapply rtc_trans; [by eapply Hentry|by apply IH]. }
    destruct (Js.exceeds _ _); [discriminate|].
    destruct (negb (isSupportedFile _)).
    { intros Hrun. eapply rtc_trans; [|by apply IH].
      apply rtc_once. constructor. }
    intros Hrun. eapply rtc_trans; [|by apply IH].
    eapply steps_then; [eapply steps_then; [apply rtc_once|]|]; constructor.
Qed.

Lemma walk_steps (options : ScanOptions) (rootPath : string) (node : FsNode) :
  forall dir patterns st st',
    walk ignores formatNumber fs cwd options rootPath dir patterns node st
      = inr st' ->
    Steps st st'.
Proof.
  induction node as [content|entries IH] using FsNode_tree_ind;
    intros dir patterns st st'; simpl.
  - intros [= <-]. apply rtc_refl.
  - apply walkEntries_steps. exact IH.
Qed.

(** *** Invariants of the steps *)

(** A property of the state that every step keeps holds after any number
    of steps. *)
Lemma steps_invariant (P : ScanState -> Prop) :
  (forall st st', Step hashId st st' -> P st -> P st') ->
  forall st st', Steps st st' -> P st -> P st'.
Proof. intros Hstep st st' Hsteps. induction Hsteps; eauto. Qed.

Lemma step_ignoredAreFiles (st st' : ScanState) :
  Step hashId st st' -> ignoredAreFiles st -> ignoredAreFiles st'.
Proof.
  unfold ignoredAreFiles. destruct 1; simpl; try done.
  intros H. apply Forall_app. split; [done|].
  constructor; [by eexists|constructor].
Qed.

(** *** The passes over the queued files *)

Lemma ignored_fold_steps (ns : list GraphNode.t) :
  Forall (fun n => exists relPath, n = fileNode relPath (Some true)) ns ->
  forall st,
    Steps st
      (fold_left (fun st ignoredNode =>
                    setNode (GraphNode.id ignoredNode) ignoredNode st) ns st).
Proof.
  intros Hns. apply steps_fold. intros st n Hn.
  rewrite Forall_forall in Hns. destruct (Hns n Hn) as [relPath ->].
  apply rtc_once. simpl. constructor.
Qed.

Lemma addSymbolNode_steps (relPath : string) (symbol : SymbolInfo.t)
  (entry : gmap string SymbolInfo.t) (st : ScanState) :
  Steps st (snd (addSymbolNode hashId relPath (entry, st) symbol)).
Proof.
  unfold addSymbolNode. simpl.
  set (symbolId := relPath +:+ "::" +:+ SymbolInfo.name symbol).
  set (st1 := if negb (nodesHas st symbolId) then _ else st).
  assert (Steps st st1) as H1.
  { subst st1. destruct (nodesHas st symbolId) eqn:Hhas; simpl.
    - apply rtc_refl.
    - apply rtc_once. by constructor. }
  eapply rtc_trans; [exact H1|].
  destruct (Js.has (edgeKeys st1) _) eqn:Hkey; simpl.
  - apply rtc_refl.
  - apply rtc_once. constructor; [|exact Hkey].
    apply (push_contains hashId relPath symbolId).
Qed.

Lemma addSymbolNodes_steps (relPath : string) (symbols : list SymbolInfo.t) :
  forall entry st,
    Steps st (snd (fold_left (addSymbolNode hashId relPath) symbols (entry, st))).
Proof.
  induction symbols as [|symbol symbols IH]; intros entry st; cbn [fold_left].
  - apply rtc_refl.
  - destruct (addSymbolNode hashId relPath (entry, st) symbol)
      as [entry1 st1] eqn:Hone.
    eapply rtc_trans; [|apply IH].
    pose proof (addSymbolNode_steps relPath symbol entry st) as H.
    rewrite Hone in H. exact H.
Qed.

Lemma collectSymbols_steps (rootPath fullPath : string)
  (st st' : ScanState) :
  collectSymbols parse traverseError hashId fs cwd rootPath st fullPath
  = inr st' ->
  Steps st st'.
Proof.
  unfold collectSymbols.
  destruct (truthy (Fs.readFile fs cwd fullPath)) as [code|];
    [|intros [= <-]; apply rtc_refl].
  destruct (extractSymbols parse traverseError fullPath code)
    as [err|[|symbol symbols]] eqn:Hsym; [discriminate| |].
  - intros [= <-]. apply rtc_once. apply step_content.
  - pose proof (addSymbolNodes_steps
                  (posixPath (Path.relative cwd rootPath fullPath))
                  (symbol :: symbols) ∅ (setFileContent fullPath code st)) as H.
    destruct (fold_left _ (symbol :: symbols) _) as [entry st1].
    intros [= <-].
    eapply rtc_trans; [apply rtc_once; apply step_content|].
    eapply steps_then; [exact H|]. apply step_symbols.
Qed.

Lemma visitDependency_types (code : string) (n : Ast.Node) (dep : Dependency.t) :
  dep ∈ visitDependency code n -> extractedType (Dependency.type dep).
Proof.
  unfold extractedType.
  destruct n; simpl; try (intros H; by apply elem_of_nil in H).
  - intros ->%list_elem_of_singleton. by left.
  - destruct source; [|intros H; by apply elem_of_nil in H].
    intros ->%list_elem_of_singleton. by left.
  - destruct source; [|intros H; by apply elem_of_nil in H].
    intros ->%list_elem_of_singleton. by left.
  - fold (calleeKind n). rewrite elem_of_app. intros [H|H].
    + destruct n; try (by apply elem_of_nil in H).
      destruct (firstStringLiteral arguments); [|by apply elem_of_nil in H].
      apply list_elem_of_singleton in H as ->. right; by left.
    + destruct n; try (by apply elem_of_nil in H).
      destruct (String.eqb name "require"); [|by apply elem_of_nil in H].
      destruct (firstStringLiteral arguments); [|by apply elem_of_nil in H].
      apply list_elem_of_singleton in H as ->. by left.
Qed.

Lemma extractDependencies_types (filePath code : string)
  (dependencies : list Dependency.t) (dep : Dependency.t) :
  extractDependencies parse traverseError filePath code = inr dependencies ->
  dep ∈ dependencies ->
  extractedType (Dependency.type dep).
Proof.
  unfold extractDependencies.
  set (styleDeps := if Js.has STYLE_EXTENSIONS _ then _ else []).
  assert (dep ∈ styleDeps -> extractedType (Dependency.type dep)) as Hstyle.
  { subst styleDeps. destruct (Js.has STYLE_EXTENSIONS _);
      [|intros H; by apply elem_of_nil in H].
    rewrite list_elem_of_In, in_map_iff. intros [m [<- _]].
    right; by right. }
  destruct (Js.has SCRIPT_EXTENSIONS _); [|by intros [= <-]].
  destruct (parse code) as [ast|];
    [|intros [= <-] H; by apply elem_of_nil in H].
  destruct (traverseError ast); [discriminate|]. intros [= <-].
  rewrite elem_of_app. intros [H|H]; [|by apply Hstyle].
  apply list_elem_of_In, in_flat_map in H as [pn [_ H]].
  eapply visitDependency_types. apply list_elem_of_In. exact H.
Qed.

Section DependencyPass.

Variable options : ScanOptions.
Variable rootPath : string.

Lemma addExternal_steps (relPath : string) (dep : Dependency.t)
  (st : ScanState) :
  Steps st (addExternal hashId options relPath dep st).
Proof.
  unfold addExternal.
  assert (Steps st (incExternalCount st)) as H0
    by (apply rtc_once, step_counters).
  destruct (negb (includeExternal options)); [exact H0|].
  set (st1 := if negb (nodesHas (incExternalCount st) "__external__")
              then _ else _).
  assert (Steps st st1) as H1.
  { subst st1.
    destruct (nodesHas (incExternalCount st) "__external__") eqn:Hhas; simpl.
    - exact H0.
    - eapply steps_then; [exact H0|]. by apply step_externalNode. }
  destruct (Js.has (edgeKeys st1) _) eqn:Hkey; [exact H1|].
  eapply steps_then; [exact H1|].
  apply step_edge; [|exact Hkey].
  apply (push_external hashId relPath dep).
Qed.

Lemma addSymbolEdge_steps (relPath targetRel : string) (dep : Dependency.t)
  (targetSymbols : gmap string SymbolInfo.t) (binding : ImportBinding.t)
  (st : ScanState) (created : bool) :
  extractedType (Dependency.type dep) ->
  Steps st (fst (addSymbolEdge hashId relPath targetRel dep targetSymbols
                   (st, created) binding)).
Proof.
  intros Hty. unfold addSymbolEdge.
  destruct (ImportBinding.kind binding);
    try apply rtc_refl;
    (destruct (targetSymbols !! _); [|apply rtc_refl];
     destruct (Js.has (edgeKeys st) _) eqn:Hkey; [apply rtc_refl|];
     apply rtc_once, step_edge; [|exact Hkey];
     by apply (push_internal hashId relPath _ (Dependency.type dep) dep)).
Qed.

Lemma addSymbolEdges_steps (relPath targetRel : string) (dep : Dependency.t)
  (targetSymbols : gmap string SymbolInfo.t)
  (bindings : list ImportBinding.t) :
  extractedType (Dependency.type dep) ->
  forall st created,
    Steps st
      (fst (fold_left (addSymbolEdge hashId relPath targetRel dep targetSymbols)
              bindings (st, created))).
Proof.
  intros Hty.
  induction bindings as [|binding bindings IH]; intros st created;
    cbn [fold_left].
  - apply rtc_refl.
  - pose proof (addSymbolEdge_steps relPath targetRel dep targetSymbols
                  binding st created Hty) as H.
    destruct (addSymbolEdge hashId relPath targetRel dep targetSymbols
                (st, created) binding) as [st1 created1].
    eapply rtc_trans; [exact H|apply IH].
Qed.

Lemma addInternalEdges_steps (relPath targetRel : string)
  (dep : Dependency.t) (st : ScanState) :
  extractedType (Dependency.type dep) ->
  Steps st (addInternalEdges hashId options relPath targetRel dep st).
Proof.
  intros Hty. unfold addInternalEdges.
  set (pair := if symbolMode options && _ then _ else (st, false)).
  assert (Steps st (fst pair)) as H2.
  { subst pair. destruct (symbolMode options && _); [|apply rtc_refl].
    destruct (symbolMap st !! targetRel); [|apply rtc_refl].
    by apply addSymbolEdges_steps. }
  destruct pair as [st2 created]. simpl in H2.
  destruct created; [exact H2|].
  destruct (Js.has (edgeKeys st2) _) eqn:Hkey; [exact H2|].
  eapply steps_then; [exact H2|].
  apply step_edge; [|exact Hkey].
  apply (push_internal hashId relPath targetRel _ dep).
  destruct (Js.has STYLE_EXTENSIONS _); [right; by right|exact Hty].
Qed.

Lemma addInternal_steps (relPath resolvedPath : string) (dep : Dependency.t)
  (st : ScanState) :
  extractedType (Dependency.type dep) ->
  Steps st (addInternal hashId cwd options rootPath relPath resolvedPath dep st).
Proof.
  intros Hty. unfold addInternal.
  set (targetRel := posixPath (Path.relative cwd rootPath resolvedPath)).
  eapply rtc_trans; [|by apply addInternalEdges_steps].
  destruct (nodesHas st targetRel); simpl.
  - apply rtc_refl.
  - apply rtc_once, step_fileNode.
Qed.

Lemma addDependency_steps (fullPath relPath : string) (dep : Dependency.t)
  (st : ScanState) :
  extractedType (Dependency.type dep) ->
  Steps st (addDependency hashId fs cwd options rootPath fullPath relPath st dep).
Proof.
  intros Hty. unfold addDependency.
  destruct (resolveImport _ _ _ _ _) as [resolved|]; [|apply rtc_refl].
  destruct (Resolution.external resolved); [apply addExternal_steps|].
  destruct (truthy _); [|apply rtc_refl].
  by apply addInternal_steps.
Qed.

Lemma collectDependencies_steps (fullPath : string) (st st' : ScanState) :
  collectDependencies parse traverseError hashId fs cwd options rootPath st
    fullPath = inr st' ->
  Steps st st'.
Proof.
  unfold collectDependencies.
  destruct (truthy _) as [code|]; [|intros [= <-]; apply rtc_refl].
  destruct (extractDependencies parse traverseError fullPath code)
    as [err|dependencies] eqn:Hdeps; [discriminate|]. intros [= <-].
  apply steps_fold. intros st0 dep Hdep.
  apply addDependency_steps. by eapply extractDependencies_types.
Qed.

End DependencyPass.

Lemma scanFiles_steps (options : ScanOptions) (st : ScanState) :
  scanFiles parse traverseError ignores hashId formatNumber fs cwd options
  = inr st ->
  Steps initialState st.
Proof.
  unfold scanFiles.
  destruct (Fs.stat fs cwd _) as [[content|entries]|]; try discriminate.
  destruct (walk _ _ _ _ _ _ _ _ _ _) as [err|st1] eqn:Hwalk;
    [discriminate|].
  intros Hsymbols.
  apply walk_steps in Hwalk.
  assert (ignoredAreFiles st1) as Hign.
  { eapply (steps_invariant ignoredAreFiles);
      [apply step_ignoredAreFiles|exact Hwalk|constructor]. }
  eapply rtc_trans; [exact Hwalk|].
  eapply rtc_trans; [by apply ignored_fold_steps|].
  destruct (symbolMode options); [|injection Hsymbols as <-; apply rtc_refl].
  eapply forEach_steps; [|exact Hsymbols].
  intros st0 fullPath st0' _. apply collectSymbols_steps.
Qed.

(** Every state that [scanProject] returns from is reached from the
    initial state by steps. *)
Theorem scanState_steps (options : ScanOptions) (st : ScanState) :
  scanState parse traverseError ignores hashId formatNumber fs cwd options
  = inr st ->
  Steps initialState st.
Proof.
  unfold scanState.
  destruct (scanFiles _ _ _ _ _ _ _ _) as [err|st0] eqn:Hfiles;
    [discriminate|].
  intros Hloop. apply scanFiles_steps in Hfiles.
  eapply rtc_trans; [exact Hfiles|].
  eapply forEach_steps; [|exact Hloop].
  intros st1 fullPath st1' _. apply collectDependencies_steps.
Qed.

End ScanTrace.

(** ** Node identity *)

Lemma mapSet_keys {V : Type} (key : string) (value : V) (m : list (string * V)) :
  fst <$> mapSet key value m
  = if Js.has (fst <$> m) key then fst <$> m else (fst <$> m) ++ [key].
Proof.
  induction m as [|[k v] m IH]; csimpl; [reflexivity|].
  rewrite (String.eqb_sym key k).
  destruct (String.eqb k key) eqn:Hk; csimpl; [reflexivity|].
  rewrite IH. fold (Js.has (fst <$> m) key).
  destruct (Js.has (fst <$> m) key); reflexivity.
Qed.

Lemma mapSet_Forall {V : Type} (P : string * V -> Prop) (key : string)
  (value : V) (m : list (string * V)) :
  Forall P m -> P (key, value) -> Forall P (mapSet key value m).
Proof.
  intros Hm Hnew. induction Hm as [|[k v] m Hkv Hm IH]; simpl.
  - by constructor.
  - destruct (String.eqb k key) eqn:Hk.
    + apply String.eqb_eq in Hk as ->. by constructor.
    + by constructor.
Qed.

Lemma mapSet_keys_NoDup {V : Type} (key : string) (value : V)
  (m : list (string * V)) :
  NoDup (fst <$> m) -> NoDup (fst <$> mapSet key value m).
Proof.
  intros Hm. rewrite mapSet_keys.
  destruct (Js.has (fst <$> m) key) eqn:Hhas; [exact Hm|].
  apply has_false_iff in Hhas.
  apply NoDup_app. split; [exact Hm|]. split.
  - intros x Hx ->%list_elem_of_singleton. contradiction.
  - apply NoDup_singleton.
Qed.

Lemma fileNode_external (relPath : string) (ignored : option bool) :
  GraphNode.type (fileNode relPath ignored) = NodeType.external ->
  relPath = "__external__".
Proof.
  simpl. intros Hty.
  destruct (String.eqb relPath "__external__") eqn:Heq.
  - by apply String.eqb_eq.
  - apply String.eqb_neq in Heq.
    by destruct (nodeTypeFromPath_cases relPath Heq) as (_ & _ & _ & _ & Hne).
Qed.

Lemma at_most_one_with_key {A : Type} (f : A -> string) (p : A -> bool)
  (key : string) (l : list A) :
  NoDup (f <$> l) ->
  (forall x, p x = true -> f x = key) ->
  length (List.filter p l) <= 1.
Proof.
  intros Hnd Hp.
  assert (forall l', NoDup (f <$> l') -> key ∉ f <$> l' ->
                     List.filter p l' = []) as Hnone.
  { induction l' as [|x l' IH]; simpl; [done|].
    intros Hnd' Hnot. apply NoDup_cons in Hnd' as [_ Hnd'].
    apply not_elem_of_cons in Hnot as [Hx Hnot].
    destruct (p x) eqn:Hpx; [apply Hp in Hpx; congruence|by apply IH]. }
  induction l as [|x l IH]; simpl; [lia|].
  apply NoDup_cons in Hnd as [Hx Hnd].
  destruct (p x) eqn:Hpx.
  - apply Hp in Hpx. rewrite Hpx in Hx.
    rewrite (Hnone l Hnd Hx). simpl. lia.
  - by apply IH.
Qed.

Section NodeIdentity.

Variable parse : string -> option Ast.Node.
Variable traverseError : Ast.Node -> option string.
Variable ignores : list string -> string -> string + bool.
Variable hashId : string -> string.
Variable formatNumber : Z -> positive -> string.
Variable fs : FsNode.
Variable cwd : string.

Lemma setNode_nodesKeyedById (key : string) (n : GraphNode.t) (st : ScanState) :
  GraphNode.id n = key ->
  (GraphNode.type n = NodeType.external -> key = "__external__") ->
  nodesKeyedById st -> nodesKeyedById (setNode key n st).
Proof.
  intros Hid Hty [Hnd Hall]. split; simpl.
  - by apply mapSet_keys_NoDup.
  - by apply mapSet_Forall.
Qed.

Lemma step_nodesKeyedById (st st' : ScanState) :
  Step hashId st st' -> nodesKeyedById st -> nodesKeyedById st'.
Proof.
  destruct 1; try done.
  - apply setNode_nodesKeyedById; [done|apply fileNode_external].
  - by apply setNode_nodesKeyedById.
  - by apply setNode_nodesKeyedById.
Qed.

(** Claim C2: whatever the tree and the options, the scan either throws or
    returns a graph whose node ids are pairwise distinct, in which every
    node of type [external] has the id [__external__], and which
    therefore holds at most one external sentinel. *)
Theorem node_ids_unique (options : ScanOptions) :
  match scanProject parse traverseError ignores hashId formatNumber fs cwd options with
  | inl _ => True
  | inr g =>
      NoDup (GraphNode.id <$> GraphData.nodes g)
      /\ (forall n, n ∈ GraphData.nodes g ->
                    GraphNode.type n = NodeType.external ->
                    GraphNode.id n = "__external__")
      /\ length (List.filter isSentinel (GraphData.nodes g)) <= 1
  end.
Proof.
  unfold scanProject.
  destruct (scanState parse traverseError ignores hashId formatNumber fs cwd options) as [err|st] eqn:Hrun;
    [exact I|].
  apply scanState_steps in Hrun.
  assert (nodesKeyedById st) as [Hnd Hall].
  { eapply (steps_invariant hashId nodesKeyedById);
      [apply step_nodesKeyedById|exact Hrun|].
    split; simpl; constructor. }
  simpl.
  assert (GraphNode.id <$> map snd (nodes st) = fst <$> nodes st) as Hids.
  { clear Hnd. induction Hall as [|[k n] m [Hid _] _ IH]; csimpl; [done|].
    f_equal; [exact Hid|exact IH]. }
  assert (NoDup (GraphNode.id <$> map snd (nodes st))) as Hnd'
    by (by rewrite Hids).
  split; [exact Hnd'|]. split.
  - intros n Hn Hty.
    apply list_elem_of_In, in_map_iff in Hn as [[k n'] [<- Hin]].
    apply list_elem_of_In in Hin.
    rewrite Forall_forall in Hall.
    destruct (Hall _ Hin) as [Hid Hext]. simpl in *.
    rewrite Hid. by apply Hext.
  - apply (at_most_one_with_key GraphNode.id isSentinel "__external__");
      [exact Hnd'|].
    intros n. unfold isSentinel.
    destruct (GraphNode.type n); try discriminate.
    apply String.eqb_eq.
Qed.

End NodeIdentity.

(** ** Edge identity *)

Lemma take_short (n : nat) (s : string) :
  String.length s <= n -> Js.take n s = s.
Proof.
  revert n. induction s as [|a s IH]; intros [|n]; simpl; try done; try lia.
  intros H. f_equal. apply IH. lia.
Qed.

Lemma take_length (n : nat) (s : string) :
  String.length (Js.take n s) = Nat.min n (String.length s).
Proof.
  revert n. induction s as [|a s IH]; intros [|n]; simpl; try done.
  by rewrite IH.
Qed.

(** A statement whose first 200 characters are fewer than 200 is whole. *)
Lemma take_200_short (full stored : string) :
  Js.take 200 full = stored -> String.length stored < 200 -> full = stored.
Proof.
  intros <- Hlen. rewrite take_length in Hlen.
  symmetry. apply take_short. lia.
Qed.

Section EdgeIdentity.

Variable parse : string -> option Ast.Node.
Variable traverseError : Ast.Node -> option string.
Variable ignores : list string -> string -> string + bool.
Variable hashId : string -> string.
Variable formatNumber : Z -> positive -> string.
Variable fs : FsNode.
Variable cwd : string.

Lemma step_edgesKeyed (st st' : ScanState) :
  Step hashId st st' -> edgesKeyed hashId st -> edgesKeyed hashId st'.
Proof.
  destruct 1 as [| | | | | | | |st key edge Hpush Hfresh]; try done.
  intros [Hnd Hall]. split; simpl.
  - apply NoDup_app. split; [exact Hnd|]. split; [|apply NoDup_singleton].
    apply has_false_iff in Hfresh.
    intros x Hx ->%list_elem_of_singleton. contradiction.
  - apply Forall2_app; [exact Hall|]. by constructor.
Qed.

(** Two pushed edges with the same four fields were pushed under the same
    key, unless they are external or their statement may be truncated. *)
Lemma pushed_same_fields_same_key (k1 k2 : string) (e1 e2 : GraphEdge.t) :
  EdgePush hashId k1 e1 -> EdgePush hashId k2 e2 ->
  GraphEdge.type e1 <> EdgeType.external ->
  shortStatement e1 ->
  edgeFields e1 = edgeFields e2 ->
  k1 = k2.
Proof.
  unfold edgeFields, shortStatement.
  intros H1 H2 Hext Hshort Heq.
  destruct H1 as [r1 s1|r1 d1|r1 t1 ty1 d1 Hty1];
    destruct H2 as [r2 s2|r2 d2|r2 t2 ty2 d2 Hty2];
    simpl in *; try congruence.
  - simplify_eq. destruct Hty2 as [?|[?|?]]; discriminate.
  - simplify_eq. destruct Hty1 as [?|[?|?]]; discriminate.
  - injection Heq as -> -> -> Hst.
    destruct (Dependency.statement d1) as [f1|],
             (Dependency.statement d2) as [f2|]; simpl in *;
      try discriminate; [|reflexivity].
    injection Hst as Hst.
    assert (f1 = Js.take 200 f1) as E1
      by (by apply take_200_short).
    assert (f2 = Js.take 200 f1) as E2.
    { apply take_200_short; [by symmetry|exact Hshort]. }
    congruence.
Qed.

(** Claim C1, amended: in every returned graph the edges were pushed under
    pairwise distinct keys and the id of each edge is the hash of its key.
    The key is [source|target|contains] for a contains edge,
    [source|__external__|external|specifier] for an external edge (the
    specifier of the dependency, not its statement, which the edge stores
    whole), and [source|target|type|statement] otherwise, with the whole
    statement of the dependency, of which the edge stores the first 200
    characters.  Hence two edges that are not external and whose stored
    statement is shorter than 200 characters never agree on source,
    target, type and statement. *)
Theorem edge_ids_hash_distinct_keys (options : ScanOptions) :
  match scanProject parse traverseError ignores hashId formatNumber fs cwd options with
  | inl _ => True
  | inr g =>
      exists keys : list string,
        NoDup keys
        /\ Forall2 (EdgePush hashId) keys (GraphData.edges g)
        /\ Forall2 (fun key e => GraphEdge.id e = hashId key)
             keys (GraphData.edges g)
        /\ forall (i j : nat) (e1 e2 : GraphEdge.t),
             GraphData.edges g !! i = Some e1 ->
             GraphData.edges g !! j = Some e2 ->
             i <> j ->
             GraphEdge.type e1 <> EdgeType.external ->
             shortStatement e1 ->
             edgeFields e1 <> edgeFields e2
  end.
Proof.
  unfold scanProject.
  destruct (scanState parse traverseError ignores hashId formatNumber fs cwd options) as [err|st] eqn:Hrun;
    [exact I|].
  apply scanState_steps in Hrun.
  assert (edgesKeyed hashId st) as [Hnd Hall].
  { eapply (steps_invariant hashId (edgesKeyed hashId));
      [apply step_edgesKeyed|exact Hrun|].
    split; simpl; constructor. }
  exists (edgeKeys st). simpl. split; [exact Hnd|]. split; [exact Hall|]. split.
  - eapply Forall2_impl; [exact Hall|].
    intros key e Hpush. by destruct Hpush.
  - intros i j e1 e2 Hi Hj Hij Hext Hshort Heq.
    destruct (Forall2_lookup_r _ _ _ _ _ Hall Hi) as (k1 & Hk1 & Hp1).
    destruct (Forall2_lookup_r _ _ _ _ _ Hall Hj) as (k2 & Hk2 & Hp2).
    assert (k1 = k2) as <- by (by eapply pushed_same_fields_same_key).
    apply Hij. by eapply NoDup_lookup.
Qed.

End EdgeIdentity.

(** Claim C1, at inputs that refute it.  With [import React from 'react']
    in [a.ts] and external references shown, the id of the external edge is
    the hash of a key that ends with the specifier [react], not the hash of
    the key made of its source, target, type and statement.  With two
    imports of [./b] whose statements differ only after their 200th
    character, the graph has two edges that agree on source, target, type
    and statement. *)
Lemma edge_key_is_not_the_four_fields :
  (match Demo.scan (Demo.repo [("a.ts", Demo.text Demo.importReact)])
           (Demo.options "/repo" 5000 true None) with
   | inr g =>
       exists e, GraphData.edges g = [e]
         /\ edgeFields e
            = ("a.ts", "__external__", EdgeType.external,
               Some "import React from 'react'")
         /\ GraphEdge.id e
            = Demo.hashId (edgeKey4 "a.ts" "__external__" "external" "react")
         /\ GraphEdge.id e
            <> Demo.hashId (edgeKey4 "a.ts" "__external__" "external"
                              "import React from 'react'")
   | inl _ => False
   end)
  /\ (match Demo.scan
              (Demo.repo [("a.ts", Demo.text Demo.twoLongImports);
                          ("b.ts", Demo.text Demo.exportConstX)])
              (Demo.options "/repo" 5000 false None) with
      | inr g =>
          exists e1 e2, GraphData.edges g = [e1; e2]
            /\ edgeFields e1 = edgeFields e2
            /\ GraphEdge.type e1 = EdgeType.static
      | inl _ => False
      end).
Proof.
  split.
  - vm_compute. eexists. repeat split. discriminate.
  - vm_compute. do 2 eexists. repeat split.
Qed.

(** ** The file limit *)

Section Capacity.

Variable parse : string -> option Ast.Node.
Variable traverseError : Ast.Node -> option string.
Variable ignores : list string -> string -> string + bool.
Variable hashId : string -> string.
Variable formatNumber : Z -> positive -> string.
Variable fs : FsNode.
Variable cwd : string.
Variable options : ScanOptions.
Variable rootPath : string.

Lemma walkEntries_counts
  (walkDir : string -> list string -> FsNode -> ScanState -> string + ScanState)
  (countDir : string -> list string -> FsNode -> Z)
  (dir : string) (combined : list string) (entries : list (string * FsNode)) :
  Forall (fun e => forall dir' patterns st,
              walkCounts ignores formatNumber options
                (walkDir dir' patterns (snd e) st) st
                (countDir dir' patterns (snd e)))
         entries ->
  forall st,
    walkCounts ignores formatNumber options
      (walkEntries ignores formatNumber cwd options rootPath walkDir dir
         combined entries st)
      st
      (eligibleEntries ignores cwd rootPath countDir dir combined entries).
Proof.
  induction 1 as [|[name entry] rest Hentry Hrest IH]; intros st; simpl.
  - split_and!; [lia|lia|]. intros [Hwithin|Hcounted]; [done|lia].
  - destruct (Js.isEmpty _).
    { specialize (IH st). unfold walkCounts in *.
      destruct (walkEntries _ _ _ _ _ _ _ _ rest st); [done|].
      destruct IH as (IH1 & IH0 & IH2). split_and!; [lia|lia|].
      intros Hstart. apply IH2. destruct Hstart; [by left|right; lia]. }
    destruct (ignores combined _) as [err|[|]] eqn:Hignores.
    { right. by eexists _, _. }
    { match goal with
      | |- walkCounts _ _ options (walkEntries _ _ _ _ _ _ _ _ rest ?s) _ _ =>
          specialize (IH s)
      end.
      unfold walkCounts in *.
      destruct (walkEntries _ _ _ _ _ _ _ _ rest _); [done|].
      destruct IH as (IH1 & IH0 & IH2).
      destruct (negb (Fs.isDirectory entry) && isSupportedFile _);
        simpl in *; (split_and!; [lia|lia|]); intros Hstart; apply IH2;
        (destruct Hstart; [by left|right; lia]). }
    destruct (Fs.isDirectory entry).
    { specialize (Hentry (Path.join [dir; name]) combined st).
      simpl in Hentry. unfold walkCounts in Hentry |- *.
      destruct (walkDir _ _ entry st) as [err|st1]; [done|].
      destruct Hentry as (H1 & H0 & H2).
      specialize (IH st1). unfold walkCounts in IH.
      destruct (walkEntries _ _ _ _ _ _ _ _ rest st1); [done|].
      destruct IH as (IH1 & IH0 & IH2). split_and!; [lia|lia|].
      intros Hstart. apply IH2.
      destruct (decide (0 < eligibleEntries ignores cwd rootPath countDir dir
                              combined rest)%Z) as [Hrest'|Hrest'];
        [by right|].
      left. apply H2. destruct Hstart; [by left|right; lia]. }
    simpl.
    destruct (Js.exceeds (totalFiles st + 1) (maxFiles options)) eqn:Hlimit;
      [by left|].
    destruct (negb (isSupportedFile _)).
    + specialize (IH (incTotalFiles st)). unfold walkCounts in *.
      destruct (walkEntries _ _ _ _ _ _ _ _ rest _); [done|].
      destruct IH as (IH1 & IH0 & IH2). simpl in *. split_and!; [lia|lia|].
      intros _. apply IH2. by left.
    + match goal with
      | |- walkCounts _ _ options (walkEntries _ _ _ _ _ _ _ _ rest ?s) _ _ =>
          specialize (IH s)
      end.
      unfold walkCounts in *.
      destruct (walkEntries _ _ _ _ _ _ _ _ rest _); [done|].
      destruct IH as (IH1 & IH0 & IH2). simpl in *. split_and!; [lia|lia|].
      intros _. apply IH2. by left.
Qed.

Lemma walk_counts (node : FsNode) :
  forall dir patterns st,
    walkCounts ignores formatNumber options
      (walk ignores formatNumber fs cwd options rootPath dir patterns node st)
      st
      (eligibleFiles ignores fs cwd rootPath dir patterns node).
Proof.
  induction node as [content|entries IH] using FsNode_tree_ind;
    intros dir patterns st; simpl.
  - split_and!; [lia|lia|]. intros [Hwithin|Hcounted]; [done|lia].
  - by apply walkEntries_counts.
Qed.

End Capacity.

(** Claim C3 as stated fails for a limit below zero on a tree without any
    eligible file: the limit is only compared with the counter when a file
    is counted.  The empty root scanned with [maxFiles = -1] yields a
    graph, although the number of its non-ignored files, zero, exceeds the
    limit. *)
Lemma negative_limit_on_empty_tree :
  let options := Demo.options "/repo" (-1) false None in
  Js.exceeds (eligibleCount Demo.ignores (Demo.repo []) "/" options)
    (maxFiles options) = true
  /\ Demo.scan (Demo.repo []) options
     = inr {| GraphData.root := "/repo";
              GraphData.nodes := [];
              GraphData.edges := [];
              GraphData.totalFiles := 0;
              GraphData.ignoredCount := 0;
              GraphData.externalCount := 0 |}.
Proof. split; by vm_compute. Qed.

(** Claim C3, amended: for every tree, root and limit [maxFiles], which is
    any number of the language, if the traversal encounters at least one
    non-ignored file and the number of the non-ignored files it encounters
    exceeds [maxFiles] (the comparison [count > maxFiles] of the language,
    which no count passes against [NaN] or [Infinity]), the scan throws and
    returns no graph.  What it throws is the capacity error, whose message
    carries the limit as the language prints it, unless the
    ignore matcher refused one of the paths first, in which case it is the
    error of the matcher. *)
Theorem capacity_error_when_limit_exceeded
  (parse : string -> option Ast.Node)
  (traverseError : Ast.Node -> option string)
  (ignores : list string -> string -> string + bool)
  (hashId : string -> string) (formatNumber : Z -> positive -> string)
  (fs : FsNode) (cwd : string) (options : ScanOptions) :
  (0 < eligibleCount ignores fs cwd options)%Z ->
  Js.exceeds (eligibleCount ignores fs cwd options) (maxFiles options) = true ->
  exists err,
    scanProject parse traverseError ignores hashId formatNumber fs cwd options
    = inl err
    /\ (err = "File limit exceeded ("
                +:+ Js.numberToString formatNumber (maxFiles options)
                +:+ "). Adjust the max files setting to continue."
        \/ ignoreError ignores err).
Proof.
  intros Hsome Hcount.
  unfold eligibleCount in Hsome, Hcount.
  unfold scanProject, scanState, scanFiles.
  destruct (Fs.stat fs cwd _) as [[content|entries]|]; simpl in Hsome; try lia.
  pose proof (walk_counts ignores formatNumber fs cwd options
                (Path.resolve cwd [root options]) (FsDir entries)
                (Path.resolve cwd [root options]) ALWAYS_IGNORE initialState)
    as Hwalk.
  unfold walkCounts in Hwalk.
  destruct (walk _ _ _ _ _ _ _ _ _ _) as [err|st].
  - exists err. split; [reflexivity|exact Hwalk].
  - destruct Hwalk as (Htotal & _ & Hbound).
    specialize (Hbound (or_intror Hsome)).
    rewrite Htotal in Hbound. cbn [totalFiles initialState] in Hbound.
    rewrite Z.add_0_l in Hbound. congruence.
Qed.

(** A tree with four eligible files scanned with [maxFiles = 3]: the scan
    throws the capacity error. *)
Lemma capacity_error_when_limit_exceeded_witness :
  let fs := Demo.repo [("a.ts", Demo.text Demo.importB);
                       ("b.ts", Demo.text Demo.exportConstX);
                       ("c.css", Demo.text "body {}");
                       ("notes.txt", Demo.text "four files")] in
  let options := Demo.options "/repo" 3 false None in
  eligibleCount Demo.ignores fs "/" options = 4%Z
  /\ Demo.scan fs options
     = inl "File limit exceeded (3). Adjust the max files setting to continue."
  /\ exists err,
       Demo.scan fs options = inl err
       /\ (err = "File limit exceeded (3). Adjust the max files setting to continue."
           \/ ignoreError Demo.ignores err).
Proof.
  intros fs options.
  split; [vm_compute; reflexivity|].
  split; [vm_compute; reflexivity|].
  exact (capacity_error_when_limit_exceeded Demo.parse Demo.traverseError
           Demo.ignores Demo.hashId Demo.formatNumber fs "/" options
           eq_refl eq_refl).
Defined.

(** ** Showing and hiding external references *)

Lemma append_cons (c : ascii) (a b : string) :
  String c a +:+ b = String c (a +:+ b).
Proof. reflexivity. Qed.

Lemma prefix_append (m b : string) : String.prefix m (m +:+ b) = true.
Proof.
  induction m as [|c m IH]; [by destruct b|].
  rewrite append_cons. simpl. destruct (ascii_dec c c); [exact IH|done].
Qed.

Lemma includes_prefix (s m : string) :
  String.prefix m s = true -> Js.includes s m = true.
Proof. intros H. destruct s; cbn [Js.includes]; by rewrite H. Qed.

Lemma includes_append (a m b : string) : Js.includes (a +:+ m +:+ b) m = true.
Proof.
  induction a as [|c a IH].
  - apply includes_prefix. exact (prefix_append m b).
  - rewrite append_cons. cbn [Js.includes]. rewrite IH. apply orb_true_r.
Qed.

Lemma external_key_marked (relPath specifier : string) :
  externalKeyed (relPath +:+ "|__external__|external|" +:+ specifier) = true.
Proof. apply includes_append. Qed.

Lemma filter_keys_has (keys : list string) (key : string) :
  externalKeyed key = false ->
  Js.has (List.filter (fun k => negb (externalKeyed k)) keys) key
  = Js.has keys key.
Proof.
  intros Hkey. unfold Js.has.
  induction keys as [|k keys IH]; simpl; [done|].
  destruct (externalKeyed k) eqn:Hk; simpl; rewrite IH; [|done].
  destruct (String.eqb key k) eqn:E; [|done].
  apply String.eqb_eq in E. congruence.
Qed.

Lemma notSentinelKey_pair (k : string) (n : GraphNode.t) :
  notSentinelKey (k, n) = negb (String.eqb k "__external__").
Proof. reflexivity. Qed.

Lemma filter_nodes_has (m : list (string * GraphNode.t)) (key : string) :
  key <> "__external__" ->
  Js.has (fst <$> List.filter notSentinelKey m) key = Js.has (fst <$> m) key.
Proof.
  intros Hkey. unfold Js.has.
  induction m as [|[k n] m IH]; [done|].
  cbn [List.filter]. rewrite notSentinelKey_pair.
  destruct (String.eqb k "__external__") eqn:Hk; csimpl; rewrite IH; [|done].
  apply String.eqb_eq in Hk as ->.
  apply String.eqb_neq in Hkey. by rewrite Hkey.
Qed.

Lemma mapSet_filter (key : string) (n : GraphNode.t)
  (m : list (string * GraphNode.t)) :
  key <> "__external__" ->
  List.filter notSentinelKey (mapSet key n m)
  = mapSet key n (List.filter notSentinelKey m).
Proof.
  intros Hkey. apply String.eqb_neq in Hkey.
  induction m as [|[k x] m IH]; cbn [mapSet List.filter].
  - by rewrite notSentinelKey_pair, Hkey.
  - rewrite (notSentinelKey_pair k x).
    destruct (String.eqb k key) eqn:Hk.
    + apply String.eqb_eq in Hk as ->.
      cbn [List.filter]. rewrite notSentinelKey_pair, Hkey.
      cbn [negb mapSet]. by rewrite String.eqb_refl.
    + cbn [List.filter]. rewrite notSentinelKey_pair.
      destruct (String.eqb k "__external__"); cbn [negb mapSet]; [exact IH|].
      by rewrite Hk, IH.
Qed.

Lemma mapSet_absent {V : Type} (key : string) (value : V)
  (m : list (string * V)) :
  Js.has (fst <$> m) key = false -> mapSet key value m = m ++ [(key, value)].
Proof.
  unfold Js.has. induction m as [|[k v] m IH]; csimpl; [done|].
  rewrite (String.eqb_sym key k).
  destruct (String.eqb k key); simpl; [done|].
  intros H. by rewrite IH.
Qed.

Section SameUntilDependencies.

Variable parse : string -> option Ast.Node.
Variable traverseError : Ast.Node -> option string.
Variable ignores : list string -> string -> string + bool.
Variable hashId : string -> string.
Variable formatNumber : Z -> positive -> string.
Variable fs : FsNode.
Variable cwd : string.

(** The walk and the symbol loop do not look at [includeExternal]. *)
Lemma scanFiles_includeExternal (o : ScanOptions) (b : bool) :
  scanFiles parse traverseError ignores hashId formatNumber fs cwd (withExternal b o)
  = scanFiles parse traverseError ignores hashId formatNumber fs cwd o.
Proof.
  unfold scanFiles. simpl.
  by destruct (Fs.stat fs cwd _) as [[content|entries]|].
Qed.

End SameUntilDependencies.

Section Hiding.

Variable parse : string -> option Ast.Node.
Variable traverseError : Ast.Node -> option string.
Variable ignores : list string -> string -> string + bool.
Variable hashId : string -> string.
Variable formatNumber : Z -> positive -> string.
Variable fs : FsNode.
Variable cwd : string.

Local Abbreviation Steps := (rtc (Step hashId)).

(** *** Steps only add node ids and edge keys *)

Lemma nodesHas_setNode (key k : string) (n : GraphNode.t) (st : ScanState) :
  nodesHas st k = true -> nodesHas (setNode key n st) k = true.
Proof.
  unfold nodesHas. simpl. rewrite mapSet_keys.
  destruct (Js.has (fst <$> nodes st) key); [done|].
  rewrite !has_true_iff, elem_of_app. by left.
Qed.

Lemma nodesHas_setNode_same (key : string) (n : GraphNode.t) (st : ScanState) :
  nodesHas (setNode key n st) key = true.
Proof.
  unfold nodesHas. simpl. rewrite mapSet_keys.
  destruct (Js.has (fst <$> nodes st) key) eqn:E; [done|].
  rewrite has_true_iff, elem_of_app. right. by apply list_elem_of_singleton.
Qed.

Lemma step_grows (st st' : ScanState) :
  Step hashId st st' ->
  (forall k, nodesHas st k = true -> nodesHas st' k = true)
  /\ (forall k, k ∈ edgeKeys st -> k ∈ edgeKeys st').
Proof.
  destruct 1; split; try done; try (intros k; apply nodesHas_setNode).
  intros k Hk. simpl. apply elem_of_app. by left.
Qed.

Lemma steps_grow (st st' : ScanState) :
  Steps st st' ->
  (forall k, nodesHas st k = true -> nodesHas st' k = true)
  /\ (forall k, k ∈ edgeKeys st -> k ∈ edgeKeys st').
Proof.
  induction 1 as [st|st st1 st2 Hstep _ [IHn IHk]]; [done|].
  destruct (step_grows _ _ Hstep) as [Hn Hk]. split; auto.
Qed.

Lemma unused_node (st : ScanState) (k : string) :
  reservedNamesUnused st = true -> nodesHas st k = true ->
  k <> "__external__".
Proof.
  unfold reservedNamesUnused. intros [Hn _]%andb_true_iff Hk ->.
  by rewrite Hk in Hn.
Qed.

Lemma unused_key (st : ScanState) (k : string) :
  reservedNamesUnused st = true -> k ∈ edgeKeys st ->
  externalKeyed k = false.
Proof.
  unfold reservedNamesUnused. intros [_ Hk]%andb_true_iff Hin.
  rewrite forallb_forall in Hk. apply list_elem_of_In, Hk in Hin.
  by destruct (externalKeyed k).
Qed.

Lemma unused_back (st st' : ScanState) :
  Steps st st' -> reservedNamesUnused st' = true ->
  reservedNamesUnused st = true.
Proof.
  intros [Hn Hk]%steps_grow Hunused.
  unfold reservedNamesUnused. apply andb_true_iff. split.
  - destruct (nodesHas st "__external__") eqn:E; [|done].
    by destruct (unused_node st' "__external__" Hunused (Hn _ E)).
  - apply forallb_forall. intros k Hin%list_elem_of_In.
    by rewrite (unused_key st' k Hunused (Hk _ Hin)).
Qed.

(** *** The assignments keep [hidesExternal] *)

Lemma hides_nodesHas (shown hidden : ScanState) (key : string) :
  key <> "__external__" -> hidesExternal shown hidden ->
  nodesHas hidden key = nodesHas shown key.
Proof.
  intros Hkey (Hn & _). unfold nodesHas. rewrite Hn.
  by apply filter_nodes_has.
Qed.

Lemma hides_keysHas (shown hidden : ScanState) (key : string) :
  externalKeyed key = false -> hidesExternal shown hidden ->
  Js.has (edgeKeys hidden) key = Js.has (edgeKeys shown) key.
Proof.
  intros Hkey (_ & _ & Hk & _). rewrite Hk. by apply filter_keys_has.
Qed.

Lemma hides_setNode (shown hidden : ScanState) (key : string)
  (n : GraphNode.t) :
  key <> "__external__" -> hidesExternal shown hidden ->
  hidesExternal (setNode key n shown) (setNode key n hidden).
Proof.
  intros Hkey (Hn & He & Hk & Hf & Hc).
  split_and!; simpl; [by rewrite Hn, mapSet_filter|done..].
Qed.

Lemma hides_pushEdge (shown hidden : ScanState) (key : string)
  (e : GraphEdge.t) :
  notExternalEdge e = true -> externalKeyed key = false ->
  hidesExternal shown hidden ->
  hidesExternal (pushEdge key e shown) (pushEdge key e hidden).
Proof.
  intros Hedge Hkey (Hn & He & Hk & Hf & Hc).
  split_and!; simpl; [done| | |done..].
  - rewrite List.filter_app. simpl. by rewrite Hedge, He.
  - rewrite List.filter_app. simpl. by rewrite Hkey, Hk.
Qed.

Lemma hides_incExternal (shown hidden : ScanState) :
  hidesExternal shown hidden ->
  hidesExternal (incExternalCount shown) (incExternalCount hidden).
Proof.
  intros (Hn & He & Hk & Hf & Hc).
  split_and!; simpl; [done..|by rewrite Hc].
Qed.

Lemma hides_sentinel (shown hidden : ScanState) (n : GraphNode.t) :
  nodesHas shown "__external__" = false -> hidesExternal shown hidden ->
  hidesExternal (setNode "__external__" n shown) hidden.
Proof.
  intros Habsent (Hn & He & Hk & Hf & Hc).
  split_and!; simpl; [|done..].
  rewrite (mapSet_absent _ _ _ Habsent), List.filter_app. simpl.
  by rewrite app_nil_r.
Qed.

Lemma hides_pushExternal (shown hidden : ScanState) (key : string)
  (e : GraphEdge.t) :
  GraphEdge.type e = EdgeType.external -> externalKeyed key = true ->
  hidesExternal shown hidden ->
  hidesExternal (pushEdge key e shown) hidden.
Proof.
  intros Hedge Hkey (Hn & He & Hk & Hf & Hc).
  split_and!; simpl; [done| | |done..].
  - rewrite List.filter_app. simpl. unfold notExternalEdge.
    rewrite Hedge. simpl. by rewrite app_nil_r.
  - rewrite List.filter_app. simpl. by rewrite Hkey, app_nil_r.
Qed.

Lemma extractedType_notExternal (type : EdgeType.t) :
  extractedType type -> EdgeType.eqb type EdgeType.external = false.
Proof. by intros [->|[->| ->]]. Qed.

Lemma unused_pushEdge (key : string) (e : GraphEdge.t) (st : ScanState) :
  reservedNamesUnused (pushEdge key e st) = true ->
  reservedNamesUnused st = true /\ externalKeyed key = false.
Proof.
  unfold reservedNamesUnused, nodesHas. simpl. rewrite forallb_app. simpl.
  rewrite andb_true_r, !andb_true_iff, (negb_true_iff (externalKeyed key)).
  tauto.
Qed.

Lemma unused_setNode (key : string) (n : GraphNode.t) (st : ScanState) :
  reservedNamesUnused (setNode key n st) = true ->
  reservedNamesUnused st = true /\ key <> "__external__".
Proof.
  unfold reservedNamesUnused.
  intros [Hn Hk]%andb_true_iff. apply negb_true_iff in Hn. split.
  - apply andb_true_iff. split; [|exact Hk].
    apply negb_true_iff.
    destruct (nodesHas st "__external__") eqn:E; [|done].
    by rewrite (nodesHas_setNode key _ n st E) in Hn.
  - intros ->. by rewrite nodesHas_setNode_same in Hn.
Qed.

Section Simulation.

Variable o : ScanOptions.
Variable rootPath : string.

Local Abbreviation shownOptions := (withExternal true o).
Local Abbreviation hiddenOptions := (withExternal false o).

Lemma addExternal_hides (relPath : string) (dep : Dependency.t)
  (shown hidden : ScanState) :
  hidesExternal shown hidden ->
  hidesExternal (addExternal hashId shownOptions relPath dep shown)
                (addExternal hashId hiddenOptions relPath dep hidden).
Proof.
  intros H%hides_incExternal. unfold addExternal. simpl.
  set (s1 := if negb (nodesHas (incExternalCount shown) "__external__")
             then _ else _).
  assert (hidesExternal s1 (incExternalCount hidden)) as H1.
  { subst s1.
    destruct (nodesHas (incExternalCount shown) "__external__") eqn:E;
      simpl; [exact H|].
    by apply hides_sentinel. }
  destruct (Js.has (edgeKeys s1) _); [exact H1|].
  apply hides_pushExternal; [done|apply external_key_marked|exact H1].
Qed.

Lemma addSymbolEdge_hides (relPath targetRel : string) (dep : Dependency.t)
  (targetSymbols : gmap string SymbolInfo.t) (binding : ImportBinding.t)
  (shown hidden : ScanState) (created : bool) :
  extractedType (Dependency.type dep) ->
  hidesExternal shown hidden ->
  reservedNamesUnused
    (fst (addSymbolEdge hashId relPath targetRel dep targetSymbols
            (hidden, created) binding)) = true ->
  hidesExternal
    (fst (addSymbolEdge hashId relPath targetRel dep targetSymbols
            (shown, created) binding))
    (fst (addSymbolEdge hashId relPath targetRel dep targetSymbols
            (hidden, created) binding))
  /\ snd (addSymbolEdge hashId relPath targetRel dep targetSymbols
            (shown, created) binding)
     = snd (addSymbolEdge hashId relPath targetRel dep targetSymbols
              (hidden, created) binding).
Proof.
  intros Hty H. unfold addSymbolEdge.
  destruct (ImportBinding.kind binding); try done;
    (destruct (targetSymbols !! _); [|done];
     match goal with
     | |- context [Js.has (edgeKeys hidden) ?k] =>
         destruct (Js.has (edgeKeys hidden) k) eqn:Hh
     end;
     [ simpl; intros Hunused;
       apply has_true_iff in Hh as Hin;
       rewrite <- (hides_keysHas shown hidden _
                     (unused_key _ _ Hunused Hin) H), Hh; done
     | simpl; intros [Hunused Hkey]%unused_pushEdge;
       rewrite <- (hides_keysHas shown hidden _ Hkey H), Hh; simpl;
       split; [|done];
       apply hides_pushEdge; [|done..];
       unfold notExternalEdge; simpl;
       by rewrite extractedType_notExternal ]).
Qed.

Lemma addSymbolEdges_hides (relPath targetRel : string) (dep : Dependency.t)
  (targetSymbols : gmap string SymbolInfo.t)
  (bindings : list ImportBinding.t) :
  extractedType (Dependency.type dep) ->
  forall shown hidden created,
    hidesExternal shown hidden ->
    reservedNamesUnused
      (fst (fold_left (addSymbolEdge hashId relPath targetRel dep targetSymbols)
              bindings (hidden, created))) = true ->
    hidesExternal
      (fst (fold_left (addSymbolEdge hashId relPath targetRel dep targetSymbols)
              bindings (shown, created)))
      (fst (fold_left (addSymbolEdge hashId relPath targetRel dep targetSymbols)
              bindings (hidden, created)))
    /\ snd (fold_left (addSymbolEdge hashId relPath targetRel dep targetSymbols)
              bindings (shown, created))
       = snd (fold_left (addSymbolEdge hashId relPath targetRel dep targetSymbols)
                bindings (hidden, created)).
Proof.
  intros Hty.
  induction bindings as [|binding bindings IH];
    intros shown hidden created H; cbn [fold_left]; [done|].
  intros Hunused.
  pose proof (addSymbolEdge_hides relPath targetRel dep targetSymbols
                binding shown hidden created Hty H) as Hone.
  destruct (addSymbolEdge hashId relPath targetRel dep targetSymbols
              (hidden, created) binding) as [h1 c1].
  destruct (addSymbolEdge hashId relPath targetRel dep targetSymbols
              (shown, created) binding) as [s1 c1'].
  simpl in Hone.
  destruct Hone as [H1 ->].
  { eapply unused_back; [|exact Hunused].
    by apply addSymbolEdges_steps. }
  by apply IH.
Qed.

Lemma addInternalEdges_hides (relPath targetRel : string)
  (dep : Dependency.t) (shown hidden : ScanState) :
  extractedType (Dependency.type dep) ->
  hidesExternal shown hidden ->
  reservedNamesUnused
    (addInternalEdges hashId hiddenOptions relPath targetRel dep hidden)
    = true ->
  hidesExternal
    (addInternalEdges hashId shownOptions relPath targetRel dep shown)
    (addInternalEdges hashId hiddenOptions relPath targetRel dep hidden).
Proof.
  intros Hty H. unfold addInternalEdges.
  change (symbolMode shownOptions) with (symbolMode o).
  change (symbolMode hiddenOptions) with (symbolMode o).
  assert (symbolMap hidden = symbolMap shown) as Hsym.
  { destruct H as (_ & _ & _ & Hf & _). unfold frameOf in Hf. congruence. }
  rewrite Hsym.
  set (pairH := if symbolMode o && _ then _ else (hidden, false)).
  set (pairS := if symbolMode o && _ then _ else (shown, false)).
  assert (reservedNamesUnused (fst pairH) = true ->
          hidesExternal (fst pairS) (fst pairH) /\ snd pairS = snd pairH)
    as Hpairs.
  { subst pairH pairS. destruct (symbolMode o && _); [|done].
    destruct (symbolMap shown !! targetRel); [|done].
    by apply addSymbolEdges_hides. }
  destruct pairH as [h2 createdH], pairS as [s2 createdS]. simpl in Hpairs.
  destruct createdH.
  { intros Hunused. by destruct (Hpairs Hunused) as [H2 ->]. }
  match goal with
  | |- context [Js.has (edgeKeys h2) ?k] =>
      destruct (Js.has (edgeKeys h2) k) eqn:Hh
  end.
  - intros Hunused. destruct (Hpairs Hunused) as [H2 ->].
    apply has_true_iff in Hh as Hin.
    by rewrite <- (hides_keysHas s2 h2 _ (unused_key _ _ Hunused Hin) H2), Hh.
  - intros [Hunused Hkey]%unused_pushEdge.
    destruct (Hpairs Hunused) as [H2 ->].
    rewrite <- (hides_keysHas s2 h2 _ Hkey H2), Hh.
    apply hides_pushEdge; [|done..].
    unfold notExternalEdge. cbn [GraphEdge.type].
    destruct (Js.has STYLE_EXTENSIONS _); [done|].
    by rewrite extractedType_notExternal.
Qed.

Lemma addInternal_hides (relPath resolvedPath : string)
  (dep : Dependency.t) (shown hidden : ScanState) :
  extractedType (Dependency.type dep) ->
  hidesExternal shown hidden ->
  reservedNamesUnused
    (addInternal hashId cwd hiddenOptions rootPath relPath resolvedPath dep
       hidden) = true ->
  hidesExternal
    (addInternal hashId cwd shownOptions rootPath relPath resolvedPath dep
       shown)
    (addInternal hashId cwd hiddenOptions rootPath relPath resolvedPath dep
       hidden).
Proof.
  intros Hty H. unfold addInternal.
  set (targetRel := posixPath (Path.relative cwd rootPath resolvedPath)).
  set (h1 := if negb (nodesHas hidden targetRel) then _ else hidden).
  intros Hunused.
  assert (reservedNamesUnused h1 = true) as Hh1.
  { eapply unused_back; [|exact Hunused].
    by apply addInternalEdges_steps. }
  assert (targetRel <> "__external__") as Htarget.
  { subst h1. destruct (nodesHas hidden targetRel) eqn:E; simpl in Hh1.
    - by eapply unused_node.
    - by apply unused_setNode in Hh1 as [_ ?]. }
  apply addInternalEdges_hides; [done| |exact Hunused].
  subst h1. rewrite <- (hides_nodesHas shown hidden _ Htarget H).
  destruct (nodesHas hidden targetRel); simpl; [exact H|].
  by apply hides_setNode.
Qed.

Lemma addDependency_hides (fullPath relPath : string) (dep : Dependency.t)
  (shown hidden : ScanState) :
  extractedType (Dependency.type dep) ->
  hidesExternal shown hidden ->
  reservedNamesUnused
    (addDependency hashId fs cwd hiddenOptions rootPath fullPath relPath
       hidden dep) = true ->
  hidesExternal
    (addDependency hashId fs cwd shownOptions rootPath fullPath relPath
       shown dep)
    (addDependency hashId fs cwd hiddenOptions rootPath fullPath relPath
       hidden dep).
Proof.
  intros Hty H. unfold addDependency.
  destruct (resolveImport _ _ _ _ _) as [resolved|]; [|done].
  destruct (Resolution.external resolved);
    [intros _; by apply addExternal_hides|].
  destruct (truthy _); [|done].
  by apply addInternal_hides.
Qed.

(** A loop whose iterations keep [hidesExternal] keeps it. *)
Lemma hides_fold {A : Type} (f g : ScanState -> A -> ScanState)
  (l : list A) :
  (forall shown hidden x, x ∈ l ->
      hidesExternal shown hidden ->
      reservedNamesUnused (g hidden x) = true ->
      hidesExternal (f shown x) (g hidden x)) ->
  (forall hidden x, x ∈ l -> Steps hidden (g hidden x)) ->
  forall shown hidden,
    hidesExternal shown hidden ->
    reservedNamesUnused (fold_left g l hidden) = true ->
    hidesExternal (fold_left f l shown) (fold_left g l hidden).
Proof.
  induction l as [|x l IH]; intros Hsim Hsteps shown hidden H Hunused;
    simpl in *; [done|].
  apply IH; [| |apply Hsim; [by left|done|]|done].
  - intros s h y Hy. apply Hsim. by right.
  - intros h y Hy. apply Hsteps. by right.
  - eapply unused_back; [|exact Hunused].
    apply steps_fold. intros h y Hy. apply Hsteps. by right.
Qed.

Lemma collectDependencies_hides (fullPath : string)
  (shown hidden shown' hidden' : ScanState) :
  hidesExternal shown hidden ->
  collectDependencies parse traverseError hashId fs cwd shownOptions rootPath
    shown fullPath = inr shown' ->
  collectDependencies parse traverseError hashId fs cwd hiddenOptions rootPath
    hidden fullPath = inr hidden' ->
  reservedNamesUnused hidden' = true ->
  hidesExternal shown' hidden'.
Proof.
  intros H. unfold collectDependencies.
  assert (fileContents hidden = fileContents shown) as ->.
  { destruct H as (_ & _ & _ & Hf & _). unfold frameOf in Hf. congruence. }
  destruct (truthy _) as [code|]; [|by intros [= <-] [= <-]].
  destruct (extractDependencies parse traverseError fullPath code)
    as [err|dependencies] eqn:Hdeps; [discriminate|].
  intros [= <-] [= <-].
  apply hides_fold; [| |exact H].
  - intros s h dep Hdep. apply addDependency_hides.
    by eapply extractDependencies_types.
  - intros h dep Hdep. apply addDependency_steps.
    by eapply extractDependencies_types.
Qed.

(** A loop that may throw and whose iterations keep [hidesExternal] keeps
    it. *)
Lemma hides_forEach {A : Type} (f g : ScanState -> A -> string + ScanState)
  (l : list A) :
  (forall shown hidden shown' hidden' x, x ∈ l ->
      hidesExternal shown hidden ->
      f shown x = inr shown' -> g hidden x = inr hidden' ->
      reservedNamesUnused hidden' = true ->
      hidesExternal shown' hidden') ->
  (forall hidden hidden' x, x ∈ l ->
      g hidden x = inr hidden' -> Steps hidden hidden') ->
  forall shown hidden shown' hidden',
    hidesExternal shown hidden ->
    forEach f l shown = inr shown' ->
    forEach g l hidden = inr hidden' ->
    reservedNamesUnused hidden' = true ->
    hidesExternal shown' hidden'.
Proof.
  induction l as [|x l IH];
    intros Hsim Hsteps shown hidden shown' hidden' H; cbn [forEach].
  { by intros [= <-] [= <-]. }
  destruct (f shown x) as [err|shown1] eqn:Hf; [discriminate|].
  destruct (g hidden x) as [err|hidden1] eqn:Hg; [discriminate|].
  intros Hshown Hhidden Hunused.
  assert (Steps hidden1 hidden') as Hrest.
  { eapply (forEach_steps hashId); [|exact Hhidden].
    intros h y h' Hy. apply Hsteps. by right. }
  apply (IH (fun s h s' h' y Hy => Hsim s h s' h' y (list_elem_of_further _ _ _ Hy))
            (fun h h' y Hy => Hsteps h h' y (list_elem_of_further _ _ _ Hy))
            shown1 hidden1); [|exact Hshown|exact Hhidden|exact Hunused].
  eapply Hsim; [by left|exact H|exact Hf|exact Hg|].
  by eapply unused_back.
Qed.

End Simulation.

End Hiding.

(** ** The counters of the dependency loop *)

Section Counters.

Variable parse : string -> option Ast.Node.
Variable traverseError : Ast.Node -> option string.
Variable ignores : list string -> string -> string + bool.
Variable hashId : string -> string.
Variable formatNumber : Z -> positive -> string.
Variable fs : FsNode.
Variable cwd : string.
Variable options : ScanOptions.
Variable rootPath : string.

Lemma counts_refl (st : ScanState) : counts st st 0.
Proof. split; [done|lia]. Qed.

Lemma counts_trans (st1 st2 st3 : ScanState) (n m : Z) :
  counts st1 st2 n -> counts st2 st3 m -> counts st1 st3 (n + m).
Proof. intros [F1 C1] [F2 C2]. split; [congruence|lia]. Qed.

Lemma counts_setNode (st : ScanState) key n : counts st (setNode key n st) 0.
Proof. split; simpl; [done|lia]. Qed.

Lemma counts_pushEdge (st : ScanState) key e : counts st (pushEdge key e st) 0.
Proof. split; simpl; [done|lia]. Qed.

Lemma addSymbolEdges_counts (relPath targetRel : string) (dep : Dependency.t)
  (targetSymbols : gmap string SymbolInfo.t)
  (bindings : list ImportBinding.t) :
  forall st created,
    counts st
      (fst (fold_left (addSymbolEdge hashId relPath targetRel dep targetSymbols)
              bindings (st, created))) 0.
Proof.
  induction bindings as [|binding bindings IH]; intros st created;
    cbn [fold_left]; [apply counts_refl|].
  assert (counts st
            (fst (addSymbolEdge hashId relPath targetRel dep targetSymbols
                    (st, created) binding)) 0) as Hone.
  { unfold addSymbolEdge.
    destruct (ImportBinding.kind binding); try apply counts_refl;
      (destruct (targetSymbols !! _); [|apply counts_refl];
       destruct (Js.has (edgeKeys st) _);
       [apply counts_refl|apply counts_pushEdge]). }
  destruct (addSymbolEdge hashId relPath targetRel dep targetSymbols
              (st, created) binding) as [st1 created1].
  apply (counts_trans _ _ _ 0 0 Hone), IH.
Qed.

Lemma addInternal_counts (relPath resolvedPath : string) (dep : Dependency.t)
  (st : ScanState) :
  counts st
    (addInternal hashId cwd options rootPath relPath resolvedPath dep st) 0.
Proof.
  unfold addInternal, addInternalEdges.
  set (targetRel := posixPath (Path.relative cwd rootPath resolvedPath)).
  set (st1 := if negb (nodesHas st targetRel) then _ else st).
  assert (counts st st1 0) as H1.
  { subst st1. destruct (negb _); [apply counts_setNode|apply counts_refl]. }
  set (pair := if symbolMode options && _ then _ else (st1, false)).
  assert (counts st1 (fst pair) 0) as H2.
  { subst pair. destruct (symbolMode options && _); [|apply counts_refl].
    destruct (symbolMap st1 !! targetRel); [|apply counts_refl].
    apply addSymbolEdges_counts. }
  destruct pair as [st2 created]. simpl in H2.
  pose proof (counts_trans _ _ _ 0 0 H1 H2) as H12.
  destruct created; [exact H12|].
  destruct (Js.has (edgeKeys st2) _); [exact H12|].
  apply (counts_trans _ _ _ 0 0 H12), counts_pushEdge.
Qed.

Lemma addExternal_counts (relPath : string) (dep : Dependency.t)
  (st : ScanState) :
  counts st (addExternal hashId options relPath dep st) 1.
Proof.
  unfold addExternal.
  assert (counts st (incExternalCount st) 1) as H0 by (split; simpl; done).
  destruct (negb (includeExternal options)); [exact H0|].
  set (st1 := if negb (nodesHas (incExternalCount st) "__external__")
              then _ else _).
  assert (counts st st1 1) as H1.
  { subst st1. destruct (negb _); [|exact H0].
    apply (counts_trans _ _ _ 1 0 H0), counts_setNode. }
  destruct (Js.has (edgeKeys st1) _); [exact H1|].
  apply (counts_trans _ _ _ 1 0 H1), counts_pushEdge.
Qed.

Lemma addDependency_counts (fullPath relPath : string) (dep : Dependency.t)
  (st : ScanState) :
  counts st
    (addDependency hashId fs cwd options rootPath fullPath relPath st dep)
    (if isExternalReference fs cwd rootPath fullPath dep then 1 else 0).
Proof.
  unfold addDependency, isExternalReference.
  destruct (resolveImport _ _ _ _ _) as [resolved|]; [|apply counts_refl].
  destruct (Resolution.external resolved); [apply addExternal_counts|].
  destruct (truthy _); [apply addInternal_counts|apply counts_refl].
Qed.

Lemma addDependencies_counts (fullPath relPath : string)
  (deps : list Dependency.t) :
  forall st,
    counts st
      (fold_left (addDependency hashId fs cwd options rootPath fullPath relPath)
         deps st)
      (Z.of_nat
         (length (List.filter (isExternalReference fs cwd rootPath fullPath)
                    deps))).
Proof.
  induction deps as [|dep deps IH]; intros st; cbn [fold_left List.filter];
    [apply counts_refl|].
  pose proof (addDependency_counts fullPath relPath dep st) as Hone.
  destruct (isExternalReference fs cwd rootPath fullPath dep).
  - cbn [length]. rewrite Nat2Z.inj_succ, <- Z.add_1_l.
    eapply counts_trans; [exact Hone|apply IH].
  - apply (counts_trans _ _ _ 0 _ Hone), IH.
Qed.

Lemma collectDependencies_counts (fullPath : string) (st st' : ScanState) :
  collectDependencies parse traverseError hashId fs cwd options rootPath st
    fullPath = inr st' ->
  counts st st'
    (Z.of_nat
       (length (List.filter (isExternalReference fs cwd rootPath fullPath)
                  (dependenciesOf parse traverseError fs cwd st fullPath)))).
Proof.
  unfold collectDependencies, dependenciesOf.
  destruct (truthy _); [|intros [= <-]; apply counts_refl].
  destruct (extractDependencies _ _ _ _); [discriminate|].
  intros [= <-]. apply addDependencies_counts.
Qed.

Lemma dependenciesOf_frame (st st' : ScanState) (fullPath : string) :
  frameOf st' = frameOf st ->
  dependenciesOf parse traverseError fs cwd st' fullPath
  = dependenciesOf parse traverseError fs cwd st fullPath.
Proof.
  unfold frameOf, dependenciesOf. intros Hf.
  replace (fileContents st') with (fileContents st) by congruence. done.
Qed.

Lemma dependency_loop_counts (files : list string) :
  forall st0 st st',
    frameOf st = frameOf st0 ->
    forEach (collectDependencies parse traverseError hashId fs cwd options
               rootPath) files st = inr st' ->
    counts st st'
      (foldr Z.add 0%Z
         (map (fun fullPath =>
                 Z.of_nat
                   (length
                      (List.filter
                         (isExternalReference fs cwd rootPath fullPath)
                         (dependenciesOf parse traverseError fs cwd st0
                            fullPath))))
              files)).
Proof.
  induction files as [|fullPath files IH]; intros st0 st st' Hf;
    cbn [forEach map foldr]; [intros [= <-]; apply counts_refl|].
  destruct (collectDependencies _ _ _ _ _ _ _ st fullPath) as [err|st1]
    eqn:Hstep; [discriminate|].
  intros Hrest.
  pose proof (collectDependencies_counts fullPath st st1 Hstep) as Hone.
  rewrite (dependenciesOf_frame st0 st fullPath Hf) in Hone.
  eapply counts_trans; [exact Hone|].
  eapply IH; [|exact Hrest]. destruct Hone as [Hone _]. congruence.
Qed.

(** Whether an iteration of the dependency loop throws, and what, depends
    on the frame of the state only. *)
Lemma collectDependencies_throws (options' : ScanOptions) (fullPath : string)
  (st st' : ScanState) (err : string) :
  frameOf st' = frameOf st ->
  collectDependencies parse traverseError hashId fs cwd options rootPath st
    fullPath = inl err ->
  collectDependencies parse traverseError hashId fs cwd options' rootPath st'
    fullPath = inl err.
Proof.
  unfold frameOf, collectDependencies. intros Hf.
  replace (fileContents st') with (fileContents st) by congruence.
  destruct (truthy _); [|discriminate].
  by destruct (extractDependencies _ _ _ _).
Qed.

End Counters.

(** The dependency loops of two runs that differ in their options only
    throw the same error or both complete. *)
Lemma dependency_loop_outcomes (parse : string -> option Ast.Node)
  (traverseError : Ast.Node -> option string) (hashId : string -> string)
  (fs : FsNode) (cwd : string) (o1 o2 : ScanOptions) (rootPath : string)
  (files : list string) :
  forall st1 st2,
    frameOf st1 = frameOf st2 ->
    match forEach (collectDependencies parse traverseError hashId fs cwd o1
                     rootPath) files st1,
          forEach (collectDependencies parse traverseError hashId fs cwd o2
                     rootPath) files st2 with
    | inl e1, inl e2 => e1 = e2
    | inr _, inr _ => True
    | _, _ => False
    end.
Proof.
  induction files as [|fullPath files IH]; intros st1 st2 Hf;
    cbn [forEach]; [done|].
  destruct (collectDependencies _ _ _ _ _ o1 _ st1 fullPath) as [e1|st1']
    eqn:H1.
  - by rewrite (collectDependencies_throws parse traverseError hashId fs cwd
                  o1 rootPath o2 fullPath st1 st2 e1).
  - destruct (collectDependencies _ _ _ _ _ o2 _ st2 fullPath) as [e2|st2']
      eqn:H2.
    + by rewrite (collectDependencies_throws parse traverseError hashId fs cwd
                    o2 rootPath o1 fullPath st2 st1 e2) in H1.
    + apply IH.
      apply collectDependencies_counts in H1 as [H1 _].
      apply collectDependencies_counts in H2 as [H2 _]. congruence.
Qed.

Section ExternalCountBeforeLoop.

Variable parse : string -> option Ast.Node.
Variable traverseError : Ast.Node -> option string.
Variable ignores : list string -> string -> string + bool.
Variable hashId : string -> string.
Variable formatNumber : Z -> positive -> string.
Variable fs : FsNode.
Variable cwd : string.
Variable options : ScanOptions.
Variable rootPath : string.

Lemma walkEntries_externalCount
  (walkDir : string -> list string -> FsNode -> ScanState -> string + ScanState)
  (dir : string) (combined : list string) (entries : list (string * FsNode)) :
  Forall (fun e => forall dir' patterns st st',
              walkDir dir' patterns (snd e) st = inr st' ->
              externalCount st' = externalCount st)
         entries ->
  forall st st',
    walkEntries ignores formatNumber cwd options rootPath walkDir dir combined entries st
      = inr st' ->
    externalCount st' = externalCount st.
Proof.
  induction 1 as [|[name entry] rest Hentry Hrest IH]; intros st st'; simpl.
  - by intros [= <-].
  - destruct (Js.isEmpty _); [apply IH|].
    destruct (ignores combined _) as [err|[|]]; [discriminate| |].
    { intros Hrun%IH. rewrite Hrun. by destruct (negb _ && _). }
    destruct (Fs.isDirectory entry).
    { destruct (walkDir _ _ entry st) as [err|st1] eqn:Hdir; [discriminate|].
      intros Hrun%IH. rewrite Hrun. by eapply Hentry. }
    destruct (Js.exceeds _ _); [discriminate|].
    destruct (negb (isSupportedFile _)); by intros Hrun%IH.
Qed.

Lemma walk_externalCount (node : FsNode) :
  forall dir patterns st st',
    walk ignores formatNumber fs cwd options rootPath dir patterns node st = inr st' ->
    externalCount st' = externalCount st.
Proof.
  induction node as [content|entries IH] using FsNode_tree_ind;
    intros dir patterns st st'; simpl.
  - by intros [= <-].
  - by apply walkEntries_externalCount.
Qed.

Lemma fold_externalCount {A : Type} (f : ScanState -> A -> ScanState)
  (l : list A) :
  (forall st x, externalCount (f st x) = externalCount st) ->
  forall st, externalCount (fold_left f l st) = externalCount st.
Proof.
  intros Hf. induction l as [|x l IH]; intros st; simpl; [done|].
  by rewrite IH, Hf.
Qed.

Lemma forEach_externalCount {A : Type}
  (f : ScanState -> A -> string + ScanState) (l : list A) :
  (forall st x st', f st x = inr st' -> externalCount st' = externalCount st) ->
  forall st st',
    forEach f l st = inr st' -> externalCount st' = externalCount st.
Proof.
  intros Hf. induction l as [|x l IH]; intros st st'; cbn [forEach].
  - by intros [= <-].
  - destruct (f st x) as [err|st1] eqn:Hx; [discriminate|].
    intros Hrest%IH. rewrite Hrest. by eapply Hf.
Qed.

Lemma collectSymbols_externalCount (fullPath : string) (st st' : ScanState) :
  collectSymbols parse traverseError hashId fs cwd rootPath st fullPath
  = inr st' ->
  externalCount st' = externalCount st.
Proof.
  unfold collectSymbols.
  destruct (truthy _) as [code|]; [|by intros [= <-]].
  destruct (extractSymbols parse traverseError fullPath code)
    as [err|[|symbol symbols]]; [discriminate|by intros [= <-]|].
  set (relPath := posixPath (Path.relative cwd rootPath fullPath)).
  assert (forall l entry st1,
             externalCount
               (snd (fold_left (addSymbolNode hashId relPath) l (entry, st1)))
             = externalCount st1) as Hfold.
  { induction l as [|x l IH]; intros entry st1; cbn [fold_left]; [done|].
    unfold addSymbolNode at 2. rewrite IH.
    destruct (negb (nodesHas st1 _)), (negb (Js.has _ _)); simpl;
      try done; by destruct (negb (Js.has _ _)). }
  specialize (Hfold (symbol :: symbols) ∅ (setFileContent fullPath code st)).
  destruct (fold_left _ (symbol :: symbols) _) as [entry st1].
  intros [= <-]. exact Hfold.
Qed.

End ExternalCountBeforeLoop.

Lemma scanFiles_externalCount (parse : string -> option Ast.Node)
  (traverseError : Ast.Node -> option string)
  (ignores : list string -> string -> string + bool)
  (hashId : string -> string) (formatNumber : Z -> positive -> string)
  (fs : FsNode) (cwd : string) (options : ScanOptions) (st : ScanState) :
  scanFiles parse traverseError ignores hashId formatNumber fs cwd options
  = inr st ->
  externalCount st = 0%Z.
Proof.
  unfold scanFiles.
  destruct (Fs.stat fs cwd _) as [[content|entries]|]; try discriminate.
  destruct (walk _ _ _ _ _ _ _ _ _ _) as [err|st1] eqn:Hwalk;
    [discriminate|].
  apply walk_externalCount in Hwalk. simpl in Hwalk.
  destruct (symbolMode options).
  - intros Hsymbols.
    apply forEach_externalCount in Hsymbols;
      [|intros ? ? ?; apply collectSymbols_externalCount].
    by rewrite Hsymbols, fold_externalCount.
  - intros [= <-]. by rewrite fold_externalCount.
Qed.

Section HiddenExternalReferences.

Variable parse : string -> option Ast.Node.
Variable traverseError : Ast.Node -> option string.
Variable ignores : list string -> string -> string + bool.
Variable hashId : string -> string.
Variable formatNumber : Z -> positive -> string.
Variable fs : FsNode.
Variable cwd : string.

Lemma filter_all {A : Type} (p : A -> bool) (l : list A) :
  Forall (fun x => p x = true) l -> List.filter p l = l.
Proof. induction 1 as [|x l Hx _ IH]; simpl; [done|]. by rewrite Hx, IH. Qed.

Lemma pushed_unmarked_not_external (key : string) (e : GraphEdge.t) :
  EdgePush hashId key e -> externalKeyed key = false ->
  notExternalEdge e = true.
Proof.
  destruct 1 as [relPath symbolId|relPath dep|relPath target type dep Hty].
  - done.
  - intros Hkey. exfalso.
    pose proof (external_key_marked relPath (Dependency.specifier dep)) as Hm.
    change (externalKeyed
              (edgeKey4 relPath "__external__" "external"
                 (Dependency.specifier dep)) = true) in Hm.
    congruence.
  - intros _. unfold notExternalEdge. simpl.
    by rewrite extractedType_notExternal.
Qed.

(** A state that does not use the reserved names hides nothing. *)
Lemma hides_refl (st : ScanState) :
  reservedNamesUnused st = true -> edgesKeyed hashId st ->
  hidesExternal st st.
Proof.
  intros Hunused [_ Hkeyed].
  assert (Forall (fun k => negb (externalKeyed k) = true) (edgeKeys st))
    as Hkeys.
  { apply Forall_forall. intros k Hk.
    by rewrite (unused_key st k Hunused Hk). }
  split_and!; [| | |done..]; symmetry.
  - apply filter_all, Forall_forall. intros [k n] Hin.
    rewrite notSentinelKey_pair. apply negb_true_iff, String.eqb_neq.
    apply (unused_node st k Hunused). unfold nodesHas.
    apply has_true_iff, list_elem_of_fmap. by exists (k, n).
  - apply filter_all.
    induction Hkeyed as [|k e ks es Hpush _ IH]; [done|].
    apply Forall_cons in Hkeys as [Hk Hks].
    constructor; [|by apply IH].
    eapply pushed_unmarked_not_external; [exact Hpush|].
    by apply negb_true_iff.
  - by apply filter_all.
Qed.

Lemma values_filter (m : list (string * GraphNode.t)) :
  Forall (fun kv => GraphNode.id (snd kv) = fst kv) m ->
  map snd (List.filter notSentinelKey m)
  = List.filter notSentinelId (map snd m).
Proof.
  induction 1 as [|[k n] m Hid _ IH]; [done|].
  cbn [List.filter map]. rewrite notSentinelKey_pair.
  unfold notSentinelId at 1. simpl in *. rewrite Hid.
  destruct (String.eqb k "__external__"); simpl; by rewrite IH.
Qed.

(** Claim C10, amended: the run that hides external references and the
    run that shows them throw the same error, or both return, with the
    same root, [totalFiles], [ignoredCount] and [externalCount]; the
    latter is in both the number of dependencies that resolve as external.
    Provided the run that hides them has no node with the id
    [__external__] and recorded no edge key that contains
    [|__external__|external|], its nodes are the nodes of the other run
    without the sentinel and its edges are the edges of the other run
    without those of type [external], in the same order. *)
Theorem external_references_only_when_shown (o : ScanOptions) :
  let scan b :=
    scanProject parse traverseError ignores hashId formatNumber fs cwd
      (withExternal b o) in
  match scan false, scan true with
  | inl e1, inl e2 => e1 = e2
  | inr hidden, inr shown =>
      GraphData.root hidden = GraphData.root shown
      /\ GraphData.totalFiles hidden = GraphData.totalFiles shown
      /\ GraphData.ignoredCount hidden = GraphData.ignoredCount shown
      /\ GraphData.externalCount hidden = GraphData.externalCount shown
      /\ (forall st0,
            scanFiles parse traverseError ignores hashId formatNumber fs cwd o
              = inr st0 ->
            GraphData.externalCount hidden
            = externalReferences parse traverseError fs cwd
                (Path.resolve cwd [root o]) st0)
      /\ ((forall st,
             scanState parse traverseError ignores hashId formatNumber fs cwd
               (withExternal false o) = inr st ->
             reservedNamesUnused st = true) ->
          GraphData.nodes hidden
            = List.filter notSentinelId (GraphData.nodes shown)
          /\ GraphData.edges hidden
             = List.filter notExternalEdge (GraphData.edges shown))
  | _, _ => False
  end.
Proof.
  cbv zeta. unfold scanProject, scanState.
  rewrite !scanFiles_includeExternal.
  destruct (scanFiles parse traverseError ignores hashId formatNumber fs cwd o)
    as [err|st0] eqn:Hfiles; [done|].
  cbn [root withExternal].
  set (rootPath := Path.resolve cwd [root o]).
  pose proof (dependency_loop_outcomes parse traverseError hashId fs cwd
                (withExternal false o) (withExternal true o) rootPath
                (filesToParse st0) st0 st0 eq_refl) as Houtcomes.
  destruct (forEach (collectDependencies _ _ _ _ _ (withExternal false o) _)
              _ st0) as [e1|hidden] eqn:Hhidden;
    destruct (forEach (collectDependencies _ _ _ _ _ (withExternal true o) _)
                _ st0) as [e2|shown] eqn:Hshown; try done.
  destruct (dependency_loop_counts parse traverseError hashId fs cwd
              (withExternal false o) rootPath (filesToParse st0) st0 st0
              hidden eq_refl Hhidden) as [HfH HcH].
  destruct (dependency_loop_counts parse traverseError hashId fs cwd
              (withExternal true o) rootPath (filesToParse st0) st0 st0
              shown eq_refl Hshown) as [HfS HcS].
  pose proof (scanFiles_externalCount _ _ _ _ _ _ _ _ _ Hfiles) as Hzero.
  unfold frameOf in HfH, HfS. simpl.
  split_and!; try congruence.
  - intros st1 [= <-]. rewrite HcH, Hzero. unfold externalReferences. lia.
  - intros Hunused. specialize (Hunused hidden eq_refl).
    assert (rtc (Step hashId) st0 hidden) as Hsteps.
    { eapply (forEach_steps hashId); [|exact Hhidden].
      intros s x s' _. apply collectDependencies_steps. }
    assert (hidesExternal shown hidden) as (Hn & He & _).
    { eapply (hides_forEach hashId);
        [| | |exact Hshown|exact Hhidden|exact Hunused].
      - intros s h s' h' x _. apply collectDependencies_hides.
      - intros h h' x _. apply collectDependencies_steps.
      - apply hides_refl;
          [exact (unused_back hashId _ _ Hsteps Hunused)|].
        eapply (steps_invariant hashId (edgesKeyed hashId));
          [apply step_edgesKeyed|by eapply scanFiles_steps|].
        split; simpl; constructor. }
    split; [|exact He].
    rewrite Hn. apply values_filter.
    assert (nodesKeyedById shown) as [_ Hkeyed].
    { apply (steps_invariant hashId nodesKeyedById
               (step_nodesKeyedById hashId) initialState shown);
        [|split; simpl; constructor].
      eapply rtc_trans; [by eapply scanFiles_steps|].
      eapply (forEach_steps hashId); [|exact Hshown].
      intros s x s' _. apply collectDependencies_steps. }
    eapply Forall_impl; [exact Hkeyed|]. by intros kv [? _].
Qed.

End HiddenExternalReferences.

(** Claim C10, at the input that refutes it: [a.ts] imports the file named
    [__external__] of its own directory.  The run that hides external
    references returns the node with the id [__external__] and the type
    [external], so its nodes are not those of the other run without the
    sentinel. *)
Lemma sentinel_without_external_references :
  match Demo.scan Demo.sentinelNamedFile (Demo.options "/repo" 5000 false None),
        Demo.scan Demo.sentinelNamedFile (Demo.options "/repo" 5000 true None)
  with
  | inr hidden, inr shown =>
      (exists n, In n (GraphData.nodes hidden) /\ isSentinel n = true)
      /\ GraphData.nodes hidden
         <> List.filter notSentinelId (GraphData.nodes shown)
  | _, _ => False
  end.
Proof.
  vm_compute. split; [|discriminate].
  eexists. split; [right; left; reflexivity|reflexivity].
Qed.

(** A tree with an external and an internal reference that does not use the
    reserved names. *)
Lemma external_references_only_when_shown_witness :
  match Demo.scan Demo.mixedImports (Demo.options "/repo" 5000 false None),
        Demo.scan Demo.mixedImports (Demo.options "/repo" 5000 true None)
  with
  | inr hidden, inr shown =>
      GraphData.externalCount hidden = 1%Z
      /\ GraphData.externalCount shown = 1%Z
      /\ GraphData.nodes hidden
         = List.filter notSentinelId (GraphData.nodes shown)
      /\ GraphData.edges hidden
         = List.filter notExternalEdge (GraphData.edges shown)
      /\ length (GraphData.edges shown) = 2
  | _, _ => False
  end.
Proof.
  pose proof (external_references_only_when_shown Demo.parse
                Demo.traverseError Demo.ignores Demo.hashId Demo.formatNumber
                Demo.mixedImports "/"
                (Demo.options "/repo" 5000 false None)) as H.
  cbv beta zeta in H.
  change (withExternal false (Demo.options "/repo" 5000 false None))
    with (Demo.options "/repo" 5000 false None) in H.
  change (withExternal true (Demo.options "/repo" 5000 false None))
    with (Demo.options "/repo" 5000 true None) in H.
  unfold Demo.scan.
  destruct (scanProject Demo.parse Demo.traverseError Demo.ignores
              Demo.hashId Demo.formatNumber Demo.mixedImports
              "/" (Demo.options "/repo" 5000 false None))
    as [e1|hidden] eqn:Eh; [vm_compute in Eh; discriminate|].
  destruct (scanProject Demo.parse Demo.traverseError Demo.ignores
              Demo.hashId Demo.formatNumber Demo.mixedImports
              "/" (Demo.options "/repo" 5000 true None))
    as [e2|shown] eqn:Es; [vm_compute in Es; discriminate|].
  destruct H as (_ & _ & _ & _ & _ & Himp).
  assert (forall st,
             scanState Demo.parse Demo.traverseError Demo.ignores Demo.hashId
               Demo.formatNumber Demo.mixedImports
               "/" (Demo.options "/repo" 5000 false None) = inr st ->
             reservedNamesUnused st = true) as Hunused.
  { intros st Hst. vm_compute in Hst. injection Hst as <-. reflexivity. }
  destruct (Himp Hunused) as [Hn He].
  vm_compute in Eh, Es. injection Eh as <-. injection Es as <-.
  split; [reflexivity|]. split; [reflexivity|].
  split; [exact Hn|]. split; [exact He|reflexivity].
Defined.

(** ** Paths in normal form *)

Lemma includes_slash_cons (c : ascii) (s : string) :
  Js.includes (String c s) "/" = Ascii.eqb c "/" || Js.includes s "/".
Proof.
  cbn [Js.includes String.prefix].
  destruct (ascii_dec "/" c) as [<-|Hne].
  - by destruct s.
  - simpl. apply Ascii.eqb_neq in Hne. by rewrite Ascii.eqb_sym, Hne.
Qed.

Lemma includes_slash_nil : Js.includes "" "/" = false.
Proof. reflexivity. Qed.

Lemma split_no_slash (s : string) :
  Js.includes s "/" = false -> Js.split "/" s = [s].
Proof.
  induction s as [|c s IH]; [done|].
  rewrite includes_slash_cons. intros [Hc Hs]%orb_false_iff.
  cbn [Js.split]. rewrite Hc, (IH Hs). done.
Qed.

Lemma split_app_slash (s t : string) :
  Js.includes s "/" = false ->
  Js.split "/" (s +:+ String "/" t) = s :: Js.split "/" t.
Proof.
  induction s as [|c s IH].
  - intros _. change ("" +:+ String "/" t) with (String "/" t).
    cbn [Js.split]. by rewrite Ascii.eqb_refl.
  - rewrite includes_slash_cons. intros [Hc Hs]%orb_false_iff.
    rewrite append_cons. cbn [Js.split]. by rewrite Hc, (IH Hs).
Qed.

Lemma cleanSegment_spec (s : string) :
  cleanSegment s = true ->
  s <> "" /\ s <> "." /\ s <> ".." /\ Js.includes s "/" = false.
Proof.
  unfold cleanSegment.
  rewrite !andb_true_iff, !negb_true_iff.
  intros [[[H1 H2] H3] H4]. split_and!; try done.
  - by intros ->.
  - by apply String.eqb_neq.
  - by apply String.eqb_neq.
Qed.

Lemma join_cons (s : string) (segs : list string) :
  segs <> [] -> Js.join "/" (s :: segs) = s +:+ String "/" (Js.join "/" segs).
Proof. by destruct segs. Qed.

Lemma split_join (segs : list string) :
  cleanSegments segs -> segs <> [] ->
  Js.split "/" (Js.join "/" segs) = segs.
Proof.
  induction 1 as [|s segs Hs Hsegs IH]; [done|]. intros _.
  apply cleanSegment_spec in Hs as (_ & _ & _ & Hs).
  destruct segs as [|s' segs'].
  - by apply split_no_slash.
  - rewrite join_cons by done. rewrite split_app_slash by done.
    by rewrite IH.
Qed.

Lemma segments_absolute (segs : list string) :
  cleanSegments segs ->
  Path.segments (absolutePath segs)
  = "" :: match segs with [] => [""] | _ => segs end.
Proof.
  intros Hsegs. unfold Path.segments, absolutePath.
  change ("/" +:+ Js.join "/" segs) with ("" +:+ String "/" (Js.join "/" segs)).
  rewrite split_app_slash by done.
  destruct segs as [|s segs]; [done|]. by rewrite split_join.
Qed.

Lemma normalizeSegs_clean (allow : bool) (segs acc : list string) :
  cleanSegments segs ->
  Path.normalizeSegs allow acc segs = rev segs ++ acc.
Proof.
  intros Hsegs. revert acc.
  induction Hsegs as [|s segs Hs _ IH]; intros acc; [done|].
  apply cleanSegment_spec in Hs as (H1 & H2 & H3 & _).
  cbn [Path.normalizeSegs].
  apply String.eqb_neq in H1, H2, H3. rewrite H1, H2, H3. simpl.
  by rewrite IH, <- app_assoc.
Qed.

Lemma normalizeSegs_empty (allow : bool) (acc segs : list string) :
  Path.normalizeSegs allow acc ("" :: segs) = Path.normalizeSegs allow acc segs.
Proof. reflexivity. Qed.

Lemma cleanSegments_absolute (segs : list string) :
  cleanSegments segs -> Path.cleanSegments (absolutePath segs) = segs.
Proof.
  intros Hsegs. unfold Path.cleanSegments.
  rewrite segments_absolute, normalizeSegs_empty by done.
  destruct segs as [|s segs]; [done|].
  by rewrite normalizeSegs_clean, app_nil_r, rev_involutive.
Qed.

Lemma resolvePath_clean (segs : list string) :
  cleanSegments segs ->
  forall above current,
    Fs.resolvePath above current segs = Fs.lookup current segs.
Proof.
  induction 1 as [|s segs Hs _ IH]; intros above current; [done|].
  apply cleanSegment_spec in Hs as (H1 & H2 & H3 & _).
  cbn [Fs.resolvePath Fs.lookup].
  destruct current as [content|entries]; [done|].
  assert (Js.isEmpty s = false) as -> by (by destruct s).
  apply String.eqb_neq in H2, H3. rewrite H2, H3. cbn [orb].
  destruct (Fs.lookupEntry s entries); [apply IH|done].
Qed.

(** [fs.stat] of a path in normal form looks its segments up in the tree;
    the root of the tree is a directory. *)
Lemma stat_absolute (fs : FsNode) (cwd : string) (segs : list string) :
  cleanSegments segs ->
  segs <> [] \/ Fs.isDirectory fs = true ->
  Fs.stat fs cwd (absolutePath segs) = Fs.lookup fs segs.
Proof.
  intros Hsegs Hroot. unfold Fs.stat.
  assert (Js.isEmpty (absolutePath segs) = false) as -> by done.
  assert (Path.isAbsolute (absolutePath segs) = true) as ->.
  { unfold Path.isAbsolute, Js.startsWith, absolutePath.
    by destruct (Js.join "/" segs). }
  rewrite segments_absolute by done.
  destruct fs as [content|entries].
  - destruct Hroot as [Hne|Hdir]; [|done]. by destruct segs.
  - cbn [Fs.resolvePath Js.isEmpty orb].
    destruct segs as [|s segs]; [done|].
    by apply resolvePath_clean.
Qed.

Lemma append_assoc (a b c : string) : (a +:+ b) +:+ c = a +:+ b +:+ c.
Proof.
  induction a as [|x a IH]; [done|].
  by rewrite !append_cons, IH.
Qed.

Lemma append_nil_r (a : string) : a +:+ "" = a.
Proof. induction a as [|x a IH]; [done|]. by rewrite append_cons, IH. Qed.

Lemma length_append (a b : string) :
  String.length (a +:+ b) = String.length a + String.length b.
Proof. induction a as [|x a IH]; [done|]. rewrite append_cons. simpl. lia. Qed.

Lemma drop_append (a b : string) (k : nat) :
  Js.drop (String.length a + k) (a +:+ b) = Js.drop k b.
Proof. induction a as [|x a IH]; [done|]. by rewrite append_cons. Qed.

Lemma endsWith_slash_append (a name : string) :
  name <> "" ->
  Js.endsWith (a +:+ name) "/" = Js.endsWith name "/".
Proof.
  intros Hname. unfold Js.endsWith. rewrite length_append.
  destruct name as [|c r]; [done|].
  change (String.length "/") with 1.
  change (String.length (String c r)) with (S (String.length r)).
  replace (String.length a + S (String.length r) - 1)
    with (String.length a + String.length r) by lia.
  rewrite drop_append.
  replace (S (String.length r) - 1) with (String.length r) by lia.
  f_equal.
  transitivity true; [|symmetry]; apply Nat.leb_le; lia.
Qed.

Lemma endsWith_slash_clean (name : string) :
  Js.includes name "/" = false -> Js.endsWith name "/" = false.
Proof.
  induction name as [|c r IH]; [done|].
  rewrite includes_slash_cons. intros [Hc Hr]%orb_false_iff.
  destruct r as [|c' r'].
  - unfold Js.endsWith. simpl. by rewrite Hc.
  - change (String c (String c' r')) with (String c "" +:+ String c' r').
    rewrite endsWith_slash_append by done. by apply IH.
Qed.

Lemma join_app (segs1 segs2 : list string) :
  segs1 <> [] -> segs2 <> [] ->
  Js.join "/" (segs1 ++ segs2)
  = Js.join "/" segs1 +:+ String "/" (Js.join "/" segs2).
Proof.
  intros H1 H2. induction segs1 as [|s segs1 IH]; [done|].
  destruct segs1 as [|s' segs1'].
  - simpl app. by rewrite join_cons.
  - change ((s :: s' :: segs1') ++ segs2) with (s :: (s' :: segs1') ++ segs2).
    rewrite !join_cons by done. rewrite IH by done.
    by rewrite append_assoc, append_cons.
Qed.

Lemma cleanSegments_app (segs1 segs2 : list string) :
  cleanSegments segs1 -> cleanSegments segs2 -> cleanSegments (segs1 ++ segs2).
Proof. apply Forall_app_2. Qed.

(** A child of a directory in normal form. *)
Lemma absolutePath_child (segs : list string) (name : string) :
  absolutePath segs +:+ String "/" name
  = match segs with
    | [] => "/" +:+ String "/" name
    | _ => absolutePath (segs ++ [name])
    end.
Proof.
  destruct segs as [|s segs]; [done|].
  unfold absolutePath. rewrite join_app by done.
  by rewrite append_assoc.
Qed.

Lemma segments_child (segs : list string) (name : string) :
  cleanSegments segs -> cleanSegment name = true ->
  exists blanks,
    Path.segments (absolutePath segs +:+ String "/" name)
      = "" :: blanks ++ segs ++ [name]
    /\ (blanks = [] \/ blanks = [""]).
Proof.
  intros Hsegs Hname. unfold Path.segments.
  pose proof (cleanSegment_spec name Hname) as (_ & _ & _ & Hslash).
  change (absolutePath segs)
    with ("" +:+ String "/" (Js.join "/" segs)).
  rewrite append_assoc, append_cons, split_app_slash by done.
  destruct segs as [|s segs].
  - exists [""]. split; [|by right].
    change (Js.join "/" [] +:+ String "/" name) with ("" +:+ String "/" name).
    by rewrite split_app_slash, split_no_slash.
  - exists []. split; [|by left].
    change (String "/" name) with (String "/" (Js.join "/" [name])).
    rewrite <- join_app by done.
    rewrite split_join; [done| |by destruct segs].
    apply cleanSegments_app; [done|]. by constructor.
Qed.

Lemma split_join_append (segs : list string) (t : string) :
  cleanSegments segs -> segs <> [] ->
  Js.split "/" (Js.join "/" segs +:+ String "/" t) = segs ++ Js.split "/" t.
Proof.
  induction 1 as [|s segs Hs Hsegs IH]; [done|]. intros _.
  apply cleanSegment_spec in Hs as (_ & _ & _ & Hs).
  destruct segs as [|s' segs'].
  - by apply split_app_slash.
  - rewrite join_cons by done.
    rewrite append_assoc, append_cons, split_app_slash by done.
    by rewrite IH.
Qed.

Lemma segments_absolute_append (segs : list string) (t : string) :
  cleanSegments segs ->
  Path.segments (absolutePath segs +:+ String "/" t)
  = ("" :: match segs with [] => [""] | _ => segs end) ++ Js.split "/" t.
Proof.
  intros Hsegs. unfold Path.segments.
  change (absolutePath segs) with ("" +:+ String "/" (Js.join "/" segs)).
  rewrite append_assoc, append_cons, split_app_slash by done.
  destruct segs as [|s segs].
  - change (Js.join "/" [] +:+ String "/" t) with ("" +:+ String "/" t).
    by rewrite split_app_slash.
  - by rewrite split_join_append.
Qed.

Lemma normalizeSegs_app (allow : bool) (l1 l2 acc : list string) :
  Path.normalizeSegs allow acc (l1 ++ l2)
  = Path.normalizeSegs allow (Path.normalizeSegs allow acc l1) l2.
Proof.
  revert acc. induction l1 as [|s l1 IH]; intros acc; [done|].
  cbn [app Path.normalizeSegs].
  destruct (String.eqb s "" || String.eqb s "."); [apply IH|].
  destruct (String.eqb s ".."); [|apply IH].
  destruct acc as [|top below]; [apply IH|].
  destruct (String.eqb top ".."); apply IH.
Qed.

(** The segments of an absolute path in normal form, normalized. *)
Lemma normalizeSegs_absolute_prefix (segs : list string) :
  cleanSegments segs ->
  Path.normalizeSegs false []
    ("" :: match segs with [] => [""] | _ => segs end)
  = rev segs.
Proof.
  intros Hsegs. rewrite normalizeSegs_empty.
  destruct segs as [|s segs]; [done|].
  by rewrite normalizeSegs_clean, app_nil_r.
Qed.

Lemma absolutePath_cons (segs : list string) :
  absolutePath segs = String "/" (Js.join "/" segs).
Proof. reflexivity. Qed.

Lemma join_nonempty (segs : list string) :
  cleanSegments segs -> segs <> [] -> Js.isEmpty (Js.join "/" segs) = false.
Proof.
  intros Hsegs Hne. destruct Hsegs as [|s segs Hs _]; [done|].
  apply cleanSegment_spec in Hs as (Hs & _).
  destruct s as [|c r]; [done|].
  destruct segs; [done|]. by rewrite join_cons.
Qed.

Lemma normalizeString_absolute_append (segs extra result : list string)
  (t : string) :
  cleanSegments segs ->
  Js.split "/" t = extra ->
  Path.normalizeSegs false (rev segs) extra = rev result ->
  Path.normalizeString (absolutePath segs +:+ String "/" t) false
  = Js.join "/" result.
Proof.
  intros Hsegs Ht Hextra. unfold Path.normalizeString.
  rewrite segments_absolute_append, normalizeSegs_app by done.
  rewrite normalizeSegs_absolute_prefix by done.
  by rewrite Ht, Hextra, rev_involutive.
Qed.

Lemma isAbsolute_absolutePath (segs : list string) :
  Path.isAbsolute (absolutePath segs) = true.
Proof.
  unfold Path.isAbsolute, Js.startsWith. rewrite absolutePath_cons.
  cbn [String.prefix]. destruct (ascii_dec "/" "/"); [|done].
  by destruct (Js.join "/" segs).
Qed.

Lemma isAbsolute_append (p t : string) :
  Path.isAbsolute p = true -> Path.isAbsolute (p +:+ t) = true.
Proof.
  unfold Path.isAbsolute, Js.startsWith.
  destruct p as [|c r]; [done|]. rewrite append_cons. cbn [String.prefix].
  destruct (ascii_dec "/" c); [|done]. intros _. by destruct (r +:+ t).
Qed.

(** [path.join(dir, name)] *)
Lemma join_child (segs : list string) (name : string) :
  cleanSegments segs -> cleanSegment name = true ->
  Path.join [absolutePath segs; name] = absolutePath (segs ++ [name]).
Proof.
  intros Hsegs Hname.
  pose proof (cleanSegment_spec name Hname) as (Hne & H1 & H2 & Hslash).
  assert (Js.isEmpty (absolutePath segs) = false) as Habs by reflexivity.
  assert (Js.isEmpty name = false) as Hn by (by destruct name).
  unfold Path.join. cbn [List.filter]. rewrite Habs, Hn. cbn [negb].
  rewrite join_cons by done. change (Js.join "/" [name]) with name.
  unfold Path.normalize. cbv zeta.
  assert (Js.isEmpty (absolutePath segs +:+ String "/" name) = false) as ->
    by (by rewrite absolutePath_cons, append_cons).
  rewrite isAbsolute_append by apply isAbsolute_absolutePath.
  assert (Js.endsWith (absolutePath segs +:+ String "/" name) "/" = false) as ->.
  { change (String "/" name) with ("/" +:+ name).
    rewrite <- append_assoc, endsWith_slash_append by done.
    by apply endsWith_slash_clean. }
  cbn [negb].
  rewrite (normalizeString_absolute_append segs [name] (segs ++ [name]) name);
    try done.
  - cbn [negb]. rewrite join_nonempty; [done| |by destruct segs].
    apply cleanSegments_app; [done|by constructor].
  - by apply split_no_slash.
  - cbn [Path.normalizeSegs].
    apply String.eqb_neq in Hne, H1, H2. rewrite Hne, H1, H2. simpl.
    by rewrite rev_app_distr.
Qed.

(** [path.resolve(p)] of a path in normal form *)
Lemma resolve_absolute (cwd : string) (segs : list string) :
  cleanSegments segs ->
  Path.resolve cwd [absolutePath segs] = absolutePath segs.
Proof.
  intros Hsegs.
  assert (Js.isEmpty (absolutePath segs) = false) as Habs by reflexivity.
  unfold Path.resolve. cbn [rev app Path.resolveLoop].
  rewrite Habs, isAbsolute_absolutePath. cbv beta iota zeta. cbn [negb].
  change (absolutePath segs +:+ "/" +:+ "")
    with (absolutePath segs +:+ String "/" "").
  by rewrite (normalizeString_absolute_append segs [""] segs "").
Qed.

(** [path.resolve(dir, './name')] *)
Lemma resolve_sibling (cwd : string) (segs : list string) (name : string) :
  cleanSegments segs -> cleanSegment name = true ->
  Path.resolve cwd [absolutePath segs; "./" +:+ name]
  = absolutePath (segs ++ [name]).
Proof.
  intros Hsegs Hname.
  pose proof (cleanSegment_spec name Hname) as (Hne & H1 & H2 & Hslash).
  assert (Js.isEmpty (absolutePath segs) = false) as Habs by reflexivity.
  assert (Js.isEmpty ("./" +:+ name) = false) as Hrel by reflexivity.
  assert (Path.isAbsolute ("./" +:+ name) = false) as Hnotabs by reflexivity.
  unfold Path.resolve. cbn [rev app Path.resolveLoop].
  rewrite Hrel, Hnotabs, Habs, isAbsolute_absolutePath.
  cbv beta iota zeta. cbn [negb].
  change (absolutePath segs +:+ "/" +:+ ("./" +:+ name) +:+ "/" +:+ "")
    with (absolutePath segs +:+ String "/" ("." +:+ String "/" (name +:+ String "/" ""))).
  rewrite (normalizeString_absolute_append segs ["."; name; ""] (segs ++ [name])
             ("." +:+ String "/" (name +:+ String "/" ""))); try done.
  - rewrite split_app_slash by done.
    by rewrite split_app_slash.
  - cbn [Path.normalizeSegs]. simpl.
    apply String.eqb_neq in Hne, H1, H2. rewrite Hne, H1, H2. simpl.
    by rewrite rev_app_distr.
Qed.

Lemma stripCommon_prefix (common rest : list string) :
  Path.stripCommon common (common ++ rest) = ([], rest).
Proof.
  induction common as [|s common IH]; [by destruct rest|].
  cbn [app Path.stripCommon]. by rewrite String.eqb_refl.
Qed.

Lemma absolutePath_inj (segs1 segs2 : list string) :
  cleanSegments segs1 -> cleanSegments segs2 ->
  absolutePath segs1 = absolutePath segs2 -> segs1 = segs2.
Proof.
  intros H1 H2 Heq.
  by rewrite <- (cleanSegments_absolute segs1), <- (cleanSegments_absolute segs2),
    Heq.
Qed.

(** [posixPath(path.relative(root, p))] for a path [p] below the root *)
Lemma relative_below (cwd : string) (rootSegs rel : list string) :
  cleanSegments rootSegs -> cleanSegments rel -> rel <> [] ->
  posixPath (Path.relative cwd (absolutePath rootSegs)
               (absolutePath (rootSegs ++ rel)))
  = Js.join "/" rel.
Proof.
  intros Hroot Hrel Hne.
  assert (cleanSegments (rootSegs ++ rel)) as Hall
    by (by apply cleanSegments_app).
  assert (String.eqb (absolutePath rootSegs) (absolutePath (rootSegs ++ rel))
          = false) as Hdiff.
  { apply String.eqb_neq. intros Heq%absolutePath_inj; try done.
    rewrite <- (app_nil_r rootSegs) in Heq at 1.
    by apply app_inv_head in Heq. }
  unfold Path.relative. rewrite Hdiff, !resolve_absolute, Hdiff by done.
  rewrite !cleanSegments_absolute, stripCommon_prefix by done.
  cbn [map app]. unfold posixPath. by rewrite split_join.
Qed.

(** [path.basename(p)] *)
Lemma basename_child (segs : list string) (name : string) :
  cleanSegments segs -> cleanSegment name = true ->
  Path.basename (absolutePath (segs ++ [name])) = name.
Proof.
  intros Hsegs Hname. unfold Path.basename.
  rewrite segments_absolute by (apply cleanSegments_app; [done|by constructor]).
  assert (match segs ++ [name] with [] => [""] | _ => segs ++ [name] end
          = segs ++ [name]) as -> by (by destruct segs).
  change ("" :: segs ++ [name]) with (("" :: segs) ++ [name]).
  rewrite rev_app_distr. cbn [rev app Path.dropTrailingEmpty].
  apply cleanSegment_spec in Hname as (Hne & _).
  by destruct name.
Qed.

(** [path.dirname(p)] *)
Lemma dirname_child (segs : list string) (name : string) :
  cleanSegments segs -> cleanSegment name = true ->
  Path.dirname (absolutePath (segs ++ [name])) = absolutePath segs.
Proof.
  intros Hsegs Hname. unfold Path.dirname.
  assert (Js.isEmpty (absolutePath (segs ++ [name])) = false) as ->
    by reflexivity.
  rewrite segments_absolute by (apply cleanSegments_app; [done|by constructor]).
  assert (match segs ++ [name] with [] => [""] | _ => segs ++ [name] end
          = segs ++ [name]) as -> by (by destruct segs).
  change ("" :: segs ++ [name]) with (("" :: segs) ++ [name]).
  rewrite rev_app_distr. cbn [rev app Path.dropTrailingEmpty].
  apply cleanSegment_spec in Hname as (Hne & _).
  destruct name as [|c r]; [done|]. cbn [Js.isEmpty].
  rewrite rev_app_distr, rev_involutive. cbn [rev app].
  destruct Hsegs as [|s segs Hs Hrest]; [done|].
  apply cleanSegment_spec in Hs as (Hs & _).
  destruct s as [|c' r']; [done|].
  destruct segs; reflexivity.
Qed.

(** Appending an extension to the last segment. *)
Lemma absolutePath_extension (segs : list string) (name ext : string) :
  absolutePath (segs ++ [name]) +:+ ext = absolutePath (segs ++ [name +:+ ext]).
Proof.
  unfold absolutePath. rewrite append_assoc. f_equal.
  destruct segs as [|s segs]; [done|].
  rewrite !join_app by done.
  by rewrite append_assoc.
Qed.

(** A path below the root starts with the root. *)
Lemma startsWith_root (rootSegs rel : list string) :
  rel <> [] ->
  Js.startsWith (absolutePath (rootSegs ++ rel)) (absolutePath rootSegs) = true.
Proof.
  intros Hne. unfold Js.startsWith.
  destruct rootSegs as [|s rootSegs].
  - apply (prefix_append "/" (Js.join "/" rel)).
  - unfold absolutePath. rewrite join_app by done.
    rewrite <- append_assoc. apply prefix_append.
Qed.

(** ** Resolution of a relative specifier *)

Lemma below_not_nil {A : Type} (l r : list A) (x : A) : l ++ x :: r <> [].
Proof. by destruct l. Qed.

Lemma fileExists_absolute (fs : FsNode) (cwd : string)
  (segs : list string) :
  cleanSegments segs -> segs <> [] ->
  Fs.fileExists fs cwd (absolutePath segs) = isFileAt fs segs.
Proof.
  intros Hsegs Hne. unfold Fs.fileExists, isFileAt.
  rewrite stat_absolute; [done..|by left].
Qed.

Lemma lookup_segments_app (fs : FsNode) (segs rest : list string) :
  Fs.lookup fs (segs ++ rest)
  = match Fs.lookup fs segs with
    | Some n => Fs.lookup n rest
    | None => None
    end.
Proof.
  revert fs. induction segs as [|s segs IH]; intros fs; [done|].
  cbn [app Fs.lookup]. destruct fs as [content|entries]; [done|].
  destruct (Fs.lookupEntry s entries); [apply IH|done].
Qed.

(** Whatever holds a file is a directory. *)
Lemma file_in_directory (fs : FsNode) (segs : list string) (name : string) :
  isFileAt fs (segs ++ [name]) = true ->
  isDirectoryAt fs segs = true /\ isFileAt fs segs = false.
Proof.
  unfold isFileAt, isDirectoryAt. rewrite lookup_segments_app.
  destruct (Fs.lookup fs segs) as [[content|entries]|]; try done.
Qed.

Lemma firstExisting_none (fs : FsNode) (cwd : string)
  (candidates : list string) :
  Forall (fun c => Fs.fileExists fs cwd c = false) candidates ->
  firstExisting fs cwd candidates = None.
Proof. induction 1 as [|c cs Hc _ IH]; [done|]. simpl. by rewrite Hc. Qed.

Lemma truthy_absolute (segs : list string) :
  truthy (Some (absolutePath segs)) = Some (absolutePath segs).
Proof. reflexivity. Qed.

Section RelativeSpecifier.

Variable fs : FsNode.
Variable cwd : string.
Variable rootSegs : list string.
Hypothesis rootClean : cleanSegments rootSegs.

Let dirSegs := rootSegs ++ ["a"].

Lemma below_clean (rel : list string) :
  forallb cleanSegment rel = true -> cleanSegments (rootSegs ++ rel).
Proof.
  intros Hrel. apply cleanSegments_app; [done|].
  apply Forall_forall. intros s Hs.
  rewrite forallb_forall in Hrel. by apply Hrel, list_elem_of_In.
Qed.

(** The candidates probed for [./x]: the index files and the files with
    an extension appended. *)
Lemma index_candidates :
  map (fun ext => Path.join [absolutePath (dirSegs ++ ["x"]); "index" +:+ ext])
      IMPORT_EXTENSIONS
  = map (fun ext => absolutePath (dirSegs ++ ["x"; "index" +:+ ext]))
        IMPORT_EXTENSIONS.
Proof.
  unfold IMPORT_EXTENSIONS. cbn [map].
  assert (cleanSegments (dirSegs ++ ["x"])) as Hx.
  { unfold dirSegs. rewrite <- app_assoc. by apply below_clean. }
  rewrite !(join_child (dirSegs ++ ["x"])) by done.
  by rewrite <- !app_assoc.
Qed.

Lemma extension_candidates :
  map (fun ext => absolutePath (dirSegs ++ ["x"]) +:+ ext) IMPORT_EXTENSIONS
  = map (fun ext => absolutePath (dirSegs ++ ["x" +:+ ext])) IMPORT_EXTENSIONS.
Proof.
  unfold IMPORT_EXTENSIONS. cbn [map].
  by rewrite !absolutePath_extension.
Qed.

(** The candidate path of [./x] written in [a/b.ts] is [a/x]. *)
Lemma candidate_of_relative_specifier :
  resolveImport fs cwd (absolutePath rootSegs)
    (absolutePath (rootSegs ++ ["a"; "b.ts"])) "./x"
  = match resolveWithExtensions fs cwd (Some (absolutePath (dirSegs ++ ["x"]))) with
    | None =>
        Some {| Resolution.external := true; Resolution.resolved := None |}
    | Some resolved =>
        if negb (Js.startsWith resolved (absolutePath rootSegs)) then
          Some {| Resolution.external := true; Resolution.resolved := None |}
        else
          Some {| Resolution.external := false;
                  Resolution.resolved := Some resolved |}
    end.
Proof.
  unfold resolveImport.
  change (Js.isEmpty "./x" || Js.startsWith "./x" "http") with false.
  change (Js.splitHead "#" (Js.splitHead "?" "./x")) with "./x".
  change (Js.startsWith "./x" "@/") with false.
  change (Js.startsWith "./x" "/") with false.
  change (Js.startsWith "./x" ".") with true.
  cbv beta iota zeta.
  change (rootSegs ++ ["a"; "b.ts"]) with (rootSegs ++ ["a"] ++ ["b.ts"]).
  rewrite app_assoc.
  rewrite dirname_child; [|by apply below_clean|done].
  change "./x" with ("./" +:+ "x").
  rewrite resolve_sibling; [done|by apply below_clean|done].
Qed.

End RelativeSpecifier.

Lemma import_extension_names (ext : string) :
  ext ∈ IMPORT_EXTENSIONS ->
  cleanSegment ("index" +:+ ext) = true /\ cleanSegment ("x" +:+ ext) = true.
Proof.
  unfold IMPORT_EXTENSIONS. rewrite !elem_of_cons, elem_of_nil.
  intros H.
  repeat (destruct H as [->|H]; [by split|]). done.
Qed.

(** Claim C4, amended: for every tree and every root in normal form, the
    specifier [./x] written in [a/b.ts] resolves to [a/x/index.ts] whenever
    that file exists; it resolves to [a/x.ts] when that file exists and
    [a/x] is neither a file nor a directory that holds an index file with
    an import extension; and it is external when [a/x] is not a file and
    none of the files [a/x/index<ext>] and [a/x<ext>] exists. *)
Theorem relative_specifier_resolution (fs : FsNode) (cwd : string)
  (rootSegs : list string) :
  cleanSegments rootSegs ->
  let root := absolutePath rootSegs in
  let resolution :=
    resolveImport fs cwd root (absolutePath (rootSegs ++ ["a"; "b.ts"])) "./x" in
  let inTree rel :=
    resolution
    = Some {| Resolution.external := false;
              Resolution.resolved := Some (absolutePath (rootSegs ++ rel)) |}
    /\ posixPath (Path.relative cwd root (absolutePath (rootSegs ++ rel)))
       = Js.join "/" rel in
  let fileAt rel := isFileAt fs (rootSegs ++ rel) in
  (fileAt ["a"; "x"; "index.ts"] = true -> inTree ["a"; "x"; "index.ts"])
  /\ (fileAt ["a"; "x.ts"] = true ->
      fileAt ["a"; "x"] = false ->
      (forall ext, ext ∈ IMPORT_EXTENSIONS ->
                   fileAt ["a"; "x"; "index" +:+ ext] = false) ->
      inTree ["a"; "x.ts"])
  /\ (fileAt ["a"; "x"] = false ->
      (forall ext, ext ∈ IMPORT_EXTENSIONS ->
                   fileAt ["a"; "x"; "index" +:+ ext] = false
                   /\ fileAt ["a"; "x" +:+ ext] = false) ->
      resolution
      = Some {| Resolution.external := true; Resolution.resolved := None |}).
Proof.
  intros Hroot. cbv zeta.
  rewrite candidate_of_relative_specifier by done.
  assert (forall rel, forallb cleanSegment rel = true ->
                      cleanSegments (rootSegs ++ rel)) as Hclean
    by (intros rel; by apply below_clean).
  assert (forall ext, ext ∈ IMPORT_EXTENSIONS ->
            Fs.fileExists fs cwd
              (absolutePath ((rootSegs ++ ["a"]) ++ ["x"; "index" +:+ ext]))
            = isFileAt fs (rootSegs ++ ["a"; "x"; "index" +:+ ext])) as Hindex.
  { intros ext [Hext _]%import_extension_names.
    rewrite <- app_assoc.
    apply fileExists_absolute; [apply Hclean|apply below_not_nil].
    cbn [app forallb]. by rewrite Hext. }
  assert (forall ext, ext ∈ IMPORT_EXTENSIONS ->
            Fs.fileExists fs cwd (absolutePath ((rootSegs ++ ["a"]) ++ ["x" +:+ ext]))
            = isFileAt fs (rootSegs ++ ["a"; "x" +:+ ext])) as Hext.
  { intros ext [_ Hext]%import_extension_names.
    rewrite <- app_assoc.
    apply fileExists_absolute; [apply Hclean|apply below_not_nil].
    cbn [app forallb]. by rewrite Hext. }
  unfold resolveWithExtensions. rewrite truthy_absolute.
  rewrite index_candidates, extension_candidates by done.
  rewrite stat_absolute;
    [|rewrite <- app_assoc; by apply Hclean
     |left; rewrite <- app_assoc; apply below_not_nil].
  rewrite <- app_assoc. cbn [app].
  fold (isFileAt fs (rootSegs ++ ["a"; "x"])).
  fold (isDirectoryAt fs (rootSegs ++ ["a"; "x"])).
  assert (Path.extname (absolutePath (rootSegs ++ ["a"; "x"])) = "") as ->.
  { unfold Path.extname.
    change (rootSegs ++ ["a"; "x"]) with (rootSegs ++ ["a"] ++ ["x"]).
    rewrite app_assoc, basename_child; [done|by apply Hclean|done]. }
  cbn [Js.isEmpty].
  split_and!.
  - intros Hfile.
    change (rootSegs ++ ["a"; "x"; "index.ts"])
      with (rootSegs ++ ["a"; "x"] ++ ["index.ts"]) in Hfile.
    rewrite app_assoc in Hfile.
    destruct (file_in_directory _ _ _ Hfile) as [-> ->].
    rewrite <- app_assoc in Hfile. cbn [app] in Hfile.
    unfold IMPORT_EXTENSIONS at 1. cbn [map firstExisting].
    rewrite (Hindex ".ts") by (by left).
    change ("index" +:+ ".ts") with "index.ts". rewrite Hfile.
    rewrite <- app_assoc.
    rewrite (startsWith_root rootSegs (["a"] ++ ["x"; "index.ts"])) by done.
    split; [done|].
    apply (relative_below cwd rootSegs ["a"; "x"; "index.ts"]); try done.
    by repeat constructor.
  - intros Hfile Hnot Hnoindex. rewrite Hnot.
    assert (firstExisting fs cwd
              (map (fun ext =>
                      absolutePath ((rootSegs ++ ["a"]) ++ ["x"; "index" +:+ ext]))
                   IMPORT_EXTENSIONS) = None) as Hnone.
    { apply firstExisting_none, Forall_forall.
      intros c [ext [<- Hin]]%list_elem_of_In%in_map_iff.
      apply list_elem_of_In in Hin. rewrite Hindex by done. by apply Hnoindex. }
    rewrite Hnone.
    destruct (isDirectoryAt fs (rootSegs ++ ["a"; "x"]));
      (unfold IMPORT_EXTENSIONS; cbn [map firstExisting];
       rewrite (Hext ".ts") by (by left);
       change ("x" +:+ ".ts") with "x.ts"; rewrite Hfile;
       rewrite <- app_assoc;
       rewrite (startsWith_root rootSegs (["a"] ++ ["x.ts"])) by done;
       (split; [done|]);
       apply (relative_below cwd rootSegs ["a"; "x.ts"]); try done;
       by repeat constructor).
  - intros Hnot Hnone. rewrite Hnot.
    assert (firstExisting fs cwd
              (map (fun ext =>
                      absolutePath ((rootSegs ++ ["a"]) ++ ["x"; "index" +:+ ext]))
                   IMPORT_EXTENSIONS) = None) as ->.
    { apply firstExisting_none, Forall_forall.
      intros c [ext [<- Hin]]%list_elem_of_In%in_map_iff.
      apply list_elem_of_In in Hin. rewrite Hindex by done. by apply Hnone. }
    assert (firstExisting fs cwd
              (map (fun ext => absolutePath ((rootSegs ++ ["a"]) ++ ["x" +:+ ext]))
                   IMPORT_EXTENSIONS) = None) as ->.
    { apply firstExisting_none, Forall_forall.
      intros c [ext [<- Hin]]%list_elem_of_In%in_map_iff.
      apply list_elem_of_In in Hin. rewrite Hext by done. by apply Hnone. }
    by destruct (isDirectoryAt fs (rootSegs ++ ["a"; "x"])).
Qed.

(** Claim C4, at inputs that refute it.  When both [a/x.ts] and
    [a/x/index.ts] exist, [./x] written in [a/b.ts] resolves to
    [a/x/index.ts], not to [a/x.ts]; when neither exists but [a/x.js] does,
    it resolves to [a/x.js] and is not external. *)
Lemma index_file_wins_over_sibling_file :
  (isFileAt Demo.fileAndIndex ["repo"; "a"; "x.ts"] = true
   /\ resolveImport Demo.fileAndIndex "/" "/repo" "/repo/a/b.ts" "./x"
      = Some {| Resolution.external := false;
                Resolution.resolved := Some "/repo/a/x/index.ts" |}
   /\ match Demo.scan Demo.fileAndIndex (Demo.options "/repo" 5000 true None) with
      | inr g =>
          map (fun e => (GraphEdge.source e, GraphEdge.target e))
              (GraphData.edges g)
          = [("a/b.ts", "a/x/index.ts")]
      | inl _ => False
      end)
  /\ (isFileAt Demo.onlyJavaScript ["repo"; "a"; "x.ts"] = false
      /\ isFileAt Demo.onlyJavaScript ["repo"; "a"; "x"; "index.ts"] = false
      /\ resolveImport Demo.onlyJavaScript "/" "/repo" "/repo/a/b.ts" "./x"
         = Some {| Resolution.external := false;
                   Resolution.resolved := Some "/repo/a/x.js" |}).
Proof. vm_compute. repeat split. Qed.

Lemma relative_specifier_resolution_witness :
  cleanSegments ["repo"]
  /\ isFileAt Demo.fileAndIndex (["repo"] ++ ["a"; "x"; "index.ts"]) = true
  /\ resolveImport Demo.fileAndIndex "/" (absolutePath ["repo"])
       (absolutePath (["repo"] ++ ["a"; "b.ts"])) "./x"
     = Some {| Resolution.external := false;
               Resolution.resolved :=
                 Some (absolutePath (["repo"] ++ ["a"; "x"; "index.ts"])) |}.
Proof.
  assert (cleanSegments ["repo"]) as Hclean by (by repeat constructor).
  split; [exact Hclean|]. split; [reflexivity|].
  destruct (relative_specifier_resolution Demo.fileAndIndex "/" ["repo"] Hclean)
    as (Hindex & _).
  destruct Hindex as [Hresolved _]; [reflexivity|exact Hresolved].
Defined.

(** ** Scanning the files of the root directory *)

Section RootDirectory.

Variable parse : string -> option Ast.Node.
Variable traverseError : Ast.Node -> option string.
Variable ignores : list string -> string -> string + bool.
Variable hashId : string -> string.
Variable formatNumber : Z -> positive -> string.
Variable fs : FsNode.
Variable cwd : string.
Variable rootSegs : list string.
Variable entries : list (string * FsNode).

Hypothesis rootClean : cleanSegments rootSegs.
Hypothesis rootListing : Fs.lookup fs rootSegs = Some (FsDir entries).

Local Abbreviation rootPath := (absolutePath rootSegs).

Lemma relative_root_child (name : string) :
  cleanSegment name = true ->
  posixPath (Path.relative cwd rootPath (absolutePath (rootSegs ++ [name])))
  = name.
Proof.
  intros Hname.
  by rewrite (relative_below cwd rootSegs [name]); [| |constructor|].
Qed.

Lemma relative_root_root :
  posixPath (Path.relative cwd rootPath rootPath) = "".
Proof. unfold Path.relative. by rewrite String.eqb_refl. Qed.

Lemma basename_name (name : string) :
  cleanSegment name = true -> Path.basename name = name.
Proof.
  intros (Hne & _ & _ & Hslash)%cleanSegment_spec.
  unfold Path.basename, Path.segments. rewrite split_no_slash by done.
  by destruct name.
Qed.

Lemma extname_root_child (name : string) :
  cleanSegment name = true ->
  Path.extname (absolutePath (rootSegs ++ [name])) = Path.extname name.
Proof.
  intros Hname. unfold Path.extname.
  by rewrite basename_child, basename_name.
Qed.

Lemma isSupportedFile_root_child (name : string) :
  cleanSegment name = true ->
  isSupportedFile (absolutePath (rootSegs ++ [name])) = isSupportedFile name.
Proof. intros Hname. unfold isSupportedFile. by rewrite extname_root_child. Qed.

Lemma lookup_root_child (name : string) :
  Fs.lookup fs (rootSegs ++ [name]) = Fs.lookupEntry name entries.
Proof.
  rewrite lookup_segments_app, rootListing. simpl.
  by destruct (Fs.lookupEntry name entries).
Qed.

Lemma stat_root_child (name : string) :
  cleanSegment name = true ->
  Fs.stat fs cwd (absolutePath (rootSegs ++ [name])) = Fs.lookupEntry name entries.
Proof.
  intros Hname. rewrite stat_absolute, lookup_root_child;
    [done| |left; apply below_not_nil].
  apply cleanSegments_app; [done|by constructor].
Qed.

(** One iteration of the loop of the walk, in the root directory, on an
    entry that is a file. *)
Lemma walkEntries_root_file (options : ScanOptions)
  (walkDir : string -> list string -> FsNode -> ScanState -> string + ScanState)
  (combined : list string) (name : string) (content : option string)
  (rest : list (string * FsNode)) (st : ScanState) :
  cleanSegment name = true ->
  walkEntries ignores formatNumber cwd options rootPath walkDir rootPath
    combined ((name, FsFile content) :: rest) st
  = match ignores combined name with
    | inl err => inl err
    | inr true =>
        walkEntries ignores formatNumber cwd options rootPath walkDir rootPath
          combined rest
          (if isSupportedFile name
           then pushIgnoredNode (fileNode name (Some true)) (incIgnoredCount st)
           else incIgnoredCount st)
    | inr false =>
        if Js.exceeds (totalFiles st + 1) (maxFiles options) then
          inl (capacityMessage formatNumber (maxFiles options))
        else if negb (isSupportedFile name) then
          walkEntries ignores formatNumber cwd options rootPath walkDir
            rootPath combined rest (incTotalFiles st)
        else
          walkEntries ignores formatNumber cwd options rootPath walkDir
            rootPath combined rest
            (pushFileToParse (absolutePath (rootSegs ++ [name]))
               (setNode name (fileNode name None) (incTotalFiles st)))
    end.
Proof.
  intros Hname.
  pose proof (cleanSegment_spec name Hname) as (Hne & _).
  cbn [walkEntries].
  rewrite join_child, relative_root_child, isSupportedFile_root_child by done.
  assert (Js.isEmpty name = false) as -> by (by destruct name).
  cbn [Fs.isDirectory negb andb]. reflexivity.
Qed.

(** The patterns in force in the root directory. *)
Lemma combinedPatternsOf_root (patterns : list string) :
  combinedPatternsOf fs cwd rootPath rootPath patterns
  = match truthy
            match Fs.lookupEntry ".gitignore" entries with
            | Some (FsFile content) => content
            | _ => None
            end with
    | Some gitignoreContent =>
        patterns ++
        List.filter (fun value => negb (Js.isEmpty value))
          (omap (normalizeGitignorePattern "")
                (Js.splitLines gitignoreContent))
    | None => patterns
    end.
Proof.
  unfold combinedPatternsOf, Fs.readFile.
  rewrite relative_root_root, join_child, stat_root_child by done.
  reflexivity.
Qed.

End RootDirectory.

(** A count that does not exceed a limit: no smaller count exceeds it. *)
Lemma exceeds_below (count count' : Z) (x : Js.Number) :
  Js.exceeds count x = false -> (count' <= count)%Z ->
  Js.exceeds count' x = false.
Proof.
  destruct x as [|negative|n d]; cbn [Js.exceeds]; [done..|].
  rewrite !Z.ltb_ge. nia.
Qed.

(** One iteration of the loop of the walk on a file of the root directory
    whose name is known, under a limit that is not reached. *)
Ltac root_file_step ignores formatNumber cwd rootSegs capacity :=
  rewrite (walkEntries_root_file ignores formatNumber cwd rootSegs) by done;
  repeat match goal with
    | H : ignores _ ?name = _ |- context [ignores _ ?name] => rewrite H
    end;
  repeat match goal with
    | |- context [isSupportedFile ?name] =>
        let b := eval vm_compute in (isSupportedFile name) in
        change (isSupportedFile name) with b
    end;
  repeat match goal with
    | |- context [Js.exceeds ?k ?m] =>
        let k' := eval vm_compute in k in
        rewrite (exceeds_below 2 k m capacity)
          by (change k with k'; lia)
    end;
  cbn [negb].

(** ** An import of a file that [.gitignore] excludes *)

Section IgnoredTarget.

Variable parse : string -> option Ast.Node.
Variable traverseError : Ast.Node -> option string.
Variable ignores : list string -> string -> string + bool.
Variable hashId : string -> string.
Variable formatNumber : Z -> positive -> string.
Variable fs : FsNode.
Variable cwd : string.
Variable rootSegs : list string.
Variable entries : list (string * FsNode).
Variable options : ScanOptions.
Variable base : Ast.Base.

Hypothesis rootClean : cleanSegments rootSegs.
Hypothesis rootListing : Fs.lookup fs rootSegs = Some (FsDir entries).
Hypothesis listing : entries ≡ₚ Demo.ignoredTargetEntries.
Hypothesis ofRoot : root options = absolutePath rootSegs.
Hypothesis fileMode : symbolMode options = false.
Hypothesis capacity : Js.exceeds 2 (maxFiles options) = false.
Hypothesis parsed :
  parse Demo.importB
  = Some (Demo.program [Ast.ImportDeclaration base "./b" []]).
Hypothesis traversed :
  traverseError (Demo.program [Ast.ImportDeclaration base "./b" []]) = None.

Let patterns : list string := ALWAYS_IGNORE ++ ["**/b.ts"].

Hypothesis ignoresTarget : ignores patterns "b.ts" = inr true.
Hypothesis keepsImporter : ignores patterns "a.ts" = inr false.
Hypothesis keepsGitignore : ignores patterns ".gitignore" = inr false.

Local Abbreviation rootPath := (absolutePath rootSegs).

Lemma ignoredTarget_orders :
  entries ∈ permutations Demo.ignoredTargetEntries.
Proof. by apply permutations_Permutation. Qed.

Lemma ignoredTarget_patterns :
  combinedPatternsOf fs cwd rootPath rootPath ALWAYS_IGNORE = patterns.
Proof.
  rewrite (combinedPatternsOf_root fs cwd rootSegs entries) by done.
  pose proof ignoredTarget_orders as Horders.
  let l := eval vm_compute in (permutations Demo.ignoredTargetEntries) in
  change (permutations Demo.ignoredTargetEntries) with l in Horders.
  rewrite !elem_of_cons, elem_of_nil in Horders.
  by repeat (destruct Horders as [->|Horders]; [reflexivity|]).
Qed.

Lemma ignoredTarget_walk :
  walk ignores formatNumber fs cwd options rootPath rootPath ALWAYS_IGNORE (FsDir entries)
    initialState
  = inr {| nodes := [("a.ts", fileNode "a.ts" None)];
           edges := []; edgeKeys := [];
           ignoredNodes := [fileNode "b.ts" (Some true)];
           symbolMap := ∅; fileContents := ∅;
           totalFiles := 2; ignoredCount := 1; externalCount := 0;
           filesToParse := [absolutePath (rootSegs ++ ["a.ts"])] |}.
Proof.
  cbn [walk]. rewrite ignoredTarget_patterns.
  pose proof ignoredTarget_orders as Horders.
  let l := eval vm_compute in (permutations Demo.ignoredTargetEntries) in
  change (permutations Demo.ignoredTargetEntries) with l in Horders.
  rewrite !elem_of_cons, elem_of_nil in Horders.
  repeat (destruct Horders as [->|Horders];
          [by repeat root_file_step ignores formatNumber cwd rootSegs
                       capacity|]).
  done.
Qed.

Local Abbreviation walked := (ignoredTargetWalked rootSegs).

Lemma ignoredTarget_scanFiles :
  scanFiles parse traverseError ignores hashId formatNumber fs cwd options = inr walked.
Proof.
  unfold scanFiles.
  rewrite ofRoot, resolve_absolute by done.
  rewrite stat_absolute, rootListing;
    [|done|destruct rootSegs; [right|by left]].
  - cbv zeta. rewrite ignoredTarget_walk, fileMode. reflexivity.
  - cbn [Fs.lookup] in rootListing. by injection rootListing as ->.
Qed.

Lemma ignoredTarget_entries :
  Fs.lookupEntry "a.ts" entries = Some (FsFile (Some Demo.importB))
  /\ Fs.lookupEntry "b" entries = None
  /\ Fs.lookupEntry "b.ts" entries = Some (FsFile (Some Demo.exportConstX)).
Proof.
  pose proof ignoredTarget_orders as Horders.
  let l := eval vm_compute in (permutations Demo.ignoredTargetEntries) in
  change (permutations Demo.ignoredTargetEntries) with l in Horders.
  rewrite !elem_of_cons, elem_of_nil in Horders.
  by repeat (destruct Horders as [->|Horders]; [by split_and!|]).
Qed.

(** [./b] written in [a.ts] is the file [b.ts] of the root. *)
Lemma ignoredTarget_resolution :
  resolveImport fs cwd rootPath (absolutePath (rootSegs ++ ["a.ts"])) "./b"
  = Some {| Resolution.external := false;
            Resolution.resolved := Some (absolutePath (rootSegs ++ ["b.ts"])) |}.
Proof.
  destruct ignoredTarget_entries as (_ & Hb & Hbts).
  unfold resolveImport.
  change (Js.isEmpty "./b" || Js.startsWith "./b" "http") with false.
  change (Js.splitHead "#" (Js.splitHead "?" "./b")) with "./b".
  change (Js.startsWith "./b" "@/") with false.
  change (Js.startsWith "./b" "/") with false.
  change (Js.startsWith "./b" ".") with true.
  cbv beta iota zeta.
  rewrite dirname_child by done.
  change "./b" with ("./" +:+ "b").
  rewrite resolve_sibling by done.
  unfold resolveWithExtensions. rewrite truthy_absolute. cbv zeta.
  rewrite (stat_root_child fs cwd rootSegs entries), Hb by done.
  rewrite (extname_root_child rootSegs) by done.
  change (Js.isEmpty (Path.extname "b")) with true.
  unfold IMPORT_EXTENSIONS. cbn [map firstExisting].
  rewrite !absolutePath_extension.
  unfold Fs.fileExists.
  change ("b" +:+ ".ts") with "b.ts".
  rewrite (stat_root_child fs cwd rootSegs entries rootClean rootListing "b.ts"), Hbts by done.
  cbn [Fs.isFile].
  by rewrite (startsWith_root rootSegs ["b.ts"]).
Qed.

Lemma ignoredTarget_dependencies :
  extractDependencies parse traverseError (absolutePath (rootSegs ++ ["a.ts"]))
    Demo.importB
  = inr [mkDependency Demo.importB base "./b" EdgeType.static None].
Proof.
  unfold extractDependencies.
  rewrite (extname_root_child rootSegs) by done.
  change (Js.has STYLE_EXTENSIONS (Path.extname "a.ts")) with false.
  change (Js.has SCRIPT_EXTENSIONS (Path.extname "a.ts")) with true.
  cbv beta iota zeta. by rewrite parsed, traversed.
Qed.

(** The dependency loop on [a.ts] pushes the edge to [b.ts]. *)
Lemma ignoredTarget_collect :
  let statement := sliceNode Demo.importB base in
  let key := "a.ts|b.ts|static|" +:+ statement in
  collectDependencies parse traverseError hashId fs cwd options rootPath
    walked (absolutePath (rootSegs ++ ["a.ts"]))
  = inr (pushEdge key
      {| GraphEdge.id := hashId key;
         GraphEdge.source := "a.ts";
         GraphEdge.target := "b.ts";
         GraphEdge.type := EdgeType.static;
         GraphEdge.statement := Some (Js.take 200 statement);
         GraphEdge.loc := Ast.loc base |}
      walked).
Proof.
  destruct ignoredTarget_entries as (Ha & _ & _).
  intros statement key. unfold collectDependencies.
  rewrite (relative_root_child cwd rootSegs) by done.
  cbn [fileContents ignoredTargetWalked]. rewrite lookup_empty.
  unfold Fs.readFile.
  rewrite (stat_root_child fs cwd rootSegs entries rootClean rootListing "a.ts"),
    Ha by done.
  change (truthy (Some Demo.importB)) with (Some Demo.importB).
  cbv beta iota zeta.
  rewrite ignoredTarget_dependencies. cbn [fold_left].
  unfold addDependency. cbn [Dependency.specifier mkDependency].
  rewrite ignoredTarget_resolution.
  cbn [Resolution.external Resolution.resolved].
  rewrite truthy_absolute. unfold addInternal.
  rewrite (relative_root_child cwd rootSegs) by done.
  change (nodesHas walked "b.ts") with true. cbn [negb].
  unfold addInternalEdges. rewrite fileMode. reflexivity.
Qed.

Lemma ignoredTarget_scan :
  let statement := sliceNode Demo.importB base in
  let key := "a.ts|b.ts|static|" +:+ statement in
  scanProject parse traverseError ignores hashId formatNumber fs cwd options
  = inr {| GraphData.root := rootPath;
           GraphData.nodes :=
             [ {| GraphNode.id := "a.ts"; GraphNode.path := "a.ts";
                  GraphNode.label := "a.ts";
                  GraphNode.type := NodeType.module;
                  GraphNode.ignored := None;
                  GraphNode.symbolKind := None;
                  GraphNode.parent := None;
                  GraphNode.displayName := None |};
               {| GraphNode.id := "b.ts"; GraphNode.path := "b.ts";
                  GraphNode.label := "b.ts";
                  GraphNode.type := NodeType.module;
                  GraphNode.ignored := Some true;
                  GraphNode.symbolKind := None;
                  GraphNode.parent := None;
                  GraphNode.displayName := None |} ];
           GraphData.edges :=
             [ {| GraphEdge.id := hashId key;
                  GraphEdge.source := "a.ts";
                  GraphEdge.target := "b.ts";
                  GraphEdge.type := EdgeType.static;
                  GraphEdge.statement := Some (Js.take 200 statement);
                  GraphEdge.loc := Ast.loc base |} ];
           GraphData.totalFiles := 2;
           GraphData.ignoredCount := 1;
           GraphData.externalCount := 0 |}.
Proof.
  intros statement key. unfold scanProject, scanState.
  rewrite ignoredTarget_scanFiles.
  cbn [filesToParse ignoredTargetWalked forEach].
  rewrite ofRoot, resolve_absolute by done.
  by rewrite ignoredTarget_collect.
Qed.

End IgnoredTarget.

(** ** The same directory in the browser scanner *)

Section BrowserIgnoredTarget.

Variable parse : string -> option Ast.Node.
Variable traverseError : Ast.Node -> option string.
Variable ignores : list string -> string -> string + bool.
Variable formatNumber : Z -> positive -> string.
Variable entries : list (string * FsNode).
Variable options : BrowserScan.BrowserScanOptions.
Variable base : Ast.Base.

Hypothesis listing : entries ≡ₚ Demo.ignoredTargetEntries.
Hypothesis ofHandle :
  BrowserScan.entries (BrowserScan.rootHandle options) = entries.
Hypothesis fileMode : BrowserScan.symbolMode options = false.
Hypothesis capacity : Js.exceeds 2 (BrowserScan.maxFiles options) = false.
Hypothesis parsed :
  parse Demo.importB
  = Some (Demo.program [Ast.ImportDeclaration base "./b" []]).
Hypothesis traversed :
  traverseError (Demo.program [Ast.ImportDeclaration base "./b" []]) = None.

Let patterns : list string := ALWAYS_IGNORE ++ ["**/b.ts"].

Hypothesis ignoresTarget : ignores patterns "b.ts" = inr true.
Hypothesis keepsImporter : ignores patterns "a.ts" = inr false.
Hypothesis keepsGitignore : ignores patterns ".gitignore" = inr false.

(** One iteration of the loop of the walk, in the root directory, on an
    entry that is a file. *)
Lemma browser_walkEntries_root_file
  (walkDir : FsNode -> string -> list string -> BrowserScan.State ->
             string + BrowserScan.State)
  (combined : list string) (name : string) (content : option string)
  (rest : list (string * FsNode)) (st : BrowserScan.State) :
  Js.isEmpty name = false ->
  BrowserScan.walkEntries ignores formatNumber options walkDir "" combined
    ((name, FsFile content) :: rest) st
  = match ignores combined name with
    | inl err => inl err
    | inr true =>
        BrowserScan.walkEntries ignores formatNumber options walkDir ""
          combined rest
          (if BrowserScan.isSupportedFile name
           then BrowserScan.onScan
                  (pushIgnoredNode (BrowserScan.fileNode name (Some true)))
                  (BrowserScan.onScan incIgnoredCount st)
           else BrowserScan.onScan incIgnoredCount st)
    | inr false =>
        if Js.exceeds (totalFiles (BrowserScan.scan st) + 1)
             (BrowserScan.maxFiles options) then
          inl (capacityMessage formatNumber (BrowserScan.maxFiles options))
        else if negb (BrowserScan.isSupportedFile name) then
          BrowserScan.walkEntries ignores formatNumber options walkDir ""
            combined rest (BrowserScan.onScan incTotalFiles st)
        else
          BrowserScan.walkEntries ignores formatNumber options walkDir ""
            combined rest
            (BrowserScan.setFileHandle name (FsFile content)
               (BrowserScan.onScan
                  (setNode name (BrowserScan.fileNode name None))
                  (BrowserScan.onScan incTotalFiles st)))
    end.
Proof.
  intros Hname. cbn [BrowserScan.walkEntries Js.isEmpty negb].
  rewrite Hname. cbn [Fs.isFile Fs.isDirectory andb]. reflexivity.
Qed.

Lemma browser_orders : entries ∈ permutations Demo.ignoredTargetEntries.
Proof. by apply permutations_Permutation. Qed.

Lemma browser_patterns :
  BrowserScan.combinedPatternsOf entries "" ALWAYS_IGNORE = patterns.
Proof.
  pose proof browser_orders as Horders.
  let l := eval vm_compute in (permutations Demo.ignoredTargetEntries) in
  change (permutations Demo.ignoredTargetEntries) with l in Horders.
  rewrite !elem_of_cons, elem_of_nil in Horders.
  by repeat (destruct Horders as [->|Horders]; [reflexivity|]).
Qed.

(** The walk keeps [a.ts], whose handle is the only one recorded, and
    sets [b.ts] aside. *)
Lemma browser_walk :
  exists content,
    BrowserScan.walk ignores formatNumber options (FsDir entries) ""
      ALWAYS_IGNORE BrowserScan.initial
    = inr {| BrowserScan.scan :=
               {| nodes := [("a.ts", BrowserScan.fileNode "a.ts" None)];
                  edges := []; edgeKeys := [];
                  ignoredNodes := [BrowserScan.fileNode "b.ts" (Some true)];
                  symbolMap := ∅; fileContents := ∅;
                  totalFiles := 2; ignoredCount := 1; externalCount := 0;
                  filesToParse := [] |};
             BrowserScan.fileHandles := [("a.ts", FsFile content)];
             BrowserScan.dirSet := {[ "" ]} ∪ {[ "" ]} |}
    /\ content = Some Demo.importB.
Proof.
  cbn [BrowserScan.walk]. rewrite browser_patterns.
  pose proof browser_orders as Horders.
  let l := eval vm_compute in (permutations Demo.ignoredTargetEntries) in
  change (permutations Demo.ignoredTargetEntries) with l in Horders.
  rewrite !elem_of_cons, elem_of_nil in Horders.
  eexists. split; [|reflexivity].
  repeat (destruct Horders as [->|Horders];
          [repeat (rewrite browser_walkEntries_root_file by done;
                   repeat match goal with
                     | H : ignores _ ?name = _
                       |- context [ignores _ ?name] => rewrite H
                     end;
                   repeat match goal with
                     | |- context [BrowserScan.isSupportedFile ?name] =>
                         let b :=
                           eval vm_compute in (BrowserScan.isSupportedFile name)
                         in change (BrowserScan.isSupportedFile name) with b
                     end;
                   repeat match goal with
                     | |- context [Js.exceeds ?k ?m] =>
                         let k' := eval vm_compute in k in
                         rewrite (exceeds_below 2 k m capacity)
                           by (change k with k'; lia)
                     end;
                   cbn [negb]);
           reflexivity|]).
  done.
Qed.

Lemma browser_dependencies :
  BrowserScan.extractDependencies parse traverseError "a.ts" Demo.importB
  = inr [mkDependency Demo.importB base "./b" EdgeType.static None].
Proof.
  unfold BrowserScan.extractDependencies.
  change (Js.has STYLE_EXTENSIONS (Browser.posixExtname "a.ts")) with false.
  change (Js.has SCRIPT_EXTENSIONS (Browser.posixExtname "a.ts")) with true.
  cbv beta iota zeta. by rewrite parsed, traversed.
Qed.

(** [./b] written in [a.ts] finds nothing in the file set, which holds
    [a.ts] only. *)
Lemma browser_resolution :
  Browser.resolveImport "a.ts" "./b" (list_to_set ["a.ts"])
    ({[ "" ]} ∪ {[ "" ]})
  = Some {| Resolution.external := true; Resolution.resolved := None |}.
Proof. by vm_compute. Qed.

Lemma browser_scan :
  let key := "a.ts|__external__|external|./b" in
  BrowserScan.scanDirectoryHandle parse traverseError ignores formatNumber
    options
  = inr {| GraphData.root := BrowserScan.rootLabel options;
           GraphData.nodes :=
             [BrowserScan.fileNode "a.ts" None;
              BrowserScan.fileNode "b.ts" (Some true)]
             ++ (if BrowserScan.includeExternal options
                 then [externalNode] else []);
           GraphData.edges :=
             if BrowserScan.includeExternal options
             then [ {| GraphEdge.id := Browser.hashId key;
                       GraphEdge.source := "a.ts";
                       GraphEdge.target := "__external__";
                       GraphEdge.type := EdgeType.external;
                       GraphEdge.statement :=
                         Some (sliceNode Demo.importB base);
                       GraphEdge.loc := Ast.loc base |} ]
             else [];
           GraphData.totalFiles := 2;
           GraphData.ignoredCount := 1;
           GraphData.externalCount := 1 |}.
Proof.
  intros key. unfold BrowserScan.scanDirectoryHandle.
  rewrite ofHandle.
  destruct browser_walk as (content & -> & ->).
  rewrite fileMode.
  cbn [BrowserScan.scan BrowserScan.fileHandles BrowserScan.dirSet
       ignoredNodes fold_left map fst forEach].
  unfold BrowserScan.collectDependencies.
  cbn [fileContents setNode]. rewrite lookup_empty.
  cbn [BrowserScan.textOf].
  change (truthy (Some Demo.importB)) with (Some Demo.importB).
  cbv beta iota zeta. rewrite browser_dependencies. cbn [fold_left].
  unfold BrowserScan.addDependency. cbn [Dependency.specifier mkDependency].
  rewrite browser_resolution. cbn [Resolution.external].
  unfold BrowserScan.addExternal.
  destruct (BrowserScan.includeExternal options); reflexivity.
Qed.

End BrowserIgnoredTarget.




(** ** Edges of a dependency in symbol mode *)

Section SymbolEdges.

Variable hashId : string -> string.
Variable options : ScanOptions.
Hypothesis symbols : symbolMode options = true.

(** The bindings that name no collected symbol create no edge. *)
Lemma addSymbolEdges_no_match (relPath targetRel : string)
  (dep : Dependency.t) (targetSymbols : gmap string SymbolInfo.t)
  (bindings : list ImportBinding.t) (st : ScanState) :
  Forall (fun binding =>
            forall name, importNameOf binding = Some name ->
                         targetSymbols !! name = None)
         bindings ->
  fold_left (addSymbolEdge hashId relPath targetRel dep targetSymbols)
    bindings (st, false)
  = (st, false).
Proof.
  induction 1 as [|binding bindings Hbinding _ IH]; [done|].
  cbn [fold_left].
  replace (addSymbolEdge hashId relPath targetRel dep targetSymbols
             (st, false) binding) with (st, false); [done|].
  unfold addSymbolEdge, importNameOf in *.
  destruct (ImportBinding.kind binding); [| |done].
  - by rewrite (Hbinding "default").
  - by rewrite (Hbinding (ImportBinding.imported binding)).
Qed.

(** The edge to the file, pushed when no edge to a symbol was. *)
Lemma addInternalEdges_fallback (relPath targetRel : string)
  (dep : Dependency.t) (bindings : list ImportBinding.t) (st : ScanState) :
  Dependency.imports dep = Some bindings ->
  matchesNoSymbol st targetRel bindings ->
  let edgeType :=
    if Js.has STYLE_EXTENSIONS (Path.extname targetRel) then EdgeType.style
    else Dependency.type dep in
  let key :=
    relPath +:+ "|" +:+ targetRel +:+ "|" +:+ EdgeType.toString edgeType
      +:+ "|" +:+ default "" (Dependency.statement dep) in
  addInternalEdges hashId options relPath targetRel dep st
  = if Js.has (edgeKeys st) key then st
    else pushEdge key
           {| GraphEdge.id := hashId key;
              GraphEdge.source := relPath;
              GraphEdge.target := targetRel;
              GraphEdge.type := edgeType;
              GraphEdge.statement := Js.take 200 <$> Dependency.statement dep;
              GraphEdge.loc := Dependency.loc dep |} st.
Proof.
  intros Himports Hnone edgeType key.
  unfold addInternalEdges. rewrite symbols, Himports. cbn [andb default].
  unfold matchesNoSymbol in Hnone.
  destruct bindings as [|binding bindings]; [done|]. cbn iota.
  destruct (symbolMap st !! targetRel) as [targetSymbols|]; [|done].
  by rewrite addSymbolEdges_no_match.
Qed.

(** The single binding [{ foo }] on a target with the symbol [foo]. *)
Lemma addInternalEdges_symbol (relPath targetRel local : string)
  (dep : Dependency.t) (st : ScanState) :
  Dependency.imports dep
  = Some [ {| ImportBinding.kind := ImportBinding.named;
              ImportBinding.imported := "foo";
              ImportBinding.local := local |} ] ->
  is_Some (symbolMap st !! targetRel ≫= (.!! "foo")) ->
  let key :=
    relPath +:+ "|" +:+ (targetRel +:+ "::foo") +:+ "|"
      +:+ EdgeType.toString (Dependency.type dep) +:+ "|"
      +:+ default "" (Dependency.statement dep) in
  Js.has (edgeKeys st) key = false ->
  addInternalEdges hashId options relPath targetRel dep st
  = pushEdge key
      {| GraphEdge.id := hashId key;
         GraphEdge.source := relPath;
         GraphEdge.target := targetRel +:+ "::foo";
         GraphEdge.type := Dependency.type dep;
         GraphEdge.statement := Js.take 200 <$> Dependency.statement dep;
         GraphEdge.loc := Dependency.loc dep |} st.
Proof.
  intros Himports [symbol Hfoo] key Hfresh.
  destruct (symbolMap st !! targetRel) as [targetSymbols|] eqn:Hmap;
    [|done].
  cbn in Hfoo.
  unfold addInternalEdges. rewrite symbols, Himports, Hmap.
  cbn [andb].
  match goal with
  | |- context [default [] (Some ?l)] => change (default [] (Some l)) with l
  end.
  cbn [fold_left]. unfold addSymbolEdge.
  cbn [ImportBinding.kind ImportBinding.imported]. rewrite Hfoo.
  change (targetRel +:+ "::" +:+ "foo") with (targetRel +:+ "::foo").
  fold key. by rewrite Hfresh.
Qed.

(** When the key of the edge to the symbol is already recorded, the loop
    over the bindings leaves [createdSymbolEdge] unset and the dependency
    falls through to the edge to the file. *)
Lemma addInternalEdges_symbol_recorded (relPath targetRel local : string)
  (dep : Dependency.t) (st : ScanState) :
  Dependency.imports dep
  = Some [ {| ImportBinding.kind := ImportBinding.named;
              ImportBinding.imported := "foo";
              ImportBinding.local := local |} ] ->
  Js.has (edgeKeys st)
    (relPath +:+ "|" +:+ (targetRel +:+ "::foo") +:+ "|"
       +:+ EdgeType.toString (Dependency.type dep) +:+ "|"
       +:+ default "" (Dependency.statement dep)) = true ->
  let edgeType :=
    if Js.has STYLE_EXTENSIONS (Path.extname targetRel) then EdgeType.style
    else Dependency.type dep in
  let key :=
    relPath +:+ "|" +:+ targetRel +:+ "|" +:+ EdgeType.toString edgeType
      +:+ "|" +:+ default "" (Dependency.statement dep) in
  addInternalEdges hashId options relPath targetRel dep st
  = if Js.has (edgeKeys st) key then st
    else pushEdge key
           {| GraphEdge.id := hashId key;
              GraphEdge.source := relPath;
              GraphEdge.target := targetRel;
              GraphEdge.type := edgeType;
              GraphEdge.statement := Js.take 200 <$> Dependency.statement dep;
              GraphEdge.loc := Dependency.loc dep |} st.
Proof.
  intros Himports Hrecorded edgeType key.
  unfold addInternalEdges. rewrite symbols, Himports. cbn [andb].
  match goal with
  | |- context [default [] (Some ?l)] => change (default [] (Some l)) with l
  end.
  destruct (symbolMap st !! targetRel) as [targetSymbols|]; [|done].
  cbn [fold_left]. unfold addSymbolEdge.
  cbn [ImportBinding.kind ImportBinding.imported].
  destruct (targetSymbols !! "foo"); [|done].
  change (targetRel +:+ "::" +:+ "foo") with (targetRel +:+ "::foo").
  by rewrite Hrecorded.
Qed.

(** The node of the target, added when it is missing, changes neither the
    edges nor the symbols. *)
Lemma target_node_frame (targetRel : string) (st : ScanState) :
  let st1 :=
    if negb (nodesHas st targetRel)
    then setNode targetRel (fileNode targetRel None) st
    else st in
  edges st1 = edges st /\ edgeKeys st1 = edgeKeys st
  /\ symbolMap st1 = symbolMap st.
Proof. by destruct (negb (nodesHas st targetRel)). Qed.

End SymbolEdges.

(** *** From the text of the target to its collected symbols *)

Section CollectedSymbols.

Variable parse : string -> option Ast.Node.
Variable traverseError : Ast.Node -> option string.
Variable hashId : string -> string.
Variable fs : FsNode.
Variable cwd : string.
Variable rootPath : string.

(** [name] is among the symbols found so far. *)
Local Abbreviation found name acc :=
  (name ∈ map SymbolInfo.name (fst (acc : SymbolAcc))).

Lemma addSymbol_found (name : string) (acc : SymbolAcc)
  (symbol : SymbolInfo.t) :
  found name acc -> found name (addSymbol acc symbol).
Proof.
  intros Hfound. unfold addSymbol.
  destruct (decide _); [done|]. cbn [fst].
  rewrite map_app. apply elem_of_app. by left.
Qed.

Lemma fold_found {A : Type} (name : string)
  (f : SymbolAcc -> A -> SymbolAcc) (items : list A) :
  (forall acc item, found name acc -> found name (f acc item)) ->
  forall acc, found name acc -> found name (fold_left f items acc).
Proof.
  intros Hf. induction items as [|item items IH]; intros acc Hacc; [done|].
  cbn [fold_left]. by apply IH, Hf.
Qed.

Lemma visitExport_found (name : string) (localKinds : gmap string string)
  (acc : SymbolAcc) (pn : string * Ast.Node) :
  found name acc -> found name (visitExport localKinds acc pn).
Proof.
  intros Hfound. unfold visitExport.
  repeat first
    [ done
    | by apply addSymbol_found
    | apply fold_found; [intros ? ? ?|done]
    | match goal with
      | |- context [match ?x with _ => _ end] => destruct x
      end ].
Qed.

(** A program that consists of [export function foo ...] has the symbol
    [foo]. *)
Lemma extractSymbols_exported_function (filePath code : string)
  (base : Ast.Base) (body : list Ast.Node) :
  Js.has SCRIPT_EXTENSIONS (Path.extname filePath) = true ->
  let ast :=
    Demo.program
      [Ast.ExportNamedDeclaration base
         (Some (Ast.FunctionDeclaration (Some "foo") body)) [] None] in
  parse code = Some ast ->
  traverseError ast = None ->
  exists symbols,
    extractSymbols parse traverseError filePath code = inr symbols
    /\ "foo" ∈ map SymbolInfo.name symbols.
Proof.
  intros Hscript ast Hparse Htraverse. unfold extractSymbols.
  rewrite Hscript, Hparse, Htraverse. cbn [negb]. cbv zeta.
  eexists. split; [reflexivity|].
  unfold ast, Demo.program. cbn [Ast.preorder flat_map app fold_left].
  set (localKinds := visitLocalKind _ _).
  apply fold_found; [apply visitExport_found|].
  cbn. apply list_elem_of_here.
Qed.

Lemma addSymbolNodes_entry (relPath name : string)
  (symbols : list SymbolInfo.t) :
  forall entry st,
    is_Some (entry !! name) \/ name ∈ map SymbolInfo.name symbols ->
    is_Some (fst (fold_left (addSymbolNode hashId relPath) symbols
                    (entry, st)) !! name).
Proof.
  induction symbols as [|symbol symbols IH]; intros entry st Hname.
  - destruct Hname as [Hentry|Hnil]; [done|]. by apply elem_of_nil in Hnil.
  - cbn [fold_left]. unfold addSymbolNode at 2.
    apply IH. cbn [map] in Hname.
    rewrite elem_of_cons in Hname.
    destruct (decide (name = SymbolInfo.name symbol)) as [->|Hother].
    + left. by rewrite lookup_insert_eq.
    + destruct Hname as [Hentry|[Hhead|Htail]]; [|done|by right].
      left. by rewrite lookup_insert_ne.
Qed.

(** The symbol loop records, under the path of a file that is read, the
    symbols that [extractSymbols] finds in it. *)
Lemma collectSymbols_records (st : ScanState) (fullPath code name : string)
  (symbols : list SymbolInfo.t) :
  truthy (Fs.readFile fs cwd fullPath) = Some code ->
  extractSymbols parse traverseError fullPath code = inr symbols ->
  name ∈ map SymbolInfo.name symbols ->
  exists st',
    collectSymbols parse traverseError hashId fs cwd rootPath st fullPath
    = inr st'
    /\ is_Some
         (symbolMap st' !! posixPath (Path.relative cwd rootPath fullPath)
          ≫= (.!! name)).
Proof.
  intros Hread Hsymbols Hname. unfold collectSymbols.
  rewrite Hread, Hsymbols.
  destruct symbols as [|symbol symbols].
  { by apply elem_of_nil in Hname. }
  set (relPath := posixPath _).
  pose proof (addSymbolNodes_entry relPath name (symbol :: symbols) ∅
                (setFileContent fullPath code st) (or_intror Hname)) as Hentry.
  destruct (fold_left _ _ _) as [entry st1].
  eexists. split; [reflexivity|].
  cbn [symbolMap setSymbolEntry]. rewrite lookup_insert_eq. exact Hentry.
Qed.

End CollectedSymbols.




(** ** The types of the file nodes *)

Section NodeTyping.

Variable parse : string -> option Ast.Node.
Variable traverseError : Ast.Node -> option string.
Variable ignores : list string -> string -> string + bool.
Variable hashId : string -> string.
Variable formatNumber : Z -> positive -> string.
Variable fs : FsNode.
Variable cwd : string.

Lemma step_nodesTyped (st st' : ScanState) :
  Step hashId st st' -> nodesTyped st -> nodesTyped st'.
Proof.
  unfold nodesTyped. destruct 1; try done; intros Hall; simpl;
    apply mapSet_Forall; try done; simpl.
  - left. by eexists.
  - right. left. by do 2 eexists.
  - by do 2 right.
Qed.

(** The nodes of a returned graph are file nodes, symbol nodes or the
    sentinel. *)
Lemma scanProject_nodesTyped (options : ScanOptions) (graph : GraphData.t)
  (n : GraphNode.t) :
  scanProject parse traverseError ignores hashId formatNumber fs cwd options = inr graph ->
  n ∈ GraphData.nodes graph ->
  (exists relPath ignored, n = fileNode relPath ignored)
  \/ (exists relPath symbol, n = symbolNode relPath symbol)
  \/ n = externalNode.
Proof.
  unfold scanProject.
  destruct (scanState parse traverseError ignores hashId formatNumber fs cwd options) as [err|st] eqn:Hrun;
    [done|].
  intros [= <-] Hn. apply scanState_steps in Hrun.
  assert (nodesTyped st) as Hall.
  { eapply (steps_invariant hashId nodesTyped);
      [apply step_nodesTyped|exact Hrun|]. constructor. }
  unfold nodesTyped in Hall. rewrite Forall_forall in Hall.
  cbn [GraphData.nodes graphOf] in Hn.
  apply list_elem_of_In, in_map_iff in Hn as [[k n'] [<- Hin]].
  apply list_elem_of_In in Hin.
  destruct (Hall _ Hin) as [[ignored ->]|[Hsymbol|Hexternal]]; simpl in *.
  - left. by do 2 eexists.
  - by right; left.
  - by do 2 right.
Qed.

End NodeTyping.


(** * Further properties of the scanner *)

(** ** [posixPath] *)

Lemma split_nonempty (c : ascii) (s : string) : Js.split c s <> [].
Proof.
  destruct s as [|a r]; [done|]. cbn [Js.split].
  destruct (Ascii.eqb a c); [done|]. by destruct (Js.split c r).
Qed.

Lemma join_split (c : ascii) (s : string) :
  Js.join (String c "") (Js.split c s) = s.
Proof.
  induction s as [|a r IH]; [done|]. cbn [Js.split].
  pose proof (split_nonempty c r) as Hne.
  destruct (Ascii.eqb a c) eqn:Hac.
  - apply Ascii.eqb_eq in Hac as ->.
    destruct (Js.split c r) as [|h t] eqn:Hsplit; [done|].
    unfold Js.join in *. cbn [String.concat]. by rewrite <- IH.
  - destruct (Js.split c r) as [|h t] eqn:Hsplit; [done|].
    unfold Js.join in *. rewrite <- IH. by destruct t.
Qed.

(** Property X1.  On a system whose separator is the slash, [posixPath]
    returns its argument: splitting at the separator and joining with
    slashes is a round trip. *)
Theorem posixPath_identity (value : string) : posixPath value = value.
Proof. apply join_split. Qed.

(** ** [normalizeGitignorePattern] *)

Lemma trimStart_length (s : string) :
  String.length (Js.trimStart s) <= String.length s.
Proof.
  induction s as [|a r IH]; [done|]. cbn [Js.trimStart].
  destruct (Js.isSpace a); simpl; lia.
Qed.

Lemma trimEnd_length (s : string) :
  String.length (Js.trimEnd s) <= String.length s.
Proof.
  induction s as [|a r IH]; [done|]. cbn [Js.trimEnd].
  destruct (Js.trimEnd r) as [|b r'] eqn:Hr.
  - destruct (Js.isSpace a); simpl; lia.
  - simpl in *. lia.
Qed.

(** A string that [trim] leaves alone starts and ends with a character
    that is not white space. *)
Lemma trim_fixed (s : string) :
  Js.trim s = s -> Js.trimStart s = s /\ Js.trimEnd s = s.
Proof.
  unfold Js.trim. intros Htrim.
  assert (Js.trimStart s = s) as Hstart.
  { destruct s as [|a r]; [done|]. cbn [Js.trimStart] in *.
    destruct (Js.isSpace a); [|done].
    pose proof (trimEnd_length (Js.trimStart r)) as H1.
    pose proof (trimStart_length r) as H2.
    rewrite Htrim in H1. simpl in H1. lia. }
  by rewrite Hstart in Htrim.
Qed.

Lemma trimEnd_append (s t : string) :
  t <> "" -> Js.trimEnd t = t -> Js.trimEnd (s +:+ t) = s +:+ t.
Proof.
  intros Hne Ht. induction s as [|a s IH]; [done|].
  rewrite append_cons. cbn [Js.trimEnd]. rewrite IH.
  destruct (s +:+ t) eqn:Hst; [|done].
  destruct s; [|by rewrite append_cons in Hst].
  change ("" +:+ t) with t in Hst. congruence.
Qed.

Lemma trim_append (s t : string) :
  s <> "" -> t <> "" -> Js.trimStart s = s -> Js.trimEnd t = t ->
  Js.trim (s +:+ t) = s +:+ t.
Proof.
  intros Hs Ht Hstart Hend. unfold Js.trim.
  assert (Js.trimStart (s +:+ t) = s +:+ t) as ->.
  { destruct s as [|a r]; [done|]. rewrite append_cons.
    cbn [Js.trimStart] in *. destruct (Js.isSpace a); [|done].
    pose proof (trimStart_length r) as Hlen. rewrite Hstart in Hlen.
    simpl in Hlen. lia. }
  by apply trimEnd_append.
Qed.

(** *** Relative paths in normal form *)

Lemma isAbsolute_relative (segs : list string) :
  cleanSegments segs -> Path.isAbsolute (Js.join "/" segs) = false.
Proof.
  intros Hsegs. unfold Path.isAbsolute, Js.startsWith.
  destruct Hsegs as [|s segs Hs _]; [done|].
  apply cleanSegment_spec in Hs as (Hne & _ & _ & Hslash).
  destruct s as [|c r]; [done|].
  rewrite includes_slash_cons in Hslash.
  apply orb_false_iff in Hslash as [Hc _]. apply Ascii.eqb_neq in Hc.
  assert (exists rest, Js.join "/" (String c r :: segs) = String c rest)
    as [rest ->].
  { destruct segs; [by eexists|].
    rewrite join_cons, append_cons by done. by eexists. }
  cbn [String.prefix]. by destruct (ascii_dec "/" c).
Qed.

Lemma endsWith_slash_relative (segs : list string) :
  cleanSegments segs -> Js.endsWith (Js.join "/" segs) "/" = false.
Proof.
  intros Hsegs.
  destruct segs as [|s segs] using rev_ind; [done|].
  apply Forall_app in Hsegs as [Hinit Hlast].
  apply Forall_singleton, cleanSegment_spec in Hlast as (Hne & _ & _ & Hslash).
  destruct segs as [|s' segs'].
  - by apply endsWith_slash_clean.
  - rewrite join_app by done. change (Js.join "/" [s]) with s.
    change (String "/" s) with ("/" +:+ s).
    rewrite <- append_assoc, endsWith_slash_append by done.
    by apply endsWith_slash_clean.
Qed.

Lemma endsWith_slash_suffix (p : string) : Js.endsWith (p +:+ "/") "/" = true.
Proof.
  unfold Js.endsWith. rewrite length_append.
  change (String.length "/") with 1.
  replace (String.length p + 1 - 1) with (String.length p + 0) by lia.
  rewrite drop_append. cbn [Js.drop]. rewrite String.eqb_refl.
  apply Nat.leb_le. lia.
Qed.

Lemma normalizeString_relative (segs blanks : list string) (allow : bool)
  (p : string) :
  cleanSegments segs -> segs <> [] ->
  Path.segments p = segs ++ blanks ->
  Forall (fun s => s = "") blanks ->
  Path.normalizeString p allow = Js.join "/" segs.
Proof.
  intros Hsegs Hne Hp Hblanks. unfold Path.normalizeString.
  rewrite Hp, normalizeSegs_app, (normalizeSegs_clean allow segs []), app_nil_r
    by done.
  assert (forall acc, Path.normalizeSegs allow acc blanks = acc) as ->.
  { clear Hp. induction Hblanks as [|b blanks Hb _ IH]; [done|].
    intros acc. subst b. apply IH. }
  by rewrite rev_involutive.
Qed.

(** [path.normalize] leaves a relative path in normal form alone, with or
    without a trailing slash. *)
Lemma normalize_relative (segs : list string) :
  cleanSegments segs -> segs <> [] ->
  Path.normalize (Js.join "/" segs) = Js.join "/" segs
  /\ Path.normalize (Js.join "/" segs +:+ "/") = Js.join "/" segs +:+ "/".
Proof.
  intros Hsegs Hne.
  pose proof (join_nonempty segs Hsegs Hne) as Hjoin.
  pose proof (isAbsolute_relative segs Hsegs) as Habs.
  split; unfold Path.normalize; cbv zeta.
  - rewrite Hjoin, Habs, endsWith_slash_relative by done. cbn [negb].
    rewrite (normalizeString_relative segs []); try done.
    + by rewrite Hjoin.
    + unfold Path.segments. by rewrite split_join, app_nil_r.
  - assert (Js.isEmpty (Js.join "/" segs +:+ "/") = false) as ->.
    { destruct (Js.join "/" segs); [done|by rewrite append_cons]. }
    assert (Path.isAbsolute (Js.join "/" segs +:+ "/") = false) as ->.
    { unfold Path.isAbsolute, Js.startsWith in *.
      destruct (Js.join "/" segs) as [|c r]; [done|].
      rewrite append_cons. cbn [String.prefix] in *.
      destruct (ascii_dec "/" c); [|done]. by destruct r. }
    rewrite endsWith_slash_suffix. cbn [negb].
    rewrite (normalizeString_relative segs [""]); try done.
    + by rewrite Hjoin.
    + unfold Path.segments. change "/" with (String "/" "").
      by rewrite split_join_append.
    + by constructor.
Qed.

Lemma startsWith_char (d c : ascii) (r : string) :
  Js.startsWith (String c r) (String d "") = Ascii.eqb d c.
Proof.
  unfold Js.startsWith. cbn [String.prefix].
  destruct (ascii_dec d c) as [->|Hne].
  - rewrite Ascii.eqb_refl. by destruct r.
  - symmetry. by apply Ascii.eqb_neq.
Qed.

Lemma includes_slash_suffix (s : string) : Js.includes (s +:+ "/") "/" = true.
Proof.
  induction s as [|c s IH]; [done|].
  by rewrite append_cons, includes_slash_cons, IH, orb_true_r.
Qed.

(** [path.join] of relative parts in normal form *)
Lemma join_relative (parts : list string) (segs : list string) :
  cleanSegments segs -> segs <> [] ->
  Forall (fun p => Js.isEmpty p = false) parts ->
  Js.join "/" parts = Js.join "/" segs
  \/ Js.join "/" parts = Js.join "/" segs +:+ "/" ->
  Path.join parts = Js.join "/" parts.
Proof.
  intros Hsegs Hne Hparts Hjoin. unfold Path.join.
  assert (List.filter (fun p => negb (Js.isEmpty p)) parts = parts) as ->.
  { clear Hjoin. induction Hparts as [|p parts Hp _ IH]; [done|].
    cbn [List.filter]. by rewrite Hp, IH. }
  destruct (normalize_relative segs Hsegs Hne) as [Hplain Hslash].
  destruct parts as [|p parts].
  { destruct Hjoin as [Hjoin|Hjoin]; symmetry in Hjoin.
    - pose proof (join_nonempty segs Hsegs Hne) as H. by rewrite Hjoin in H.
    - by destruct (Js.join "/" segs). }
  change (Path.normalize (Js.join "/" (p :: parts)) = Js.join "/" (p :: parts)).
  by destruct Hjoin as [Hjoin|Hjoin]; rewrite Hjoin.
Qed.

Section GitignorePatterns.

Variable dirSegs : list string.
Variable name : string.

Hypothesis dirClean : cleanSegments dirSegs.
Hypothesis nameClean : cleanSegment name = true.
Hypothesis nameTrimmed : Js.trim name = name.
Hypothesis notComment : Js.startsWith name "#" = false.
Hypothesis notNegated : Js.startsWith name "!" = false.

Local Abbreviation dir := (Js.join "/" dirSegs).

Lemma gitignore_name_facts :
  exists c r,
    name = String c r
    /\ Ascii.eqb "#" c = false /\ Ascii.eqb "!" c = false
    /\ Ascii.eqb "/" c = false
    /\ Js.includes name "/" = false
    /\ Js.trimStart name = name /\ Js.trimEnd name = name.
Proof.
  pose proof (cleanSegment_spec name nameClean) as (Hne & _ & _ & Hslash).
  destruct (trim_fixed name nameTrimmed) as [Hstart Hend].
  destruct name as [|c r] eqn:Hname; [done|]. exists c, r.
  rewrite startsWith_char in notComment, notNegated.
  pose proof Hslash as Hc. rewrite includes_slash_cons in Hc.
  apply orb_false_iff in Hc as [Hc _]. rewrite Ascii.eqb_sym in Hc.
  by split_and!.
Qed.

Lemma below_dir_clean (rest : list string) :
  cleanSegments rest -> cleanSegments (dirSegs ++ rest).
Proof. by apply cleanSegments_app. Qed.

(** A plain name matches at any depth below the directory of the
    [.gitignore]. *)
Lemma gitignore_plain_name :
  normalizeGitignorePattern dir name
  = Some (Js.join "/" (dirSegs ++ ["**"; name])).
Proof.
  destruct gitignore_name_facts
    as (c & r & Hname & Hhash & Hbang & Hslash & Hincl & _).
  pose proof (cleanSegment_spec name nameClean) as (Hne & _).
  unfold normalizeGitignorePattern. rewrite nameTrimmed. cbv zeta.
  rewrite notComment, notNegated.
  assert (Js.isEmpty name = false) as Hnonempty by (by rewrite Hname).
  assert (Js.startsWith name "/" = false) as ->
    by (by rewrite Hname, startsWith_char).
  rewrite Hnonempty, Hincl, (endsWith_slash_clean name Hincl).
  cbn [orb andb negb].
  assert (cleanSegments ["**"; name]) as Hstar by (by repeat constructor).
  destruct (decide (dirSegs = [])) as [Hdir|Hdir].
  - rewrite Hdir. cbn [Js.join String.concat Js.isEmpty negb app].
    assert (Path.join ["**"; name] = Js.join "/" ["**"; name]) as ->; [|done].
    apply (join_relative _ ["**"; name]); [done|done| |by left].
    by repeat constructor.
  - rewrite (join_nonempty dirSegs) by done. cbn [negb].
    assert (Js.join "/" [dir; "**"; name]
            = Js.join "/" (dirSegs ++ ["**"; name])) as Hjoin.
    { rewrite join_app by done. by rewrite join_cons. }
    assert (Path.join [dir; "**"; name] = Js.join "/" [dir; "**"; name]) as ->;
      [|by rewrite Hjoin].
    apply (join_relative _ (dirSegs ++ ["**"; name]));
      [by apply below_dir_clean|by destruct dirSegs| |by left].
    repeat constructor; try done. by apply join_nonempty.
Qed.

(** A name with a leading slash matches in the directory of the
    [.gitignore] only. *)
Lemma gitignore_anchored_name :
  normalizeGitignorePattern dir ("/" +:+ name)
  = Some (Js.join "/" (dirSegs ++ [name])).
Proof.
  destruct gitignore_name_facts
    as (c & r & Hname & Hhash & Hbang & Hslash & Hincl & Hstart & Hend).
  pose proof (cleanSegment_spec name nameClean) as (Hne & _).
  assert (Js.isEmpty name = false) as Hnonempty by (by rewrite Hname).
  unfold normalizeGitignorePattern.
  rewrite (trim_append "/" name) by done. cbv zeta.
  change ("/" +:+ name) with (String "/" name).
  repeat (progress
            (rewrite ?startsWith_char;
             change (Js.drop 1 (String "/" name)) with name;
             change (Js.isEmpty (String "/" name)) with false;
             change (Ascii.eqb "#" "/") with false;
             change (Ascii.eqb "!" "/") with false;
             change (Ascii.eqb "/" "/") with true;
             cbn [orb andb negb])).
  rewrite ?Hincl, ?(endsWith_slash_clean name Hincl).
  cbn [orb andb negb].
  destruct (decide (dirSegs = [])) as [Hdir|Hdir].
  - rewrite Hdir. done.
  - rewrite (join_nonempty dirSegs) by done. cbn [negb].
    assert (Js.join "/" [dir; name] = Js.join "/" (dirSegs ++ [name]))
      as Hjoin by (by rewrite join_app).
    assert (Path.join [dir; name] = Js.join "/" [dir; name]) as ->;
      [|by rewrite Hjoin].
    apply (join_relative _ (dirSegs ++ [name]));
      [|by destruct dirSegs| |by left].
    + apply below_dir_clean. by constructor.
    + repeat constructor; try done. by apply join_nonempty.
Qed.

(** A name with a trailing slash, too, is bound to the directory of the
    [.gitignore]: the trailing slash counts as a slash of the pattern. *)
Lemma gitignore_directory_name :
  normalizeGitignorePattern dir (name +:+ "/")
  = Some (Js.join "/" (dirSegs ++ [name]) +:+ "/").
Proof.
  destruct gitignore_name_facts
    as (c & r & Hname & Hhash & Hbang & Hslash & Hincl & Hstart & Hend).
  pose proof (cleanSegment_spec name nameClean) as (Hne & _).
  assert (Js.isEmpty name = false) as Hnonempty by (by rewrite Hname).
  unfold normalizeGitignorePattern.
  rewrite (trim_append name "/") by done. cbv zeta.
  assert (forall d, Js.startsWith (name +:+ "/") (String d "")
                    = Ascii.eqb d c) as Hhead.
  { intros d. by rewrite Hname, append_cons, startsWith_char. }
  assert (Js.isEmpty (name +:+ "/") = false) as Hfull
    by (by rewrite Hname, append_cons).
  repeat (progress
            (rewrite ?Hhead, ?Hhash, ?Hbang, ?Hslash, ?Hfull,
               ?includes_slash_suffix, ?endsWith_slash_suffix;
             cbn [orb andb negb])).
  destruct (decide (dirSegs = [])) as [Hdir|Hdir].
  - rewrite Hdir. cbn [Js.join String.concat Js.isEmpty negb app].
    by rewrite endsWith_slash_suffix.
  - rewrite (join_nonempty dirSegs) by done. cbn [negb].
    assert (Js.join "/" [dir; name +:+ "/"]
            = Js.join "/" (dirSegs ++ [name]) +:+ "/") as Hjoin.
    { rewrite join_app by done. rewrite join_cons by done.
      change (Js.join "/" [name +:+ "/"]) with (name +:+ "/").
      change (Js.join "/" [name]) with name.
      by rewrite append_assoc, append_cons. }
    assert (Path.join [dir; name +:+ "/"] = Js.join "/" [dir; name +:+ "/"])
      as ->.
    { apply (join_relative _ (dirSegs ++ [name]));
        [|by destruct dirSegs| |by right].
      - apply below_dir_clean. by constructor.
      - repeat constructor; [by apply join_nonempty|].
        by rewrite Hname, append_cons. }
    by rewrite Hjoin, endsWith_slash_suffix.
Qed.

End GitignorePatterns.

(** Property X2.  The three forms of a pattern that names one entry, in the
    [.gitignore] of the directory [dirSegs] (of the root when [dirSegs] is
    empty): the plain name is prefixed with the directory and a double star;
    the name with a leading slash and the name with a trailing slash are
    prefixed with the directory alone. *)
Theorem gitignore_pattern_forms (dirSegs : list string) (name : string) :
  cleanSegments dirSegs ->
  cleanSegment name = true ->
  Js.trim name = name ->
  Js.startsWith name "#" = false ->
  Js.startsWith name "!" = false ->
  let dir := Js.join "/" dirSegs in
  normalizeGitignorePattern dir name
  = Some (Js.join "/" (dirSegs ++ ["**"; name]))
  /\ normalizeGitignorePattern dir ("/" +:+ name)
     = Some (Js.join "/" (dirSegs ++ [name]))
  /\ normalizeGitignorePattern dir (name +:+ "/")
     = Some (Js.join "/" (dirSegs ++ [name]) +:+ "/").
Proof.
  intros Hdir Hname Htrim Hcomment Hnegated dir. split_and!.
  - by apply gitignore_plain_name.
  - by apply gitignore_anchored_name.
  - by apply gitignore_directory_name.
Qed.

Lemma gitignore_pattern_forms_witness :
  normalizeGitignorePattern "src/lib" "dist"
  = Some "src/lib/**/dist"
  /\ normalizeGitignorePattern "src/lib" "/dist" = Some "src/lib/dist"
  /\ normalizeGitignorePattern "src/lib" "dist/" = Some "src/lib/dist/".
Proof.
  apply (gitignore_pattern_forms ["src"; "lib"] "dist");
    [by repeat constructor|reflexivity..].
Defined.

(** Property X3.  The lines of a [.gitignore] that yield no pattern are the
    blank ones, the comments and the lone exclamation mark. *)
Theorem gitignore_skipped_lines (dirRel rawPattern : string) :
  normalizeGitignorePattern dirRel rawPattern = None
  <-> Js.trim rawPattern = ""
      \/ Js.startsWith (Js.trim rawPattern) "#" = true
      \/ Js.trim rawPattern = "!".
Proof.
  unfold normalizeGitignorePattern.
  destruct (Js.trim rawPattern) as [|c r] eqn:Htrim.
  { split; [by left|done]. }
  cbn [Js.isEmpty orb]. rewrite !startsWith_char.
  destruct (Ascii.eqb "#" c) eqn:Hhash.
  { split; [by right; left|done]. }
  destruct (Ascii.eqb "!" c) eqn:Hbang.
  - apply Ascii.eqb_eq in Hbang as <-.
    change (Js.drop 1 (String "!" r)) with r.
    destruct r as [|c' r'].
    + split; [by do 2 right|done].
    + cbn [Js.isEmpty]. split; [done|].
      intros [H|[H|H]]; congruence.
  - cbn [Js.isEmpty]. split; [done|].
    intros [H|[H|H]]; [done|done|].
    injection H as Hc _. by rewrite Hc, Ascii.eqb_refl in Hbang.
Qed.

(** Property X4.  Negation commutes with the rest of the normalization: the
    pattern of [!line] is the pattern of [line] with an exclamation mark in
    front. *)
Theorem gitignore_negation (dirRel line : string) :
  Js.trim line = line ->
  Js.startsWith line "#" = false ->
  Js.startsWith line "!" = false ->
  normalizeGitignorePattern dirRel ("!" +:+ line)
  = (fun pattern => "!" +:+ pattern) <$> normalizeGitignorePattern dirRel line.
Proof.
  intros Htrim Hcomment Hnegated.
  destruct (trim_fixed line Htrim) as [_ Hend].
  assert (Js.trim ("!" +:+ line) = "!" +:+ line) as Hbang.
  { destruct line as [|c r]; [done|]. by apply trim_append. }
  unfold normalizeGitignorePattern. rewrite Hbang, Htrim. cbv zeta.
  change ("!" +:+ line) with (String "!" line).
  rewrite Hcomment, Hnegated, !startsWith_char.
  change (Js.drop 1 (String "!" line)) with line.
  cbn [Js.isEmpty orb]. rewrite orb_false_r.
  change (Ascii.eqb "#" "!") with false.
  change (Ascii.eqb "!" "!") with true. cbv iota.
  by destruct (Js.isEmpty line).
Qed.

Lemma gitignore_negation_witness :
  normalizeGitignorePattern "src" "!keep.ts" = Some "!src/**/keep.ts".
Proof.
  change "!keep.ts" with ("!" +:+ "keep.ts").
  by rewrite (gitignore_negation "src" "keep.ts").
Defined.

(** ** The server resolver *)

Lemma firstExisting_exists (fs : FsNode) (cwd : string)
  (candidates : list string)
  (found : string) :
  firstExisting fs cwd candidates = Some found ->
  found ∈ candidates /\ Fs.fileExists fs cwd found = true.
Proof.
  induction candidates as [|c rest IH]; [done|]. cbn [firstExisting].
  destruct (Fs.fileExists fs cwd c) eqn:Hc.
  - intros [= <-]. split; [apply list_elem_of_here|done].
  - intros [Hin Hfound]%IH. split; [by apply list_elem_of_further|done].
Qed.

(** What [resolveWithExtensions] returns is a file that exists: the
    candidate itself, an index file of the candidate, or the candidate with
    an import extension appended. *)
Lemma resolveWithExtensions_exists (fs : FsNode)
  (cwd basePath found : string) :
  resolveWithExtensions fs cwd (Some basePath) = Some found ->
  Fs.fileExists fs cwd found = true
  /\ (found = basePath
      \/ (exists ext, ext ∈ IMPORT_EXTENSIONS
                      /\ found = Path.join [basePath; "index" +:+ ext])
      \/ (exists ext, ext ∈ IMPORT_EXTENSIONS /\ found = basePath +:+ ext)).
Proof.
  unfold resolveWithExtensions, truthy.
  destruct (Js.isEmpty basePath); [done|]. cbv zeta.
  destruct (Fs.stat fs cwd basePath) as [node|] eqn:Hstat.
  - destruct (Fs.isFile node) eqn:Hfile.
    { intros [= <-]. split; [|by left].
      unfold Fs.fileExists. by rewrite Hstat. }
    destruct (firstExisting fs cwd
                (map (fun ext => Path.join [basePath; "index" +:+ ext])
                     IMPORT_EXTENSIONS)) as [indexPath|] eqn:Hindex.
    + destruct (Fs.isDirectory node).
      * intros [= <-]. apply firstExisting_exists in Hindex as [Hin Hfound].
        split; [done|]. right; left.
        apply list_elem_of_In, in_map_iff in Hin as (ext & <- & Hext).
        exists ext. by rewrite list_elem_of_In.
      * destruct (Js.isEmpty (Path.extname basePath)); [|done].
        intros [Hin Hfound]%firstExisting_exists. split; [done|].
        do 2 right.
        apply list_elem_of_In, in_map_iff in Hin as (ext & <- & Hext).
        exists ext. by rewrite list_elem_of_In.
    + assert ((if Fs.isDirectory node
               then @None string else None) = None) as ->
        by (by destruct (Fs.isDirectory node)).
      destruct (Js.isEmpty (Path.extname basePath)); [|done].
      intros [Hin Hfound]%firstExisting_exists. split; [done|].
      do 2 right.
      apply list_elem_of_In, in_map_iff in Hin as (ext & <- & Hext).
      exists ext. by rewrite list_elem_of_In.
  - destruct (Js.isEmpty (Path.extname basePath)); [|done].
    intros [Hin Hfound]%firstExisting_exists. split; [done|].
    do 2 right.
    apply list_elem_of_In, in_map_iff in Hin as (ext & <- & Hext).
    exists ext. by rewrite list_elem_of_In.
Qed.

(** Property X5.  [resolveImport] skips exactly the empty specifiers and the
    ones that start with [http]; any other specifier is either external,
    without a path, or resolved to a file that exists and whose path starts
    with the root. *)
Theorem resolveImport_outcomes (fs : FsNode)
  (cwd root fromFile specifier : string) :
  match resolveImport fs cwd root fromFile specifier with
  | None => specifier = "" \/ Js.startsWith specifier "http" = true
  | Some resolution =>
      specifier <> "" /\ Js.startsWith specifier "http" = false
      /\ match Resolution.resolved resolution with
         | None => Resolution.external resolution = true
         | Some resolved =>
             Resolution.external resolution = false
             /\ Fs.fileExists fs cwd resolved = true
             /\ Js.startsWith resolved root = true
         end
  end.
Proof.
  unfold resolveImport.
  destruct specifier as [|c r] eqn:Hspec; [by left|]. rewrite <- Hspec.
  assert (Js.isEmpty specifier = false) as -> by (by rewrite Hspec).
  assert (specifier <> "") as Hne by (by rewrite Hspec).
  cbn [orb].
  destruct (Js.startsWith specifier "http"); [by right|]. cbv zeta.
  set (clean := Js.splitHead "#" (Js.splitHead "?" specifier)).
  set (target := if Js.startsWith clean "@/" then _ else _).
  destruct target as [targetPath|]; [|done].
  destruct (resolveWithExtensions fs cwd (Some targetPath)) as [resolved|] eqn:Hres;
    [|done].
  apply resolveWithExtensions_exists in Hres as [Hfile _].
  destruct (Js.startsWith resolved root) eqn:Hroot; by cbn.
Qed.

Lemma firstExisting_none_iff (fs : FsNode) (cwd : string)
  (candidates : list string) :
  firstExisting fs cwd candidates = None
  <-> Forall (fun c => Fs.fileExists fs cwd c = false) candidates.
Proof.
  split; [|apply firstExisting_none].
  induction candidates as [|c rest IH]; [by constructor|].
  cbn [firstExisting]. destruct (Fs.fileExists fs cwd c) eqn:Hc; [done|].
  intros H. constructor; [done|by apply IH].
Qed.

(** Property X6.  [resolveWithExtensions] finds nothing exactly when the
    candidate is empty, or is not a file while, if it is a directory, it
    holds no index file with an import extension and, if it has no
    extension, no file is named by it with an import extension appended. *)
Theorem resolveWithExtensions_nothing (fs : FsNode)
  (cwd basePath : string) :
  resolveWithExtensions fs cwd (Some basePath) = None
  <-> basePath = ""
      \/ (Fs.fileExists fs cwd basePath = false
          /\ (match Fs.stat fs cwd basePath with
              | Some node => Fs.isDirectory node
              | None => false
              end = true ->
              Forall (fun ext =>
                        Fs.fileExists fs cwd
                          (Path.join [basePath; "index" +:+ ext]) = false)
                     IMPORT_EXTENSIONS)
          /\ (Path.extname basePath = "" ->
              Forall (fun ext => Fs.fileExists fs cwd (basePath +:+ ext) = false)
                     IMPORT_EXTENSIONS)).
Proof.
  unfold resolveWithExtensions, truthy, Fs.fileExists at 1.
  destruct basePath as [|c r] eqn:Hbase; [split; [by left|done]|].
  rewrite <- Hbase.
  assert (basePath <> "") as Hne by (by rewrite Hbase).
  assert (Js.isEmpty basePath = false) as -> by (by rewrite Hbase).
  cbv zeta.
  set (isFile := match Fs.stat fs cwd basePath with
                 | Some n => Fs.isFile n | None => false end).
  set (isDir := match Fs.stat fs cwd basePath with
                | Some n => Fs.isDirectory n | None => false end).
  set (indexes := map (fun ext => Path.join [basePath; "index" +:+ ext])
                      IMPORT_EXTENSIONS).
  set (extended := map (fun ext => basePath +:+ ext) IMPORT_EXTENSIONS).
  assert (forall (f : string -> string),
             Forall (fun c => Fs.fileExists fs cwd c = false)
                    (map f IMPORT_EXTENSIONS)
             <-> Forall (fun ext => Fs.fileExists fs cwd (f ext) = false)
                        IMPORT_EXTENSIONS) as Hmap.
  { intros f. by rewrite Forall_map. }
  assert (Js.isEmpty (Path.extname basePath) = true
          <-> Path.extname basePath = "") as Hext.
  { by destruct (Path.extname basePath). }
  destruct isFile.
  { split; [done|]. by intros [?|[? _]]. }
  destruct isDir.
  - destruct (firstExisting fs cwd indexes) as [found|] eqn:Hindex.
    + split; [done|]. intros [?|(_ & Hnone & _)]; [done|].
      apply Hmap, firstExisting_none_iff in Hnone; [|done].
      unfold indexes in Hindex. congruence.
    + apply firstExisting_none_iff in Hindex. unfold indexes in Hindex.
      apply Hmap in Hindex.
      destruct (Js.isEmpty (Path.extname basePath)) eqn:Hempty.
      * rewrite firstExisting_none_iff. unfold extended. rewrite Hmap. split.
        -- intros Hnone. right. by split_and!.
        -- intros [?|(_ & _ & Hnone)]; [done|]. by apply Hnone, Hext.
      * split; [|done]. intros _. right. split_and!; [done|done|].
        intros Hempty'%Hext. congruence.
  - destruct (Js.isEmpty (Path.extname basePath)) eqn:Hempty.
    + rewrite firstExisting_none_iff. unfold extended. rewrite Hmap. split.
      * intros Hnone. right. by split_and!.
      * intros [?|(_ & _ & Hnone)]; [done|]. by apply Hnone, Hext.
    + split; [|done]. intros _. right. split_and!; [done|done|].
      intros Hempty'%Hext. congruence.
Qed.

(** *** Query and fragment suffixes *)

Lemma splitHead_append (c : ascii) (s t : string) :
  freeOf c s = true -> Js.splitHead c (s +:+ t) = s +:+ Js.splitHead c t.
Proof.
  unfold Js.splitHead. induction s as [|a s IH]; [done|].
  cbn [freeOf]. intros [Ha Hs]%andb_true_iff. apply negb_true_iff in Ha.
  rewrite !append_cons. cbn [Js.split]. rewrite Ha.
  specialize (IH Hs).
  pose proof (split_nonempty c (s +:+ t)) as Hne.
  destruct (Js.split c (s +:+ t)) as [|h rest]; [done|].
  by rewrite <- IH.
Qed.

Lemma splitHead_separator (c : ascii) (t : string) :
  Js.splitHead c (String c t) = "".
Proof. unfold Js.splitHead. cbn [Js.split]. by rewrite Ascii.eqb_refl. Qed.

Lemma splitHead_free (c : ascii) (s : string) :
  freeOf c s = true -> Js.splitHead c s = s.
Proof.
  intros Hs. rewrite <- (append_nil_r s) at 1.
  rewrite splitHead_append by done. change (Js.splitHead c "") with "".
  apply append_nil_r.
Qed.

Lemma startsWith_append (p s t : string) (c : ascii) :
  freeOf c p = true ->
  Js.startsWith (s +:+ String c t) p = Js.startsWith s p.
Proof.
  unfold Js.startsWith. revert s.
  induction p as [|a p IH]; intros s Hp.
  - by destruct s; [|rewrite append_cons].
  - cbn [freeOf] in Hp. apply andb_true_iff in Hp as [Ha Hp].
    apply negb_true_iff, Ascii.eqb_neq in Ha.
    destruct s as [|b s].
    + change ("" +:+ String c t) with (String c t). cbn [String.prefix].
      by destruct (ascii_dec a c).
    + rewrite append_cons. cbn [String.prefix].
      destruct (ascii_dec a b); [by apply IH|done].
Qed.

(** Property X7.  A query or a fragment behind a specifier does not change
    how it is resolved. *)
Theorem resolveImport_ignores_suffix (fs : FsNode)
  (cwd root fromFile specifier suffix : string) :
  specifier <> "" ->
  freeOf "?" specifier = true ->
  freeOf "#" specifier = true ->
  resolveImport fs cwd root fromFile (specifier +:+ String "?" suffix)
  = resolveImport fs cwd root fromFile specifier
  /\ resolveImport fs cwd root fromFile (specifier +:+ String "#" suffix)
     = resolveImport fs cwd root fromFile specifier.
Proof.
  intros Hne Hquery Hfragment.
  assert (forall c t, Js.isEmpty (specifier +:+ String c t)
                      = Js.isEmpty specifier) as Hempty.
  { intros c t. destruct specifier; [done|by rewrite append_cons]. }
  assert (Js.splitHead "#" (Js.splitHead "?" specifier) = specifier) as Hclean.
  { rewrite (splitHead_free "?" specifier) by done. by apply splitHead_free. }
  unfold resolveImport.
  rewrite !Hempty, !startsWith_append by done. cbv zeta.
  rewrite Hclean. split.
  - rewrite splitHead_append, splitHead_separator, append_nil_r by done.
    by rewrite splitHead_free.
  - change (String "#" suffix) with ("#" +:+ suffix).
    rewrite (splitHead_append "?" specifier), (splitHead_append "?" "#")
      by done.
    rewrite (splitHead_append "#" specifier) by done.
    change ("#" +:+ Js.splitHead "?" suffix)
      with (String "#" (Js.splitHead "?" suffix)).
    by rewrite splitHead_separator, append_nil_r.
Qed.

Lemma resolveImport_ignores_suffix_witness :
  resolveImport Demo.fileAndIndex "/" "/repo" "/repo/a/b.ts" "./x.ts?raw"
  = resolveImport Demo.fileAndIndex "/" "/repo" "/repo/a/b.ts" "./x.ts".
Proof.
  by apply (resolveImport_ignores_suffix Demo.fileAndIndex "/" "/repo"
              "/repo/a/b.ts" "./x.ts" "raw").
Defined.

(** A path component behind a regular file is not resolved: [fs.stat]
    fails on [/repo/a/x.ts/], and on a relative path it starts from the
    working directory. *)
Lemma stat_through_a_file :
  Fs.fileExists Demo.fileAndIndex "/" "/repo/a/x.ts" = true
  /\ Fs.stat Demo.fileAndIndex "/" "/repo/a/x.ts/" = None
  /\ Fs.stat Demo.fileAndIndex "/" "/repo/a/x.ts/.." = None
  /\ Fs.fileExists Demo.fileAndIndex "/repo/a" "x.ts" = true
  /\ Fs.fileExists Demo.fileAndIndex "/repo" "x.ts" = false
  /\ Fs.fileExists Demo.fileAndIndex "/" "/repo/a/../a/./x.ts" = true.
Proof. by split_and!; vm_compute. Qed.

(** ** Symbol extraction *)

Lemma fold_left_preserves {A B : Type} (P : A -> Prop) (f : A -> B -> A)
  (items : list B) :
  (forall acc item, P acc -> P (f acc item)) ->
  forall acc, P acc -> P (fold_left f items acc).
Proof.
  intros Hf. induction items as [|item items IH]; intros acc Hacc; [done|].
  cbn [fold_left]. by apply IH, Hf.
Qed.

Lemma addSymbol_distinctNames (acc : SymbolAcc) (symbol : SymbolInfo.t) :
  distinctNames acc -> distinctNames (addSymbol acc symbol).
Proof.
  intros [Hnodup Hseen]. unfold addSymbol.
  destruct (decide (SymbolInfo.name symbol ∈ acc.2)) as [Hin|Hnew]; [done|].
  split; cbn [fst snd].
  - rewrite map_app. apply NoDup_app. split_and!; [done| |apply NoDup_singleton].
    intros name Hname ->%list_elem_of_singleton. by apply Hnew, Hseen.
  - intros name. rewrite map_app, elem_of_app, elem_of_union, Hseen.
    cbn [map]. rewrite elem_of_singleton, list_elem_of_singleton. tauto.
Qed.

Lemma visitExport_distinctNames (localKinds : gmap string string)
  (acc : SymbolAcc) (pn : string * Ast.Node) :
  distinctNames acc -> distinctNames (visitExport localKinds acc pn).
Proof.
  intros Hacc. unfold visitExport.
  repeat first
    [ done
    | by apply addSymbol_distinctNames
    | apply fold_left_preserves; [intros ? ? ?|done]
    | match goal with
      | |- context [match ?x with _ => _ end] => destruct x
      end ].
Qed.

(** Property X8.  The symbols that [extractSymbols] returns have pairwise
    distinct names: a name exported twice is recorded once, with the kind
    found first.  When it returns nothing, it throws what the traversal
    of the parsed text throws. *)
Theorem extractSymbols_distinct_names (parse : string -> option Ast.Node)
  (traverseError : Ast.Node -> option string) (filePath code : string) :
  match extractSymbols parse traverseError filePath code with
  | inr symbols => NoDup (map SymbolInfo.name symbols)
  | inl err => exists ast, parse code = Some ast /\ traverseError ast = Some err
  end.
Proof.
  unfold extractSymbols.
  destruct (negb (Js.has SCRIPT_EXTENSIONS (Path.extname filePath)));
    [constructor|].
  destruct (parse code) as [ast|]; [|constructor].
  destruct (traverseError ast) as [err|] eqn:Htraverse; [by exists ast|].
  cbv zeta.
  apply (fold_left_preserves distinctNames).
  - intros acc pn. apply visitExport_distinctNames.
  - split; [constructor|]. intros name. cbn. set_solver.
Qed.

(** ** Style imports *)

Lemma span_spec (f : ascii -> bool) (s run rest : string) :
  StyleImport.span f s = (run, rest) ->
  s = run +:+ rest /\ allChars f run = true.
Proof.
  revert run rest. induction s as [|a s IH]; intros run rest.
  - by intros [= <- <-].
  - cbn [StyleImport.span]. destruct (f a) eqn:Hfa.
    + destruct (StyleImport.span f s) as [run' rest'].
      intros [= <- <-]. destruct (IH run' rest' eq_refl) as [-> Hall].
      split; [by rewrite append_cons|]. cbn [allChars]. by rewrite Hfa.
    + by intros [= <- <-].
Qed.

Lemma stripPrefix_spec (p s rest : string) :
  StyleImport.stripPrefix p s = Some rest -> s = p +:+ rest.
Proof.
  revert s. induction p as [|a p IH]; intros s.
  - by intros [= <-].
  - destruct s as [|b s]; [done|]. cbn [StyleImport.stripPrefix].
    destruct (Ascii.eqb a b) eqn:Hab; [|done].
    apply Ascii.eqb_eq in Hab as <-. intros ->%IH. by rewrite append_cons.
Qed.

Lemma allChars_freeOf (c : ascii) (f : ascii -> bool) (s : string) :
  f c = false -> allChars f s = true -> freeOf c s = true.
Proof.
  intros Hc. induction s as [|a s IH]; [done|]. cbn [allChars freeOf].
  intros [Ha Hs]%andb_true_iff. rewrite IH by done.
  destruct (Ascii.eqb a c) eqn:Hac; [|done].
  apply Ascii.eqb_eq in Hac as ->. congruence.
Qed.

Lemma prefix_append_iff (p s : string) :
  String.prefix p s = true <-> exists rest, s = p +:+ rest.
Proof.
  split.
  - revert s. induction p as [|a p IH]; intros s; [by exists s|].
    destruct s as [|b s]; [done|]. cbn [String.prefix].
    destruct (ascii_dec a b) as [<-|]; [|done].
    intros [rest ->]%IH. exists rest. by rewrite append_cons.
  - intros [rest ->]. apply prefix_append.
Qed.

(** One match of the [@import] pattern: the specifier is not empty and
    holds no quote; the statement starts with [@import] and is the text
    matched at the current position. *)
Lemma matchAt_spec (s spec whole : string) :
  StyleImport.matchAt s = Some (spec, whole) ->
  spec <> "" /\ freeOf "039" spec = true /\ freeOf "034" spec = true
  /\ Js.startsWith whole "@import" = true
  /\ Js.startsWith s whole = true
  /\ Js.includes whole spec = true.
Proof.
  unfold StyleImport.matchAt.
  destruct (StyleImport.stripPrefix "@import" s) as [r1|] eqn:H1; [|done].
  apply stripPrefix_spec in H1 as ->.
  destruct (StyleImport.span Js.isSpace r1) as [spaces r2] eqn:H2.
  apply span_spec in H2 as [-> _].
  destruct (Js.isEmpty spaces); [done|].
  set (optional := match StyleImport.stripPrefix "url(" r2 with
                   | Some r => ("url(", r) | None => ("", r2) end).
  assert (r2 = optional.1 +:+ optional.2) as Hurl.
  { subst optional.
    destruct (StyleImport.stripPrefix "url(" r2) as [r|] eqn:H3; [|done].
    by apply stripPrefix_spec in H3. }
  destruct optional as [url r3]. cbn [fst snd] in Hurl. subst r2.
  destruct r3 as [|q r4]; [done|].
  destruct (StyleImport.isQuote q); [|done].
  destruct (StyleImport.span (fun a => negb (StyleImport.isQuote a)) r4)
    as [body r5] eqn:H4.
  apply span_spec in H4 as [-> Hbody].
  destruct (Js.isEmpty body) eqn:Hempty; [done|].
  destruct r5 as [|q' r6]; [done|].
  intros [= <- <-]. split_and!.
  - by destruct body.
  - by apply (allChars_freeOf "039"
                (fun a => negb (StyleImport.isQuote a)) body).
  - by apply (allChars_freeOf "034"
                (fun a => negb (StyleImport.isQuote a)) body).
  - apply (prefix_append "@import").
  - apply prefix_append_iff. exists r6.
    rewrite !append_assoc. do 3 f_equal.
    by rewrite !append_cons, append_assoc, !append_cons.
  - change (String q (body +:+ String q' ""))
      with (String q "" +:+ body +:+ String q' "").
    rewrite <- !append_assoc.
    rewrite (append_assoc _ body). apply includes_append.
Qed.

Lemma matches_spec (s : string) :
  forall skip spec whole,
    In (spec, whole) (StyleImport.matches skip s) ->
    exists before rest,
      s = before +:+ rest /\ StyleImport.matchAt rest = Some (spec, whole).
Proof.
  induction s as [|a s IH]; intros skip spec whole; [done|].
  cbn [StyleImport.matches].
  assert (forall k, In (spec, whole) (StyleImport.matches k s) ->
                    exists before rest,
                      String a s = before +:+ rest
                      /\ StyleImport.matchAt rest = Some (spec, whole))
    as Hlater.
  { intros k (before & rest & -> & Hrest)%IH.
    exists (String a before), rest. by rewrite append_cons. }
  destruct skip as [|k]; [|apply Hlater].
  destruct (StyleImport.matchAt (String a s)) as [[spec' whole']|] eqn:Hhere;
    [|apply Hlater].
  intros [[= <- <-]|Hin]; [|by eapply Hlater].
  by exists "", (String a s).
Qed.

(** Property X9.  For a style sheet [extractDependencies] returns, and
    every dependency it returns is an [@import] found in the text: its type
    is [style], it has no location and no bindings, its specifier is not
    empty and holds no quote, and its statement is a piece of the text that
    starts with [@import] and contains the specifier. *)
Theorem style_import_dependencies (parse : string -> option Ast.Node)
  (traverseError : Ast.Node -> option string)
  (filePath code : string) :
  Js.has STYLE_EXTENSIONS (Path.extname filePath) = true ->
  exists dependencies,
  extractDependencies parse traverseError filePath code = inr dependencies
  /\ forall dep, dep ∈ dependencies ->
  Dependency.type dep = EdgeType.style
  /\ Dependency.loc dep = None
  /\ Dependency.imports dep = None
  /\ Dependency.specifier dep <> ""
  /\ freeOf "039" (Dependency.specifier dep) = true
  /\ freeOf "034" (Dependency.specifier dep) = true
  /\ exists statement,
       Dependency.statement dep = Some statement
       /\ Js.startsWith statement "@import" = true
       /\ Js.includes code statement = true
       /\ Js.includes statement (Dependency.specifier dep) = true.
Proof.
  intros Hstyle. unfold extractDependencies. rewrite Hstyle.
  destruct (Js.has SCRIPT_EXTENSIONS (Path.extname filePath)) eqn:Hscript.
  { apply script_not_style in Hscript. congruence. }
  eexists. split; [reflexivity|]. intros dep.
  rewrite list_elem_of_In, in_map_iff. intros ([spec whole] & <- & Hin).
  apply matches_spec in Hin as (before & rest & -> & Hmatch).
  apply matchAt_spec in Hmatch
    as (Hne & Hsingle & Hdouble & Himport & Hprefix & Hspec).
  cbn [Dependency.type Dependency.loc Dependency.imports
       Dependency.specifier Dependency.statement fst snd].
  split_and!; try done.
  exists whole. split_and!; try done.
  apply prefix_append_iff in Hprefix as [after ->].
  apply includes_append.
Qed.

Lemma style_import_dependencies_witness :
  let code := "@import url('./base.css'); body { margin: 0 }" in
  let dep :=
    {| Dependency.specifier := "./base.css";
       Dependency.type := EdgeType.style;
       Dependency.statement := Some "@import url('./base.css'";
       Dependency.loc := None;
       Dependency.imports := None |} in
  extractDependencies Demo.parse Demo.traverseError "src/app.css" code
  = inr [dep]
  /\ Dependency.specifier dep <> ""
  /\ freeOf "039" (Dependency.specifier dep) = true.
Proof.
  intros code dep.
  assert (extractDependencies Demo.parse Demo.traverseError "src/app.css" code
          = inr [dep]) as Hrun by reflexivity.
  split; [exact Hrun|].
  destruct (style_import_dependencies Demo.parse Demo.traverseError
              "src/app.css" code eq_refl) as (dependencies & Hdeps & Hall).
  rewrite Hrun in Hdeps. injection Hdeps as <-.
  destruct (Hall dep (list_elem_of_here _ _))
    as (_ & _ & _ & Hne & Hquote & _).
  by split.
Defined.

(** The white space after [@import] may be a no-break space. *)
Lemma style_import_after_no_break_space :
  let code := "@import" +:+ String "160" "'a.css'" in
  map fst (StyleImport.matches 0 code) = ["a.css"]
  /\ Js.trim (String "160" "dist/" +:+ String "160" "") = "dist/".
Proof. by split. Qed.

(** ** Consistency of the returned graph *)

Section ConsistentScan.

Variable parse : string -> option Ast.Node.
Variable traverseError : Ast.Node -> option string.
Variable ignores : list string -> string -> string + bool.
Variable hashId : string -> string.
Variable formatNumber : Z -> positive -> string.
Variable fs : FsNode.
Variable cwd : string.
Variable options : ScanOptions.
Variable rootPath : string.

Local Abbreviation Consistent := (Consistent cwd options rootPath).
Local Abbreviation edgeAllowed := (edgeAllowed options).
Local Abbreviation nodeAllowed := (nodeAllowed options).

(** [st'] has all the node ids of [st]. *)
Local Abbreviation grows st st' :=
  (forall k, nodesHas st k = true -> nodesHas st' k = true).

Lemma edgeAllowed_grows (st st' : ScanState) (e : GraphEdge.t) :
  grows st st' -> edgeAllowed st e -> edgeAllowed st' e.
Proof. intros Hg (Hs & Ht & He & Hc). split_and!; auto. Qed.

Lemma nodeAllowed_grows (st st' : ScanState) (n : GraphNode.t) :
  grows st st' -> nodeAllowed st n -> nodeAllowed st' n.
Proof. intros Hg (Hs & Hp). split; auto. Qed.

(** Operations that leave the nodes, the edges, the queue and the symbols
    alone. *)
Lemma consistent_frame (st st' : ScanState) :
  nodes st' = nodes st -> edges st' = edges st ->
  filesToParse st' = filesToParse st -> symbolMap st' = symbolMap st ->
  Consistent st -> Consistent st'.
Proof.
  intros Hn He Hf Hs (C1 & C2 & C3 & C4 & C5).
  assert (forall k, nodesHas st' k = nodesHas st k) as Hhas
    by (intros k; unfold nodesHas; by rewrite Hn).
  split_and!.
  - rewrite Hf. eapply Forall_impl; [exact C1|]. intros x. by rewrite Hhas.
  - intros rel syms name. rewrite Hs, Hhas. apply C2.
  - rewrite He. eapply Forall_impl; [exact C3|].
    intros e. apply edgeAllowed_grows. intros k. by rewrite Hhas.
  - rewrite Hn. eapply Forall_impl; [exact C4|].
    intros kv. apply nodeAllowed_grows. intros k. by rewrite Hhas.
  - by rewrite Hs.
Qed.

Lemma consistent_setNode (key : string) (n : GraphNode.t) (st : ScanState) :
  nodeAllowed (setNode key n st) n ->
  Consistent st -> Consistent (setNode key n st).
Proof.
  intros Hnew (C1 & C2 & C3 & C4 & C5).
  pose proof (fun k => nodesHas_setNode key k n st) as Hg.
  split_and!; cbn [filesToParse symbolMap edges nodes setNode].
  - eapply Forall_impl; [exact C1|]. intros x. apply Hg.
  - intros rel syms name Hrel Hname. by eapply Hg, C2.
  - eapply Forall_impl; [exact C3|]. intros e. by apply edgeAllowed_grows.
  - apply mapSet_Forall; [|done].
    eapply Forall_impl; [exact C4|]. intros kv. by apply nodeAllowed_grows.
  - exact C5.
Qed.

Lemma consistent_pushEdge (key : string) (e : GraphEdge.t) (st : ScanState) :
  edgeAllowed st e -> Consistent st -> Consistent (pushEdge key e st).
Proof.
  intros Hnew (C1 & C2 & C3 & C4 & C5).
  split_and!; cbn [filesToParse symbolMap edges nodes pushEdge]; try done.
  apply Forall_app. split; [done|]. by constructor.
Qed.

Lemma consistent_pushFile (fullPath : string) (st : ScanState) :
  nodesHas st (posixPath (Path.relative cwd rootPath fullPath)) = true ->
  Consistent st -> Consistent (pushFileToParse fullPath st).
Proof.
  intros Hnew (C1 & C2 & C3 & C4 & C5).
  split_and!; cbn [filesToParse symbolMap edges nodes pushFileToParse];
    try done.
  apply Forall_app. split; [done|]. by constructor.
Qed.

Lemma consistent_setSymbolEntry (relPath : string)
  (entry : gmap string SymbolInfo.t) (st : ScanState) :
  symbolMode options = true ->
  (forall name, is_Some (entry !! name) ->
                nodesHas st (relPath +:+ "::" +:+ name) = true) ->
  Consistent st -> Consistent (setSymbolEntry relPath entry st).
Proof.
  intros Hmode Hentry (C1 & C2 & C3 & C4 & C5).
  split_and!; cbn [filesToParse symbolMap edges nodes setSymbolEntry];
    try done.
  - intros rel syms name.
    destruct (decide (rel = relPath)) as [->|Hne].
    + rewrite lookup_insert_eq. intros [= <-]. apply Hentry.
    + rewrite lookup_insert_ne by done. apply C2.
  - intros Hfile. congruence.
Qed.

Lemma fileNode_allowed (st : ScanState) (relPath : string)
  (ignored : option bool) :
  nodeAllowed st (fileNode relPath ignored).
Proof.
  split; [|done]. cbn [GraphNode.type fileNode]. intros Hsymbol.
  destruct (String.eqb relPath "__external__") eqn:Heq.
  - unfold nodeTypeFromPath in Hsymbol. by rewrite Heq in Hsymbol.
  - apply String.eqb_neq in Heq.
    by destruct (nodeTypeFromPath_cases relPath Heq) as (_ & _ & _ & Hne & _).
Qed.

(** *** The walk *)

Lemma walkEntries_consistent
  (walkDir : string -> list string -> FsNode -> ScanState -> string + ScanState)
  (dir : string) (combined : list string) (entries : list (string * FsNode)) :
  Forall (fun e => forall dir' patterns st st',
              walkDir dir' patterns (snd e) st = inr st' ->
              Consistent st -> Consistent st')
         entries ->
  forall st st',
    walkEntries ignores formatNumber cwd options rootPath walkDir dir combined entries st
      = inr st' ->
    Consistent st -> Consistent st'.
Proof.
  induction 1 as [|[name entry] rest Hentry Hrest IH]; intros st st'; simpl.
  - by intros [= <-].
  - destruct (Js.isEmpty _); [apply IH|].
    destruct (ignores combined _) as [err|[|]]; [discriminate| |].
    { intros Hrun Hst. eapply IH; [exact Hrun|].
      destruct (negb (Fs.isDirectory entry) && isSupportedFile _);
        by eapply consistent_frame; [..|exact Hst]. }
    destruct (Fs.isDirectory entry).
    { destruct (walkDir _ _ entry st) as [err|st1] eqn:Hdir; [discriminate|].
      intros Hrun Hst. eapply IH; [exact Hrun|]. by eapply Hentry. }
    destruct (Js.exceeds _ _); [discriminate|].
    assert (Consistent st -> Consistent (incTotalFiles st)) as Htotal
      by (by apply consistent_frame).
    destruct (negb (isSupportedFile _)).
    { intros Hrun Hst. eapply IH; [exact Hrun|]. by apply Htotal. }
    intros Hrun Hst. eapply IH; [exact Hrun|].
    apply consistent_pushFile; [apply nodesHas_setNode_same|].
    apply consistent_setNode; [apply fileNode_allowed|by apply Htotal].
Qed.

Lemma walk_consistent (node : FsNode) :
  forall dir patterns st st',
    walk ignores formatNumber fs cwd options rootPath dir patterns node st = inr st' ->
    Consistent st -> Consistent st'.
Proof.
  induction node as [content|entries IH] using FsNode_tree_ind;
    intros dir patterns st st'; simpl.
  - by intros [= <-].
  - apply walkEntries_consistent. exact IH.
Qed.

Lemma ignored_fold_consistent (ns : list GraphNode.t) :
  Forall (fun n => exists relPath, n = fileNode relPath (Some true)) ns ->
  forall st,
    Consistent st ->
    Consistent
      (fold_left (fun st ignoredNode =>
                    setNode (GraphNode.id ignoredNode) ignoredNode st) ns st).
Proof.
  induction 1 as [|n ns [relPath ->] _ IH]; intros st Hst; [done|].
  cbn [fold_left]. apply IH.
  apply consistent_setNode; [apply fileNode_allowed|done].
Qed.

(** *** The symbol loop *)

Lemma addSymbolNode_consistent (relPath : string) (symbol : SymbolInfo.t)
  (entry : gmap string SymbolInfo.t) (st : ScanState) :
  symbolMode options = true ->
  nodesHas st relPath = true ->
  (forall name, is_Some (entry !! name) ->
                nodesHas st (relPath +:+ "::" +:+ name) = true) ->
  Consistent st ->
  let result := addSymbolNode hashId relPath (entry, st) symbol in
  Consistent (snd result)
  /\ nodesHas (snd result) relPath = true
  /\ (forall name, is_Some (fst result !! name) ->
                   nodesHas (snd result) (relPath +:+ "::" +:+ name) = true).
Proof.
  intros Hmode Hfile Hentry Hst. unfold addSymbolNode. cbv zeta.
  set (symbolId := relPath +:+ "::" +:+ SymbolInfo.name symbol).
  set (st1 := if negb (nodesHas st symbolId)
              then setNode symbolId (symbolNode relPath symbol) st else st).
  assert (Consistent st1 /\ nodesHas st1 symbolId = true
          /\ (forall k, nodesHas st k = true -> nodesHas st1 k = true))
    as (Hst1 & Hid & Hgrows).
  { subst st1. destruct (nodesHas st symbolId) eqn:Hhas; cbn [negb].
    - by split_and!.
    - split_and!.
      + apply consistent_setNode; [|done]. split; [done|].
        cbn [GraphNode.parent symbolNode]. intros p [= <-].
        by apply nodesHas_setNode.
      + apply nodesHas_setNode_same.
      + intros k. apply nodesHas_setNode. }
  set (containsKey := relPath +:+ "|" +:+ symbolId +:+ "|contains").
  set (st2 := if negb (Js.has (edgeKeys st1) containsKey) then _ else st1).
  assert (Consistent st2
          /\ (forall k, nodesHas st2 k = nodesHas st1 k)) as (Hst2 & Hsame).
  { subst st2. destruct (Js.has (edgeKeys st1) containsKey); cbn [negb];
      [by split|].
    split; [|done]. apply consistent_pushEdge; [|done].
    split_and!; cbn [GraphEdge.source GraphEdge.target GraphEdge.type];
      by auto. }
  cbn [fst snd]. split_and!; [done|rewrite Hsame; by apply Hgrows|].
  intros name. rewrite Hsame.
  destruct (decide (name = SymbolInfo.name symbol)) as [->|Hne]; [done|].
  rewrite lookup_insert_ne by done. intros Hname. by apply Hgrows, Hentry.
Qed.

Lemma addSymbolNodes_consistent (relPath : string)
  (symbols : list SymbolInfo.t) :
  symbolMode options = true ->
  forall entry st,
    nodesHas st relPath = true ->
    (forall name, is_Some (entry !! name) ->
                  nodesHas st (relPath +:+ "::" +:+ name) = true) ->
    Consistent st ->
    let result :=
      fold_left (addSymbolNode hashId relPath) symbols (entry, st) in
    Consistent (snd result)
    /\ (forall name, is_Some (fst result !! name) ->
                     nodesHas (snd result) (relPath +:+ "::" +:+ name) = true).
Proof.
  intros Hmode.
  induction symbols as [|symbol symbols IH]; intros entry st Hfile Hentry Hst;
    cbn [fold_left]; [by split|].
  destruct (addSymbolNode_consistent relPath symbol entry st Hmode Hfile
              Hentry Hst) as (H1 & H2 & H3).
  destruct (addSymbolNode hashId relPath (entry, st) symbol) as [entry1 st1].
  by apply IH.
Qed.

Lemma collectSymbols_consistent (st st' : ScanState) (fullPath : string) :
  symbolMode options = true ->
  nodesHas st (posixPath (Path.relative cwd rootPath fullPath)) = true ->
  collectSymbols parse traverseError hashId fs cwd rootPath st fullPath
  = inr st' ->
  Consistent st ->
  Consistent st'.
Proof.
  intros Hmode Hfile. unfold collectSymbols.
  destruct (truthy _) as [code|]; [|by intros [= <-]].
  intros Hrun Hst.
  assert (Consistent (setFileContent fullPath code st)) as Hcontent
    by (by eapply consistent_frame; [..|exact Hst]).
  destruct (extractSymbols parse traverseError fullPath code)
    as [err|[|symbol symbols]]; [discriminate|by injection Hrun as <-|].
  set (relPath := posixPath (Path.relative cwd rootPath fullPath)) in *.
  destruct (addSymbolNodes_consistent relPath (symbol :: symbols) Hmode ∅
              (setFileContent fullPath code st)) as [H1 H2]; try done.
  { intros name. rewrite lookup_empty. by intros [? ?]. }
  destruct (fold_left _ (symbol :: symbols) _) as [entry st1].
  injection Hrun as <-.
  by apply consistent_setSymbolEntry.
Qed.

(** A pass over the queued files, each of which has its node. *)
Lemma queue_fold_consistent (f : ScanState -> string -> string + ScanState)
  (files : list string) :
  (forall st st' fullPath,
      nodesHas st (posixPath (Path.relative cwd rootPath fullPath)) = true ->
      f st fullPath = inr st' ->
      Consistent st -> Consistent st') ->
  (forall st st' fullPath,
      f st fullPath = inr st' -> rtc (Step hashId) st st') ->
  forall st st',
    Forall (fun fullPath =>
              nodesHas st (posixPath (Path.relative cwd rootPath fullPath))
              = true) files ->
    forEach f files st = inr st' ->
    Consistent st -> Consistent st'.
Proof.
  intros Hf Hsteps.
  induction files as [|fullPath files IH]; intros st st' Hfiles;
    cbn [forEach]; [by intros [= <-]|].
  apply Forall_cons in Hfiles as [Hfile Hfiles].
  destruct (f st fullPath) as [err|st1] eqn:Hstep; [discriminate|].
  intros Hrest Hst.
  eapply IH; [|exact Hrest|by eapply Hf].
  destruct (steps_grow hashId _ _ (Hsteps st st1 fullPath Hstep))
    as [Hgrows _].
  eapply Forall_impl; [exact Hfiles|]. intros x. apply Hgrows.
Qed.

(** *** The dependency loop *)

Lemma extractedType_allowed (type : EdgeType.t) :
  extractedType type ->
  type <> EdgeType.external /\ type <> EdgeType.contains.
Proof. by intros [-> | [-> | ->]]. Qed.

Lemma addExternal_consistent (relPath : string) (dep : Dependency.t)
  (st : ScanState) :
  nodesHas st relPath = true ->
  Consistent st -> Consistent (addExternal hashId options relPath dep st).
Proof.
  intros Hfile Hst. unfold addExternal. cbv zeta.
  assert (Consistent (incExternalCount st)) as Hcount
    by (by eapply consistent_frame; [..|exact Hst]).
  destruct (includeExternal options) eqn:Hshown; cbn [negb]; [|done].
  set (st1 := if negb (nodesHas (incExternalCount st) "__external__")
              then _ else _).
  assert (Consistent st1 /\ nodesHas st1 "__external__" = true
          /\ nodesHas st1 relPath = true) as (Hst1 & Hsentinel & Hfile1).
  { subst st1.
    destruct (nodesHas (incExternalCount st) "__external__") eqn:Hhas;
      cbn [negb]; [by split_and!|].
    split_and!.
    - by apply consistent_setNode.
    - apply nodesHas_setNode_same.
    - by apply nodesHas_setNode. }
  destruct (Js.has (edgeKeys st1) _); [done|].
  apply consistent_pushEdge; [|done].
  by split_and!.
Qed.

Lemma addSymbolEdges_consistent (relPath targetRel : string)
  (dep : Dependency.t) (targetSymbols : gmap string SymbolInfo.t)
  (bindings : list ImportBinding.t) :
  extractedType (Dependency.type dep) ->
  forall st created,
    nodesHas st relPath = true ->
    (forall name, is_Some (targetSymbols !! name) ->
                  nodesHas st (targetRel +:+ "::" +:+ name) = true) ->
    Consistent st ->
    let result :=
      fold_left (addSymbolEdge hashId relPath targetRel dep targetSymbols)
        bindings (st, created) in
    Consistent (fst result)
    /\ forall k, nodesHas (fst result) k = nodesHas st k.
Proof.
  intros [Hext Hcont]%extractedType_allowed.
  induction bindings as [|binding bindings IH];
    intros st created Hfile Hsymbols Hst; cbn [fold_left]; [by split|].
  assert (exists st1 created1,
             addSymbolEdge hashId relPath targetRel dep targetSymbols
               (st, created) binding = (st1, created1)
             /\ Consistent st1
             /\ forall k, nodesHas st1 k = nodesHas st k)
    as (st1 & created1 & Hone & Hst1 & Hsame).
  { unfold addSymbolEdge.
    assert (forall importName,
               exists st1 created1,
                 match targetSymbols !! importName with
                 | Some _ =>
                     let symbolId := targetRel +:+ "::" +:+ importName in
                     let edgeKey :=
                       relPath +:+ "|" +:+ symbolId +:+ "|"
                         +:+ EdgeType.toString (Dependency.type dep) +:+ "|"
                         +:+ default "" (Dependency.statement dep) in
                     if Js.has (edgeKeys st) edgeKey then (st, created)
                     else
                       (pushEdge edgeKey
                          {| GraphEdge.id := hashId edgeKey;
                             GraphEdge.source := relPath;
                             GraphEdge.target := symbolId;
                             GraphEdge.type := Dependency.type dep;
                             GraphEdge.statement :=
                               Js.take 200 <$> Dependency.statement dep;
                             GraphEdge.loc := Dependency.loc dep |} st,
                        true)
                 | None => (st, created)
                 end = (st1, created1)
                 /\ Consistent st1
                 /\ forall k, nodesHas st1 k = nodesHas st k) as Hname.
    { intros importName.
      destruct (targetSymbols !! importName) as [symbol|] eqn:Hlookup;
        [|by exists st, created].
      cbv zeta. destruct (Js.has (edgeKeys st) _); [by exists st, created|].
      eexists _, _. split_and!; [done| |done].
      apply consistent_pushEdge; [|done].
      split_and!; cbn [GraphEdge.source GraphEdge.target GraphEdge.type];
        try done.
      apply Hsymbols. by rewrite Hlookup. }
    destruct (ImportBinding.kind binding); [apply Hname..|].
    by exists st, created. }
  rewrite Hone.
  destruct (IH st1 created1) as [Hfinal Hsame']; try done.
  - by rewrite Hsame.
  - intros name Hname. rewrite Hsame. by apply Hsymbols.
  - split; [done|]. intros k. by rewrite Hsame', Hsame.
Qed.

Lemma addInternalEdges_consistent (relPath targetRel : string)
  (dep : Dependency.t) (st : ScanState) :
  extractedType (Dependency.type dep) ->
  nodesHas st relPath = true ->
  nodesHas st targetRel = true ->
  Consistent st ->
  Consistent (addInternalEdges hashId options relPath targetRel dep st).
Proof.
  intros Htype Hfile Htarget Hst. unfold addInternalEdges.
  set (pair := if symbolMode options && _ then _ else (st, false)).
  assert (Consistent (fst pair)
          /\ forall k, nodesHas (fst pair) k = nodesHas st k)
    as [Hpair Hsame].
  { subst pair. destruct (symbolMode options && _); [|by split].
    destruct (symbolMap st !! targetRel) as [targetSymbols|] eqn:Hmap;
      [|by split].
    apply addSymbolEdges_consistent; try done.
    destruct Hst as (_ & C2 & _). intros name. by apply C2. }
  destruct pair as [st2 created]. cbn [fst] in *.
  destruct created; [done|]. cbv zeta.
  destruct (Js.has (edgeKeys st2) _); [done|].
  apply consistent_pushEdge; [|done].
  apply extractedType_allowed in Htype as [Hext Hcont].
  split_and!; cbn [GraphEdge.source GraphEdge.target GraphEdge.type];
    rewrite ?Hsame; try done;
    by destruct (Js.has STYLE_EXTENSIONS _).
Qed.

Lemma addDependency_consistent (fullPath relPath : string)
  (dep : Dependency.t) (st : ScanState) :
  extractedType (Dependency.type dep) ->
  nodesHas st relPath = true ->
  Consistent st ->
  Consistent
    (addDependency hashId fs cwd options rootPath fullPath relPath st dep).
Proof.
  intros Htype Hfile Hst. unfold addDependency.
  destruct (resolveImport _ _ _ _ _) as [resolved|]; [|done].
  destruct (Resolution.external resolved);
    [by apply addExternal_consistent|].
  destruct (truthy _) as [resolvedPath|]; [|done].
  unfold addInternal.
  set (targetRel := posixPath (Path.relative cwd rootPath resolvedPath)).
  destruct (nodesHas st targetRel) eqn:Hhas; cbn [negb].
  - by apply addInternalEdges_consistent.
  - apply addInternalEdges_consistent; try done.
    + by apply nodesHas_setNode.
    + apply nodesHas_setNode_same.
    + apply consistent_setNode; [apply fileNode_allowed|done].
Qed.

Lemma collectDependencies_consistent (st st' : ScanState)
  (fullPath : string) :
  nodesHas st (posixPath (Path.relative cwd rootPath fullPath)) = true ->
  collectDependencies parse traverseError hashId fs cwd options rootPath st
    fullPath = inr st' ->
  Consistent st ->
  Consistent st'.
Proof.
  intros Hfile. unfold collectDependencies.
  destruct (truthy _) as [code|]; [|by intros [= <-]]. cbv zeta.
  destruct (extractDependencies parse traverseError fullPath code)
    as [err|dependencies] eqn:Hdeps; [discriminate|].
  intros [= <-] Hst.
  set (relPath := posixPath (Path.relative cwd rootPath fullPath)) in *.
  assert (forall deps,
             Forall (fun dep => extractedType (Dependency.type dep)) deps ->
             forall st', nodesHas st' relPath = true -> Consistent st' ->
               Consistent
                 (fold_left (addDependency hashId fs cwd options rootPath
                               fullPath relPath) deps st')) as Hfold.
  { induction 1 as [|dep deps Hdep _ IH]; intros st' Hfile' Hst'; [done|].
    cbn [fold_left]. apply IH; [|by apply addDependency_consistent].
    pose proof (addDependency_steps hashId fs cwd options rootPath fullPath
                  relPath dep st' Hdep) as Hsteps.
    by apply (steps_grow hashId _ _ Hsteps). }
  apply Hfold; try done.
  apply Forall_forall. intros dep Hdep.
  by eapply extractDependencies_types.
Qed.

End ConsistentScan.

Section ConsistentGraph.

Variable parse : string -> option Ast.Node.
Variable traverseError : Ast.Node -> option string.
Variable ignores : list string -> string -> string + bool.
Variable hashId : string -> string.
Variable formatNumber : Z -> positive -> string.
Variable fs : FsNode.
Variable cwd : string.
Variable options : ScanOptions.

Local Abbreviation rootPath := (Path.resolve cwd [root options]).
Local Abbreviation Consistent := (Consistent cwd options rootPath).

Lemma initialState_consistent : Consistent initialState.
Proof.
  split_and!; try by constructor.
  intros rel syms name. cbn [symbolMap initialState]. by rewrite lookup_empty.
Qed.

Lemma scanFiles_consistent (st : ScanState) :
  scanFiles parse traverseError ignores hashId formatNumber fs cwd options = inr st -> Consistent st.
Proof.
  unfold scanFiles.
  destruct (Fs.stat fs cwd _) as [[content|entries]|]; try discriminate.
  destruct (walk _ _ _ _ _ _ _ _ _ _) as [err|st1] eqn:Hwalk;
    [discriminate|].
  intros Hsymbols.
  pose proof (walk_consistent ignores formatNumber fs cwd options rootPath
                _ _ _ _ _ Hwalk initialState_consistent) as Hst1.
  apply (walk_steps ignores hashId formatNumber fs cwd) in Hwalk.
  assert (ignoredAreFiles st1) as Hignored.
  { eapply (steps_invariant hashId ignoredAreFiles);
      [apply step_ignoredAreFiles|exact Hwalk|constructor]. }
  pose proof (ignored_fold_consistent cwd options rootPath _ Hignored st1 Hst1)
    as Hst2.
  destruct (symbolMode options) eqn:Hmode;
    [|by injection Hsymbols as <-].
  set (st2 := fold_left _ (ignoredNodes st1) st1) in *.
  eapply (queue_fold_consistent hashId cwd options rootPath);
    [| | |exact Hsymbols|exact Hst2].
  - intros st0 st0' fullPath. by apply collectSymbols_consistent.
  - intros st0 st0' fullPath. apply collectSymbols_steps.
  - by destruct Hst2 as (C1 & _).
Qed.

Lemma scanState_consistent (st : ScanState) :
  scanState parse traverseError ignores hashId formatNumber fs cwd options = inr st -> Consistent st.
Proof.
  unfold scanState.
  destruct (scanFiles _ _ _ _ _ _ _ _) as [err|st0] eqn:Hfiles;
    [discriminate|].
  intros Hloop. apply scanFiles_consistent in Hfiles.
  eapply (queue_fold_consistent hashId cwd options rootPath);
    [| | |exact Hloop|exact Hfiles].
  - intros st1 st1' fullPath. by apply collectDependencies_consistent.
  - intros st1 st1' fullPath. apply collectDependencies_steps.
  - by destruct Hfiles as (C1 & _).
Qed.

(** The ids of the returned nodes are the keys of the [nodes] map. *)
Lemma returned_ids (st : ScanState) (k : string) :
  scanState parse traverseError ignores hashId formatNumber fs cwd options = inr st ->
  nodesHas st k = true ->
  k ∈ map GraphNode.id (GraphData.nodes (graphOf rootPath st)).
Proof.
  intros Hrun Hk. apply scanState_steps in Hrun.
  assert (nodesKeyedById st) as [_ Hkeyed].
  { eapply (steps_invariant hashId nodesKeyedById);
      [apply step_nodesKeyedById|exact Hrun|]. split; simpl; constructor. }
  apply has_true_iff in Hk. cbn [GraphData.nodes graphOf].
  apply list_elem_of_In, in_map_iff in Hk as ([k' n] & <- & Hin).
  apply list_elem_of_In in Hin. rewrite Forall_forall in Hkeyed.
  destruct (Hkeyed _ Hin) as [Hid _]. cbn [fst snd] in Hid |- *.
  rewrite <- Hid.
  apply list_elem_of_In, in_map_iff. exists n. split; [done|].
  apply in_map_iff. exists (k', n). split; [done|].
  by apply list_elem_of_In.
Qed.

End ConsistentGraph.

(** ** The returned graph *)

(** Property X10.  In every returned graph, both ends of every edge are ids
    of nodes of the graph, and so is the parent of every node that has one. *)
Theorem returned_graph_is_closed (parse : string -> option Ast.Node)
  (traverseError : Ast.Node -> option string)
  (ignores : list string -> string -> string + bool)
  (hashId : string -> string) (formatNumber : Z -> positive -> string)
  (fs : FsNode) (cwd : string) (options : ScanOptions)
  (graph : GraphData.t) :
  scanProject parse traverseError ignores hashId formatNumber fs cwd options = inr graph ->
  let ids := map GraphNode.id (GraphData.nodes graph) in
  (forall e, e ∈ GraphData.edges graph ->
             GraphEdge.source e ∈ ids /\ GraphEdge.target e ∈ ids)
  /\ (forall n p, n ∈ GraphData.nodes graph ->
                  GraphNode.parent n = Some p -> p ∈ ids).
Proof.
  unfold scanProject.
  destruct (scanState parse traverseError ignores hashId formatNumber fs cwd options) as [err|st] eqn:Hrun;
    [done|].
  intros [= <-].
  destruct (scanState_consistent _ _ _ _ _ _ _ _ _ Hrun) as (_ & _ & C3 & C4 & _).
  pose proof (returned_ids parse traverseError ignores hashId formatNumber fs cwd options st) as Hids.
  split.
  - intros e He. cbn [GraphData.edges graphOf] in He.
    rewrite Forall_forall in C3. destruct (C3 e He) as (Hs & Ht & _).
    split; by apply Hids.
  - intros n p Hn Hp. cbn [GraphData.nodes graphOf] in Hn.
    apply list_elem_of_In, in_map_iff in Hn as ([k n'] & Hsnd & Hin).
    cbn [snd] in Hsnd. subst n'.
    rewrite Forall_forall in C4.
    destruct (C4 (k, n)) as [_ Hparent]; [by apply list_elem_of_In|].
    apply Hids; [done|]. by apply Hparent.
Qed.

Lemma returned_graph_is_closed_witness :
  exists graph,
    Demo.scan Demo.symbolImport Demo.symbolOptions = inr graph
    /\ map (fun e => (GraphEdge.source e, GraphEdge.target e))
         (GraphData.edges graph)
       = [("b.ts", "b.ts::foo"); ("a.ts", "b.ts::foo")]
    /\ Forall (fun e =>
                 GraphEdge.target e
                 ∈ map GraphNode.id (GraphData.nodes graph))
              (GraphData.edges graph).
Proof.
  assert (exists graph,
            Demo.scan Demo.symbolImport Demo.symbolOptions = inr graph
            /\ map (fun e => (GraphEdge.source e, GraphEdge.target e))
                 (GraphData.edges graph)
               = [("b.ts", "b.ts::foo"); ("a.ts", "b.ts::foo")])
    as (graph & Hscan & Hedges).
  { eexists. split; by vm_compute. }
  exists graph. split_and!; [done|done|].
  apply Forall_forall. intros e He.
  by apply (returned_graph_is_closed Demo.parse Demo.traverseError Demo.ignores Demo.hashId
              Demo.formatNumber
              Demo.symbolImport "/" Demo.symbolOptions graph Hscan).
Defined.

(** Property X11.  With [includeExternal = false] the returned graph has no
    edge of type [external]. *)
Theorem hidden_external_references (parse : string -> option Ast.Node)
  (traverseError : Ast.Node -> option string)
  (ignores : list string -> string -> string + bool)
  (hashId : string -> string) (formatNumber : Z -> positive -> string)
  (fs : FsNode) (cwd : string) (options : ScanOptions)
  (graph : GraphData.t) :
  includeExternal options = false ->
  scanProject parse traverseError ignores hashId formatNumber fs cwd options = inr graph ->
  forall e, e ∈ GraphData.edges graph -> GraphEdge.type e <> EdgeType.external.
Proof.
  intros Hhidden. unfold scanProject.
  destruct (scanState parse traverseError ignores hashId formatNumber fs cwd options) as [err|st] eqn:Hrun;
    [done|].
  intros [= <-] e He Htype.
  destruct (scanState_consistent _ _ _ _ _ _ _ _ _ Hrun) as (_ & _ & C3 & _).
  rewrite Forall_forall in C3. destruct (C3 e He) as (_ & _ & Hext & _).
  specialize (Hext Htype). congruence.
Qed.

Lemma hidden_external_references_witness :
  exists graph,
    Demo.scan Demo.mixedImports (Demo.options "/repo" 5000 false None)
    = inr graph
    /\ GraphData.externalCount graph = 1%Z
    /\ Forall (fun e => GraphEdge.type e <> EdgeType.external)
              (GraphData.edges graph).
Proof.
  assert (exists graph,
            Demo.scan Demo.mixedImports (Demo.options "/repo" 5000 false None)
            = inr graph
            /\ GraphData.externalCount graph = 1%Z)
    as (graph & Hscan & Hcount).
  { eexists. split; by vm_compute. }
  exists graph. split_and!; [done|done|].
  apply Forall_forall. intros e He.
  by apply (hidden_external_references Demo.parse Demo.traverseError Demo.ignores Demo.hashId
              Demo.formatNumber
              Demo.mixedImports "/" (Demo.options "/repo" 5000 false None)
              graph eq_refl Hscan).
Defined.

(** Property X12.  At file granularity the returned graph has no symbol
    node, no node with a parent and no [contains] edge. *)
Theorem file_granularity_has_no_symbols (parse : string -> option Ast.Node)
  (traverseError : Ast.Node -> option string)
  (ignores : list string -> string -> string + bool)
  (hashId : string -> string) (formatNumber : Z -> positive -> string)
  (fs : FsNode) (cwd : string) (options : ScanOptions)
  (graph : GraphData.t) :
  symbolMode options = false ->
  scanProject parse traverseError ignores hashId formatNumber fs cwd options = inr graph ->
  (forall n, n ∈ GraphData.nodes graph ->
             GraphNode.type n <> NodeType.symbol
             /\ GraphNode.parent n = None
             /\ GraphNode.symbolKind n = None)
  /\ (forall e, e ∈ GraphData.edges graph ->
                GraphEdge.type e <> EdgeType.contains).
Proof.
  intros Hfile Hscan.
  pose proof (scanProject_nodesTyped parse traverseError ignores hashId formatNumber fs cwd options graph)
    as Htyped.
  revert Hscan. unfold scanProject.
  destruct (scanState parse traverseError ignores hashId formatNumber fs cwd options) as [err|st] eqn:Hrun;
    [done|].
  intros [= <-].
  destruct (scanState_consistent _ _ _ _ _ _ _ _ _ Hrun) as (_ & _ & C3 & C4 & _).
  assert (forall n, n ∈ GraphData.nodes (graphOf (Path.resolve cwd [root options]) st) ->
                    GraphNode.type n <> NodeType.symbol) as Hnodes.
  { intros n Hn Htype. cbn [GraphData.nodes graphOf] in Hn.
    apply list_elem_of_In, in_map_iff in Hn as ([k n'] & Hsnd & Hin).
    cbn [snd] in Hsnd. subst n'. rewrite Forall_forall in C4.
    destruct (C4 (k, n)) as [Hmode _]; [by apply list_elem_of_In|].
    specialize (Hmode Htype). congruence. }
  split.
  - intros n Hn. split; [by apply Hnodes|].
    specialize (Hnodes n Hn).
    destruct (Htyped n) as [(r & i & ->)|[(r & s & ->)| ->]]; try done.
    unfold scanProject. by rewrite Hrun.
  - intros e He Htype. cbn [GraphData.edges graphOf] in He.
    rewrite Forall_forall in C3. destruct (C3 e He) as (_ & _ & _ & Hcont).
    specialize (Hcont Htype). congruence.
Qed.

Lemma file_granularity_has_no_symbols_witness :
  exists graph,
    Demo.scan Demo.symbolImport (Demo.options "/repo" 5000 false None)
    = inr graph
    /\ length (GraphData.edges graph) = 1
    /\ Forall (fun e => GraphEdge.type e <> EdgeType.contains)
              (GraphData.edges graph).
Proof.
  assert (exists graph,
            Demo.scan Demo.symbolImport (Demo.options "/repo" 5000 false None)
            = inr graph
            /\ length (GraphData.edges graph) = 1)
    as (graph & Hscan & Hcount).
  { eexists. split; by vm_compute. }
  exists graph. split_and!; [done|done|].
  apply Forall_forall. intros e He.
  by apply (file_granularity_has_no_symbols Demo.parse Demo.traverseError Demo.ignores
              Demo.hashId Demo.formatNumber Demo.symbolImport "/"
              (Demo.options "/repo" 5000 false None) graph eq_refl Hscan).
Defined.

(** Property X13.  The statement stored with an edge that is not external is
    at most 200 characters long, and an edge that stores one is not a
    [contains] edge. *)
Theorem stored_statements_are_short (parse : string -> option Ast.Node)
  (traverseError : Ast.Node -> option string)
  (ignores : list string -> string -> string + bool)
  (hashId : string -> string) (formatNumber : Z -> positive -> string)
  (fs : FsNode) (cwd : string) (options : ScanOptions)
  (graph : GraphData.t) :
  scanProject parse traverseError ignores hashId formatNumber fs cwd options = inr graph ->
  forall e statement,
    e ∈ GraphData.edges graph ->
    GraphEdge.type e <> EdgeType.external ->
    GraphEdge.statement e = Some statement ->
    String.length statement <= 200
    /\ GraphEdge.type e <> EdgeType.contains.
Proof.
  unfold scanProject.
  destruct (scanState parse traverseError ignores hashId formatNumber fs cwd options) as [err|st] eqn:Hrun;
    [done|].
  intros [= <-] e statement He Htype Hstatement.
  apply scanState_steps in Hrun.
  assert (edgesKeyed hashId st) as [_ Hall].
  { eapply (steps_invariant hashId (edgesKeyed hashId));
      [apply step_edgesKeyed|exact Hrun|]. split; simpl; constructor. }
  cbn [GraphData.edges graphOf] in He.
  apply list_elem_of_lookup in He as [i Hi].
  destruct (Forall2_lookup_r _ _ _ _ _ Hall Hi) as (key & _ & Hpush).
  destruct Hpush as [r s|r d|r t ty d Hty];
    cbn [GraphEdge.type GraphEdge.statement] in *; try done.
  destruct (Dependency.statement d) as [full|]; [|done].
  change (Some (Js.take 200 full) = Some statement) in Hstatement.
  assert (statement = Js.take 200 full) as -> by congruence.
  rewrite take_length. split; [lia|].
  by destruct Hty as [-> | [-> | ->]].
Qed.

Lemma stored_statements_are_short_witness :
  exists graph,
    Demo.scan (Demo.repo [("a.ts", Demo.text Demo.twoLongImports);
                          ("b.ts", Demo.text Demo.exportConstX)])
      (Demo.options "/repo" 5000 false None) = inr graph
    /\ String.length (Demo.longImport "1") = 223
    /\ Forall (fun e =>
                 match GraphEdge.statement e with
                 | Some statement => String.length statement <= 200
                 | None => True
                 end)
              (GraphData.edges graph).
Proof.
  assert (exists graph,
            Demo.scan (Demo.repo [("a.ts", Demo.text Demo.twoLongImports);
                                  ("b.ts", Demo.text Demo.exportConstX)])
              (Demo.options "/repo" 5000 false None) = inr graph
            /\ Forall (fun e => GraphEdge.type e = EdgeType.static)
                      (GraphData.edges graph))
    as (graph & Hscan & Htypes).
  { eexists. split; [by vm_compute|]. by repeat constructor. }
  exists graph. split_and!; [done|by vm_compute|].
  apply Forall_forall. intros e He.
  destruct (GraphEdge.statement e) as [statement|] eqn:Hstatement; [|done].
  rewrite Forall_forall in Htypes.
  apply (stored_statements_are_short Demo.parse Demo.traverseError Demo.ignores Demo.hashId
              Demo.formatNumber _ "/"
           _ graph Hscan e statement He); [|done].
  by rewrite (Htypes e He).
Defined.
(** ** The outcomes of a scan *)

Section WithinLimit.

Variable parse : string -> option Ast.Node.
Variable traverseError : Ast.Node -> option string.
Variable ignores : list string -> string -> string + bool.
Variable hashId : string -> string.
Variable formatNumber : Z -> positive -> string.
Variable fs : FsNode.
Variable cwd : string.
Variable options : ScanOptions.
Variable rootPath : string.

Lemma within_below (st : ScanState) (count count' : Z) :
  (0 <= count' <= count)%Z -> (count = 0 -> count' = 0)%Z ->
  Js.exceeds (totalFiles st + count) (maxFiles options) = false
  \/ count = 0%Z ->
  Js.exceeds (totalFiles st + count') (maxFiles options) = false
  \/ count' = 0%Z.
Proof.
  intros Hle Hzero [Hlimit|Hnone]; [|right; by apply Hzero].
  left. eapply exceeds_below; [exact Hlimit|lia].
Qed.

Lemma walkEntries_within
  (walkDir : string -> list string -> FsNode -> ScanState -> string + ScanState)
  (countDir : string -> list string -> FsNode -> Z)
  (dir : string) (combined : list string) (entries : list (string * FsNode)) :
  Forall (fun e => forall dir' patterns st,
              walkWithin ignores options (walkDir dir' patterns (snd e) st) st
                (countDir dir' patterns (snd e)))
         entries ->
  forall st,
    walkWithin ignores options
      (walkEntries ignores formatNumber cwd options rootPath walkDir dir
         combined entries st)
      st
      (eligibleEntries ignores cwd rootPath countDir dir combined entries).
Proof.
  induction 1 as [|[name entry] rest Hentry Hrest IH]; intros st; simpl.
  - split; [lia|]. intros _. lia.
  - destruct (Js.isEmpty _).
    { destruct (IH st) as [H0 Hrun]. split; [lia|]. exact Hrun. }
    destruct (ignores combined _) as [err|[|]] eqn:Hignores.
    { destruct (IH st) as [H0 _]. split; [lia|]. intros _.
      by eexists _, _. }
    { match goal with
      | |- walkWithin _ options (walkEntries _ _ _ _ _ _ _ _ rest ?s) _ _ =>
          destruct (IH s) as [H0 Hrun];
          assert (totalFiles s = totalFiles st) as Hsame
            by (by destruct (negb (Fs.isDirectory entry) && isSupportedFile _))
      end.
      split; [lia|]. rewrite Hsame in Hrun. exact Hrun. }
    assert (0 <= eligibleEntries ignores cwd rootPath countDir dir combined
                   rest)%Z as Hrest0 by (by destruct (IH st)).
    destruct (Fs.isDirectory entry).
    { destruct (Hentry (Path.join [dir; name]) combined st) as [H0 Hdir].
      cbn [snd] in *.
      split; [lia|]. intros Hlimit.
      destruct (walkDir _ _ entry st) as [err|st1].
      { apply Hdir. eapply within_below; [| |exact Hlimit]; lia. }
      assert (totalFiles st1
              = (totalFiles st + countDir (Path.join [dir; name]) combined
                                   entry)%Z) as Htotal1.
      { apply Hdir. eapply within_below; [| |exact Hlimit]; lia. }
      destruct (IH st1) as [_ Hrun].
      assert (Js.exceeds
                (totalFiles st1
                 + eligibleEntries ignores cwd rootPath countDir dir combined
                     rest) (maxFiles options) = false
              \/ eligibleEntries ignores cwd rootPath countDir dir combined
                   rest = 0%Z) as Hrest1.
      { rewrite Htotal1. destruct Hlimit as [Hlimit|Hnone]; [|right; lia].
        left. by rewrite <- Z.add_assoc. }
      specialize (Hrun Hrest1).
      destruct (walkEntries _ _ _ _ _ _ _ _ rest st1); [done|]. lia. }
    split; [lia|]. intros [Hlimit|Hnone]; [|lia].
    cbn [totalFiles incTotalFiles setCounters].
    rewrite (exceeds_below _ (totalFiles st + 1) _ Hlimit) by lia.
    destruct (negb (isSupportedFile _));
      match goal with
      | |- match walkEntries _ _ _ _ _ _ _ _ rest ?s with _ => _ end =>
          destruct (IH s) as [_ Hrun];
          assert (totalFiles s = (totalFiles st + 1)%Z) as Htotal
            by reflexivity;
          rewrite Htotal, <- Z.add_assoc in Hrun;
          specialize (Hrun (or_introl Hlimit));
          destruct (walkEntries _ _ _ _ _ _ _ _ rest s); [done|lia]
      end.
Qed.

Lemma walk_within (node : FsNode) :
  forall dir patterns st,
    walkWithin ignores options
      (walk ignores formatNumber fs cwd options rootPath dir patterns node st)
      st
      (eligibleFiles ignores fs cwd rootPath dir patterns node).
Proof.
  induction node as [content|entries IH] using FsNode_tree_ind;
    intros dir patterns st; simpl.
  - split; [lia|]. intros _. lia.
  - by apply walkEntries_within.
Qed.

Lemma fold_totalFiles {A : Type} (f : ScanState -> A -> ScanState)
  (l : list A) :
  (forall st x, totalFiles (f st x) = totalFiles st) ->
  forall st, totalFiles (fold_left f l st) = totalFiles st.
Proof.
  intros Hf. induction l as [|x l IH]; intros st; simpl; [done|].
  by rewrite IH, Hf.
Qed.

Local Abbreviation traversalError := (traversalError parse traverseError).

Lemma extractSymbols_throws (filePath code err : string) :
  extractSymbols parse traverseError filePath code = inl err ->
  traversalError err.
Proof.
  unfold extractSymbols. destruct (negb _); [done|].
  destruct (parse code) as [ast|] eqn:Hparse; [|done].
  destruct (traverseError ast) as [err'|] eqn:Htraverse; [|done].
  intros [= <-]. by exists code, ast.
Qed.

Lemma extractDependencies_throws (filePath code err : string) :
  extractDependencies parse traverseError filePath code = inl err ->
  traversalError err.
Proof.
  unfold extractDependencies. destruct (Js.has SCRIPT_EXTENSIONS _); [|done].
  destruct (parse code) as [ast|] eqn:Hparse; [|done].
  destruct (traverseError ast) as [err'|] eqn:Htraverse; [|done].
  intros [= <-]. by exists code, ast.
Qed.

(** A loop over the queued files that keeps [totalFiles] and throws
    nothing but what a traversal throws. *)
Lemma forEach_outcome {A : Type} (f : ScanState -> A -> string + ScanState)
  (l : list A) :
  (forall st x,
      match f st x with
      | inr st' => totalFiles st' = totalFiles st
      | inl err => traversalError err
      end) ->
  forall st,
    match forEach f l st with
    | inr st' => totalFiles st' = totalFiles st
    | inl err => traversalError err
    end.
Proof.
  intros Hf. induction l as [|x l IH]; intros st; cbn [forEach]; [done|].
  specialize (Hf st x). destruct (f st x) as [err|st1]; [done|].
  specialize (IH st1). destruct (forEach f l st1); [done|]. congruence.
Qed.

Lemma collectSymbols_outcome (st : ScanState) (fullPath : string) :
  match collectSymbols parse traverseError hashId fs cwd rootPath st fullPath
  with
  | inr st' => totalFiles st' = totalFiles st
  | inl err => traversalError err
  end.
Proof.
  unfold collectSymbols.
  destruct (truthy _) as [code|]; [|done].
  destruct (extractSymbols parse traverseError fullPath code)
    as [err|[|symbol symbols]] eqn:Hsymbols;
    [by eapply extractSymbols_throws|done|].
  set (relPath := posixPath (Path.relative cwd rootPath fullPath)).
  assert (forall l entry st1,
             totalFiles
               (snd (fold_left (addSymbolNode hashId relPath) l (entry, st1)))
             = totalFiles st1) as Hfold.
  { induction l as [|x l IH]; intros entry st1; cbn [fold_left]; [done|].
    unfold addSymbolNode at 2. rewrite IH.
    destruct (negb (nodesHas st1 _)), (negb (Js.has _ _)); simpl;
      try done; by destruct (negb (Js.has _ _)). }
  specialize (Hfold (symbol :: symbols) ∅ (setFileContent fullPath code st)).
  destruct (fold_left _ (symbol :: symbols) _) as [entry st1]. exact Hfold.
Qed.

Lemma collectDependencies_outcome (st : ScanState) (fullPath : string) :
  match collectDependencies parse traverseError hashId fs cwd options rootPath
          st fullPath with
  | inr st' => totalFiles st' = totalFiles st
  | inl err => traversalError err
  end.
Proof.
  destruct (collectDependencies _ _ _ _ _ _ _ st fullPath) as [err|st']
    eqn:Hrun.
  - revert Hrun. unfold collectDependencies.
    destruct (truthy _) as [code|]; [|done].
    destruct (extractDependencies _ _ _ _) as [err'|deps] eqn:Hdeps; [|done].
    intros [= <-]. by eapply extractDependencies_throws.
  - apply collectDependencies_counts in Hrun as [Hframe _].
    unfold frameOf in Hframe. congruence.
Qed.

End WithinLimit.

(** Property X14.  The outcomes of [scanProject].  When the root is not a
    directory the scan throws the "not readable" error.  When it is one,
    the scan returns a graph whose [totalFiles] is the number of
    non-ignored files of the traversal, which does not exceed the limit
    unless it is zero, or it throws: the capacity error, and then files
    were counted and their number exceeds the limit; what the ignore
    matcher throws on a path; or what the traversal of a parsed text
    throws.  The limit is any number, [NaN] and the infinities included,
    and the comparison is the one of the language. *)
Theorem scan_outcome (parse : string -> option Ast.Node)
  (traverseError : Ast.Node -> option string)
  (ignores : list string -> string -> string + bool)
  (hashId : string -> string) (formatNumber : Z -> positive -> string)
  (fs : FsNode) (cwd : string) (options : ScanOptions) :
  let rootPath := Path.resolve cwd [root options] in
  let count := eligibleCount ignores fs cwd options in
  match Fs.stat fs cwd rootPath,
        scanProject parse traverseError ignores hashId formatNumber fs cwd
          options with
  | Some (FsDir _), inr graph =>
      GraphData.root graph = rootPath
      /\ GraphData.totalFiles graph = count
      /\ (Js.exceeds count (maxFiles options) = false \/ count = 0%Z)
  | Some (FsDir _), inl err =>
      (err = capacityMessage formatNumber (maxFiles options)
       /\ (0 < count)%Z /\ Js.exceeds count (maxFiles options) = true)
      \/ ignoreError ignores err
      \/ (exists code ast,
            parse code = Some ast /\ traverseError ast = Some err)
  | _, inl err => err = notReadableMessage
  | _, inr _ => False
  end.
Proof.
  intros rootPath count. subst count.
  unfold eligibleCount, scanProject, scanState, scanFiles. fold rootPath.
  destruct (Fs.stat fs cwd rootPath) as [[content|entries]|]; [done| |done].
  pose proof (walk_counts ignores formatNumber fs cwd options rootPath
                (FsDir entries) rootPath ALWAYS_IGNORE initialState)
    as Hcounts.
  pose proof (walk_within ignores formatNumber fs cwd options rootPath
                (FsDir entries) rootPath ALWAYS_IGNORE initialState)
    as [Hcount Hwithin].
  unfold walkCounts in Hcounts.
  set (count := eligibleFiles ignores fs cwd rootPath rootPath ALWAYS_IGNORE
                  (FsDir entries)) in *.
  cbn [totalFiles initialState] in Hwithin. rewrite Z.add_0_l in Hwithin.
  destruct (walk ignores formatNumber fs cwd options rootPath rootPath
              ALWAYS_IGNORE (FsDir entries) initialState) as [err|st1]
    eqn:Hwalk.
  - destruct (Js.exceeds count (maxFiles options)) eqn:Hlimit;
      [|right; left; apply Hwithin; by left].
    destruct (decide (count = 0%Z)) as [Hzero|Hsome];
      [right; left; apply Hwithin; by right|].
    destruct Hcounts as [->|Hignore]; [left; split_and!; [done|lia|done]|].
    by right; left.
  - destruct Hcounts as (Htotal & _ & Hbound).
    cbn [totalFiles initialState] in Htotal, Hbound.
    rewrite Z.add_0_l in Htotal.
    set (st2 := fold_left _ (ignoredNodes st1) st1).
    assert (totalFiles st2 = totalFiles st1) as Hst2
      by (subst st2; by rewrite fold_totalFiles).
    assert (match (if symbolMode options
                   then forEach (collectSymbols parse traverseError hashId fs
                                   cwd rootPath) (filesToParse st2) st2
                   else inr st2) with
            | inr st3 => totalFiles st3 = totalFiles st1
            | inl err => traversalError parse traverseError err
            end) as Hsymbols.
    { destruct (symbolMode options); [|done].
      pose proof (forEach_outcome parse traverseError _ (filesToParse st2)
                    (collectSymbols_outcome parse traverseError hashId fs cwd
                       rootPath) st2) as Hloop.
      destruct (forEach _ _ st2); [done|]. congruence. }
    destruct (if symbolMode options then _ else _) as [err|st3];
      [by right; right|].
    pose proof (forEach_outcome parse traverseError _ (filesToParse st3)
                  (collectDependencies_outcome parse traverseError hashId fs
                     cwd options rootPath) st3) as Hloop.
    destruct (forEach _ _ st3) as [err|st4]; [by right; right|].
    cbn [GraphData.root GraphData.totalFiles graphOf].
    split_and!; [done|congruence|].
    destruct (decide (count = 0%Z)) as [Hzero|Hsome]; [by right|].
    left. rewrite <- Htotal. apply Hbound. right. lia.
Qed.

(** ** [detectRepoRoot] *)

Lemma absolutePath_parent_differs (segs : list string) (name : string) :
  cleanSegments segs -> cleanSegment name = true ->
  String.eqb (absolutePath segs) (absolutePath (segs ++ [name])) = false.
Proof.
  intros Hsegs Hname. apply String.eqb_neq. intros Heq.
  apply absolutePath_inj in Heq; [| done |].
  - apply (f_equal length) in Heq. rewrite length_app in Heq. simpl in Heq. lia.
  - apply cleanSegments_app; [done|by constructor].
Qed.

Lemma detectLoop_climbs (fs : FsNode) (cwd : string)
  (segsRev : list string) :
  cleanSegments (rev segsRev) ->
  forall fuel prev,
    String.eqb (absolutePath (rev segsRev)) prev = false ->
    length segsRev + 2 <= fuel ->
    detectLoop fs cwd fuel (absolutePath (rev segsRev)) prev
    = Some (absolutePath
              <$> List.find (fun dir => isDirectoryAt fs (dir ++ [".git"]))
                    (ancestorsRev segsRev)).
Proof.
  induction segsRev as [|name above IH]; intros Hclean fuel prev Hprev Hfuel.
  - destruct fuel as [|[|fuel]]; [simpl in Hfuel; lia..|].
    cbn [rev] in Hprev.
    cbn [detectLoop ancestorsRev List.find rev]. rewrite Hprev.
    rewrite (join_child [] ".git") by done.
    rewrite stat_absolute; [|by repeat constructor|by left].
    unfold isDirectoryAt. cbn [app].
    by destruct (Fs.lookup fs [".git"]) as [[content|entries]|].
  - destruct fuel as [|fuel]; [simpl in Hfuel; lia|].
    cbn [rev] in Hclean. apply Forall_app in Hclean as [Habove Hname].
    assert (cleanSegments (rev above ++ [name])) as Hhere.
    { by apply cleanSegments_app. }
    apply Forall_inv in Hname.
    cbn [rev] in Hprev.
    cbn [detectLoop ancestorsRev List.find rev]. rewrite Hprev.
    rewrite (join_child (rev above ++ [name]) ".git") by done.
    rewrite stat_absolute;
      [|apply cleanSegments_app; [done|by repeat constructor]
       |left; apply below_not_nil].
    unfold isDirectoryAt at 1.
    destruct (match Fs.lookup fs ((rev above ++ [name]) ++ [".git"]) with
              | Some node => Fs.isDirectory node
              | None => false
              end); [done|].
    rewrite dirname_child by done.
    apply IH; [done| |simpl in Hfuel; lia].
    by apply absolutePath_parent_differs.
Qed.

(** Property X15.  Started on an absolute path in normal form, with enough
    iterations, [detectRepoRoot] returns the nearest directory, from the
    path itself up to the root of the file system, that holds a [.git]
    directory, and [null] when there is none. *)
Theorem detectRepoRoot_nearest (fs : FsNode) (cwd : string)
  (segs : list string) (fuel : nat) :
  cleanSegments segs ->
  length segs + 2 <= fuel ->
  detectRepoRoot fs cwd fuel (absolutePath segs)
  = Some (absolutePath <$> nearestRepository fs segs).
Proof.
  intros Hsegs Hfuel. unfold detectRepoRoot, nearestRepository.
  rewrite resolve_absolute by done.
  pose proof (detectLoop_climbs fs cwd (rev segs)) as Hloop.
  rewrite rev_involutive in Hloop.
  apply Hloop; [done| |by rewrite length_rev].
  apply String.eqb_neq. intros Heq.
  by destruct segs as [|? [|? ?]].
Qed.

Lemma detectRepoRoot_nearest_witness :
  let fs :=
    FsDir [("home", FsDir [("u", FsDir
      [("proj", FsDir [(".git", FsDir []);
                       ("src", FsDir [("lib", FsDir [])])])])])] in
  detectRepoRoot fs "/" 7 "/home/u/proj/src/lib" = Some (Some "/home/u/proj")
  /\ detectRepoRoot fs "/" 7 "/home/u" = Some None.
Proof.
  intros fs. split.
  - exact (detectRepoRoot_nearest fs "/" ["home"; "u"; "proj"; "src"; "lib"] 7
             ltac:(repeat constructor) ltac:(simpl; lia)).
  - exact (detectRepoRoot_nearest fs "/" ["home"; "u"] 7
             ltac:(repeat constructor) ltac:(simpl; lia)).
Defined.

(** ** The path helpers of the browser scanner *)

Lemma split_parts_free (s part : string) :
  part ∈ Js.split "/" s -> Js.includes part "/" = false.
Proof.
  revert part. induction s as [|c s IH]; intros part.
  - cbn [Js.split]. by intros ->%list_elem_of_singleton.
  - cbn [Js.split]. destruct (Ascii.eqb c "/") eqn:Hc.
    + intros [-> | Hin]%elem_of_cons; [done|by apply IH].
    + destruct (Js.split "/" s) as [|h t] eqn:Hsplit.
      * intros ->%list_elem_of_singleton.
        by rewrite includes_slash_cons, Hc.
      * intros [-> | Hin]%elem_of_cons.
        -- rewrite includes_slash_cons, Hc. apply IH, list_elem_of_here.
        -- by apply IH, list_elem_of_further.
Qed.

Lemma normalizeParts_clean (parts stack : list string) (escaped : bool) :
  Forall (fun part => Js.includes part "/" = false) parts ->
  cleanSegments stack ->
  cleanSegments (fst (Browser.normalizeParts parts stack escaped)).
Proof.
  intros Hparts. revert stack escaped.
  induction Hparts as [|part parts Hpart _ IH]; intros stack escaped Hstack;
    [done|].
  cbn [Browser.normalizeParts].
  destruct (Js.isEmpty part) eqn:Hempty; [by apply IH|].
  destruct (String.eqb part ".") eqn:Hdot; [by apply IH|].
  cbn [orb]. destruct (String.eqb part "..") eqn:Hup.
  - destruct stack as [|top below]; [by apply IH|].
    apply IH. by apply Forall_inv_tail in Hstack.
  - apply IH. constructor; [|done].
    unfold cleanSegment. by rewrite Hempty, Hdot, Hup, Hpart.
Qed.

Lemma normalizeParts_of_clean (parts stack : list string) (escaped : bool) :
  cleanSegments parts ->
  Browser.normalizeParts parts stack escaped = (rev parts ++ stack, escaped).
Proof.
  intros Hparts. revert stack.
  induction Hparts as [|part parts Hpart _ IH]; intros stack; [done|].
  cbn [Browser.normalizeParts rev].
  unfold cleanSegment in Hpart.
  rewrite !andb_true_iff, !negb_true_iff in Hpart.
  destruct Hpart as [[[-> ->] ->] _]. cbn [orb].
  by rewrite IH, <- app_assoc.
Qed.

Lemma normalizeParts_escaped (parts stack : list string) :
  snd (Browser.normalizeParts parts stack false) = true -> ".." ∈ parts.
Proof.
  revert stack. induction parts as [|part parts IH]; intros stack; [done|].
  cbn [Browser.normalizeParts].
  destruct (Js.isEmpty part || String.eqb part ".").
  { intros H. by eapply list_elem_of_further, IH. }
  destruct (String.eqb part "..") eqn:Hup.
  - apply String.eqb_eq in Hup as ->. intros _. apply list_elem_of_here.
  - intros H. by eapply list_elem_of_further, IH.
Qed.

(** Property X16.  The path returned by [normalizePosixPath] is made of
    segments that are not empty and not [.] or [..], joined by single
    slashes; normalising it again returns it unchanged and inside the root.
    The flag [escapedRoot] is raised only for a value with a [..] segment. *)
Theorem normalizePosixPath_normal_form (value : string) :
  let normalized := Browser.normalizePosixPath value in
  (exists segs,
      cleanSegments segs
      /\ Browser.path normalized = Js.join "/" segs)
  /\ Browser.normalizePosixPath (Browser.path normalized)
     = {| Browser.path := Browser.path normalized;
          Browser.escapedRoot := false |}
  /\ (Browser.escapedRoot normalized = true
      -> ".." ∈ Js.split "/" value).
Proof.
  unfold Browser.normalizePosixPath.
  pose proof (normalizeParts_clean (Js.split "/" value) [] false) as Hclean.
  pose proof (normalizeParts_escaped (Js.split "/" value) []) as Hescaped.
  destruct (Browser.normalizeParts (Js.split "/" value) [] false)
    as [stack escaped].
  cbn [fst snd Browser.path Browser.escapedRoot] in *.
  assert (cleanSegments (rev stack)) as Hrev.
  { apply Forall_rev, Hclean; [|constructor].
    apply Forall_forall. intros part. apply split_parts_free. }
  split_and!; [by exists (rev stack)| |done].
  destruct (decide (rev stack = [])) as [Hnil|Hne].
  - by rewrite Hnil.
  - rewrite split_join by done.
    rewrite normalizeParts_of_clean by done.
    by rewrite app_nil_r, rev_involutive.
Qed.

Lemma collapseSlashes_head (s : string) (c : ascii) (r : string) :
  s = String c r -> exists t, Browser.collapseSlashes s = String c t.
Proof.
  revert c r. induction s as [|a s IH]; intros c r; [done|].
  intros [= -> ->]. cbn [Browser.collapseSlashes].
  destruct (Ascii.eqb c "/") eqn:Hc; [|by eexists].
  destruct r as [|b r]; [by eexists|].
  destruct (Ascii.eqb b "/") eqn:Hb; [|by eexists].
  apply Ascii.eqb_eq in Hc as ->. apply Ascii.eqb_eq in Hb as ->.
  by eapply IH.
Qed.

Lemma collapseSlashes_single (s : string) :
  Js.includes (Browser.collapseSlashes s) "//" = false.
Proof.
  induction s as [|a s IH]; [done|].
  cbn [Browser.collapseSlashes].
  destruct (Ascii.eqb a "/") eqn:Ha.
  - apply Ascii.eqb_eq in Ha as ->.
    destruct s as [|b r]; [done|].
    destruct (Ascii.eqb b "/") eqn:Hb; [done|].
    destruct (collapseSlashes_head (String b r) b r eq_refl) as [t Ht].
    rewrite Ht in IH |- *.
    cbn [Js.includes String.prefix] in IH |- *.
    destruct (ascii_dec "/" "/") as [_|?]; [|done].
    destruct (ascii_dec "/" b) as [<-|_]; [done|].
    done.
  - cbn [Js.includes String.prefix].
    destruct (ascii_dec "/" a) as [<-|_]; [done|].
    done.
Qed.

(** Property X17.  [posixJoin] never returns a path with two slashes in a
    row. *)
Theorem posixJoin_single_slashes (parts : list string) :
  Js.includes (Browser.posixJoin parts) "//" = false.
Proof. apply collapseSlashes_single. Qed.

Lemma lastIndexOf_none (c : ascii) (s : string) :
  Js.lastIndexOf c s = None <-> freeOf c s = true.
Proof.
  induction s as [|a s IH]; [done|].
  cbn [Js.lastIndexOf freeOf].
  destruct (Js.lastIndexOf c s) as [i|].
  - split; [done|]. intros [_ H]%andb_true_iff. by apply IH in H.
  - destruct IH as [IH _]. rewrite (IH eq_refl), andb_true_r.
    by destruct (Ascii.eqb a c).
Qed.

Lemma lastIndexOf_some (c : ascii) (s : string) (i : nat) :
  Js.lastIndexOf c s = Some i ->
  s = Js.take i s +:+ String c (Js.drop (i + 1) s)
  /\ freeOf c (Js.drop (i + 1) s) = true.
Proof.
  revert i. induction s as [|a s IH]; intros i; [done|].
  cbn [Js.lastIndexOf].
  destruct (Js.lastIndexOf c s) as [j|] eqn:Hlast.
  - intros [= <-]. destruct (IH j eq_refl) as [Hs Hfree].
    cbn [Js.take Js.drop Nat.add]. rewrite append_cons. by rewrite <- Hs.
  - destruct (Ascii.eqb a c) eqn:Ha; [|done]. intros [= <-].
    apply Ascii.eqb_eq in Ha as ->. apply lastIndexOf_none in Hlast.
    by cbn [Js.take Js.drop Nat.add].
Qed.

Lemma freeOf_slash (s : string) :
  freeOf "/" s = negb (Js.includes s "/").
Proof.
  induction s as [|a s IH]; [done|].
  cbn [freeOf]. rewrite includes_slash_cons, IH, negb_orb. done.
Qed.

Lemma includes_slash_append (s t : string) :
  Js.includes (s +:+ String "/" t) "/" = true.
Proof.
  induction s as [|a s IH].
  - change ("" +:+ String "/" t) with (String "/" t).
    by rewrite includes_slash_cons.
  - rewrite append_cons, includes_slash_cons, IH. apply orb_true_r.
Qed.

Lemma take_drop (i : nat) (s : string) : Js.take i s +:+ Js.drop i s = s.
Proof.
  revert s. induction i as [|i IH]; intros [|a s]; try done.
  cbn [Js.take Js.drop]. by rewrite append_cons, IH.
Qed.

Lemma drop_take_append (i : nat) (s u : string) :
  s = Js.take i s +:+ u -> Js.drop i s = u.
Proof.
  revert s. induction i as [|i IH]; intros [|a s]; try done.
  cbn [Js.take Js.drop]. rewrite append_cons. intros [= H]. by apply IH.
Qed.

(** Property X18.  A path with a slash is its [posixDirname], a slash and
    its [posixBasename]; a path without one is its own base name and has the
    empty directory name. The base name has no slash; it ends with
    [posixExtname], which is empty when the base name has no dot and starts
    at its last dot otherwise. *)
Theorem posix_path_parts (value : string) :
  let dir := Browser.posixDirname value in
  let base := Browser.posixBasename value in
  let ext := Browser.posixExtname value in
  Js.includes base "/" = false
  /\ (if Js.includes value "/" then value = dir +:+ "/" +:+ base
      else dir = "" /\ base = value)
  /\ (if freeOf "." base then ext = ""
      else exists stem rest,
          base = stem +:+ ext /\ ext = String "." rest
          /\ freeOf "." rest = true).
Proof.
  unfold Browser.posixExtname, Browser.posixDirname, Browser.posixBasename.
  cbn zeta. split_and!.
  - destruct (Js.lastIndexOf "/" value) as [i|] eqn:Hlast.
    + apply lastIndexOf_some in Hlast as [_ Hfree].
      rewrite freeOf_slash in Hfree. by apply negb_true_iff.
    + apply lastIndexOf_none in Hlast.
      rewrite freeOf_slash in Hlast. by apply negb_true_iff.
  - destruct (Js.lastIndexOf "/" value) as [i|] eqn:Hlast.
    + apply lastIndexOf_some in Hlast as [Hvalue _].
      assert (Js.includes value "/" = true) as ->; [|done].
      rewrite Hvalue. apply includes_slash_append.
    + apply lastIndexOf_none in Hlast. rewrite freeOf_slash in Hlast.
      apply negb_true_iff in Hlast. by rewrite Hlast.
  - set (base := match Js.lastIndexOf "/" value with
                 | Some idx => Js.drop (idx + 1) value
                 | None => value
                 end).
    destruct (Js.lastIndexOf "." base) as [i|] eqn:Hlast.
    + pose proof Hlast as Hsome.
      apply lastIndexOf_some in Hsome as [Hbase Hfree].
      assert (freeOf "." base = false) as ->.
      { apply not_true_iff_false. intros H%lastIndexOf_none. congruence. }
      exists (Js.take i base), (Js.drop (i + 1) base).
      split_and!; [by rewrite take_drop|by apply drop_take_append|done].
    + apply lastIndexOf_none in Hlast. by rewrite Hlast.
Qed.

(** ** The resolver of the browser scanner *)

Lemma normalizePosixPath_segments (value : string) :
  exists segs,
    cleanSegments segs
    /\ Browser.path (Browser.normalizePosixPath value) = Js.join "/" segs.
Proof.
  unfold Browser.normalizePosixPath.
  pose proof (normalizeParts_clean (Js.split "/" value) [] false) as Hclean.
  destruct (Browser.normalizeParts (Js.split "/" value) [] false)
    as [stack escaped].
  exists (rev stack). split; [|done].
  apply Forall_rev, Hclean; [|constructor].
  apply Forall_forall. intros part. apply split_parts_free.
Qed.

Lemma firstMember_member (fileSet : gset string) (candidates : list string)
  (found : string) :
  Browser.firstMember fileSet candidates = Some found ->
  found ∈ candidates /\ found ∈ fileSet.
Proof.
  induction candidates as [|c rest IH]; [done|]. cbn [Browser.firstMember].
  destruct (decide (c ∈ fileSet)) as [Hc|Hc].
  - intros [= <-]. split; [apply list_elem_of_here|done].
  - intros [Hin Hfound]%IH. split; [by apply list_elem_of_further|done].
Qed.

Lemma firstMember_none (fileSet : gset string) (candidates : list string) :
  Browser.firstMember fileSet candidates = None
  <-> Forall (fun c => c ∉ fileSet) candidates.
Proof.
  induction candidates as [|c rest IH]; [by split; [constructor|]|].
  cbn [Browser.firstMember]. destruct (decide (c ∈ fileSet)) as [Hc|Hc].
  - split; [done|]. by intros [? _]%Forall_cons.
  - rewrite IH. split; [by constructor|by intros [_ ?]%Forall_cons].
Qed.

Lemma browser_resolveWithExtensions_member (basePath found : string)
  (fileSet dirSet : gset string) :
  Browser.resolveWithExtensions (Some basePath) fileSet dirSet = Some found ->
  found ∈ fileSet
  /\ (found = basePath
      \/ (basePath ∈ dirSet
          /\ exists ext, ext ∈ IMPORT_EXTENSIONS
               /\ found = Browser.posixJoin [basePath; "index" +:+ ext])
      \/ (Browser.posixExtname basePath = ""
          /\ exists ext, ext ∈ IMPORT_EXTENSIONS
               /\ found = basePath +:+ ext)).
Proof.
  unfold Browser.resolveWithExtensions, truthy.
  destruct (Js.isEmpty basePath); [done|].
  destruct (decide (basePath ∈ fileSet)) as [Hfile|Hfile].
  { intros [= <-]. split; [done|by left]. }
  cbv zeta.
  assert (Browser.firstMember fileSet
            (map (fun ext => basePath +:+ ext) IMPORT_EXTENSIONS) = Some found
          -> Js.isEmpty (Browser.posixExtname basePath) = true
          -> found ∈ fileSet
             /\ (found = basePath
                 \/ (basePath ∈ dirSet
                     /\ exists ext, ext ∈ IMPORT_EXTENSIONS
                          /\ found
                             = Browser.posixJoin [basePath; "index" +:+ ext])
                 \/ (Browser.posixExtname basePath = ""
                     /\ exists ext, ext ∈ IMPORT_EXTENSIONS
                          /\ found = basePath +:+ ext))) as Hextended.
  { intros [Hin Hfound]%firstMember_member Hempty. split; [done|].
    do 2 right. split; [by destruct (Browser.posixExtname basePath)|].
    apply list_elem_of_In, in_map_iff in Hin as (ext & <- & Hext).
    exists ext. by rewrite list_elem_of_In. }
  destruct (decide (basePath ∈ dirSet)) as [Hdir|Hdir].
  - destruct (Browser.firstMember fileSet
                (map (fun ext => Browser.posixJoin [basePath; "index" +:+ ext])
                     IMPORT_EXTENSIONS)) as [indexPath|] eqn:Hindex.
    + intros [= <-]. apply firstMember_member in Hindex as [Hin Hfound].
      split; [done|]. right; left. split; [done|].
      apply list_elem_of_In, in_map_iff in Hin as (ext & <- & Hext).
      exists ext. by rewrite list_elem_of_In.
    + destruct (Js.isEmpty (Browser.posixExtname basePath)) eqn:Hempty;
        [|done].
      intros H. by apply Hextended.
  - destruct (Js.isEmpty (Browser.posixExtname basePath)) eqn:Hempty; [|done].
    intros H. by apply Hextended.
Qed.

(** Property X19.  The browser resolver skips exactly the empty specifiers
    and those that start with [http]. Any other specifier is external,
    without a path, or resolved to a file of the scanned set: the normalised
    target, which is a non-empty path of plain segments, itself; an index
    file of it when it is a scanned directory; or, when it has no extension,
    the target with an import extension appended. *)
Theorem browser_resolveImport_outcomes (fromFile specifier : string)
  (fileSet dirSet : gset string) :
  match Browser.resolveImport fromFile specifier fileSet dirSet with
  | None => specifier = "" \/ Js.startsWith specifier "http" = true
  | Some r =>
      specifier <> "" /\ Js.startsWith specifier "http" = false
      /\ match Resolution.resolved r with
         | None => Resolution.external r = true
         | Some found =>
             Resolution.external r = false
             /\ found ∈ fileSet
             /\ exists target segs,
                 target <> "" /\ cleanSegments segs
                 /\ target = Js.join "/" segs
                 /\ (found = target
                     \/ (target ∈ dirSet
                         /\ exists ext, ext ∈ IMPORT_EXTENSIONS
                              /\ found
                                 = Browser.posixJoin
                                     [target; "index" +:+ ext])
                     \/ (Browser.posixExtname target = ""
                         /\ exists ext, ext ∈ IMPORT_EXTENSIONS
                              /\ found = target +:+ ext))
         end
  end.
Proof.
  unfold Browser.resolveImport.
  destruct (Js.isEmpty specifier) eqn:Hempty.
  { left. by destruct specifier. }
  destruct (Js.startsWith specifier "http") eqn:Hhttp; [by right|].
  cbn [orb]. cbv zeta.
  assert (specifier <> "") as Hne by (by intros ->).
  set (clean := Js.splitHead "#" (Js.splitHead "?" specifier)).
  assert (forall value,
    match
      (if Js.isEmpty (Browser.path (Browser.normalizePosixPath value))
          || Browser.escapedRoot (Browser.normalizePosixPath value)
       then Some {| Resolution.external := true;
                    Resolution.resolved := None |}
       else
         match Browser.resolveWithExtensions
                 (Some (Browser.path (Browser.normalizePosixPath value)))
                 fileSet dirSet with
         | Some resolved =>
             Some {| Resolution.external := false;
                     Resolution.resolved := Some resolved |}
         | None =>
             Some {| Resolution.external := true;
                     Resolution.resolved := None |}
         end)
    with
    | None => specifier = "" \/ false = true
    | Some r =>
        specifier <> "" /\ false = false
        /\ match Resolution.resolved r with
           | None => Resolution.external r = true
           | Some found =>
               Resolution.external r = false
               /\ found ∈ fileSet
               /\ exists target segs,
                   target <> "" /\ cleanSegments segs
                   /\ target = Js.join "/" segs
                   /\ (found = target
                       \/ (target ∈ dirSet
                           /\ exists ext, ext ∈ IMPORT_EXTENSIONS
                                /\ found
                                   = Browser.posixJoin
                                       [target; "index" +:+ ext])
                       \/ (Browser.posixExtname target = ""
                           /\ exists ext, ext ∈ IMPORT_EXTENSIONS
                                /\ found = target +:+ ext))
           end
    end) as Htarget.
  { intros value.
    destruct (normalizePosixPath_segments value) as (segs & Hsegs & Hpath).
    destruct (Js.isEmpty (Browser.path (Browser.normalizePosixPath value)))
      eqn:Hblank; [done|].
    destruct (Browser.escapedRoot (Browser.normalizePosixPath value));
      [done|].
    cbn [orb].
    destruct (Browser.resolveWithExtensions _ fileSet dirSet) as [found|]
      eqn:Hresolved; [|done].
    apply browser_resolveWithExtensions_member in Hresolved as [Hin Hform].
    cbn [Resolution.resolved Resolution.external]. split_and!; try done.
    exists (Browser.path (Browser.normalizePosixPath value)), segs.
    split_and!; try done. intros Heq. by rewrite Heq in Hblank. }
  destruct (Js.startsWith clean "@/"); [apply Htarget|].
  destruct (Js.startsWith clean "/"); [apply Htarget|].
  destruct (Js.startsWith clean "."); [apply Htarget|].
  done.
Qed.

(** Property X20.  The browser resolver finds nothing for a candidate
    exactly when the candidate is empty, or is not a scanned file while, if
    it is a scanned directory, none of its index files is scanned and, if it
    has no extension, no scanned file is named by it with an import
    extension appended. *)
Theorem browser_resolveWithExtensions_nothing (basePath : string)
  (fileSet dirSet : gset string) :
  Browser.resolveWithExtensions (Some basePath) fileSet dirSet = None
  <-> basePath = ""
      \/ ((basePath ∉ fileSet)
          /\ (basePath ∈ dirSet ->
              Forall (fun ext =>
                        Browser.posixJoin [basePath; "index" +:+ ext]
                        ∉ fileSet) IMPORT_EXTENSIONS)
          /\ (Browser.posixExtname basePath = "" ->
              Forall (fun ext => (basePath +:+ ext) ∉ fileSet)
                     IMPORT_EXTENSIONS)).
Proof.
  unfold Browser.resolveWithExtensions, truthy.
  destruct basePath as [|c r] eqn:Hbase; [split; [by left|done]|].
  rewrite <- Hbase.
  assert (basePath <> "") as Hne by (by rewrite Hbase).
  assert (Js.isEmpty basePath = false) as -> by (by rewrite Hbase).
  cbv zeta.
  set (indexes := map (fun ext => Browser.posixJoin [basePath; "index" +:+ ext])
                      IMPORT_EXTENSIONS).
  set (extended := map (fun ext => basePath +:+ ext) IMPORT_EXTENSIONS).
  assert (forall (f : string -> string),
             Forall (fun c => c ∉ fileSet) (map f IMPORT_EXTENSIONS)
             <-> Forall (fun ext => f ext ∉ fileSet) IMPORT_EXTENSIONS)
    as Hmap.
  { intros f. by rewrite Forall_map. }
  assert (Js.isEmpty (Browser.posixExtname basePath) = true
          <-> Browser.posixExtname basePath = "") as Hext.
  { by destruct (Browser.posixExtname basePath). }
  destruct (decide (basePath ∈ fileSet)) as [Hfile|Hfile].
  { split; [done|]. by intros [?|[? _]]. }
  destruct (decide (basePath ∈ dirSet)) as [Hdir|Hdir].
  - destruct (Browser.firstMember fileSet indexes) as [found|] eqn:Hindex.
    + split; [done|]. intros [?|(_ & Hnone & _)]; [done|].
      apply Hmap, firstMember_none in Hnone; [|done].
      unfold indexes in Hindex. congruence.
    + apply firstMember_none in Hindex. unfold indexes in Hindex.
      apply Hmap in Hindex.
      destruct (Js.isEmpty (Browser.posixExtname basePath)) eqn:Hempty.
      * rewrite firstMember_none. unfold extended. rewrite Hmap. split.
        -- intros Hnone. right. by split_and!.
        -- intros [?|(_ & _ & Hnone)]; [done|]. by apply Hnone, Hext.
      * split; [|done]. intros _. right. split_and!; [done|done|].
        intros Hempty'%Hext. congruence.
  - destruct (Js.isEmpty (Browser.posixExtname basePath)) eqn:Hempty.
    + rewrite firstMember_none. unfold extended. rewrite Hmap. split.
      * intros Hnone. right. by split_and!.
      * intros [?|(_ & _ & Hnone)]; [done|]. by apply Hnone, Hext.
    + split; [|done]. intros _. right. split_and!; [done|done|].
      intros Hempty'%Hext. congruence.
Qed.

(** ** The identifiers of the browser scanner *)

Lemma hexDigit_isHexDigit (d : Z) :
  (0 <= d < 16)%Z -> isHexDigit (Browser.hexDigit d) = true.
Proof.
  intros Hd.
  assert (d = 0 \/ d = 1 \/ d = 2 \/ d = 3 \/ d = 4 \/ d = 5 \/ d = 6
          \/ d = 7 \/ d = 8 \/ d = 9 \/ d = 10 \/ d = 11 \/ d = 12
          \/ d = 13 \/ d = 14 \/ d = 15)%Z as Hcases by lia.
  repeat (destruct Hcases as [-> | Hcases]; [reflexivity|]).
  by subst.
Qed.

Lemma toHex_format (fuel : nat) (n : Z) (acc : string) :
  allChars isHexDigit acc = true ->
  allChars isHexDigit (Browser.toHex fuel n acc) = true
  /\ String.length (Browser.toHex fuel n acc) <= String.length acc + fuel
  /\ (0 < fuel -> String.length acc < String.length (Browser.toHex fuel n acc)).
Proof.
  revert n acc. induction fuel as [|fuel IH]; intros n acc Hacc.
  - cbn [Browser.toHex]. split_and!; [done|lia|lia].
  - cbn [Browser.toHex].
    assert (allChars isHexDigit (String (Browser.hexDigit (n mod 16)) acc)
            = true) as Hnext.
    { cbn [allChars]. rewrite Hacc, andb_true_r.
      apply hexDigit_isHexDigit, Z.mod_pos_bound. lia. }
    destruct (n / 16 =? 0)%Z.
    + split_and!; [done|simpl; lia|simpl; lia].
    + destruct (IH (n / 16)%Z _ Hnext) as (Hall & Hle & Hlt).
      cbn [String.length] in Hle, Hlt.
      split_and!; [done|lia|].
      intros _. destruct fuel as [|fuel]; [simpl; lia|lia].
Qed.

(** Property X21.  An identifier made by the browser [hashId] is a string of
    two to sixteen lower-case hexadecimal digits. *)
Theorem browser_hashId_format (value : string) :
  let id := Browser.hashId value in
  allChars isHexDigit id = true
  /\ 2 <= String.length id <= 16.
Proof.
  unfold Browser.hashId.
  destruct (Browser.hashLoop value _) as [h1 h2].
  set (n1 := Browser.imul _ _). set (n2 := Browser.imul (Z.lxor h2 _) _).
  destruct (toHex_format 8 n1 "" eq_refl) as (Hall1 & Hle1 & Hlt1).
  destruct (toHex_format 8 n2 "" eq_refl) as (Hall2 & Hle2 & Hlt2).
  cbn [String.length] in *.
  rewrite length_append. split; [|lia].
  clear -Hall1 Hall2. induction (Browser.toHex 8 n1 "") as [|a s IH]; [done|].
  rewrite append_cons. cbn [allChars] in *.
  apply andb_true_iff in Hall1 as [-> Hs]. by apply IH.
Qed.

(** ** The graph filters of the page *)

Lemma has_elem_of (xs : list string) (x : string) :
  Js.has xs x = true <-> x ∈ xs.
Proof.
  unfold Js.has. rewrite existsb_exists. split.
  - intros (y & Hin & ->%String.eqb_eq). by apply list_elem_of_In.
  - intros Hin. exists x. by rewrite <- list_elem_of_In, String.eqb_refl.
Qed.

Lemma setAdd_elem_of (x y : string) (xs : list string) :
  y ∈ Page.setAdd x xs <-> y = x \/ y ∈ xs.
Proof.
  unfold Page.setAdd. destruct (Js.has xs x) eqn:Hhas.
  - apply has_elem_of in Hhas. split; [by right|]. by intros [-> | ?].
  - rewrite elem_of_app, list_elem_of_singleton. tauto.
Qed.

Lemma fold_setAdd_elem_of (xs init : list string) (y : string) :
  y ∈ fold_left (fun members x => Page.setAdd x members) xs init
  <-> y ∈ xs \/ y ∈ init.
Proof.
  revert init. induction xs as [|x xs IH]; intros init; cbn [fold_left].
  - rewrite elem_of_nil. tauto.
  - rewrite IH, setAdd_elem_of, elem_of_cons. tauto.
Qed.

Lemma addTo_ensure_elem_of (key value u v : string)
  (m : gmap string (list string)) :
  v ∈ default [] (Page.addTo key value (Page.ensure key m) !! u)
  <-> v ∈ default [] (m !! u) \/ (key = u /\ value = v).
Proof.
  unfold Page.addTo, Page.ensure.
  destruct (m !! key) as [members|] eqn:Hkey.
  - rewrite Hkey. destruct (decide (key = u)) as [<-|Hne].
    + rewrite lookup_insert_eq, Hkey. cbn [default from_option id].
      rewrite setAdd_elem_of. intuition (subst; auto).
    + rewrite lookup_insert_ne by done. intuition.
  - rewrite lookup_insert_eq. destruct (decide (key = u)) as [<-|Hne].
    + rewrite lookup_insert_eq, Hkey. cbn [default from_option id].
      rewrite setAdd_elem_of, elem_of_nil. intuition (subst; auto).
    + rewrite !lookup_insert_ne by done. intuition.
Qed.

Lemma adjacency_fold (edges : list GraphEdge.t) (adj : Page.Adjacency)
  (u v : string) :
  let result :=
    fold_left
      (fun adj edge =>
         {| Page.outgoing :=
              Page.addTo (GraphEdge.source edge) (GraphEdge.target edge)
                (Page.ensure (GraphEdge.source edge) (Page.outgoing adj));
            Page.incoming :=
              Page.addTo (GraphEdge.target edge) (GraphEdge.source edge)
                (Page.ensure (GraphEdge.target edge) (Page.incoming adj)) |})
      edges adj in
  (v ∈ default [] (Page.outgoing result !! u)
   <-> v ∈ default [] (Page.outgoing adj !! u)
       \/ exists edge, edge ∈ edges /\ GraphEdge.source edge = u
                       /\ GraphEdge.target edge = v)
  /\ (v ∈ default [] (Page.incoming result !! u)
      <-> v ∈ default [] (Page.incoming adj !! u)
          \/ exists edge, edge ∈ edges /\ GraphEdge.target edge = u
                          /\ GraphEdge.source edge = v).
Proof.
  cbv zeta. revert adj.
  induction edges as [|edge edges IH]; intros adj; cbn [fold_left].
  - split; (split; [by left|]); by intros [?|(? & []%elem_of_nil & _)].
  - destruct (IH
      {| Page.outgoing :=
           Page.addTo (GraphEdge.source edge) (GraphEdge.target edge)
             (Page.ensure (GraphEdge.source edge) (Page.outgoing adj));
         Page.incoming :=
           Page.addTo (GraphEdge.target edge) (GraphEdge.source edge)
             (Page.ensure (GraphEdge.target edge) (Page.incoming adj)) |})
      as [Hout Hin].
    cbn [Page.outgoing Page.incoming] in Hout, Hin.
    rewrite addTo_ensure_elem_of in Hout, Hin.
    split.
    + rewrite Hout. setoid_rewrite elem_of_cons. split.
      * intros [[?|[<- <-]]|(e & ? & ?)]; [by left|right..].
        -- exists edge. by split; [left|].
        -- exists e. by split; [right|].
      * intros [?|(e & [->|?] & <- & <-)]; [by left; left|by left; right|].
        right. by exists e.
    + rewrite Hin. setoid_rewrite elem_of_cons. split.
      * intros [[?|[<- <-]]|(e & ? & ?)]; [by left|right..].
        -- exists edge. by split; [left|].
        -- exists e. by split; [right|].
      * intros [?|(e & [->|?] & <- & <-)]; [by left; left|by left; right|].
        right. by exists e.
Qed.

(** The neighbours that the loop visits are the nodes joined to [u] by an
    edge. *)
Lemma neighbors_linked (edges : list GraphEdge.t) (u v : string) :
  v ∈ Page.neighbors (Page.buildAdjacency edges) u <-> linked edges u v.
Proof.
  unfold Page.neighbors. rewrite fold_setAdd_elem_of, elem_of_app.
  destruct (adjacency_fold edges
              {| Page.outgoing := ∅; Page.incoming := ∅ |} u v)
    as [Hout Hin].
  fold (Page.buildAdjacency edges) in Hout, Hin.
  cbn [Page.outgoing Page.incoming] in Hout, Hin.
  rewrite lookup_empty in Hout, Hin. cbn [default from_option id] in Hout, Hin.
  rewrite Hout, Hin, !elem_of_nil. unfold linked. split.
  - intros [[[[]|(e & ? & ? & ?)]|[[]|(e & ? & ? & ?)]]|[]];
      exists e; (split; [done|]); [by left|by right].
  - intros (e & ? & [[? ?]|[? ?]]); left; [left|right]; right; by exists e.
Qed.

Lemma fold_visit (d : Z) (ns : list string) (allowed : gset string)
  (queue : list (string * Z)) :
  exists new,
    NoDup new
    /\ (forall v, v ∈ new <-> v ∈ ns /\ v ∉ allowed)
    /\ (forall v,
          v ∈ fst (fold_left (Page.visit d) ns (allowed, queue))
          <-> v ∈ allowed \/ v ∈ new)
    /\ snd (fold_left (Page.visit d) ns (allowed, queue))
       = queue ++ map (fun v => (v, (d + 1)%Z)) new.
Proof.
  revert allowed queue.
  induction ns as [|n ns IH]; intros allowed queue; cbn [fold_left].
  - exists []. split_and!.
    + constructor.
    + intros v. rewrite elem_of_nil. tauto.
    + intros v. rewrite elem_of_nil. cbn [fst]. tauto.
    + cbn [snd map]. by rewrite app_nil_r.
  - assert (Page.visit d (allowed, queue) n
            = if decide (n ∈ allowed) then (allowed, queue)
              else ({[n]} ∪ allowed, queue ++ [(n, (d + 1)%Z)])) as -> by done.
    destruct (decide (n ∈ allowed)) as [Hn|Hn].
    + destruct (IH allowed queue) as (new & Hnodup & Hnew & Hfst & Hsnd).
      exists new. split_and!; try done.
      intros v. rewrite Hnew, elem_of_cons. intuition (subst; tauto).
    + destruct (IH ({[n]} ∪ allowed) (queue ++ [(n, (d + 1)%Z)]))
        as (new & Hnodup & Hnew & Hfst & Hsnd).
      exists (n :: new). split_and!.
      * constructor; [|done]. rewrite Hnew, elem_of_union, elem_of_singleton.
        tauto.
      * intros v. rewrite !elem_of_cons, Hnew, elem_of_union, elem_of_singleton.
        destruct (decide (v = n)) as [->|Hv]; tauto.
      * intros v. rewrite Hfst, elem_of_cons, elem_of_union, elem_of_singleton.
        tauto.
      * rewrite Hsnd. cbn [map]. by rewrite <- app_assoc.
Qed.

Section FocusLoop.

Variable edges : list GraphEdge.t.
Variable focusId : string.
Variable depth : Z.
Hypothesis depth_positive : (0 < depth)%Z.

Lemma focus_initial :
  FocusInvariant edges focusId depth [] [(focusId, 0%Z)] {[focusId]}.
Proof.
  split; cbn [app map fst snd].
  - intros v. rewrite list_elem_of_singleton. set_solver.
  - apply NoDup_singleton.
  - intros v ->%list_elem_of_singleton. apply list_elem_of_here.
  - intros v d [= -> ->]%list_elem_of_singleton. split; [lia|done].
  - apply list_elem_of_here.
  - repeat constructor.
  - intros d [= <-] v d' [= -> ->]%list_elem_of_singleton. lia.
  - intros u d []%elem_of_nil.
Qed.

Lemma focus_step (processed rest : list (string * Z)) (u : string) (d : Z)
  (allowed allowed' : gset string) (new : list string) :
  FocusInvariant edges focusId depth processed ((u, d) :: rest) allowed ->
  NoDup new ->
  (forall v, v ∈ new -> linked edges u v /\ (v ∉ allowed) /\ (d < depth)%Z) ->
  ((d < depth)%Z -> forall v, linked edges u v -> v ∈ allowed \/ v ∈ new) ->
  (forall v, v ∈ allowed' <-> v ∈ allowed \/ v ∈ new) ->
  FocusInvariant edges focusId depth (processed ++ [(u, d)])
    (rest ++ map (fun v => (v, (d + 1)%Z)) new) allowed'.
Proof.
  intros [Hallowed Honce Hknown Hsound Hstart Hsorted Hbound Hclosed]
    Hnodup Hnew Hall Hallowed'.
  set (added := map (fun v => (v, (d + 1)%Z)) new).
  assert ((processed ++ [(u, d)]) ++ rest ++ added
          = (processed ++ (u, d) :: rest) ++ added) as Hlist.
  { by rewrite <- !app_assoc. }
  assert (map fst added = new) as Hids.
  { unfold added. rewrite map_map. cbn [fst]. apply map_id. }
  assert (forall v d', (v, d') ∈ added <-> v ∈ new /\ d' = (d + 1)%Z)
    as Hadded.
  { intros v d'. unfold added. rewrite list_elem_of_In, in_map_iff.
    setoid_rewrite <- list_elem_of_In. split.
    - by intros (x & [= -> ->] & ?).
    - intros [? ->]. by exists v. }
  assert (forall v d', (v, d') ∈ processed ++ (u, d) :: rest ->
                       (d' <= d + 1)%Z) as Hhead.
  { intros v d'. by apply Hbound. }
  assert (forall d', d' ∈ map snd rest -> (d <= d')%Z) as Hrest.
  { cbn [map snd] in Hsorted. apply StronglySorted_cons in Hsorted as [H _].
    intros d'. by apply Forall_forall. }
  assert ((u, d) ∈ processed ++ (u, d) :: rest) as Hcurrent.
  { apply elem_of_app. right. apply list_elem_of_here. }
  assert (map fst ((processed ++ (u, d) :: rest) ++ added)
          = map fst (processed ++ (u, d) :: rest) ++ new) as Hmap.
  { by rewrite map_app, Hids. }
  split; rewrite ?Hlist, ?Hmap.
  - intros v. rewrite Hallowed', Hallowed, elem_of_app. done.
  - apply NoDup_app. split_and!; [done| |done].
    intros v Hv%Hallowed Hv'%Hnew. tauto.
  - intros v. rewrite elem_of_app.
    intros [Hv|Hv]; [by apply Hknown|].
    apply Hnew in Hv as [(edge & Hedge & Hends) _].
    apply list_elem_of_further, elem_of_app.
    destruct Hends as [[_ <-]|[<- _]]; [right|left];
      apply list_elem_of_In, in_map; by apply list_elem_of_In.
  - intros v d'. rewrite elem_of_app.
    intros [Hv|[Hv ->]%Hadded]; [by apply Hsound|].
    apply Hnew in Hv as (Hlinked & _ & Hlt).
    destruct (Hsound u d Hcurrent) as [Hd Hchain].
    split; [lia|].
    replace (Z.to_nat (d + 1)) with (S (Z.to_nat d)) by lia.
    by exists u.
  - apply elem_of_app. by left.
  - rewrite map_app. apply StronglySorted_app_2.
    + intros d1 d2 Hd1 Hd2.
      apply list_elem_of_In, in_map_iff in Hd1 as ([v1 d1'] & <- & Hv1).
      apply list_elem_of_In, in_map_iff in Hd2 as ([v2 d2'] & <- & Hv2).
      apply list_elem_of_In, Hadded in Hv2 as [_ ->]. cbn [snd].
      apply (Hhead v1). apply elem_of_app. right.
      by apply list_elem_of_further, list_elem_of_In.
    + cbn [map snd] in Hsorted. by apply StronglySorted_cons in Hsorted as [_ H].
    + unfold added. rewrite map_map. cbn [snd]. clear.
      induction new as [|v new IH]; constructor; [done|].
      apply Forall_forall. intros d' Hd'.
      apply list_elem_of_In, in_map_iff in Hd' as (? & <- & _). lia.
  - intros d0 Hd0 v d'.
    assert (d <= d0)%Z as Hle.
    { destruct (rest ++ added) as [|[v0 d0'] tail] eqn:Hqueue; [done|].
      cbn [map snd head] in Hd0. injection Hd0 as ->.
      assert ((v0, d0) ∈ rest ++ added) as Hin
        by (rewrite Hqueue; apply list_elem_of_here).
      apply elem_of_app in Hin as [Hin|[_ ->]%Hadded]; [|lia].
      apply Hrest, list_elem_of_In, in_map_iff. exists (v0, d0).
      by rewrite <- list_elem_of_In. }
    rewrite elem_of_app. intros [Hv|[_ ->]%Hadded]; [|lia].
    apply Hhead in Hv. lia.
  - intros w dw. rewrite elem_of_app, list_elem_of_singleton.
    intros [Hw|[= -> ->]] Hlt v Hlinked.
    + destruct (Hclosed w dw Hw Hlt v Hlinked) as (d' & Hv & Hd').
      exists d'. split; [|done]. apply elem_of_app. by left.
    + destruct (Hall Hlt v Hlinked) as [Hv|Hv].
      * apply Hallowed, list_elem_of_In, in_map_iff in Hv
          as ([v' d'] & <- & Hv).
        apply list_elem_of_In in Hv. exists d'. cbn [fst].
        split; [apply elem_of_app; by left|by eapply Hhead].
      * exists (d + 1)%Z. split; [|lia].
        apply elem_of_app. right. by apply Hadded.
Qed.

Lemma focus_final (processed : list (string * Z)) (allowed : gset string) :
  FocusInvariant edges focusId depth processed [] allowed ->
  forall v, v ∈ allowed <-> near edges focusId depth v.
Proof.
  intros [Hallowed _ _ Hsound Hstart _ _ Hclosed] v.
  rewrite app_nil_r in *. rewrite Hallowed. split.
  - intros ([v' d] & <- & Hv)%list_elem_of_In%in_map_iff.
    apply list_elem_of_In, Hsound in Hv as [Hd Hchain].
    exists (Z.to_nat d). split; [lia|done].
  - intros (n & Hn & Hchain).
    assert (exists d, (v, d) ∈ processed /\ (d <= Z.of_nat n)%Z)
      as (d & Hv & _).
    { revert v Hn Hchain. induction n as [|n IH]; intros v Hn Hchain.
      - cbn [chain] in Hchain. subst v. by exists 0%Z.
      - destruct Hchain as (w & Hchain & Hlinked).
        destruct (IH w ltac:(lia) Hchain) as (dw & Hw & Hdw).
        destruct (Hclosed w dw Hw ltac:(lia) v Hlinked) as (d' & Hv & Hd').
        exists d'. split; [done|lia]. }
    apply list_elem_of_In, in_map_iff. exists (v, d).
    by rewrite <- list_elem_of_In.
Qed.

Lemma focus_count (processed queue : list (string * Z))
  (allowed : gset string) :
  FocusInvariant edges focusId depth processed queue allowed ->
  length processed + length queue <= 1 + 2 * length edges.
Proof.
  intros [_ Honce Hknown _ _ _ _ _].
  apply NoDup_submseteq in Hknown; [|done].
  apply submseteq_length in Hknown.
  rewrite length_map, length_app in Hknown. cbn [length] in Hknown.
  rewrite length_app, !length_map in Hknown. lia.
Qed.

(** With enough tests of its condition the loop ends, and the set it has
    built holds exactly the nodes at most [depth] edges away from the
    focused node. *)
Lemma focusLoop_correct (fuel : nat) :
  forall (processed queue : list (string * Z)) (allowed : gset string),
    FocusInvariant edges focusId depth processed queue allowed ->
    1 + 2 * length edges < fuel + length processed ->
    exists final,
      Page.focusLoop fuel (Page.buildAdjacency edges) depth allowed queue
      = Some final
      /\ forall v, v ∈ final <-> near edges focusId depth v.
Proof.
  induction fuel as [|fuel IH]; intros processed queue allowed Hinv Hfuel.
  - apply focus_count in Hinv. lia.
  - cbn [Page.focusLoop]. destruct queue as [|[u d] rest].
    + exists allowed. split; [done|]. by eapply focus_final.
    + destruct (depth <=? d)%Z eqn:Hdepth.
      * apply Z.leb_le in Hdepth.
        apply (IH (processed ++ [(u, d)])).
        -- rewrite <- (app_nil_r rest).
           apply (focus_step processed rest u d allowed allowed []);
             [done|constructor| | |].
           ++ by intros v []%elem_of_nil.
           ++ lia.
           ++ intros v. rewrite elem_of_nil. tauto.
        -- rewrite length_app. cbn [length]. lia.
      * apply Z.leb_gt in Hdepth. cbv zeta.
        destruct (fold_visit d (Page.neighbors (Page.buildAdjacency edges) u)
                    allowed rest) as (new & Hnodup & Hnew & Hfst & Hsnd).
        rewrite Hsnd.
        apply (IH (processed ++ [(u, d)])).
        -- apply (focus_step processed rest u d allowed _ new);
             [done|done| | |done].
           ++ intros v [Hv Hnot]%Hnew. by apply neighbors_linked in Hv.
           ++ intros _ v Hv%neighbors_linked.
              destruct (decide (v ∈ allowed)); [by left|right].
              by apply Hnew.
        -- rewrite length_app. cbn [length]. lia.
Qed.

End FocusLoop.

Lemma filterFocus_returns (fuel : nat) (nodes : list GraphNode.t)
  (edges : list GraphEdge.t) (focusId : option string) (depth : Z) :
  2 * length edges + 2 <= fuel ->
  Page.filterFocus fuel nodes edges focusId depth = Some (nodes, edges)
  \/ exists allowed,
      Page.filterFocus fuel nodes edges focusId depth
      = Some (List.filter (Page.keepNode allowed) nodes,
              List.filter (Page.keepEdge allowed) edges).
Proof.
  intros Hfuel. unfold Page.filterFocus.
  destruct (truthy focusId) as [id|]; [|by left].
  destruct (depth <=? 0)%Z eqn:Hdepth; [by left|].
  apply Z.leb_gt in Hdepth.
  destruct (focusLoop_correct edges id depth Hdepth fuel [] [(id, 0%Z)]
              {[id]})
    as (final & -> & _).
  - by apply focus_initial.
  - cbn [length]. lia.
  - right. by exists final.
Qed.

(** Property X22.  In focus mode, with a selected node and a positive depth,
    and with enough tests of the loop condition, [filterFocus] keeps exactly
    the nodes at most [depth] edges away from the selected node, edges being
    followed in both directions, and the edges between two such nodes. *)
Theorem filterFocus_neighbourhood (fuel : nat) (nodes : list GraphNode.t)
  (edges : list GraphEdge.t) (focusId : string) (depth : Z) :
  focusId <> "" ->
  (0 < depth)%Z ->
  2 * length edges + 2 <= fuel ->
  exists allowed : gset string,
    (forall v, v ∈ allowed <-> near edges focusId depth v)
    /\ Page.filterFocus fuel nodes edges (Some focusId) depth
       = Some (List.filter (Page.keepNode allowed) nodes,
               List.filter (Page.keepEdge allowed) edges).
Proof.
  intros Hfocus Hdepth Hfuel. unfold Page.filterFocus, truthy.
  destruct focusId as [|c r]; [done|]. cbn [Js.isEmpty].
  apply Z.leb_gt in Hdepth as Hleb. rewrite Hleb.
  destruct (focusLoop_correct edges (String c r) depth Hdepth fuel []
              [(String c r, 0%Z)] {[String c r]})
    as (final & -> & Hfinal).
  - by apply focus_initial.
  - cbn [length]. lia.
  - by exists final.
Qed.

Lemma filterFocus_neighbourhood_witness :
  exists allowed : gset string,
    (forall v, v ∈ allowed <-> near PageDemo.edges "a.ts" 1 v)
    /\ Page.filterFocus 12 PageDemo.nodes PageDemo.edges (Some "a.ts") 1
       = Some (List.filter (Page.keepNode allowed) PageDemo.nodes,
               List.filter (Page.keepEdge allowed) PageDemo.edges).
Proof.
  apply filterFocus_neighbourhood; [done|lia|simpl; lia].
Defined.

Lemma filter_sublist {A : Type} (f : A -> bool) (l : list A) :
  sublist (List.filter f l) l.
Proof.
  induction l as [|x l IH]; [constructor|]. cbn [List.filter].
  destruct (f x); by constructor.
Qed.

Lemma filter_elem_of {A : Type} (f : A -> bool) (l : list A) (x : A) :
  x ∈ List.filter f l <-> x ∈ l /\ f x = true.
Proof. by rewrite !list_elem_of_In, filter_In. Qed.

(** Property X23.  With enough tests of the loop condition the page always
    has a graph to show. Its nodes and edges are taken, in order, from the
    scanned graph; every edge shown joins two nodes that are shown; ignored
    files are shown only when [showIgnored] is set, and the external node
    and the external edges only when [showExternal] is set. *)
Theorem filteredGraph_shown (fuel : nat) (graphData : GraphData.t)
  (view : Page.View) :
  2 * length (GraphData.edges graphData) + 2 <= fuel ->
  exists nodes edges,
    Page.filteredGraph fuel (Some graphData) view = Some (nodes, edges)
    /\ sublist nodes (GraphData.nodes graphData)
    /\ sublist edges (GraphData.edges graphData)
    /\ (forall edge, edge ∈ edges ->
          GraphEdge.source edge ∈ map GraphNode.id nodes
          /\ GraphEdge.target edge ∈ map GraphNode.id nodes)
    /\ (Page.showIgnored view = false ->
        forall node, node ∈ nodes -> GraphNode.ignored node <> Some true)
    /\ (Page.showExternal view = false ->
        (forall node, node ∈ nodes ->
           GraphNode.type node <> NodeType.external)
        /\ (forall edge, edge ∈ edges ->
              GraphEdge.type edge <> EdgeType.external)).
Proof.
  intros Hfuel. unfold Page.filteredGraph. cbv zeta.
  set (nodes1 := List.filter _ (GraphData.nodes graphData)).
  set (nodes0 := List.filter _ nodes1).
  set (edges1 := List.filter _ (GraphData.edges graphData)).
  set (nodeIds := list_to_set (map GraphNode.id nodes0) : gset string).
  set (edges0 := List.filter _ edges1).
  assert (sublist nodes0 (GraphData.nodes graphData)) as Hnodes.
  { etrans; apply filter_sublist. }
  assert (sublist edges0 (GraphData.edges graphData)) as Hedges.
  { etrans; apply filter_sublist. }
  assert (forall edge, edge ∈ edges0 ->
            GraphEdge.source edge ∈ map GraphNode.id nodes0
            /\ GraphEdge.target edge ∈ map GraphNode.id nodes0) as Hclosed.
  { intros edge [_ Hkeep]%filter_elem_of.
    apply andb_true_iff in Hkeep as [Hs Ht].
    apply bool_decide_eq_true in Hs, Ht.
    unfold nodeIds in Hs, Ht. by rewrite !elem_of_list_to_set in Hs, Ht. }
  assert (Page.showIgnored view = false ->
          forall node, node ∈ nodes0 -> GraphNode.ignored node <> Some true)
    as Hignored.
  { intros Hshow node [[_ Hkeep]%filter_elem_of _]%filter_elem_of.
    rewrite Hshow in Hkeep. intros Heq. by rewrite Heq in Hkeep. }
  assert (Page.showExternal view = false ->
          (forall node, node ∈ nodes0 ->
             GraphNode.type node <> NodeType.external)
          /\ (forall edge, edge ∈ edges0 ->
                GraphEdge.type edge <> EdgeType.external)) as Hexternal.
  { intros Hshow. split.
    - intros node [_ Hkeep]%filter_elem_of. rewrite Hshow in Hkeep.
      unfold Page.isExternalNode in Hkeep. intros Heq.
      by rewrite Heq in Hkeep.
    - intros edge [[_ Hkeep]%filter_elem_of _]%filter_elem_of.
      rewrite Hshow in Hkeep. intros Heq. by rewrite Heq in Hkeep. }
  assert (2 * length edges0 + 2 <= fuel) as Hfuel0.
  { apply sublist_length in Hedges. lia. }
  destruct (Page.focusMode view
            && negb (Js.isEmpty (default "" (Page.selectedNodeId view))));
    [|by exists nodes0, edges0].
  destruct (filterFocus_returns fuel nodes0 edges0
              (Page.selectedNodeId view) (Page.focusDepth view) Hfuel0)
    as [->|[allowed ->]]; [by exists nodes0, edges0|].
  exists (List.filter (Page.keepNode allowed) nodes0),
         (List.filter (Page.keepEdge allowed) edges0).
  split_and!; [done| | | | |].
  - etrans; [apply filter_sublist|done].
  - etrans; [apply filter_sublist|done].
  - intros edge [Hedge Hkeep]%filter_elem_of.
    apply andb_true_iff in Hkeep as [Hs Ht].
    destruct (Hclosed edge Hedge) as [Hsource Htarget].
    assert (forall id, bool_decide (id ∈ allowed) = true ->
              id ∈ map GraphNode.id nodes0 ->
              id ∈ map GraphNode.id
                     (List.filter (Page.keepNode allowed) nodes0)) as Hkept.
    { intros id Hid (node & <- & Hnode)%list_elem_of_In%in_map_iff.
      apply list_elem_of_In, in_map, list_elem_of_In, filter_elem_of.
      by rewrite <- list_elem_of_In in Hnode. }
    split; by apply Hkept.
  - intros Hshow node [Hnode _]%filter_elem_of. by apply Hignored.
  - intros Hshow. destruct (Hexternal Hshow) as [Hn He]. split.
    + intros node [Hnode _]%filter_elem_of. by apply Hn.
    + intros edge [Hedge _]%filter_elem_of. by apply He.
Qed.

Lemma filteredGraph_shown_witness :
  exists nodes edges,
    Page.filteredGraph 12 (Some PageDemo.graph) PageDemo.focused
    = Some (nodes, edges)
    /\ sublist nodes PageDemo.nodes
    /\ sublist edges PageDemo.edges
    /\ (forall edge, edge ∈ edges ->
          GraphEdge.source edge ∈ map GraphNode.id nodes
          /\ GraphEdge.target edge ∈ map GraphNode.id nodes)
    /\ (Page.showIgnored PageDemo.focused = false ->
        forall node, node ∈ nodes -> GraphNode.ignored node <> Some true)
    /\ (Page.showExternal PageDemo.focused = false ->
        (forall node, node ∈ nodes ->
           GraphNode.type node <> NodeType.external)
        /\ (forall edge, edge ∈ edges ->
              GraphEdge.type edge <> EdgeType.external)).
Proof.
  apply (filteredGraph_shown 12 PageDemo.graph PageDemo.focused).
  simpl. lia.
Defined.

(** ** The ignore patterns of the browser scanner *)

Lemma collapseSlashes_plain (s t : string) :
  Js.includes s "/" = false ->
  Browser.collapseSlashes (s +:+ t) = s +:+ Browser.collapseSlashes t.
Proof.
  induction s as [|a s IH]; [done|].
  rewrite includes_slash_cons. intros [Ha Hs]%orb_false_iff.
  rewrite !append_cons. cbn [Browser.collapseSlashes]. by rewrite Ha, IH.
Qed.

Lemma collapseSlashes_slash (c : ascii) (t : string) :
  Ascii.eqb c "/" = false ->
  Browser.collapseSlashes (String "/" (String c t))
  = String "/" (Browser.collapseSlashes (String c t)).
Proof.
  intros Hc. cbn [Browser.collapseSlashes].
  change (Ascii.eqb "/" "/") with true. cbn iota. by rewrite Hc.
Qed.

Lemma collapseSlashes_segments (segs : list string) (suffix : string) :
  cleanSegments segs -> segs <> [] ->
  suffix = "" \/ suffix = "/" ->
  Browser.collapseSlashes (Js.join "/" segs +:+ suffix)
  = Js.join "/" segs +:+ suffix.
Proof.
  intros Hsegs _ Hsuffix.
  assert (Browser.collapseSlashes suffix = suffix) as Hfixed
    by (by destruct Hsuffix as [-> | ->]).
  induction Hsegs as [|s segs Hs Hsegs IH]; [by destruct Hsuffix as [-> | ->]|].
  apply cleanSegment_spec in Hs as (_ & _ & _ & Hs).
  destruct segs as [|s2 rest].
  - change (Js.join "/" [s]) with s.
    by rewrite collapseSlashes_plain, Hfixed.
  - rewrite join_cons by done. rewrite append_assoc, append_cons.
    rewrite collapseSlashes_plain by done.
    apply Forall_inv in Hsegs as Hs2.
    apply cleanSegment_spec in Hs2 as (Hne & _ & _ & Hslash).
    destruct s2 as [|c r]; [done|].
    rewrite includes_slash_cons in Hslash.
    apply orb_false_iff in Hslash as [Hc _].
    assert (exists t, Js.join "/" (String c r :: rest) +:+ suffix = String c t)
      as [t Ht].
    { destruct rest; [exists (r +:+ suffix); reflexivity|].
      rewrite join_cons by done. rewrite append_assoc, append_cons.
      by eexists. }
    rewrite Ht in IH |- *. by rewrite collapseSlashes_slash, IH.
Qed.

(** [posixJoin] of relative parts in normal form *)
Lemma posixJoin_relative (parts : list string) (segs : list string) :
  cleanSegments segs -> segs <> [] ->
  Forall (fun p => Js.isEmpty p = false) parts ->
  Js.join "/" parts = Js.join "/" segs
  \/ Js.join "/" parts = Js.join "/" segs +:+ "/" ->
  Browser.posixJoin parts = Js.join "/" parts.
Proof.
  intros Hsegs Hne Hparts Hjoin. unfold Browser.posixJoin.
  assert (List.filter (fun p => negb (Js.isEmpty p)) parts = parts) as ->.
  { clear Hjoin. induction Hparts as [|p parts Hp _ IH]; [done|].
    cbn [List.filter]. by rewrite Hp, IH. }
  destruct Hjoin as [-> | ->].
  - rewrite <- (append_nil_r (Js.join "/" segs)) at 1.
    rewrite collapseSlashes_segments by (done || by left).
    apply append_nil_r.
  - apply collapseSlashes_segments; (done || by right).
Qed.

Section BrowserGitignorePatterns.

Variable dirSegs : list string.
Variable name : string.

Hypothesis dirClean : cleanSegments dirSegs.
Hypothesis nameClean : cleanSegment name = true.
Hypothesis nameTrimmed : Js.trim name = name.
Hypothesis notComment : Js.startsWith name "#" = false.
Hypothesis notNegated : Js.startsWith name "!" = false.

Local Abbreviation dir := (Js.join "/" dirSegs).

Lemma browser_gitignore_plain_name :
  BrowserScan.normalizeGitignorePattern dir name
  = Some (Js.join "/" (dirSegs ++ ["**"; name])).
Proof.
  destruct (gitignore_name_facts name nameClean nameTrimmed notComment
              notNegated)
    as (c & r & Hname & Hhash & Hbang & Hslash & Hincl & _).
  pose proof (cleanSegment_spec name nameClean) as (Hne & _).
  unfold BrowserScan.normalizeGitignorePattern. rewrite nameTrimmed. cbv zeta.
  rewrite notComment, notNegated.
  assert (Js.isEmpty name = false) as Hnonempty by (by rewrite Hname).
  assert (Js.startsWith name "/" = false) as ->
    by (by rewrite Hname, startsWith_char).
  rewrite Hnonempty, Hincl, (endsWith_slash_clean name Hincl).
  cbn [orb andb negb].
  assert (cleanSegments ["**"; name]) as Hstar by (by repeat constructor).
  destruct (decide (dirSegs = [])) as [Hdir|Hdir].
  - rewrite Hdir. cbn [Js.join String.concat Js.isEmpty negb app].
    assert (Browser.posixJoin ["**"; name] = Js.join "/" ["**"; name]) as ->; [|done].
    apply (posixJoin_relative _ ["**"; name]); [done|done| |by left].
    by repeat constructor.
  - rewrite (join_nonempty dirSegs) by done. cbn [negb].
    assert (Js.join "/" [dir; "**"; name]
            = Js.join "/" (dirSegs ++ ["**"; name])) as Hjoin.
    { rewrite join_app by done. by rewrite join_cons. }
    assert (Browser.posixJoin [dir; "**"; name] = Js.join "/" [dir; "**"; name]) as ->;
      [|by rewrite Hjoin].
    apply (posixJoin_relative _ (dirSegs ++ ["**"; name]));
      [by apply (below_dir_clean dirSegs dirClean)|by destruct dirSegs| |by left].
    repeat constructor; try done. by apply join_nonempty.
Qed.

Lemma browser_gitignore_anchored_name :
  BrowserScan.normalizeGitignorePattern dir ("/" +:+ name)
  = Some (Js.join "/" (dirSegs ++ [name])).
Proof.
  destruct (gitignore_name_facts name nameClean nameTrimmed notComment
              notNegated)
    as (c & r & Hname & Hhash & Hbang & Hslash & Hincl & Hstart & Hend).
  pose proof (cleanSegment_spec name nameClean) as (Hne & _).
  assert (Js.isEmpty name = false) as Hnonempty by (by rewrite Hname).
  unfold BrowserScan.normalizeGitignorePattern.
  rewrite (trim_append "/" name) by done. cbv zeta.
  change ("/" +:+ name) with (String "/" name).
  repeat (progress
            (rewrite ?startsWith_char;
             change (Js.drop 1 (String "/" name)) with name;
             change (Js.isEmpty (String "/" name)) with false;
             change (Ascii.eqb "#" "/") with false;
             change (Ascii.eqb "!" "/") with false;
             change (Ascii.eqb "/" "/") with true;
             cbn [orb andb negb])).
  rewrite ?Hincl, ?(endsWith_slash_clean name Hincl).
  cbn [orb andb negb].
  destruct (decide (dirSegs = [])) as [Hdir|Hdir].
  - rewrite Hdir. done.
  - rewrite (join_nonempty dirSegs) by done. cbn [negb].
    assert (Js.join "/" [dir; name] = Js.join "/" (dirSegs ++ [name]))
      as Hjoin by (by rewrite join_app).
    assert (Browser.posixJoin [dir; name] = Js.join "/" [dir; name]) as ->;
      [|by rewrite Hjoin].
    apply (posixJoin_relative _ (dirSegs ++ [name]));
      [|by destruct dirSegs| |by left].
    + apply (below_dir_clean dirSegs dirClean). by constructor.
    + repeat constructor; try done. by apply join_nonempty.
Qed.

Lemma browser_gitignore_directory_name :
  BrowserScan.normalizeGitignorePattern dir (name +:+ "/")
  = Some (Js.join "/" (dirSegs ++ [name]) +:+ "/").
Proof.
  destruct (gitignore_name_facts name nameClean nameTrimmed notComment
              notNegated)
    as (c & r & Hname & Hhash & Hbang & Hslash & Hincl & Hstart & Hend).
  pose proof (cleanSegment_spec name nameClean) as (Hne & _).
  assert (Js.isEmpty name = false) as Hnonempty by (by rewrite Hname).
  unfold BrowserScan.normalizeGitignorePattern.
  rewrite (trim_append name "/") by done. cbv zeta.
  assert (forall d, Js.startsWith (name +:+ "/") (String d "")
                    = Ascii.eqb d c) as Hhead.
  { intros d. by rewrite Hname, append_cons, startsWith_char. }
  assert (Js.isEmpty (name +:+ "/") = false) as Hfull
    by (by rewrite Hname, append_cons).
  repeat (progress
            (rewrite ?Hhead, ?Hhash, ?Hbang, ?Hslash, ?Hfull,
               ?includes_slash_suffix, ?endsWith_slash_suffix;
             cbn [orb andb negb])).
  destruct (decide (dirSegs = [])) as [Hdir|Hdir].
  - rewrite Hdir. cbn [Js.join String.concat Js.isEmpty negb app].
    by rewrite endsWith_slash_suffix.
  - rewrite (join_nonempty dirSegs) by done. cbn [negb].
    assert (Js.join "/" [dir; name +:+ "/"]
            = Js.join "/" (dirSegs ++ [name]) +:+ "/") as Hjoin.
    { rewrite join_app by done. rewrite join_cons by done.
      change (Js.join "/" [name +:+ "/"]) with (name +:+ "/").
      change (Js.join "/" [name]) with name.
      by rewrite append_assoc, append_cons. }
    assert (Browser.posixJoin [dir; name +:+ "/"] = Js.join "/" [dir; name +:+ "/"])
      as ->.
    { apply (posixJoin_relative _ (dirSegs ++ [name]));
        [|by destruct dirSegs| |by right].
      - apply (below_dir_clean dirSegs dirClean). by constructor.
      - repeat constructor; [by apply join_nonempty|].
        by rewrite Hname, append_cons. }
    by rewrite Hjoin, endsWith_slash_suffix.
Qed.

End BrowserGitignorePatterns.

(** Property X24.  In the browser scanner the three forms of a pattern that
    names one entry are normalised as in the server scanner: the plain name
    is prefixed with the directory of the [.gitignore] and a double star;
    the name with a leading slash and the name with a trailing slash are
    prefixed with the directory alone. *)
Theorem browser_gitignore_pattern_forms (dirSegs : list string)
  (name : string) :
  cleanSegments dirSegs ->
  cleanSegment name = true ->
  Js.trim name = name ->
  Js.startsWith name "#" = false ->
  Js.startsWith name "!" = false ->
  let dir := Js.join "/" dirSegs in
  BrowserScan.normalizeGitignorePattern dir name
  = Some (Js.join "/" (dirSegs ++ ["**"; name]))
  /\ BrowserScan.normalizeGitignorePattern dir ("/" +:+ name)
     = Some (Js.join "/" (dirSegs ++ [name]))
  /\ BrowserScan.normalizeGitignorePattern dir (name +:+ "/")
     = Some (Js.join "/" (dirSegs ++ [name]) +:+ "/").
Proof.
  intros Hdir Hname Htrim Hcomment Hnegated. cbv zeta. split_and!.
  - by apply browser_gitignore_plain_name.
  - by apply browser_gitignore_anchored_name.
  - by apply browser_gitignore_directory_name.
Qed.

Lemma browser_gitignore_pattern_forms_witness :
  BrowserScan.normalizeGitignorePattern "src/lib" "dist"
  = Some "src/lib/**/dist"
  /\ BrowserScan.normalizeGitignorePattern "src/lib" "/dist"
     = Some "src/lib/dist"
  /\ BrowserScan.normalizeGitignorePattern "src/lib" "dist/"
     = Some "src/lib/dist/".
Proof.
  apply (browser_gitignore_pattern_forms ["src"; "lib"] "dist");
    [by repeat constructor|reflexivity..].
Defined.

(** ** The watch manager *)

Lemma removeFirst_Permutation (x : nat) (xs : list nat) :
  x ∈ xs -> xs ≡ₚ x :: Watch.removeFirst x xs.
Proof.
  induction xs as [|y ys IH]; [by intros ?%elem_of_nil|].
  cbn [Watch.removeFirst]. destruct (decide (x = y)) as [->|Hne]; [done|].
  intros [?|Hin]%elem_of_cons; [done|].
  rewrite (IH Hin) at 1. apply Permutation_swap.
Qed.

Lemma off_Permutation (x : nat) (xs : list nat) :
  x ∈ xs -> xs ≡ₚ x :: Watch.off x xs.
Proof.
  intros Hin. unfold Watch.off.
  rewrite <- Permutation_rev.
  rewrite <- removeFirst_Permutation.
  - apply Permutation_rev.
  - apply list_elem_of_In. apply -> in_rev. by apply list_elem_of_In.
Qed.

Lemma off_last (x : nat) (xs : list nat) : Watch.off x (xs ++ [x]) = xs.
Proof.
  unfold Watch.off. rewrite rev_app_distr. cbn [rev app Watch.removeFirst].
  rewrite decide_True by done. apply rev_involutive.
Qed.

Lemma withoutOne_Permutation (s : Watch.Subscription)
  (live : list Watch.Subscription) :
  s ∈ live -> live ≡ₚ s :: withoutOne s live.
Proof.
  induction live as [|s' rest IH]; [by intros ?%elem_of_nil|].
  cbn [withoutOne]. destruct (decide (s = s')) as [->|Hne]; [done|].
  intros [?|Hin]%elem_of_cons; [done|].
  rewrite (IH Hin) at 1. apply Permutation_swap.
Qed.

Lemma withoutOne_elem_of (s s' : Watch.Subscription)
  (live : list Watch.Subscription) :
  s' ∈ withoutOne s live -> s' ∈ live.
Proof.
  induction live as [|s0 rest IH]; [done|]. cbn [withoutOne].
  destruct (decide (s = s0)) as [->|Hne].
  - apply list_elem_of_further.
  - intros [->|Hin]%elem_of_cons;
      [apply list_elem_of_here|by apply list_elem_of_further, IH].
Qed.

(** [subscribe] on a root that has an entry *)
Lemma subscribe_known (root : string) (onChange : nat) (m : Watch.Manager)
  (entry : nat) (e : Watch.WatchEntry) :
  Watch.watchers m !! root = Some entry ->
  Watch.entries m !! entry = Some e ->
  Watch.subscribe root onChange m
  = ({| Watch.entries :=
          <[entry := {| Watch.closed := Watch.closed e;
                        Watch.listeners := Watch.listeners e ++ [onChange];
                        Watch.refCount := (Watch.refCount e + 1)%Z |}]>
            (Watch.entries m);
        Watch.watchers := Watch.watchers m |},
     {| Watch.entry := entry; Watch.root := root;
        Watch.onChange := onChange |}).
Proof.
  intros Hroot Hentry. unfold Watch.subscribe, Watch.ensureWatcher.
  rewrite Hroot. unfold Watch.update. cbn [Watch.entries Watch.watchers].
  f_equal. f_equal. rewrite list_alter_alter_eq.
  apply list_eq. intros i. destruct (decide (entry = i)) as [<-|Hne].
  - rewrite list_lookup_alter_eq, Hentry.
    by rewrite list_lookup_insert_eq by (by eapply lookup_lt_Some).
  - by rewrite list_lookup_alter_ne, list_lookup_insert_ne.
Qed.

(** [subscribe] on a root that has no entry *)
Lemma subscribe_fresh (root : string) (onChange : nat) (m : Watch.Manager) :
  Watch.watchers m !! root = None ->
  Watch.subscribe root onChange m
  = ({| Watch.entries :=
          Watch.entries m
          ++ [{| Watch.closed := false;
                 Watch.listeners := [onChange];
                 Watch.refCount := 1 |}];
        Watch.watchers :=
          <[root := length (Watch.entries m)]> (Watch.watchers m) |},
     {| Watch.entry := length (Watch.entries m); Watch.root := root;
        Watch.onChange := onChange |}).
Proof.
  intros Hroot. unfold Watch.subscribe, Watch.ensureWatcher.
  rewrite Hroot. unfold Watch.update. cbn [Watch.entries Watch.watchers].
  f_equal. f_equal. rewrite list_alter_alter_eq.
  rewrite alter_app_r_alt by done. by rewrite Nat.sub_diag.
Qed.

(** A call of the function returned by [subscribe], on the entry it
    holds *)
Lemma unsubscribe_entry (s : Watch.Subscription) (m : Watch.Manager)
  (e : Watch.WatchEntry) :
  Watch.entries m !! Watch.entry s = Some e ->
  Watch.unsubscribe s m
  = if (Watch.refCount e - 1 <=? 0)%Z then
      {| Watch.entries :=
           <[Watch.entry s :=
               {| Watch.closed := true;
                  Watch.listeners :=
                    Watch.off (Watch.onChange s) (Watch.listeners e);
                  Watch.refCount := (Watch.refCount e - 1)%Z |}]>
             (Watch.entries m);
         Watch.watchers := delete (Watch.root s) (Watch.watchers m) |}
    else
      {| Watch.entries :=
           <[Watch.entry s :=
               {| Watch.closed := Watch.closed e;
                  Watch.listeners :=
                    Watch.off (Watch.onChange s) (Watch.listeners e);
                  Watch.refCount := (Watch.refCount e - 1)%Z |}]>
             (Watch.entries m);
         Watch.watchers := Watch.watchers m |}.
Proof.
  intros Hentry. unfold Watch.unsubscribe, Watch.update.
  cbn [Watch.entries Watch.watchers].
  rewrite list_alter_alter_eq, list_lookup_alter_eq, Hentry.
  cbn [fmap option_fmap option_map compose Watch.refCount].
  pose proof (lookup_lt_Some _ _ _ Hentry) as Hlt.
  destruct (Watch.refCount e - 1 <=? 0)%Z.
  - f_equal. rewrite list_alter_alter_eq.
    apply list_eq. intros i.
    destruct (decide (Watch.entry s = i)) as [<-|Hne].
    + rewrite list_lookup_alter_eq, Hentry.
      by rewrite list_lookup_insert_eq.
    + by rewrite list_lookup_alter_ne, list_lookup_insert_ne.
  - f_equal. apply list_eq. intros i.
    destruct (decide (Watch.entry s = i)) as [<-|Hne].
    + rewrite list_lookup_alter_eq, Hentry.
      by rewrite list_lookup_insert_eq.
    + by rewrite list_lookup_alter_ne, list_lookup_insert_ne.
Qed.

Lemma registered_empty : Registered Watch.empty [].
Proof.
  split; cbn [Watch.empty Watch.watchers Watch.entries].
  - by intros s ?%elem_of_nil.
  - intros root entry. by rewrite lookup_empty.
  - intros entry e. by rewrite lookup_nil.
  - intros root1 root2 entry. by rewrite lookup_empty.
Qed.

Lemma registered_bound (m : Watch.Manager) (live : list Watch.Subscription)
  (s : Watch.Subscription) :
  Registered m live -> s ∈ live ->
  Watch.entry s < length (Watch.entries m).
Proof.
  intros [Hlive Hentry _ _] Hs.
  destruct (Hentry _ _ (Hlive s Hs)) as (e & He & _).
  by eapply lookup_lt_Some.
Qed.

Lemma subscriptionsOf_none (entry : nat) (live : list Watch.Subscription) :
  (forall s, s ∈ live -> Watch.entry s <> entry) ->
  subscriptionsOf entry live = [].
Proof.
  unfold subscriptionsOf. induction live as [|s live IH]; [done|].
  intros Hall. rewrite filter_cons_False.
  - apply IH. intros s' Hs'. by apply Hall, list_elem_of_further.
  - apply Hall, list_elem_of_here.
Qed.

Lemma subscriptionsOf_snoc (entry : nat) (live : list Watch.Subscription)
  (s : Watch.Subscription) :
  subscriptionsOf entry (live ++ [s])
  = subscriptionsOf entry live
    ++ (if decide (Watch.entry s = entry) then [s] else []).
Proof.
  unfold subscriptionsOf. rewrite filter_app. f_equal.
Qed.

Lemma subscriptionsOf_without (entry : nat) (live : list Watch.Subscription)
  (s : Watch.Subscription) :
  s ∈ live ->
  subscriptionsOf entry live
  ≡ₚ (if decide (Watch.entry s = entry) then [s] else [])
     ++ subscriptionsOf entry (withoutOne s live).
Proof.
  intros Hs. unfold subscriptionsOf.
  rewrite (withoutOne_Permutation s live Hs) at 1.
  destruct (decide (Watch.entry s = entry)) as [Heq|Hne].
  - by rewrite filter_cons_True.
  - by rewrite filter_cons_False.
Qed.

Lemma registered_subscribe (m : Watch.Manager)
  (live : list Watch.Subscription) (root : string) (onChange : nat) :
  Registered m live ->
  Registered (fst (Watch.subscribe root onChange m))
             (live ++ [snd (Watch.subscribe root onChange m)]).
Proof.
  intros Hreg. pose proof Hreg as [Hlive Hentry Hopen Honce].
  destruct (Watch.watchers m !! root) as [entry|] eqn:Hroot.
  - destruct (Hentry root entry Hroot) as (e & He & Hclosed & Hpos & Hcount & Hperm).
    rewrite (subscribe_known root onChange m entry e) by done.
    cbn [fst snd].
    pose proof (lookup_lt_Some _ _ _ He) as Hlt.
    split; cbn [Watch.entries Watch.watchers].
    + intros s [Hs| ->%list_elem_of_singleton]%elem_of_app;
        [by apply Hlive|done].
    + intros root0 entry0 Hroot0. rewrite subscriptionsOf_snoc.
      cbn [Watch.entry].
      destruct (decide (entry = entry0)) as [<-|Hne].
      * rewrite list_lookup_insert_eq by done. eexists. split; [done|].
        cbn [Watch.closed Watch.refCount Watch.listeners].
        rewrite length_app, map_app. cbn [length map Watch.onChange].
        split_and!; [done|lia|lia|by rewrite Hperm].
      * rewrite list_lookup_insert_ne by done. rewrite app_nil_r.
        by apply (Hentry root0).
    + intros entry0 e0. destruct (decide (entry = entry0)) as [<-|Hne].
      * intros _ _. by exists root.
      * rewrite list_lookup_insert_ne by done. apply Hopen.
    + done.
  - rewrite (subscribe_fresh root onChange m) by done. cbn [fst snd].
    split; cbn [Watch.entries Watch.watchers].
    + intros s [Hs| ->%list_elem_of_singleton]%elem_of_app.
      * rewrite lookup_insert_ne; [by apply Hlive|].
        intros Heq. specialize (Hlive s Hs). rewrite <- Heq in Hlive.
        congruence.
      * cbn [Watch.root Watch.entry]. by rewrite lookup_insert_eq.
    + intros root0 entry0. rewrite subscriptionsOf_snoc. cbn [Watch.entry].
      destruct (decide (root = root0)) as [<-|Hne].
      * rewrite lookup_insert_eq. intros [= <-].
        rewrite decide_True by done.
        rewrite lookup_app_r by done. rewrite Nat.sub_diag.
        eexists. split; [done|].
        cbn [Watch.closed Watch.refCount Watch.listeners length].
        split_and!; [done|lia|lia|].
        assert (subscriptionsOf (length (Watch.entries m)) live = []) as ->.
        { apply subscriptionsOf_none. intros s Hs Heq.
          pose proof (registered_bound m live s Hreg Hs). lia. }
        done.
      * rewrite lookup_insert_ne by done. intros Hroot0.
        destruct (Hentry root0 entry0 Hroot0)
          as (e0 & He0 & Hclosed & Hpos & Hcount & Hperm).
        pose proof (lookup_lt_Some _ _ _ He0) as Hlt.
        rewrite decide_False by lia. rewrite app_nil_r.
        exists e0. split; [by apply lookup_app_l_Some|done].
    + intros entry0 e0 He0 Hclosed.
      destruct (decide (entry0 < length (Watch.entries m))) as [Hlt|Hge].
      * rewrite lookup_app_l in He0 by done.
        destruct (Hopen entry0 e0 He0 Hclosed) as [root0 Hroot0].
        exists root0. rewrite lookup_insert_ne; [done|]. congruence.
      * apply lookup_lt_Some in He0 as Hlt'. rewrite length_app in Hlt'.
        cbn [length] in Hlt'.
        assert (entry0 = length (Watch.entries m)) as -> by lia.
        exists root. by rewrite lookup_insert_eq.
    + assert (forall root0,
                Watch.watchers m !! root0 = Some (length (Watch.entries m)) ->
                False) as Hfresh.
      { intros root0 Hroot0.
        destruct (Hentry _ _ Hroot0) as (e0 & He0 & _).
        apply lookup_lt_Some in He0. lia. }
      intros root1 root2 entry0.
      destruct (decide (root = root1)) as [<-|Hne1];
        destruct (decide (root = root2)) as [<-|Hne2]; [done|..].
      * rewrite lookup_insert_eq, lookup_insert_ne by done.
        intros [= <-] H. by apply Hfresh in H.
      * rewrite lookup_insert_eq, lookup_insert_ne by done.
        intros H [= <-]. by apply Hfresh in H.
      * rewrite !lookup_insert_ne by done. apply Honce.
Qed.

Lemma registered_unsubscribe (m : Watch.Manager)
  (live : list Watch.Subscription) (s : Watch.Subscription) :
  Registered m live -> s ∈ live ->
  Registered (Watch.unsubscribe s m) (withoutOne s live).
Proof.
  intros Hreg Hs. pose proof Hreg as [Hlive Hentry Hopen Honce].
  pose proof (Hlive s Hs) as Hroot.
  destruct (Hentry _ _ Hroot) as (e & He & Hclosed & Hpos & Hcount & Hperm).
  pose proof (lookup_lt_Some _ _ _ He) as Hlt.
  rewrite (unsubscribe_entry s m e He).
  assert (Watch.onChange s ∈ Watch.listeners e) as Hin.
  { rewrite Hperm. apply list_elem_of_In, in_map, list_elem_of_In.
    unfold subscriptionsOf. by apply list_elem_of_filter. }
  pose proof (off_Permutation _ _ Hin) as Hoff.
  assert (Watch.off (Watch.onChange s) (Watch.listeners e)
          ≡ₚ map Watch.onChange
               (subscriptionsOf (Watch.entry s) (withoutOne s live)))
    as Hrest.
  { apply (Permutation_cons_inv (a := Watch.onChange s)).
    rewrite <- Hoff, Hperm.
    rewrite (subscriptionsOf_without (Watch.entry s) live s Hs).
    by rewrite decide_True. }
  assert (length (Watch.listeners e)
          = S (length (Watch.off (Watch.onChange s) (Watch.listeners e))))
    as Hlength.
  { by rewrite Hoff at 1. }
  assert (forall entry0, Watch.entry s <> entry0 ->
            subscriptionsOf entry0 live
            ≡ₚ subscriptionsOf entry0 (withoutOne s live)) as Hother.
  { intros entry0 Hne.
    rewrite (subscriptionsOf_without entry0 live s Hs).
    by rewrite decide_False. }
  destruct (Watch.refCount e - 1 <=? 0)%Z eqn:Hzero.
  - apply Z.leb_le in Hzero.
    assert (subscriptionsOf (Watch.entry s) (withoutOne s live) = [])
      as Hnone.
    { apply Permutation_length in Hrest. rewrite length_map in Hrest.
      apply length_zero_iff_nil. lia. }
    assert (forall root0 entry0,
              Watch.watchers m !! root0 = Some entry0 ->
              Watch.entry s <> entry0 -> Watch.root s <> root0) as Hroots.
    { intros root0 entry0 Hroot0 Hne Heq. rewrite Heq in Hroot. congruence. }
    split; cbn [Watch.entries Watch.watchers].
    + intros s' Hs'. pose proof (withoutOne_elem_of _ _ _ Hs') as Hold.
      rewrite lookup_delete_ne; [by apply Hlive|].
      intros Heq. specialize (Hlive s' Hold). rewrite <- Heq in Hlive.
      assert (s' ∈ subscriptionsOf (Watch.entry s) (withoutOne s live))
        as Hfound.
      { unfold subscriptionsOf. apply list_elem_of_filter. split; [|done].
        congruence. }
      rewrite Hnone in Hfound. by apply elem_of_nil in Hfound.
    + intros root0 entry0 [Hne Hroot0]%lookup_delete_Some.
      assert (Watch.entry s <> entry0) as Hentries.
      { intros Heq. apply Hne. apply (Honce _ _ entry0); congruence. }
      rewrite list_lookup_insert_ne by done.
      destruct (Hentry root0 entry0 Hroot0)
        as (e0 & He0 & Hc0 & Hp0 & Hn0 & Hperm0).
      exists e0. split_and!; try done. by rewrite Hperm0, Hother.
    + intros entry0 e0. destruct (decide (Watch.entry s = entry0)) as [<-|Hne].
      * rewrite list_lookup_insert_eq by done. by intros [= <-].
      * rewrite list_lookup_insert_ne by done. intros He0 Hc0.
        destruct (Hopen entry0 e0 He0 Hc0) as [root0 Hroot0].
        exists root0. rewrite lookup_delete_ne; [done|]. by eapply Hroots.
    + intros root1 root2 entry0 [_ H1]%lookup_delete_Some
        [_ H2]%lookup_delete_Some.
      by eapply Honce.
  - apply Z.leb_gt in Hzero.
    split; cbn [Watch.entries Watch.watchers].
    + intros s' Hs'. by apply Hlive, (withoutOne_elem_of s).
    + intros root0 entry0 Hroot0.
      destruct (decide (Watch.entry s = entry0)) as [<-|Hne].
      * rewrite list_lookup_insert_eq by done. eexists. split; [done|].
        cbn [Watch.closed Watch.refCount Watch.listeners].
        split_and!; [done|lia|lia|done].
      * rewrite list_lookup_insert_ne by done.
        destruct (Hentry root0 entry0 Hroot0)
          as (e0 & He0 & Hc0 & Hp0 & Hn0 & Hperm0).
        exists e0. split_and!; try done. by rewrite Hperm0, Hother.
    + intros entry0 e0. destruct (decide (Watch.entry s = entry0)) as [<-|Hne].
      * intros _ _. by exists (Watch.root s).
      * rewrite list_lookup_insert_ne by done. apply Hopen.
    + done.
Qed.

Lemma subscribed_registered (m : Watch.Manager)
  (live : list Watch.Subscription) :
  Subscribed m live -> Registered m live.
Proof.
  induction 1 as [|m live root onChange _ IH|m live s _ IH Hs].
  - apply registered_empty.
  - by apply registered_subscribe.
  - by apply registered_unsubscribe.
Qed.

Lemma subscriptionsOf_root (m : Watch.Manager)
  (live : list Watch.Subscription) (root : string) (entry : nat) :
  Registered m live ->
  Watch.watchers m !! root = Some entry ->
  subscriptionsOf entry live = filter (fun s => Watch.root s = root) live.
Proof.
  intros [Hlive _ _ Honce] Hroot. unfold subscriptionsOf.
  assert (forall s, s ∈ live ->
            (Watch.entry s = entry <-> Watch.root s = root)) as Hsame.
  { intros s Hs. specialize (Hlive s Hs). split.
    - intros Heq. apply (Honce _ _ entry); congruence.
    - intros Heq. congruence. }
  clear Hlive. induction live as [|s live IH]; [done|].
  assert (filter (fun s => Watch.entry s = entry) live
          = filter (fun s => Watch.root s = root) live) as Hrest.
  { apply IH. intros s' Hs'. by apply Hsame, list_elem_of_further. }
  destruct (decide (Watch.entry s = entry)) as [Heq|Hne].
  - rewrite !filter_cons_True; [by rewrite Hrest| |done].
    by apply Hsame; [apply list_elem_of_here|].
  - rewrite !filter_cons_False; [done| |done].
    intros Heq. by apply Hne, Hsame; [apply list_elem_of_here|].
Qed.

(** Property X25.  As long as every function returned by [subscribe] is
    called at most once, the registry agrees with the subscriptions that
    have not been ended: a root has a watcher exactly when it has such a
    subscription; that watcher is open, its reference count is the number of
    these subscriptions, and an event calls their callbacks and no other;
    and no watcher is left open without being registered. *)
Theorem watch_registry_consistent (m : Watch.Manager)
  (live : list Watch.Subscription) :
  Subscribed m live ->
  (forall root,
     is_Some (Watch.watchers m !! root)
     <-> exists s, s ∈ live /\ Watch.root s = root)
  /\ (forall root entry,
        Watch.watchers m !! root = Some entry ->
        let subscriptions := filter (fun s => Watch.root s = root) live in
        exists e,
          Watch.entries m !! entry = Some e
          /\ Watch.closed e = false
          /\ Watch.refCount e = Z.of_nat (length subscriptions)
          /\ Watch.notified m entry ≡ₚ map Watch.onChange subscriptions)
  /\ (forall entry e,
        Watch.entries m !! entry = Some e ->
        Watch.closed e = false ->
        exists root, Watch.watchers m !! root = Some entry).
Proof.
  intros Hreg%subscribed_registered.
  pose proof Hreg as [Hlive Hentry Hopen Honce].
  assert (forall root entry,
            Watch.watchers m !! root = Some entry ->
            exists e,
              Watch.entries m !! entry = Some e
              /\ Watch.closed e = false
              /\ Watch.refCount e
                 = Z.of_nat (length (filter (fun s => Watch.root s = root)
                                            live))
              /\ Watch.notified m entry
                 ≡ₚ map Watch.onChange
                      (filter (fun s => Watch.root s = root) live)
              /\ (0 < Watch.refCount e)%Z) as Hroots.
  { intros root entry Hroot.
    destruct (Hentry root entry Hroot)
      as (e & He & Hclosed & Hpos & Hcount & Hperm).
    rewrite (subscriptionsOf_root m live root entry Hreg Hroot) in Hperm.
    exists e. unfold Watch.notified. rewrite He, Hclosed.
    split_and!; try done.
    rewrite Hcount. f_equal.
    apply Permutation_length in Hperm. by rewrite length_map in Hperm. }
  split_and!.
  - intros root. split.
    + intros [entry Hroot].
      destruct (Hroots root entry Hroot) as (e & _ & _ & Hcount & _ & Hpos).
      destruct (filter (fun s => Watch.root s = root) live) as [|s rest]
        eqn:Hfilter; [cbn [length] in Hcount; lia|].
      assert (s ∈ filter (fun s => Watch.root s = root) live) as Hs
        by (rewrite Hfilter; apply list_elem_of_here).
      apply list_elem_of_filter in Hs as [Heq Hs]. by exists s.
    + intros (s & Hs & <-). rewrite (Hlive s Hs). by eexists.
  - intros root entry Hroot. cbv zeta.
    destruct (Hroots root entry Hroot) as (e & ? & ? & ? & ? & _).
    by exists e.
  - done.
Qed.

Lemma watch_registry_consistent_witness :
  let first := Watch.subscribe "/repo" 1 Watch.empty in
  let second := Watch.subscribe "/repo" 2 (fst first) in
  let m := Watch.unsubscribe (snd first) (fst second) in
  Watch.watchers m !! "/repo" = Some 0
  /\ exists e,
      Watch.entries m !! 0 = Some e
      /\ Watch.closed e = false
      /\ Watch.refCount e = 1%Z
      /\ Watch.notified m 0 ≡ₚ [2].
Proof.
  intros first second m.
  assert (Subscribed m [snd second]) as Hsubscribed.
  { apply (subscribed_unsubscribe (fst second) [snd first; snd second]
             (snd first)); [|apply list_elem_of_here].
    apply (subscribed_subscribe (fst first) [snd first] "/repo" 2).
    apply (subscribed_subscribe Watch.empty [] "/repo" 1).
    apply subscribed_empty. }
  assert (Watch.watchers m !! "/repo" = Some 0) as Hroot by reflexivity.
  split; [done|].
  destruct (watch_registry_consistent m [snd second] Hsubscribed)
    as (_ & Hentry & _).
  apply (Hentry "/repo" 0 Hroot).
Defined.

(** Property X26.  Calling the function returned by [subscribe] once more,
    after its entry has been given up and the root has been subscribed to
    again, removes the root from the registry but leaves the watcher that
    now serves the root as it is, open and with its listeners. *)
Theorem stale_unsubscribe_unregisters (m : Watch.Manager)
  (s : Watch.Subscription) (e : Watch.WatchEntry) (current : nat) :
  Watch.entries m !! Watch.entry s = Some e ->
  (Watch.refCount e <= 1)%Z ->
  Watch.watchers m !! Watch.root s = Some current ->
  current <> Watch.entry s ->
  let m' := Watch.unsubscribe s m in
  Watch.watchers m' !! Watch.root s = None
  /\ Watch.entries m' !! current = Watch.entries m !! current
  /\ Watch.notified m' current = Watch.notified m current.
Proof.
  intros He Hcount Hroot Hne. cbv zeta.
  rewrite (unsubscribe_entry s m e He).
  assert ((Watch.refCount e - 1 <=? 0)%Z = true) as -> by (apply Z.leb_le; lia).
  unfold Watch.notified. cbn [Watch.entries Watch.watchers].
  rewrite lookup_delete_eq, list_lookup_insert_ne by done. done.
Qed.

Lemma stale_unsubscribe_unregisters_witness :
  let first := Watch.subscribe "/repo" 1 Watch.empty in
  let ended := Watch.unsubscribe (snd first) (fst first) in
  let second := Watch.subscribe "/repo" 2 ended in
  let m' := Watch.unsubscribe (snd first) (fst second) in
  Watch.watchers (fst second) !! "/repo" = Some 1
  /\ Watch.watchers m' !! "/repo" = None
  /\ Watch.notified m' 1 = [2].
Proof.
  intros first ended second m'.
  destruct (stale_unsubscribe_unregisters (fst second) (snd first)
              {| Watch.closed := true; Watch.listeners := [];
                 Watch.refCount := 0 |} 1)
    as (Hnone & _ & Hnotified);
    [reflexivity|cbn [Watch.refCount]; lia|reflexivity|done|].
  split_and!; [reflexivity|exact Hnone|exact Hnotified].
Defined.

(** Property X27.  A subscription that is ended at once leaves no trace: the
    registry is as before, and so is every entry that existed before. *)
Theorem subscribe_unsubscribe_round_trip (m : Watch.Manager)
  (live : list Watch.Subscription) (root : string) (onChange : nat) :
  Subscribed m live ->
  let subscribed := Watch.subscribe root onChange m in
  let m' := Watch.unsubscribe (snd subscribed) (fst subscribed) in
  Watch.watchers m' = Watch.watchers m
  /\ (forall entry e,
        Watch.entries m !! entry = Some e ->
        Watch.entries m' !! entry = Some e)
  /\ (forall entry,
        entry < length (Watch.entries m) ->
        Watch.notified m' entry = Watch.notified m entry).
Proof.
  intros Hreg%subscribed_registered. cbv zeta.
  pose proof Hreg as [Hlive Hentry Hopen Honce].
  assert (forall m' : Watch.Manager,
            (forall entry e,
               Watch.entries m !! entry = Some e ->
               Watch.entries m' !! entry = Some e) ->
            forall entry,
              entry < length (Watch.entries m) ->
              Watch.notified m' entry = Watch.notified m entry) as Hnotified.
  { intros m' Hsame entry Hlt. unfold Watch.notified.
    destruct (lookup_lt_is_Some_2 _ _ Hlt) as [e He].
    by rewrite He, (Hsame entry e He). }
  destruct (Watch.watchers m !! root) as [entry|] eqn:Hroot.
  - destruct (Hentry root entry Hroot) as (e & He & Hclosed & Hpos & _).
    pose proof (lookup_lt_Some _ _ _ He) as Hlt.
    rewrite (subscribe_known root onChange m entry e) by done.
    cbn [fst snd].
    erewrite unsubscribe_entry;
      [|cbn [Watch.entries Watch.entry]; by apply list_lookup_insert_eq].
    cbn [Watch.refCount Watch.listeners Watch.closed Watch.entry
         Watch.onChange Watch.entries Watch.watchers].
    assert ((Watch.refCount e + 1 - 1 <=? 0)%Z = false) as ->
      by (apply Z.leb_gt; lia).
    cbn [Watch.entries Watch.watchers].
    assert (forall entry0 e0,
              Watch.entries m !! entry0 = Some e0 ->
              <[entry := {| Watch.closed := Watch.closed e;
                            Watch.listeners :=
                              Watch.off onChange
                                (Watch.listeners e ++ [onChange]);
                            Watch.refCount :=
                              (Watch.refCount e + 1 - 1)%Z |}]>
                (<[entry := {| Watch.closed := Watch.closed e;
                               Watch.listeners :=
                                 Watch.listeners e ++ [onChange];
                               Watch.refCount :=
                                 (Watch.refCount e + 1)%Z |}]>
                   (Watch.entries m)) !! entry0 = Some e0) as Hsame.
    { intros entry0 e0 He0.
      destruct (decide (entry = entry0)) as [<-|Hne].
      - rewrite list_lookup_insert_eq by (by rewrite length_insert).
        rewrite off_last. rewrite He in He0. injection He0 as <-.
        destruct e as [c l r]. cbn [Watch.closed Watch.listeners
                                    Watch.refCount].
        do 2 f_equal. lia.
      - by rewrite !list_lookup_insert_ne. }
    split_and!; [done|done|]. by apply Hnotified.
  - rewrite (subscribe_fresh root onChange m) by done. cbn [fst snd].
    erewrite unsubscribe_entry;
      [|cbn [Watch.entries Watch.entry];
        rewrite lookup_app_r by done; by rewrite Nat.sub_diag].
    cbn [Watch.refCount Watch.listeners Watch.closed Watch.entry
         Watch.onChange Watch.entries Watch.watchers Watch.root].
    change (1 - 1 <=? 0)%Z with true. cbn iota.
    cbn [Watch.entries Watch.watchers].
    assert (forall entry0 e0,
              Watch.entries m !! entry0 = Some e0 ->
              <[length (Watch.entries m) :=
                  {| Watch.closed := true;
                     Watch.listeners := Watch.off onChange [onChange];
                     Watch.refCount := (1 - 1)%Z |}]>
                (Watch.entries m
                 ++ [{| Watch.closed := false;
                        Watch.listeners := [onChange];
                        Watch.refCount := 1 |}]) !! entry0 = Some e0)
      as Hsame.
    { intros entry0 e0 He0. pose proof (lookup_lt_Some _ _ _ He0) as Hlt.
      rewrite list_lookup_insert_ne by lia. by apply lookup_app_l_Some. }
    split_and!; [|done|by apply Hnotified].
    rewrite delete_insert_eq. by apply delete_id.
Qed.

Lemma subscribe_unsubscribe_round_trip_witness :
  let first := Watch.subscribe "/repo" 1 Watch.empty in
  let m := fst first in
  let subscribed := Watch.subscribe "/repo" 2 m in
  let m' := Watch.unsubscribe (snd subscribed) (fst subscribed) in
  Watch.watchers m' = Watch.watchers m
  /\ (forall entry e,
        Watch.entries m !! entry = Some e ->
        Watch.entries m' !! entry = Some e)
  /\ (forall entry,
        entry < length (Watch.entries m) ->
        Watch.notified m' entry = Watch.notified m entry).
Proof.
  intros first m subscribed m'.
  apply (subscribe_unsubscribe_round_trip m [snd first] "/repo" 2).
  apply (subscribed_subscribe Watch.empty [] "/repo" 1).
  apply subscribed_empty.
Defined.

(** * The path shapes of node typing *)

(** ** The matcher decides the meaning of the patterns *)

Lemma append_nil_inv (a b : string) : a +:+ b = "" -> a = "" /\ b = "".
Proof. by destruct a. Qed.

Lemma isEmpty_true (s : string) : Js.isEmpty s = true <-> s = "".
Proof. by destruct s. Qed.

Lemma matches_nil_nullable (b e : bool) (r : Regex.t) (s : string) :
  Matches b e r s -> s = "" -> Regex.nullable b e r = true.
Proof.
  induction 1 as [| | | | |b e r1 r2 s1 s2 _ IH1 _ IH2| | | |];
    intros Hs; try done; cbn [Regex.nullable].
  - apply append_nil_inv in Hs as [-> ->].
    cbn [Js.isEmpty] in *. rewrite andb_true_r in *.
    by rewrite IH1, IH2.
  - by rewrite IHMatches.
  - rewrite IHMatches by done. apply orb_true_r.
Qed.

Lemma nullable_matches_nil (r : Regex.t) (b e : bool) :
  Regex.nullable b e r = true -> Matches b e r "".
Proof.
  induction r as [| | | | | |r1 IH1 r2 IH2|r1 IH1 r2 IH2|r IH];
    cbn [Regex.nullable]; try done.
  - intros _. constructor.
  - intros ->. constructor.
  - intros ->. constructor.
  - intros [H1 H2]%andb_true_iff.
    apply (MatchesSeq b e r1 r2 "" "").
    + cbn [Js.isEmpty]. rewrite andb_true_r. by apply IH1.
    + cbn [Js.isEmpty]. rewrite andb_true_r. by apply IH2.
  - intros [H|H]%orb_true_iff.
    + apply MatchesAltL. by apply IH1.
    + apply MatchesAltR. by apply IH2.
  - intros _. constructor.
Qed.

Lemma deriv_sound (r : Regex.t) :
  forall b e c s,
    Matches false e (Regex.deriv b c r) s -> Matches b e r (String c s).
Proof.
  induction r as [| | | | c'| |r1 IH1 r2 IH2|r1 IH1 r2 IH2|r IH];
    intros b e c s; cbn [Regex.deriv]; try (by inversion 1).
  - destruct (Ascii.eqb c c') eqn:Hc; [|by inversion 1].
    apply Ascii.eqb_eq in Hc as ->. inversion 1; subst. constructor.
  - destruct (Regex.isLineTerminator c) eqn:Hc; [by inversion 1|].
    inversion 1; subst. by constructor.
  - inversion 1 as [| | | | | |? ? ? ? ? Hleft|? ? ? ? ? Hright| |]; subst.
    + inversion Hleft as [| | | | |? ? ? ? s1 s2 H1 H2| | | |]; subst.
      apply IH1 in H1. cbn [andb] in H2.
      apply (MatchesSeq b e r1 r2 (String c s1) s2); [done|].
      cbn [Js.isEmpty]. by rewrite andb_false_r.
    + destruct (Regex.nullable b false r1) eqn:Hnull; [|by inversion Hright].
      apply IH2 in Hright. apply nullable_matches_nil in Hnull.
      apply (MatchesSeq b e r1 r2 "" (String c s)).
      * cbn [Js.isEmpty]. by rewrite andb_false_r.
      * cbn [Js.isEmpty]. by rewrite andb_true_r.
  - inversion 1; subst.
    + apply MatchesAltL. by apply IH1.
    + apply MatchesAltR. by apply IH2.
  - inversion 1 as [| | | | |? ? ? ? s1 s2 H1 H2| | | |]; subst.
    apply IH in H1. cbn [andb] in H2.
    apply (MatchesStarCons b e r (String c s1) s2); [done|].
    cbn [Js.isEmpty]. by rewrite andb_false_r.
Qed.

Lemma deriv_complete (b e : bool) (r : Regex.t) (s0 : string) :
  Matches b e r s0 ->
  forall c s, s0 = String c s -> Matches false e (Regex.deriv b c r) s.
Proof.
  induction 1 as [| | |b e c0|b e c0 Hc0
                  |b e r1 r2 s1 s2 H1 IH1 H2 IH2
                  |b e r1 r2 s0 H IH|b e r1 r2 s0 H IH
                  | |b e r s1 s2 H1 IH1 H2 IH2];
    intros c s Hs; try done; cbn [Regex.deriv].
  - injection Hs as -> <-. rewrite Ascii.eqb_refl. constructor.
  - injection Hs as -> <-. rewrite Hc0. constructor.
  - destruct s1 as [|c1 s1].
    + change ("" +:+ s2) with s2 in Hs. subst s2.
      cbn [Js.isEmpty] in *. rewrite andb_true_r in *.
      rewrite andb_false_r in H1.
      rewrite (matches_nil_nullable _ _ _ _ H1 eq_refl).
      apply MatchesAltR. by apply IH2.
    + rewrite append_cons in Hs. injection Hs as -> <-.
      apply MatchesAltL.
      cbn [Js.isEmpty] in H2. rewrite andb_false_r in H2.
      apply (MatchesSeq false e _ r2 s1 s2); [by apply IH1|done].
  - apply MatchesAltL. by apply IH.
  - apply MatchesAltR. by apply IH.
  - destruct s1 as [|c1 s1].
    + change ("" +:+ s2) with s2 in Hs. subst s2.
      cbn [Js.isEmpty] in *. rewrite andb_true_r in *.
      by apply IH2.
    + rewrite append_cons in Hs. injection Hs as -> <-.
      cbn [Js.isEmpty] in H2. rewrite andb_false_r in H2.
      apply (MatchesSeq false e _ (Regex.Star r) s1 s2);
        [by apply IH1|done].
Qed.

Lemma matchesToEnd_spec (s : string) :
  forall b r, Regex.matchesToEnd b r s = true <-> Matches b true r s.
Proof.
  induction s as [|c s IH]; intros b r; cbn [Regex.matchesToEnd].
  - split; [apply nullable_matches_nil|].
    intros H. by eapply matches_nil_nullable.
  - rewrite IH. split; [apply deriv_sound|].
    intros H. by eapply deriv_complete.
Qed.

Lemma searchFrom_spec (s : string) :
  forall b r,
    Regex.searchFrom b r s = true
    <-> exists before piece,
          s = before +:+ piece
          /\ Matches (b && Js.isEmpty before) true r piece.
Proof.
  induction s as [|c s IH]; intros b r; cbn [Regex.searchFrom].
  - rewrite orb_false_r, matchesToEnd_spec. split.
    + intros H. exists "", "". split; [done|].
      cbn [Js.isEmpty]. by rewrite andb_true_r.
    + intros (before & piece & Hs & H).
      symmetry in Hs. apply append_nil_inv in Hs as [-> ->].
      cbn [Js.isEmpty] in H. by rewrite andb_true_r in H.
  - rewrite orb_true_iff, matchesToEnd_spec, IH. split.
    + intros [H|(before & piece & -> & H)].
      * exists "", (String c s). split; [done|].
        cbn [Js.isEmpty]. by rewrite andb_true_r.
      * exists (String c before), piece. split; [done|].
        cbn [Js.isEmpty andb] in *. by rewrite andb_false_r.
    + intros (before & piece & Hs & H). destruct before as [|c' before].
      * left. change ("" +:+ piece) with piece in Hs. subst piece.
        cbn [Js.isEmpty] in H. by rewrite andb_true_r in H.
      * right. rewrite append_cons in Hs. injection Hs as -> ->.
        exists before, piece. split; [done|].
        cbn [Js.isEmpty andb] in *. by rewrite andb_false_r in H.
Qed.

(** [re.test(s)] holds exactly when the pattern matches a piece of the
    input that ends where the input ends. *)
Lemma test_spec (r : Regex.t) (s : string) :
  Regex.test r s = true <-> Found r s.
Proof. unfold Regex.test, Found. by rewrite searchFrom_spec. Qed.

(** ** What the pieces of the route patterns match *)

Lemma matches_eps (b e : bool) (s : string) :
  Matches b e Regex.Eps s <-> s = "".
Proof. split; [by inversion 1|intros ->; constructor]. Qed.

Lemma matches_bol (b e : bool) (s : string) :
  Matches b e Regex.Bol s <-> s = "" /\ b = true.
Proof. split; [by inversion 1|intros [-> ->]; constructor]. Qed.

Lemma matches_eol (b e : bool) (s : string) :
  Matches b e Regex.Eol s <-> s = "" /\ e = true.
Proof. split; [by inversion 1|intros [-> ->]; constructor]. Qed.

Lemma matches_chr (b e : bool) (c : ascii) (s : string) :
  Matches b e (Regex.Chr c) s <-> s = String c "".
Proof. split; [by inversion 1|intros ->; constructor]. Qed.

Lemma matches_dot (b e : bool) (s : string) :
  Matches b e Regex.Dot s
  <-> exists c, s = String c "" /\ Regex.isLineTerminator c = false.
Proof.
  split; [inversion 1; subst; by eexists|].
  intros (c & -> & Hc). by constructor.
Qed.

Lemma matches_seq (b e : bool) (r1 r2 : Regex.t) (s : string) :
  Matches b e (Regex.Seq r1 r2) s
  <-> exists s1 s2,
        s = s1 +:+ s2
        /\ Matches b (e && Js.isEmpty s2) r1 s1
        /\ Matches (b && Js.isEmpty s1) e r2 s2.
Proof.
  split; [inversion 1; subst; by eexists _, _|].
  intros (s1 & s2 & -> & H1 & H2). by constructor.
Qed.

Lemma matches_alt (b e : bool) (r1 r2 : Regex.t) (s : string) :
  Matches b e (Regex.Alt r1 r2) s <-> Matches b e r1 s \/ Matches b e r2 s.
Proof.
  split; [inversion 1; subst; [by left|by right]|].
  intros [H|H]; [by apply MatchesAltL|by apply MatchesAltR].
Qed.

Lemma matches_lit (w : string) :
  forall b e s, Matches b e (Regex.Lit w) s <-> s = w.
Proof.
  induction w as [|c w IH]; intros b e s; cbn [Regex.Lit].
  - apply matches_eps.
  - rewrite matches_seq. split.
    + intros (s1 & s2 & -> & H1%matches_chr & H2%IH). by subst.
    + intros ->. exists (String c ""), w. split_and!; [done| |].
      * by apply matches_chr.
      * by apply IH.
Qed.

Lemma singleLine_cons (c : ascii) (s : string) :
  singleLine (String c s)
  <-> Regex.isLineTerminator c = false /\ singleLine s.
Proof.
  unfold singleLine, Regex.isLineTerminator. cbn [freeOf].
  rewrite !andb_true_iff, !negb_true_iff, orb_false_iff. tauto.
Qed.

Lemma singleLine_nil : singleLine "".
Proof. by split. Qed.

Lemma matches_star_dot (s : string) :
  forall b e, Matches b e (Regex.Star Regex.Dot) s <-> singleLine s.
Proof.
  intros b e. split.
  - intros H. remember (Regex.Star Regex.Dot) as r eqn:Hr.
    induction H as [| | | | | | | | |b e r s1 s2 H1 _ H2 IH2]; try done.
    injection Hr as ->.
    apply matches_dot in H1 as (c & -> & Hc).
    apply singleLine_cons. split; [done|]. by apply IH2.
  - revert b e. induction s as [|c s IH]; intros b e; [constructor|].
    intros [Hc Hs]%singleLine_cons.
    apply (MatchesStarCons b e Regex.Dot (String c "") s).
    + by constructor.
    + by apply IH.
Qed.

Lemma matches_plus_dot (s : string) (b e : bool) :
  Matches b e (Regex.Plus Regex.Dot) s <-> s <> "" /\ singleLine s.
Proof.
  unfold Regex.Plus. rewrite matches_seq. split.
  - intros (s1 & s2 & -> & (c & -> & Hc)%matches_dot & H2%matches_star_dot).
    split; [done|]. by apply singleLine_cons.
  - intros [Hne Hs]. destruct s as [|c s]; [done|].
    apply singleLine_cons in Hs as [Hc Hs].
    exists (String c ""), s. split_and!; [done| |].
    + apply matches_dot. by exists c.
    + by apply matches_star_dot.
Qed.

(** [\.(t|j)sx?$] matches the four route extensions, at the end of the
    input. *)
Lemma matches_scriptSuffix (b e : bool) (s : string) :
  Matches b e ROUTE_REGEX.scriptSuffix s <-> e = true /\ routeExtension s.
Proof.
  split.
  - unfold ROUTE_REGEX.scriptSuffix, Regex.Opt.
    intros (s1 & r1 & -> & ->%matches_chr & H)%matches_seq.
    apply matches_seq in H as (s2 & r2 & -> & H2%matches_alt & H).
    apply matches_seq in H as (s3 & r3 & -> & ->%matches_chr & H).
    apply matches_seq in H as (s4 & r4 & -> & H4%matches_alt & H).
    apply matches_eol in H as [-> ->]. split; [done|].
    unfold routeExtension.
    destruct H2 as [->%matches_chr| ->%matches_chr],
             H4 as [->%matches_chr| ->%matches_eps]; cbn; tauto.
  - intros [-> Hs]. apply matchesToEnd_spec.
    destruct Hs as [-> | [-> | [-> | ->]]]; by destruct b.
Qed.

(** ** The two route patterns *)

Lemma append_assoc_slash (p t : string) :
  (p +:+ "/") +:+ t = p +:+ String "/" t.
Proof. by rewrite append_assoc. Qed.

(** [(^|\/)]: the input starts here, or a slash is read. *)
Lemma matches_componentStart (before s : string) (e : bool) :
  Matches (Js.isEmpty before) e (Regex.Alt Regex.Bol (Regex.Chr "/")) s
  <-> (s = "" /\ before = "") \/ s = "/".
Proof.
  rewrite matches_alt, matches_bol, matches_chr, isEmpty_true. tauto.
Qed.

Lemma found_pages (relPath : string) :
  Found ROUTE_REGEX.pages relPath <-> pagesRouteFile relPath.
Proof.
  unfold Found, pagesRouteFile, ROUTE_REGEX.pages. split.
  - intros (before & piece & -> & H).
    apply matches_seq in H as (s0 & s & -> & H0 & H).
    apply matches_seq in H as (s1 & s' & -> & ->%matches_lit & H).
    apply matches_seq
      in H as (rest & ext & -> & [Hne Hrest]%matches_plus_dot & Hext).
    apply matches_scriptSuffix in Hext as [_ Hext].
    apply matches_componentStart in H0 as [[-> ->]| ->].
    + exists "", rest, ext. split_and!; try done. by left.
    + exists (before +:+ "/"), rest, ext. split_and!; try done.
      * by rewrite append_assoc_slash.
      * right. by exists before.
  - intros (before & rest & ext & -> & Hstart & Hne & Hrest & Hext).
    assert (forall b, Matches b true
                        (Regex.Seq (Regex.Lit "pages/")
                           (Regex.Seq (Regex.Plus Regex.Dot)
                              ROUTE_REGEX.scriptSuffix))
                        ("pages/" +:+ rest +:+ ext)) as Hrest'.
    { intros b. apply matches_seq. exists "pages/", (rest +:+ ext).
      split_and!; [done|by apply matches_lit|].
      apply matches_seq. exists rest, ext. split_and!; [done| |].
      - by apply matches_plus_dot.
      - by apply matches_scriptSuffix. }
    destruct Hstart as [-> | [p ->]].
    + exists "", ("pages/" +:+ rest +:+ ext). split; [done|].
      apply matches_seq. exists "", ("pages/" +:+ rest +:+ ext).
      split_and!; [done| |apply Hrest'].
      apply (matches_componentStart ""). by left.
    + exists p, ("/" +:+ "pages/" +:+ rest +:+ ext).
      split; [by rewrite append_assoc_slash|].
      apply matches_seq. exists "/", ("pages/" +:+ rest +:+ ext).
      split_and!; [done| |apply Hrest'].
      apply matches_componentStart. by right.
Qed.

Lemma componentStart_slash (p : string) : componentStart (p +:+ "/").
Proof. right. by exists p. Qed.

Lemma singleLine_append (s t : string) :
  singleLine (s +:+ t) <-> singleLine s /\ singleLine t.
Proof.
  induction s as [|c s IH].
  - change ("" +:+ t) with t. pose proof singleLine_nil. tauto.
  - rewrite append_cons, !singleLine_cons, IH. tauto.
Qed.

(** [(.*\/)?]: nothing, or directories that end with a slash. *)
Lemma matches_directories (b e : bool) (s : string) :
  Matches b e
    (Regex.Opt (Regex.Seq (Regex.Star Regex.Dot) (Regex.Chr "/"))) s
  <-> componentStart s /\ singleLine s.
Proof.
  unfold Regex.Opt. rewrite matches_alt, matches_eps, matches_seq. split.
  - intros [(d & slash & -> & Hd%matches_star_dot & ->%matches_chr)| ->].
    + split; [apply componentStart_slash|].
      apply singleLine_append. by split.
    + split; [by left|apply singleLine_nil].
  - intros [[-> | [d ->]] Hs]; [by right|]. left.
    apply singleLine_append in Hs as [Hd _].
    exists d, "/". split_and!; [done| |by apply matches_chr].
    by apply matches_star_dot.
Qed.

Lemma found_app (relPath : string) :
  Found ROUTE_REGEX.app relPath <-> appRouteFile relPath.
Proof.
  unfold Found, appRouteFile, ROUTE_REGEX.app. split.
  - intros (before & piece & -> & H).
    apply matches_seq in H as (s0 & s & -> & H0 & H).
    apply matches_seq in H as (s1 & s' & -> & ->%matches_lit & H).
    apply matches_seq
      in H as (dirs & s'' & -> & [Hstart Hdirs]%matches_directories & H).
    apply matches_seq in H as (name & ext & -> & Hname%matches_alt & Hext).
    apply matches_scriptSuffix in Hext as [_ Hext].
    assert (name = "page" \/ name = "route") as Hname'.
    { destruct Hname as [->%matches_lit| ->%matches_lit]; [by left|by right]. }
    apply matches_componentStart in H0 as [[-> ->]| ->].
    + exists "", dirs, name, ext. split_and!; try done. by left.
    + exists (before +:+ "/"), dirs, name, ext. split_and!; try done.
      * by rewrite append_assoc_slash.
      * right. by exists before.
  - intros (before & dirs & name & ext & -> & Hstart & Hdstart & Hdirs
            & Hname & Hext).
    assert (forall b, Matches b true
                        (Regex.Seq (Regex.Lit "app/")
                           (Regex.Seq
                              (Regex.Opt
                                 (Regex.Seq (Regex.Star Regex.Dot)
                                    (Regex.Chr "/")))
                              (Regex.Seq
                                 (Regex.Alt (Regex.Lit "page")
                                    (Regex.Lit "route"))
                                 ROUTE_REGEX.scriptSuffix)))
                        ("app/" +:+ dirs +:+ name +:+ ext)) as Hrest.
    { intros b. apply matches_seq. exists "app/", (dirs +:+ name +:+ ext).
      split_and!; [done|by apply matches_lit|].
      apply matches_seq. exists dirs, (name +:+ ext).
      split_and!; [done|by apply matches_directories|].
      apply matches_seq. exists name, ext. split_and!; [done| |].
      - apply matches_alt.
        destruct Hname as [-> | ->]; [left|right]; by apply matches_lit.
      - by apply matches_scriptSuffix. }
    destruct Hstart as [-> | [p ->]].
    + exists "", ("app/" +:+ dirs +:+ name +:+ ext). split; [done|].
      apply matches_seq. exists "", ("app/" +:+ dirs +:+ name +:+ ext).
      split_and!; [done| |apply Hrest].
      apply (matches_componentStart ""). by left.
    + exists p, ("/" +:+ "app/" +:+ dirs +:+ name +:+ ext).
      split; [by rewrite append_assoc_slash|].
      apply matches_seq. exists "/", ("app/" +:+ dirs +:+ name +:+ ext).
      split_and!; [done| |apply Hrest].
      apply matches_componentStart. by right.
Qed.

(** ** The tests on the path, its base name and its extension *)

Lemma includes_spec (s sub : string) :
  Js.includes s sub = true <-> exists a b, s = a +:+ sub +:+ b.
Proof.
  split; [|intros (a & b & ->); apply includes_append].
  induction s as [|c s IH]; cbn [Js.includes].
  - rewrite orb_false_r. intros [b Hb]%prefix_append_iff. by exists "", b.
  - intros [[b Hb]%prefix_append_iff|(a & b & ->)%IH]%orb_true_iff.
    + by exists "", b.
    + by exists (String c a), b.
Qed.

Lemma belowPages_spec (relPath : string) :
  Js.includes relPath "/pages/" || Js.startsWith relPath "pages/" = true
  <-> belowPages relPath.
Proof.
  unfold belowPages, Js.startsWith.
  rewrite orb_true_iff, includes_spec, prefix_append_iff. split.
  - intros [(a & b & ->)|(rest & ->)].
    + exists (a +:+ "/"), b. split; [|apply componentStart_slash].
      by rewrite append_assoc_slash.
    + exists "", rest. split; [done|by left].
  - intros (before & rest & -> & [-> | [p ->]]).
    + right. by exists rest.
    + left. exists p, rest. by rewrite append_assoc_slash.
Qed.

Lemma split_app_separator (c : ascii) (q t : string) :
  Js.split c (q +:+ String c t) = Js.split c q ++ Js.split c t.
Proof.
  induction q as [|a q IH].
  - change ("" +:+ String c t) with (String c t).
    cbn [Js.split]. by rewrite Ascii.eqb_refl.
  - rewrite append_cons. cbn [Js.split]. rewrite IH.
    pose proof (split_nonempty c q) as Hne.
    destruct (Ascii.eqb a c); [done|].
    by destruct (Js.split c q).
Qed.

(** The pieces of a run of slashes are empty. *)
Lemma split_slashes (tail : string) :
  allChars (Ascii.eqb "/") tail = true ->
  Forall (fun piece => piece = "") (Js.split "/" tail).
Proof.
  induction tail as [|c tail IH]; [by repeat constructor|].
  cbn [allChars]. intros [Hc Htail]%andb_true_iff.
  apply Ascii.eqb_eq in Hc as <-. cbn [Js.split].
  rewrite Ascii.eqb_refl. constructor; [done|by apply IH].
Qed.

Lemma split_base_tail (base tail : string) :
  freeOf "/" base = true ->
  allChars (Ascii.eqb "/") tail = true ->
  exists empties,
    Js.split "/" (base +:+ tail) = base :: empties
    /\ Forall (fun piece => piece = "") empties.
Proof.
  intros Hbase Htail.
  assert (Js.includes base "/" = false) as Hfree.
  { rewrite freeOf_slash in Hbase. by apply negb_true_iff. }
  destruct tail as [|c tail].
  - exists []. rewrite append_nil_r. split; [by apply split_no_slash|done].
  - cbn [allChars] in Htail. apply andb_true_iff in Htail as [Hc Htail].
    apply Ascii.eqb_eq in Hc as <-.
    exists (Js.split "/" tail).
    rewrite split_app_slash by done. split; [done|by apply split_slashes].
Qed.

Lemma dropTrailingEmpty_skips (empties : list string) (base : string)
  (rest : list string) :
  Forall (fun piece => piece = "") empties -> base <> "" ->
  Path.dropTrailingEmpty (empties ++ base :: rest) = base :: rest.
Proof.
  intros Hempties Hbase.
  induction Hempties as [|? empties -> _ IH]; [by destruct base|exact IH].
Qed.

Lemma dropTrailingEmpty_found (segsRev : list string) (base : string)
  (rest : list string) :
  Path.dropTrailingEmpty segsRev = base :: rest ->
  exists empties,
    segsRev = empties ++ base :: rest
    /\ Forall (fun piece => piece = "") empties /\ base <> "".
Proof.
  induction segsRev as [|s segsRev IH]; [done|].
  cbn [Path.dropTrailingEmpty]. destruct s as [|c s]; cbn [Js.isEmpty].
  - intros (empties & -> & Hempties & Hbase)%IH.
    exists ("" :: empties). split_and!; [done|by constructor|done].
  - intros [= <- <-]. by exists [].
Qed.

Lemma basename_lastComponent (relPath base : string) :
  lastComponent relPath base -> Path.basename relPath = base.
Proof.
  intros (dir & tail & -> & Hdir & Hne & Hfree & Htail).
  destruct (split_base_tail base tail Hfree Htail)
    as (empties & Hsplit & Hempties).
  unfold Path.basename, Path.segments.
  assert (exists before,
             Js.split "/" (dir +:+ base +:+ tail)
             = before ++ base :: empties) as [before ->].
  { destruct Hdir as [-> | [q ->]].
    - exists []. exact Hsplit.
    - exists (Js.split "/" q).
      by rewrite append_assoc_slash, split_app_separator, Hsplit. }
  rewrite rev_app_distr. cbn [rev]. rewrite <- app_assoc. cbn [app].
  rewrite dropTrailingEmpty_skips; [done| |done].
  by apply Forall_rev.
Qed.

Lemma join_empties (empties : list string) :
  Forall (fun piece => piece = "") empties ->
  allChars (Ascii.eqb "/") (Js.join "/" empties) = true.
Proof.
  induction 1 as [|? empties -> Hempties IH]; [done|].
  destruct empties as [|e empties]; [done|].
  rewrite join_cons by done. exact IH.
Qed.

Lemma lastComponent_basename (relPath : string) :
  Path.basename relPath <> "" ->
  lastComponent relPath (Path.basename relPath).
Proof.
  unfold Path.basename, Path.segments.
  destruct (Path.dropTrailingEmpty (rev (Js.split "/" relPath)))
    as [|base rest] eqn:Hdrop; [done|]. intros Hbase.
  apply dropTrailingEmpty_found in Hdrop as (empties & Hrev & Hempties & _).
  assert (Js.split "/" relPath = rev rest ++ base :: rev empties) as Hsplit.
  { rewrite <- (rev_involutive (Js.split "/" relPath)), Hrev.
    rewrite rev_app_distr. cbn [rev]. by rewrite <- app_assoc. }
  assert (freeOf "/" base = true) as Hfree.
  { rewrite freeOf_slash. apply negb_true_iff.
    apply (split_parts_free relPath). rewrite Hsplit.
    apply elem_of_app. right. apply list_elem_of_here. }
  apply Forall_rev in Hempties.
  assert (exists tail,
             Js.join "/" (base :: rev empties) = base +:+ tail
             /\ allChars (Ascii.eqb "/") tail = true) as (tail & Htail & Hall).
  { destruct (rev empties) as [|e empties'] eqn:He.
    - exists "". by rewrite append_nil_r.
    - exists (String "/" (Js.join "/" (e :: empties'))).
      rewrite join_cons by done. split; [done|].
      cbn [allChars Ascii.eqb]. by apply join_empties. }
  rewrite <- (join_split "/" relPath), Hsplit.
  destruct (rev rest) as [|d dirs] eqn:Hdirs.
  - exists "", tail. cbn [app].
    split_and!; [by rewrite Htail|by left|done..].
  - exists (Js.join "/" (d :: dirs) +:+ "/"), tail.
    split_and!; [|apply componentStart_slash|done..].
    rewrite join_app by done. by rewrite Htail, append_assoc_slash.
Qed.

Lemma underscoreNamed_spec (relPath : string) :
  Js.startsWith (Path.basename relPath) "_" = true
  <-> underscoreNamed relPath.
Proof.
  unfold underscoreNamed, Js.startsWith. split.
  - intros [name Hname]%prefix_append_iff. exists name.
    change (String "_" name) with ("_" +:+ name). rewrite <- Hname.
    apply lastComponent_basename. by rewrite Hname.
  - intros [name ->%basename_lastComponent].
    apply (prefix_append "_" name).
Qed.

Lemma lastIndexOf_append (c : ascii) (stem rest : string) :
  freeOf c rest = true ->
  Js.lastIndexOf c (stem +:+ String c rest) = Some (String.length stem).
Proof.
  intros Hrest.
  assert (Js.lastIndexOf c (String c rest) = Some 0) as Hlast.
  { cbn [Js.lastIndexOf]. apply lastIndexOf_none in Hrest as ->.
    by rewrite Ascii.eqb_refl. }
  induction stem as [|a stem IH]; [exact Hlast|].
  rewrite append_cons. cbn [Js.lastIndexOf String.length]. by rewrite IH.
Qed.

Lemma take_nonempty (i : nat) (s : string) :
  s <> "" -> Js.take (S i) s <> "".
Proof. by destruct s. Qed.

Lemma styleNamed_spec (relPath : string) :
  Js.has STYLE_EXTENSIONS (Path.extname relPath) = true
  <-> styleNamed relPath.
Proof.
  unfold styleNamed. split.
  - unfold Path.extname.
    destruct (Js.lastIndexOf "." (Path.basename relPath)) as [[|i]|] eqn:Hlast;
      [done| |done].
    destruct (String.eqb (Path.basename relPath) ".."); [done|].
    intros Hext%has_true_iff.
    assert (Path.basename relPath <> "") as Hbase.
    { intros Hnil. by rewrite Hnil in Hlast. }
    exists (Js.take (S i) (Path.basename relPath)),
           (Js.drop (S i) (Path.basename relPath)).
    split_and!.
    + by apply take_nonempty.
    + unfold styleExtension, STYLE_EXTENSIONS in *.
      rewrite !elem_of_cons, elem_of_nil in Hext. tauto.
    + rewrite take_drop. by apply lastComponent_basename.
  - intros (stem & ext & Hstem & Hext & Hlast%basename_lastComponent).
    apply has_true_iff.
    unfold Path.extname. rewrite Hlast.
    assert (exists rest, ext = String "." rest /\ freeOf "." rest = true)
      as (rest & -> & Hrest).
    { destruct Hext as [-> | [-> | ->]]; by eexists. }
    rewrite lastIndexOf_append by done.
    destruct stem as [|a stem]; [done|]. cbn [String.length].
    assert (String.eqb (String a stem +:+ String "." rest) ".." = false)
      as ->.
    { apply String.eqb_neq. intros Heq.
      apply (f_equal String.length) in Heq.
      rewrite length_append in Heq. cbn [String.length] in Heq.
      destruct Hext as [[= ->] | [[= ->] | [= ->]]];
        cbn [String.length] in Heq; lia. }
    change (S (String.length stem)) with (String.length (String a stem)).
    rewrite <- (Nat.add_0_r (String.length (String a stem))).
    rewrite drop_append. cbn [Js.drop].
    unfold STYLE_EXTENSIONS. rewrite !elem_of_cons.
    unfold styleExtension in Hext. tauto.
Qed.

(** ** The type of a path *)

Lemma reflect_false (b : bool) (P : Prop) :
  (b = true <-> P) -> (b = false <-> ~ P).
Proof. destruct b; intuition congruence. Qed.

Lemma routeShaped_spec (relPath : string) :
  routeShaped relPath = true
  <-> appRouteFile relPath \/ pagesRouteFile relPath.
Proof.
  unfold routeShaped.
  by rewrite orb_true_iff, !test_spec, found_app, found_pages.
Qed.

Lemma underscoredInPages_spec (relPath : string) :
  underscoredInPages relPath = true
  <-> belowPages relPath /\ underscoreNamed relPath.
Proof.
  unfold underscoredInPages.
  by rewrite andb_true_iff, belowPages_spec, underscoreNamed_spec.
Qed.

(** The type of a path other than the sentinel id, by the shape of the
    path. *)
Lemma nodeTypeFromPath_shapes (relPath : string) :
  relPath <> "__external__" ->
  let routeShape := appRouteFile relPath \/ pagesRouteFile relPath in
  let underscored := belowPages relPath /\ underscoreNamed relPath in
  (nodeTypeFromPath relPath = NodeType.route
     <-> routeShape /\ ~ underscored)
  /\ (nodeTypeFromPath relPath = NodeType.style
     <-> ~ routeShape /\ styleNamed relPath)
  /\ (nodeTypeFromPath relPath = NodeType.module
     <-> (routeShape /\ underscored)
         \/ (~ routeShape /\ ~ styleNamed relPath)).
Proof.
  intros Hne routeShape underscored.
  destruct (nodeTypeFromPath_cases relPath Hne) as (Hr & Hs & Hm & _).
  pose proof (routeShaped_spec relPath) as Hroute.
  pose proof (underscoredInPages_spec relPath) as Hunder.
  pose proof (styleNamed_spec relPath) as Hstyle.
  fold (styleFile relPath) in Hstyle.
  pose proof (reflect_false _ _ Hroute) as Hroute'.
  pose proof (reflect_false _ _ Hunder) as Hunder'.
  pose proof (reflect_false _ _ Hstyle) as Hstyle'.
  fold routeShape in Hroute, Hroute'. fold underscored in Hunder, Hunder'.
  rewrite Hr, Hs, Hm, Hroute, Hroute', Hunder, Hunder', Hstyle, Hstyle'.
  tauto.
Qed.

(** Claim C9, at the input that refutes it: an underscore-prefixed file of a
    pages directory is typed [module], not [route], while an ordinary file
    of a pages directory and a page file deep below an app directory are
    typed [route]. *)
Lemma underscored_pages_file_is_module :
  underscoredInPages "pages/_app.tsx" = true
  /\ nodeTypeFromPath "pages/_app.tsx" = NodeType.module
  /\ nodeTypeFromPath "pages/index.tsx" = NodeType.route
  /\ nodeTypeFromPath "src/app/shop/cart/page.tsx" = NodeType.route
  /\ exists graph,
       Demo.scan Demo.pagesTree (Demo.options "/repo" 5000 false None)
       = inr graph
       /\ map (fun n => (GraphNode.id n, GraphNode.type n))
            (GraphData.nodes graph)
          = [("pages/_app.tsx", NodeType.module);
             ("pages/index.tsx", NodeType.route)].
Proof.
  split_and!; try by vm_compute.
  eexists. split; by vm_compute.
Qed.

(** The route patterns accept four extensions only: a module script of a
    pages directory is typed [module], and so is a style sheet whose name
    is its extension. *)
Lemma files_outside_the_shapes :
  nodeTypeFromPath "pages/a.mjs" = NodeType.module
  /\ nodeTypeFromPath "app/page.cjs" = NodeType.module
  /\ nodeTypeFromPath "styles/.css" = NodeType.module
  /\ nodeTypeFromPath "styles/a.css" = NodeType.style
  /\ nodeTypeFromPath "pages/.ts" = NodeType.module.
Proof. by split_and!; vm_compute. Qed.

(** Claim C9, amended: in every returned graph, a node that is not a symbol
    node and whose id is not the sentinel id has its path as id, and its
    type follows from the shape of the path.  The path has a route shape
    when it is [page] or [route] followed by [.ts], [.tsx], [.js] or
    [.jsx], in a directory named [app] or at any depth below one, or when
    it goes through a directory named [pages] and, after at least one more
    character, ends with one of these four extensions (in both cases
    without a line break behind the directory).  It is underscored when it
    goes through a directory named [pages] and its last component starts
    with an underscore.  The node is typed [route] exactly when the path
    has a route shape and is not underscored; [style] exactly when it has
    no route shape and its last component is a name, not empty, followed
    by [.css], [.scss] or [.sass]; and [module] in every other case, which
    includes the underscored paths of a route shape. *)
Theorem scanned_file_typing (parse : string -> option Ast.Node)
  (traverseError : Ast.Node -> option string)
  (ignores : list string -> string -> string + bool)
  (hashId : string -> string) (formatNumber : Z -> positive -> string)
  (fs : FsNode) (cwd : string) (options : ScanOptions)
  (graph : GraphData.t) (n : GraphNode.t) :
  scanProject parse traverseError ignores hashId formatNumber fs cwd options
  = inr graph ->
  n ∈ GraphData.nodes graph ->
  GraphNode.type n <> NodeType.symbol ->
  GraphNode.id n <> "__external__" ->
  let relPath := GraphNode.path n in
  let routeShape := appRouteFile relPath \/ pagesRouteFile relPath in
  let underscored := belowPages relPath /\ underscoreNamed relPath in
  relPath = GraphNode.id n
  /\ (GraphNode.type n = NodeType.route <-> routeShape /\ ~ underscored)
  /\ (GraphNode.type n = NodeType.style
      <-> ~ routeShape /\ styleNamed relPath)
  /\ (GraphNode.type n = NodeType.module
      <-> (routeShape /\ underscored)
          \/ (~ routeShape /\ ~ styleNamed relPath)).
Proof.
  intros Hscan Hn Hsymbol Hid relPath. subst relPath.
  destruct (scanProject_nodesTyped parse traverseError ignores hashId
              formatNumber fs cwd options graph n Hscan Hn)
    as [(relPath & ignored & ->) | [(r & s & ->) | ->]];
    [|done|done].
  cbn [GraphNode.path GraphNode.id GraphNode.type fileNode] in *.
  split; [done|]. by apply nodeTypeFromPath_shapes.
Qed.

Lemma scanned_file_typing_witness :
  let n := fileNode "pages/index.tsx" None in
  exists graph,
    Demo.scan Demo.pagesTree (Demo.options "/repo" 5000 false None) = inr graph
    /\ n ∈ GraphData.nodes graph
    /\ (appRouteFile "pages/index.tsx" \/ pagesRouteFile "pages/index.tsx")
    /\ ~ (belowPages "pages/index.tsx" /\ underscoreNamed "pages/index.tsx").
Proof.
  intros n.
  assert (exists graph,
            Demo.scan Demo.pagesTree (Demo.options "/repo" 5000 false None)
            = inr graph
            /\ n ∈ GraphData.nodes graph) as (graph & Hscan & Hn).
  { eexists. split; [by vm_compute|].
    apply list_elem_of_In. right. left. reflexivity. }
  exists graph. split; [exact Hscan|]. split; [exact Hn|].
  destruct (scanned_file_typing Demo.parse Demo.traverseError Demo.ignores
              Demo.hashId Demo.formatNumber Demo.pagesTree "/"
              (Demo.options "/repo" 5000 false None) graph n Hscan Hn)
    as (_ & Hroute & _).
  - by vm_compute.
  - by vm_compute.
  - by apply Hroute.
Defined.
